(* ===== verification/_CoqProject ===== *)
-Q . S2P
Prelude.v
Bytes.v
EtherFcs.v
Checksum.v
IpHeader.v
QueueR.v
RBTree.v
RBShape.v
RBInsert.v
RBRemove.v
RBIter.v
RBIndex.v
RBMap.v
Rib.v
Socket.v
Udp.v
Tcp.v
Icmp.v
IpDefer.v
Ether.v
Arp.v
Fragment.v
World.v
Output.v
IpFragments.v
Config.v
Keeps.v
IpSend.v
Input.v
IpInput.v
FragInput.v
ArpInput.v
Stack.v
Egress.v
Safety.v
System.v
Lifecycle.v
Types.v
Typed.v
FragTable.v
FragStack.v
EtherInit.v
Shm.v
Signals.v
Text.v
Dyndebug.v
BsdQueue.v
BsdLists.v
BsdOps.v
BsdRefine.v
RibFree.v
RBWalk.v
Splay.v
SplayTree.v
SplaySpec.v
SplayMap.v
Main.v
QueueTso.v
Unetcat.v
LinkerSet.v
