(* ===== verification/Prelude.v ===== *)
(** * A verified model of the xstack.io user-space IP stack

    xstack.io is an IP stack in C that runs as a process on a packet socket: an
    ingress thread receives Ethernet frames and answers ARP, ICMP echo and TCP,
    or puts UDP datagrams into memory shared with the applications; an egress
    thread takes datagrams from that memory and sends them.  This library
    translates the stack into executable definitions and proves what it does,
    including where that is not what it means to do.

    ** The parts, from the bottom up

    - [Prelude], [Bytes]: outcomes of C code ([Done], [Fault] for undefined
      behaviour that is tracked, [Spin] for a loop or wait that does not end),
      machine integers, byte order, buffers with checked accesses.
    - [EtherFcs] ([src/ether_fcs.c]), [Checksum] ([ip_checksum] of [src/ip.c],
      [tcp_checksum] of [src/tcp.c]), [IpHeader] ([src/xstack_ip.h],
      [ip_hton], [ip_ntoh], [ip_reply_header]): frames, sums and headers.
      [Text]: [ip2str] of [util/ip_util.c]; [Dyndebug]: [src/dyndebug.c] and the
      messages of [src/logger.h].
    - [QueueR] ([util/queue_r.c]): the ring in shared memory; its operations, and
      the use by one producer and one consumer as a step relation.  [QueueTso]:
      the same use on processors that buffer their stores.
    - [RBTree] ([src/tree.h]): the red-black tree macros over a heap of nodes
      with parent links.  [RBShape], [RBInsert], [RBRemove], [RBIter] have the
      shape invariant and what each macro does to it; [RBIndex] states the class
      [OrderedIndex] the clients are proved against, with its instance, [RBMap]
      the tree as a finite map, [RBWalk] the traversals that nothing calls.
    - [Splay]: the splay tree macros of the same header, over a heap of links.
      [SplayTree] has the shape of a heap and the steps of the splay loop,
      [SplaySpec] the same operations on trees, [SplayMap] the finite map.
    - [BsdQueue] ([src/queue.h]): the lists and queues, over a memory of link
      fields; [BsdLists] has their shapes, [BsdOps] what each macro does,
      [BsdRefine] the refinement of lists.  [RibFree] links the free list of
      the routing table to it.
    - Clients of the trees: [Rib] ([src/ip_route.c], two trees over one array),
      [Udp] ([src/udp.c], with [Socket] for the shared memory of [src/xstack.c] and
      [lib/xstack.c]), [Tcp] ([src/tcp.c]), [Arp] ([src/arp.c]), [Fragment]
      ([src/ip_fragment.c]), [FragTable] (all packets under reassembly).
    - [Icmp] ([src/icmp.c]), [IpDefer] ([src/ip_defer.c]), [Ether] (frames of
      [src/linux/linux_ether.c]), [EtherInit] (its system calls).
    - [Shm] ([include/xstack_socket.h]): the layout of the shared memory, and the
      operations of [Socket] on its bytes; [Signals]: the signals between the
      two processes, and the time [xstack_recvfrom] waits.
    - [World]: the state of the two paths as one record, a state monad over
      it, and the class [Kernel], the answer of [sendto] on the packet socket;
      [ReliableKernel] says that it takes every frame.
    - [Output] ([ip_send], [ip_send_fragments], [ip_config] of [src/ip.c],
      [arp_request] and its callers, [ether_send], [ip_defer_handler],
      [xstack_udp_send]) and [Input] ([ip_input], [ip_fragment_input], [arp_input],
      [ether_input], [ether_output_reply], [ether_receive]): the two paths,
      composed the way the code composes them.
    - [Stack] ([src/xstack.c]): rounds of the two threads, timer, periodic tasks,
      [xstack_init]; [Lifecycle]: [xstack_start], [xstack_stop] and the threads as
      a state machine, in any interleaving, with the wait of the ingress thread for
      a reader; [Main]: [main] as a whole, with
      [EtherInit], [Dyndebug], [Stack] and [Lifecycle] as its parts, and
      [xstack_listen].
    - [LinkerSet] ([include/linker_set.h]): the section in which the object files
      register handlers and tasks, and the loops over it; [Input] and [Stack] have
      these sets as lists.  [Unetcat] ([examples/unetcat.c]): an application, on
      top of the whole stack.

    The theorems about compositions are in [IpFragments], [Config], [IpSend],
    [IpInput], [FragInput], [FragStack], [ArpInput], [Egress], [Safety], [System],
    [Types], [Typed], with [Keeps] for the parts of the state a function leaves
    alone.

    ** What the theorems show

    - Data structures: the red-black and the splay macros implement a finite map,
      the former with logarithmic search, and keep their invariant; the list
      macros refine lists, for all four kinds; the ring is a FIFO, without loss,
      race or deadlock between one producer and one consumer, also with the store
      buffers of x86 ([tso_fifo]; without the order they keep,
      [reordered_stores_lose]); the CRC is the IEEE
      802.3 one; the checksum is that of RFC 1071.
    - Components refine a specification: the routing table a table of routes,
      the UDP sockets a list of bound addresses with a FIFO each, the deferred
      packets a FIFO, the TCP connections a state diagram, the reassembly a table
      of packets, alone and through the whole input path, the bytes of the shared
      memory the sockets; headers and frames have round trips.
    - Paths: for frames on the wire, what is answered, delivered or dropped, byte
      for byte (ping, UDP, TCP, unreachable hosts, ports and protocols, ARP);
      for [ip_send] every branch; fragmentation and reassembly are inverse; the
      fragments of a datagram reach the socket; a datagram whose size is in the
      egress queue leaves as one valid frame.
    - The stack: [boot_correct]: the state [main] leaves to the threads, component by
      component; it satisfies an invariant, [stack_up], that every
      well-formed frame and every periodic task keep; [system_safe]: whatever
      sequence of frames, ticks, egress rounds and calls of the applications
      follows the start, within the conditions below, the invariant holds and no
      turn faults; [turn_refines]: each turn does to the queues of the sockets what a
      model of the demultiplexer does, so that [unetcat_prints]: an application prints
      the datagrams that were on the wire, in their order; [stack_well_typed]: every
      field of the state stays in the range of its C type and every buffer keeps its
      size, whatever arrives; the handler of deferred packets terminates; so does
      [xstack_stop], unless the ingress thread waits for a block of a full queue, and
      then not before somebody reads ([stop_terminates]); [main_correct]: how the
      program ends, from the command line on, whatever the kernel replies to its calls.
    - The surroundings: the order in which the linker puts the files together
      makes no difference ([link_order_irrelevant]), which sockets are open after [ether_init] and
      [ether_deinit], who survives the signals, that no datagram is forgotten.
    - Where the code does something else than it means to, the theorem states
      what it does ([sendto_never_transmitted], [arp_cache_remembers_last],
      [ip_defer_handler_flushes], [fragments_delivered], [signals_kill_stack],
      [main_correct] for a thread that cannot be created, [ip_send_correct] for
      1481 to 1500 bytes, [stop_terminates] for a full queue), or a lemma on a concrete input shows it (the last
      lemmas of [Rib], [Tcp], [Icmp], [Socket], [Shm], [Fragment], [EtherInit],
      [Dyndebug], [Safety], and [Arp.own_address_taken], [Arp.expired_hosts_lost]).

    ** Conditions of the theorems about the running stack

    These are hypotheses because the code does not see to them and goes wrong
    without them; the named lemmas show how.
    - Frames come from another address than the own one, in ARP messages and in IP
      packets: [Arp.own_address_taken].
    - IP packets that are not dropped have no options ([Safety.options_overrun_faults])
      and, for [stack_up], are not fragments; for fragments there are
      [frag_table_refined] and [stack_reassembles], whose senders cut datagrams of at
      most 16384 bytes into fragments of multiples of 8 bytes and do not use an
      identification again while its packet is incomplete.
    - An application sends at most 4072 bytes per call ([Socket.sendto_overruns_slot]),
      and a UDP packet that comes in has at most 4072 bytes of data, which a packet in
      one frame always satisfies ([Shm.ingress_overruns_egress_queue]).
    - The [delta_time]s given to the periodic tasks add up to twenty hours at most when
      another turn follows ([Arp.expired_hosts_lost]).  The first of them is the uptime
      of the host ([Stack.first_delta_is_uptime]).
    - The packet socket takes every frame ([ReliableKernel]), where a theorem says so.
    [stack_well_typed] needs none of these; it is about the turns that return, and an
    age of the ARP cache plus a [delta_time] must fit in an [int].

    ** Bounds and fuel

    Integers are [Z] with the wrap-around of their C type written out ([u16],
    [u32], [u64], [s32]); addresses are in host order, [le_bytes] is the memory
    of the little endian machine the code is built for.  The loops over a tree
    have one step per node and one to stop ([fuel_of]), enough by the shape
    invariant; the loops of the splay macros, of the lists and of the linker
    sets have one step per element and one to stop.
    [ip_send_fragments] has one step per byte and one more, [ip_defer_handler] 21
    for a ring that holds at most 19 packets; [ip_input] has depth 2, because a
    reassembled packet is not a fragment; [pthread_join] of a thread that is told
    to stop takes at most 3 steps.  The theorems about these functions
    conclude [Done], so the fuel is enough where they apply.  A busy wait of
    the code (a full or an empty queue) is [Spin].

    ** Not modelled

    - Interleavings inside a round: each round of a thread is one step, so the
      races between the ingress and the egress thread on the ARP cache, the ring
      of deferred packets and the IP identification are outside of the model;
      the ring queue, which is made for it, has its own models.  A model of these
      races would have to fix how a compiler turns the code into accesses of
      memory, since the variables are plain ones.
    - A failing [calloc] in [src/tcp.c]: every connection gets its memory.
    - The kernel: the packet socket is the class [Kernel] and a list of received
      frames, the calls of [ether_init] the class [Linux], [open], [mmap] and
      [pthread_create] the class [Host], the clock an argument.
    - The calls of [LOG] in the handlers, among them the read of TCP option bytes
      in one of them, and the texts [main] prints.
    - The macros [QMD_LIST_CHECK_HEAD] and so on that [src/queue.h] calls and no file of the
      repository defines are a parameter of [BsdQueue]; the list that [src/tcp.c]
      declares for its segments, which nothing uses.
    - [src/test/perf/udp.c], which uses the sockets of the host, the script for the
      debugger and the build files.
    - [ip_fragment_timer] is a definition, though no task calls it. *)

From stdpp Require Export base tactics numbers list gmap sorting.
From Stdlib Require Export ZArith Lia.

#[export] Set Default Goal Selector "!".

#[global] Coercion Z.of_nat : nat >-> Z.

(** ** Outcomes of C code

    [Done a]: the code returns [a].  [Fault]: the code executes undefined
    behaviour that the model tracks (a NULL or wild pointer dereference, an
    access outside a buffer, a division by zero).  [Spin]: a loop of the model
    ran out of fuel; a theorem that a loop terminates shows that [Spin] is not
    the result. *)
Inductive outcome (A : Type) : Type :=
| Done (a : A)
| Fault
| Spin.

Arguments Done {A} a.
Arguments Fault {A}.
Arguments Spin {A}.

#[export] Instance outcome_ret : MRet outcome := fun A a => Done a.

#[export] Instance outcome_bind : MBind outcome :=
  fun A B f m =>
    match m with
    | Done a => f a
    | Fault => Fault
    | Spin => Spin
    end.

#[export] Instance outcome_fmap : FMap outcome :=
  fun A B f m =>
    match m with
    | Done a => Done (f a)
    | Fault => Fault
    | Spin => Spin
    end.

(** An assertion of the model: anything else than [b] is undefined behaviour. *)
Definition require (b : bool) : outcome unit := if b then Done tt else Fault.

(** A value that must be there, for instance a pointer that is dereferenced. *)
Definition deref {A : Type} (o : option A) : outcome A :=
  match o with
  | Some a => Done a
  | None => Fault
  end.

Definition is_done {A : Type} (o : outcome A) : bool :=
  match o with
  | Done _ => true
  | _ => false
  end.

Section outcome_lemmas.
Context {A B : Type}.
Implicit Types (m : outcome A) (f : A → outcome B).

Lemma bind_done (a : A) f : (Done a ≫= f) = f a.
Proof. done. Qed.

Lemma done_inj (a a' : A) : Done a = Done a' → a = a'.
Proof. by intros [=]. Qed.

Lemma bind_done_inv m f (b : B) :
  m ≫= f = Done b → ∃ a, m = Done a ∧ f a = Done b.
Proof. destruct m; naive_solver. Qed.

Lemma require_done_inv (b : bool) : require b = Done tt → b = true.
Proof. by destruct b. Qed.

Lemma deref_done_inv (o : option A) (a : A) : deref o = Done a → o = Some a.
Proof. destruct o; naive_solver. Qed.
End outcome_lemmas.

Lemma require_true (b : bool) : b = true → require b = Done tt.
Proof. by intros ->. Qed.

Lemma require_decide_true (P : Prop) `{Decision P} :
  P → require (bool_decide P) = Done tt.
Proof. intros HP. apply require_true. by apply bool_decide_eq_true. Qed.

(** ** The tactics of the development *)

(** Split a hypothesis that says that a monadic sequence returned. *)
Ltac inv_done :=
  repeat match goal with
  | H : (_ ≫= _) = Done _ |- _ =>
      let a := fresh "a" in let Ha := fresh "Ha" in
      apply bind_done_inv in H as (a & Ha & H)
  | H : Done _ = Done _ |- _ => apply done_inj in H; subst
  | H : Fault = Done _ |- _ => discriminate H
  | H : Spin = Done _ |- _ => discriminate H
  | H : mret _ = Done _ |- _ => unfold mret, outcome_ret in H
  | H : require _ = Done ?u |- _ => destruct u; apply require_done_inv in H
  | H : deref _ = Done _ |- _ => apply deref_done_inv in H
  end.

(** Linear arithmetic with quotients and remainders. *)
Ltac dlia := Z.div_mod_to_equations; lia.

(** Case analysis on every boolean test of the goal, turning it into the
    proposition it decides. *)
Ltac case_tests :=
  repeat match goal with
  | |- context [bool_decide ?P] => destruct (bool_decide_reflect P)
  | |- context [decide ?P] => destruct (decide P)
  end.

(** ** Lists *)
Section list_lemmas.
Context {A : Type}.
Implicit Types (l k : list A).

Lemma take_app_exact (n : nat) l k : length l = n → take n (l ++ k) = l.
Proof. intros <-. by rewrite take_app_length. Qed.

Lemma drop_app_exact (n : nat) l k : length l = n → drop n (l ++ k) = k.
Proof. intros <-. by rewrite drop_app_length. Qed.

Lemma take_drop_split (n m : nat) l :
  take (n + m) l = take n l ++ take m (drop n l).
Proof. by rewrite take_take_drop. Qed.

Lemma find_ext_in (f g : A → bool) l : (∀ x, x ∈ l → f x = g x) → List.find f l = List.find g l.
Proof.
  induction l as [|x l IH]; intros H; [done|]. simpl. rewrite H by left.
  destruct (g x); [done|]. apply IH. intros y Hy. apply H. by right.
Qed.
End list_lemmas.

(** ** Error numbers of [errno.h] that the program uses (Linux values) *)
Definition ENOENT : Z := 2.
Definition EAGAIN : Z := 11.
Definition ENOMEM : Z := 12.
Definition ENODEV : Z := 19.
Definition EINVAL : Z := 22.
Definition ENOMSG : Z := 42.
Definition EBADMSG : Z := 74.
Definition ENOTSOCK : Z := 88.
Definition EMSGSIZE : Z := 90.
Definition EPROTOTYPE : Z := 91.
Definition EPROTONOSUPPORT : Z := 93.
Definition ENOTSUP : Z := 95.
Definition EADDRINUSE : Z := 98.
Definition ENOBUFS : Z := 105.
Definition EHOSTUNREACH : Z := 113.
Definition EALREADY : Z := 114.
Definition EINPROGRESS : Z := 115.
