(* ===== verification/Bytes.v ===== *)
(** * Machine integers, byte order and byte buffers

    The target is the one the Makefile builds for: a little-endian LP64 Linux
    host.  Unsigned C integers are [Z] with their wrap-around written out,
    memory is a list of bytes ([Z] between 0 and 255), an access outside a
    buffer is [Fault].  [htons], [ntohs], [htonl], [ntohl], [memcmp] are the C
    library functions the program calls. *)

From S2P Require Import Prelude.

#[local] Open Scope Z_scope.

(** ** Fixed width integers *)
Definition u8 (z : Z) : Z := z mod 2 ^ 8.
Definition u16 (z : Z) : Z := z mod 2 ^ 16.
Definition u32 (z : Z) : Z := z mod 2 ^ 32.
Definition u64 (z : Z) : Z := z mod 2 ^ 64.

(** Conversion of an unsigned value to [int] (two's complement, 32 bits). *)
Definition s32 (z : Z) : Z :=
  let u := u32 z in if bool_decide (u < 2 ^ 31) then u else u - 2 ^ 32.

Definition is_byte (z : Z) : Prop := 0 <= z < 256.

Abbreviation bytes := (Forall is_byte).

#[export] Instance is_byte_dec z : Decision (is_byte z).
Proof. unfold is_byte. apply _. Defined.

(** ** Little-endian memory representation *)
Fixpoint le_bytes (n : nat) (z : Z) : list Z :=
  match n with
  | O => []
  | S n => z mod 256 :: le_bytes n (z / 256)
  end.

Fixpoint le_val (bs : list Z) : Z :=
  match bs with
  | [] => 0
  | b :: bs => b + 256 * le_val bs
  end.

(** Big-endian (network order) value of a byte sequence. *)
Definition be_val (bs : list Z) : Z := le_val (rev bs).

(** ** Byte order conversion of the C library on a little-endian host *)
Definition htons (x : Z) : Z := be_val (le_bytes 2 x).
Definition ntohs (x : Z) : Z := be_val (le_bytes 2 x).
Definition htonl (x : Z) : Z := be_val (le_bytes 4 x).
Definition ntohl (x : Z) : Z := be_val (le_bytes 4 x).

(** ** Byte buffers *)
Definition mem_read (off n : nat) (m : list Z) : outcome (list Z) :=
  if bool_decide (off + n <= length m)%nat
  then Done (take n (drop off m)) else Fault.

Definition mem_write (off : nat) (bs m : list Z) : outcome (list Z) :=
  if bool_decide (off + length bs <= length m)%nat
  then Done (take off m ++ bs ++ drop (off + length bs) m) else Fault.

(** [memcmp]: the difference of the first two bytes that differ. *)
Fixpoint memcmp (a b : list Z) : Z :=
  match a, b with
  | x :: a, y :: b => if bool_decide (x = y) then memcmp a b else x - y
  | _, _ => 0
  end.

(** ** Lemmas *)

Lemma le_bytes_length n z : length (le_bytes n z) = n.
Proof. revert z. induction n; simpl; auto. Qed.

Lemma le_bytes_bytes n z : bytes (le_bytes n z).
Proof.
  revert z. induction n; simpl; intros z; constructor; auto.
  unfold is_byte. apply Z.mod_pos_bound. lia.
Qed.

Lemma le_val_bound bs : bytes bs → 0 <= le_val bs < 2 ^ (8 * length bs).
Proof.
  induction 1 as [|b bs Hb Hbs IH]; [done|].
  cbn [le_val length]. unfold is_byte in Hb.
  replace (2 ^ (8 * S (length bs))) with (256 * 2 ^ (8 * length bs)); [lia|].
  replace (8 * S (length bs)) with (8 + 8 * length bs) by lia.
  rewrite Z.pow_add_r by lia. done.
Qed.

Lemma le_val_le_bytes n z : le_val (le_bytes n z) = z mod 2 ^ (8 * n).
Proof.
  revert z. induction n as [|n IH]; intros z.
  { simpl. by rewrite Z.mod_1_r. }
  cbn [le_bytes le_val]. rewrite IH.
  replace (8 * S n) with (8 + 8 * n) by lia.
  rewrite Z.pow_add_r by lia. change (2 ^ 8) with 256.
  rewrite Z.rem_mul_r by lia. done.
Qed.

Lemma le_bytes_le_val bs : bytes bs → le_bytes (length bs) (le_val bs) = bs.
Proof.
  induction 1 as [|b bs Hb Hbs IH]; [done|].
  cbn [le_val length le_bytes]. unfold is_byte in Hb.
  replace ((b + 256 * le_val bs) / 256) with (le_val bs) by dlia.
  rewrite IH. f_equal. dlia.
Qed.

Lemma le_val_app a b : le_val (a ++ b) = le_val a + 2 ^ (8 * length a) * le_val b.
Proof.
  induction a as [|x a IH]; [change (2 ^ (8 * length [])) with 1; simpl; lia|].
  cbn [app le_val length]. rewrite IH.
  replace (8 * S (length a)) with (8 + 8 * length a) by lia.
  rewrite Z.pow_add_r by lia. change (2 ^ 8) with 256. lia.
Qed.

Lemma le_bytes_mod n z : le_bytes n (z mod 2 ^ (8 * n)) = le_bytes n z.
Proof.
  rewrite <-le_val_le_bytes.
  replace n with (length (le_bytes n z)) at 1 by apply le_bytes_length.
  apply le_bytes_le_val, le_bytes_bytes.
Qed.

Lemma bytes_rev bs : bytes bs → bytes (rev bs).
Proof. intros H. by apply Forall_rev. Qed.

Lemma le_bytes_be_val bs : bytes bs → le_bytes (length bs) (be_val bs) = rev bs.
Proof.
  intros H. unfold be_val. rewrite <-(length_rev bs).
  by apply le_bytes_le_val, bytes_rev.
Qed.

Lemma be_val_bound (n : nat) z : 0 <= be_val (le_bytes n z) < 2 ^ (8 * n).
Proof.
  unfold be_val.
  pose proof (le_val_bound _ (bytes_rev _ (le_bytes_bytes n z))) as H.
  by rewrite length_rev, le_bytes_length in H.
Qed.

Lemma le_bytes_be_swap n z : le_bytes n (be_val (le_bytes n z)) = rev (le_bytes n z).
Proof.
  rewrite <-(le_bytes_length n z) at 1. apply le_bytes_be_val, le_bytes_bytes.
Qed.

Lemma be_swap_involutive (n : nat) z :
  0 <= z < 2 ^ (8 * n) → be_val (le_bytes n (be_val (le_bytes n z))) = z.
Proof.
  intros Hz. unfold be_val at 1. rewrite le_bytes_be_swap, rev_involutive.
  rewrite le_val_le_bytes. by apply Z.mod_small.
Qed.

Lemma htons_range x : 0 <= htons x < 65536.
Proof. apply (be_val_bound 2 x). Qed.

Lemma htonl_range x : 0 <= htonl x < 4294967296.
Proof. apply (be_val_bound 4 x). Qed.

Lemma ntohs_htons x : 0 <= x < 65536 → ntohs (htons x) = x.
Proof. apply (be_swap_involutive 2). Qed.

Lemma ntohl_htonl x : 0 <= x < 4294967296 → ntohl (htonl x) = x.
Proof. apply (be_swap_involutive 4). Qed.

Lemma ntohs_as_htons x : ntohs x = htons x.
Proof. done. Qed.

Lemma ntohl_as_htonl x : ntohl x = htonl x.
Proof. done. Qed.

Lemma le_bytes_htons x : le_bytes 2 (htons x) = rev (le_bytes 2 x).
Proof. apply (le_bytes_be_swap 2). Qed.

Lemma le_bytes_htonl x : le_bytes 4 (htonl x) = rev (le_bytes 4 x).
Proof. apply (le_bytes_be_swap 4). Qed.

(** *** Buffers *)
Lemma mem_read_done off n m bs :
  mem_read off n m = Done bs →
  (off + n <= length m)%nat ∧ bs = take n (drop off m).
Proof. unfold mem_read. case_tests; naive_solver. Qed.

Lemma mem_read_ok off n m :
  (off + n <= length m)%nat → mem_read off n m = Done (take n (drop off m)).
Proof. intros. unfold mem_read. by rewrite bool_decide_true. Qed.

Lemma mem_write_ok off bs m :
  (off + length bs <= length m)%nat →
  mem_write off bs m = Done (take off m ++ bs ++ drop (off + length bs) m).
Proof. intros. unfold mem_write. by rewrite bool_decide_true. Qed.

Lemma mem_write_done off bs m m' :
  mem_write off bs m = Done m' →
  (off + length bs <= length m)%nat ∧
  m' = take off m ++ bs ++ drop (off + length bs) m.
Proof. unfold mem_write. case_tests; naive_solver. Qed.

Lemma mem_write_length off bs m m' :
  mem_write off bs m = Done m' → length m' = length m.
Proof.
  intros [Hle ->]%mem_write_done.
  rewrite !length_app, length_take, length_drop. lia.
Qed.

Lemma mem_write_bytes off bs m m' :
  bytes m → bytes bs → mem_write off bs m = Done m' → bytes m'.
Proof.
  intros Hm Hbs [Hle ->]%mem_write_done.
  repeat apply Forall_app_2; auto using Forall_take, Forall_drop.
Qed.

Lemma mem_read_bytes off n m bs :
  bytes m → mem_read off n m = Done bs → bytes bs ∧ length bs = n.
Proof.
  intros Hm [Hle ->]%mem_read_done. split.
  - auto using Forall_take, Forall_drop.
  - rewrite length_take, length_drop. lia.
Qed.

Lemma mem_write_read_same off bs m m' :
  mem_write off bs m = Done m' → mem_read off (length bs) m' = Done bs.
Proof.
  intros Hw. pose proof (mem_write_length _ _ _ _ Hw) as Hlen.
  apply mem_write_done in Hw as [Hle ->].
  rewrite mem_read_ok by lia. f_equal.
  rewrite drop_app_exact by (rewrite length_take; lia).
  by rewrite take_app_exact.
Qed.

(** A read is not affected by a write to a disjoint range. *)
Lemma mem_write_read_disjoint off bs m m' off' n :
  mem_write off bs m = Done m' →
  (off' + n <= off ∨ off + length bs <= off')%nat →
  mem_read off' n m' = mem_read off' n m.
Proof.
  intros Hw Hdis. pose proof (mem_write_length _ _ _ _ Hw) as Hlen.
  apply mem_write_done in Hw as [Hle ->].
  unfold mem_read. rewrite Hlen. case_tests; [|done]. f_equal.
  apply list_eq. intros i.
  destruct (decide (i < n)%nat) as [Hi|Hi].
  2:{ rewrite !lookup_take_ge by lia. done. }
  rewrite !lookup_take_lt by done. rewrite !lookup_drop.
  destruct Hdis as [Hb|Ha].
  - rewrite lookup_app_l by (rewrite length_take; lia).
    by rewrite lookup_take_lt by lia.
  - rewrite lookup_app_r by (rewrite length_take; lia).
    rewrite lookup_app_r by (rewrite length_take; lia).
    rewrite lookup_drop, length_take. f_equal. lia.
Qed.

(** Accesses at a known place in a buffer given as a concatenation. *)
Lemma mem_read_mid off n (a b c : list Z) :
  length a = off → length b = n → mem_read off n (a ++ b ++ c) = Done b.
Proof.
  intros Ha Hb. rewrite mem_read_ok by (rewrite !length_app; lia).
  by rewrite drop_app_exact, take_app_exact.
Qed.

Lemma mem_write_mid off (a b c x : list Z) :
  length a = off → length b = length x → mem_write off x (a ++ b ++ c) = Done (a ++ x ++ c).
Proof.
  intros Ha Hb. rewrite mem_write_ok by (rewrite !length_app; lia).
  rewrite take_app_exact by done. rewrite <-drop_drop, drop_app_exact by done.
  by rewrite drop_app_exact.
Qed.

(** [memcmp] orders byte strings like their big-endian values. *)
Lemma be_val_cons b bs : be_val (b :: bs) = be_val bs + 2 ^ (8 * length bs) * b.
Proof.
  unfold be_val. cbn [rev]. rewrite le_val_app, length_rev. simpl. lia.
Qed.

Lemma be_val_range bs : bytes bs → 0 <= be_val bs < 2 ^ (8 * length bs).
Proof.
  intros Hb. unfold be_val. rewrite <-(length_rev bs). by apply le_val_bound, bytes_rev.
Qed.

Lemma memcmp_be_val a b :
  bytes a → bytes b → length a = length b →
  (memcmp a b < 0 ↔ be_val a < be_val b) ∧ (0 < memcmp a b ↔ be_val b < be_val a).
Proof.
  intros Ha. revert b. induction Ha as [|x a Hx Ha IH]; intros [|y b] Hb Hl; try done.
  apply Forall_cons in Hb as [Hy Hb]. injection Hl as Hl. specialize (IH b Hb Hl).
  cbn [memcmp]. rewrite !be_val_cons, Hl.
  pose proof (be_val_range a Ha) as Ra. rewrite Hl in Ra. pose proof (be_val_range b Hb) as Rb.
  case_bool_decide as E; [subst; lia|]. nia.
Qed.

Create HintDb bytes.
Create Rewrite HintDb lengths.
#[export] Hint Resolve le_bytes_bytes bytes_rev htons_range htonl_range : bytes.
#[export] Hint Rewrite le_bytes_length @length_app @length_take @length_drop
  @length_rev : lengths.
