(* ===== verification/EtherFcs.v ===== *)
(** * The Ethernet frame check sequence ([src/ether_fcs.c])

    [ether_fcs] consumes the frame a nibble at a time through a 16-entry
    table whose entries already carry the initial and final complements of
    CRC-32.  The reference is the bit-serial CRC-32 of IEEE 802.3 (reflected
    polynomial [0xEDB88320], register preset to all ones, result
    complemented).  The results: the table code computes exactly that CRC for
    every input, and a receiver that runs it over data followed by the stored
    FCS gets the fixed CRC-32 residue. *)

From S2P Require Import Prelude Bytes.

#[local] Open Scope Z_scope.

(** ** The code *)
Definition crc_table : list Z :=
  [0x4DBDF21C; 0x500AE278; 0x76D3D2D4; 0x6B64C2B0;
   0x3B61B38C; 0x26D6A3E8; 0x000F9344; 0x1DB88320;
   0xA005713C; 0xBDB26158; 0x9B6B51F4; 0x86DC4190;
   0xD6D930AC; 0xCB6E20C8; 0xEDB71064; 0xF0000000].

(** [crc = (crc >> 4) ^ crc_table[(crc ^ d) & 0x0F]] *)
Definition fcs_nibble (crc d : Z) : Z :=
  Z.lxor (Z.shiftr crc 4)
    (nth (Z.to_nat (Z.land (Z.lxor crc d) 0x0F)) crc_table 0).

Definition fcs_byte (crc b : Z) : Z :=
  fcs_nibble (fcs_nibble crc (Z.shiftr b 0)) (Z.shiftr b 4).

Definition ether_fcs (data : list Z) : Z := foldl fcs_byte 0 data.

(** ** The reference: bit-serial CRC-32 *)
Definition crc_poly : Z := 0xEDB88320.
Definition ones32 : Z := 0xFFFFFFFF.

Definition crc_bit (r : Z) (bit : bool) : Z :=
  Z.lxor (Z.shiftr r 1) (if xorb (Z.odd r) bit then crc_poly else 0).

(** Feed the [n] low bits of [v], least significant bit first. *)
Fixpoint crc_bits (n : nat) (r v : Z) : Z :=
  match n with
  | O => r
  | S n => crc_bits n (crc_bit r (Z.odd v)) (Z.shiftr v 1)
  end.

Definition crc32 (data : list Z) : Z :=
  Z.lxor (foldl (crc_bits 8) ones32 data) ones32.

(** ** Linearity of the bit-serial register *)
Lemma odd_lxor a b : Z.odd (Z.lxor a b) = xorb (Z.odd a) (Z.odd b).
Proof. rewrite <-!Z.bit0_odd. apply Z.lxor_spec. Qed.

Lemma crc_bit_lxor a b x y :
  crc_bit (Z.lxor a b) (xorb x y) = Z.lxor (crc_bit a x) (crc_bit b y).
Proof.
  unfold crc_bit. rewrite Z.shiftr_lxor, odd_lxor.
  destruct (Z.odd a), (Z.odd b), x, y; simpl xorb; cbv match;
    rewrite ?Z.lxor_0_r, <-?Z.lxor_assoc; try done.
  all: rewrite ?Z.lxor_assoc.
  all: try (rewrite (Z.lxor_comm crc_poly (Z.lxor _ _)), !Z.lxor_assoc,
            Z.lxor_nilpotent, Z.lxor_0_r; done).
  all: by rewrite (Z.lxor_comm crc_poly).
Qed.

Lemma crc_bits_lxor n a b x y :
  crc_bits n (Z.lxor a b) (Z.lxor x y) = Z.lxor (crc_bits n a x) (crc_bits n b y).
Proof.
  revert a b x y. induction n as [|n IH]; intros a b x y; [done|].
  cbn [crc_bits]. by rewrite odd_lxor, crc_bit_lxor, Z.shiftr_lxor, IH.
Qed.

Lemma crc_bits_split n m r v :
  crc_bits (n + m) r v = crc_bits m (crc_bits n r v) (Z.shiftr v n).
Proof.
  revert r v. induction n as [|n IH]; intros r v; [by rewrite Z.shiftr_0_r|].
  cbn [crc_bits Nat.add]. rewrite IH, Z.shiftr_shiftr by lia. do 2 f_equal. lia.
Qed.

(** Feeding [v] to the register is feeding zeros to the register xor [v]. *)
Lemma crc_bits_feed (n : nat) r v :
  0 <= v < 2 ^ n → crc_bits n r v = crc_bits n (Z.lxor r v) 0.
Proof.
  revert r v. induction n as [|n IH]; intros r v Hv.
  { change (2 ^ 0%nat) with 1 in Hv. replace v with 0 by lia.
    by rewrite Z.lxor_0_r. }
  cbn [crc_bits]. rewrite IH.
  2:{ rewrite Z.shiftr_div_pow2 by lia. change (2 ^ 1) with 2.
      replace (2 ^ S n) with (2 * 2 ^ n) in Hv; [dlia|].
      rewrite Nat2Z.inj_succ, Z.pow_succ_r; lia. }
  f_equal. change (Z.odd 0) with false.
  rewrite <-(xorb_nilpotent (Z.odd v)), crc_bit_lxor. f_equal.
  unfold crc_bit. by rewrite xorb_nilpotent, Z.lxor_0_r.
Qed.

Lemma crc_bits_4_shiftl h : crc_bits 4 (Z.shiftl h 4) 0 = h.
Proof.
  assert (H : ∀ k, 0 <= k → crc_bit (Z.shiftl h (k + 1)) false = Z.shiftl h k).
  { intros k Hk. unfold crc_bit.
    rewrite <-Z.bit0_odd, Z.shiftl_spec_low by lia.
    rewrite Z.shiftr_shiftl_l by lia. rewrite Z.lxor_0_r. f_equal. lia. }
  cbn [crc_bits]. change (Z.odd (Z.shiftr _ _)) with false.
  change (Z.odd 0) with false.
  change 4 with (3 + 1). rewrite H by lia.
  change 3 with (2 + 1). rewrite H by lia.
  change 2 with (1 + 1). rewrite H by lia.
  change 1 with (0 + 1). rewrite H by lia. apply Z.shiftl_0_r.
Qed.

Lemma nibble_split v :
  v = Z.lxor (Z.shiftl (Z.shiftr v 4) 4) (Z.land v 15).
Proof.
  change 15 with (Z.ones 4). apply Z.bits_inj'. intros i Hi.
  rewrite Z.lxor_spec, Z.land_spec, Z.shiftl_spec by lia.
  destruct (Z.lt_ge_cases i 4).
  - rewrite (Z.testbit_neg_r (Z.shiftr v 4) (i - 4)), Z.ones_spec_low by lia.
    by rewrite andb_true_r, xorb_false_l.
  - rewrite Z.shiftr_spec by lia. rewrite Z.ones_spec_high by lia.
    rewrite andb_false_r, xorb_false_r. f_equal. lia.
Qed.

Lemma land_lxor_l a b m : Z.land (Z.lxor a b) m = Z.lxor (Z.land a m) (Z.land b m).
Proof.
  apply Z.bits_inj'. intros i _. rewrite ?Z.lxor_spec, ?Z.land_spec, ?Z.lxor_spec.
  by destruct (Z.testbit a i), (Z.testbit b i), (Z.testbit m i).
Qed.

Lemma land_15_range v : 0 <= Z.land v 15 < 16.
Proof. change 15 with (Z.ones 4). rewrite Z.land_ones by lia. apply Z.mod_pos_bound. lia. Qed.

(** Only the four low bits of the input matter to four steps. *)
Lemma crc_bits_4_land r v : crc_bits 4 r v = crc_bits 4 r (Z.land v 15).
Proof.
  assert (Hz : crc_bits 4 0 (Z.shiftl (Z.shiftr v 4) 4) = 0).
  { generalize (Z.shiftr v 4). intros h.
    assert (Hodd : ∀ k, 1 <= k → Z.odd (Z.shiftl h k) = false).
    { intros k Hk. rewrite <-Z.bit0_odd. apply Z.shiftl_spec_low. lia. }
    cbn [crc_bits]. rewrite !Z.shiftr_shiftl_l by lia.
    rewrite !Hodd by lia. done. }
  rewrite (nibble_split v) at 1.
  rewrite <-(Z.lxor_0_l r) at 1.
  by rewrite crc_bits_lxor, Hz, Z.lxor_0_l.
Qed.

Lemma crc_bits_4 r v :
  crc_bits 4 r v =
  Z.lxor (Z.shiftr r 4) (crc_bits 4 (Z.land (Z.lxor r v) 15) 0).
Proof.
  rewrite crc_bits_4_land.
  rewrite crc_bits_feed by (apply land_15_range).
  rewrite (nibble_split (Z.lxor r (Z.land v 15))).
  rewrite <-(Z.lxor_0_l 0) at 1. rewrite crc_bits_lxor, crc_bits_4_shiftl.
  f_equal.
  - rewrite Z.shiftr_lxor.
    replace (Z.shiftr (Z.land v 15) 4) with 0; [apply Z.lxor_0_r|].
    rewrite Z.shiftr_div_pow2 by lia. pose proof (land_15_range v). dlia.
  - f_equal. rewrite !land_lxor_l. by rewrite <-Z.land_assoc.
Qed.

(** The table against the bit-serial register, all 16 entries. *)
Lemma crc_table_spec x :
  0 <= x < 16 →
  nth (Z.to_nat (Z.lxor x 15)) crc_table 0 =
  Z.lxor (crc_bits 4 x 0) 0xF0000000.
Proof.
  intros Hx.
  assert (H : forallb (fun x => Z.eqb (nth (Z.to_nat (Z.lxor x 15)) crc_table 0)
             (Z.lxor (crc_bits 4 x 0) 0xF0000000)) (seqZ 0 16) = true)
    by (vm_compute; reflexivity).
  rewrite forallb_forall in H. apply Z.eqb_eq, H.
  apply list_elem_of_In, elem_of_seqZ. lia.
Qed.

Lemma fcs_nibble_spec r d :
  fcs_nibble (Z.lxor r ones32) d = Z.lxor (crc_bits 4 r d) ones32.
Proof.
  unfold fcs_nibble. rewrite crc_bits_4.
  replace (Z.land (Z.lxor (Z.lxor r ones32) d) 15)
    with (Z.lxor (Z.land (Z.lxor r d) 15) 15).
  2:{ rewrite !land_lxor_l.
      rewrite !Z.lxor_assoc. f_equal. by rewrite Z.lxor_comm. }
  rewrite crc_table_spec by apply land_15_range.
  rewrite Z.shiftr_lxor, !Z.lxor_assoc. f_equal.
  rewrite (Z.lxor_comm (Z.shiftr _ _)), Z.lxor_assoc. done.
Qed.

Lemma fcs_byte_spec r b :
  fcs_byte (Z.lxor r ones32) b = Z.lxor (crc_bits 8 r b) ones32.
Proof.
  unfold fcs_byte. rewrite Z.shiftr_0_r, !fcs_nibble_spec.
  by rewrite (crc_bits_split 4 4).
Qed.

Lemma ether_fcs_from data r :
  foldl fcs_byte (Z.lxor r ones32) data =
  Z.lxor (foldl (crc_bits 8) r data) ones32.
Proof.
  revert r. induction data as [|b data IH]; intros r; [done|].
  cbn [foldl]. by rewrite fcs_byte_spec, IH.
Qed.

Lemma ether_fcs_is_crc32 data : ether_fcs data = crc32 data.
Proof. apply (ether_fcs_from data ones32). Qed.

(** ** Feeding a 32-bit value byte by byte *)
Lemma crc_bits_le_bytes n r v :
  foldl (crc_bits 8) r (le_bytes n v) = crc_bits (8 * n) r v.
Proof.
  revert r v. induction n as [|n IH]; intros r v; [done|].
  cbn [le_bytes foldl]. rewrite IH.
  replace (8 * S n)%nat with (8 + 8 * n)%nat by lia.
  rewrite crc_bits_split. rewrite Z.shiftr_div_pow2 by lia. f_equal.
  change 8%nat with (4 + 4)%nat. rewrite !crc_bits_split.
  assert (Hl : ∀ k, 0 <= k <= 4 → Z.land (Z.shiftr (v mod 256) k) 15 = Z.land (Z.shiftr v k) 15).
  { intros k Hk. change 256 with (2 ^ 8). rewrite <-Z.land_ones by lia.
    change 15 with (Z.ones 4).
    apply Z.bits_inj'. intros i Hi. rewrite !Z.land_spec, !Z.shiftr_spec, Z.land_spec by lia.
    destruct (Z.lt_ge_cases i 4).
    - by rewrite (Z.ones_spec_low 8), andb_true_r by lia.
    - by rewrite (Z.ones_spec_high 4), !andb_false_r by lia. }
  rewrite (crc_bits_4_land (crc_bits 4 r (v mod 256))).
  rewrite (crc_bits_4_land r (v mod 256)).
  rewrite <-(Z.shiftr_0_r (v mod 256)) at 1. rewrite !Hl by lia.
  rewrite Z.shiftr_0_r. by rewrite <-!crc_bits_4_land.
Qed.

(** ** The register is 32 bits wide and its steps are injective *)
Lemma word_lxor n a b :
  0 <= n → 0 <= a < 2 ^ n → 0 <= b < 2 ^ n → 0 <= Z.lxor a b < 2 ^ n.
Proof.
  intros Hn Ha Hb.
  assert (H : Z.land (Z.lxor a b) (Z.ones n) = Z.lxor a b).
  { rewrite land_lxor_l, !Z.land_ones by lia. by rewrite !Z.mod_small. }
  rewrite Z.land_ones in H by lia. rewrite <-H. apply Z.mod_pos_bound. lia.
Qed.

Lemma crc_bit_word r b : 0 <= r < 2 ^ 32 → 0 <= crc_bit r b < 2 ^ 32.
Proof.
  intros Hr. unfold crc_bit. apply word_lxor; [lia| |].
  - rewrite Z.shiftr_div_pow2 by lia. dlia.
  - by destruct (xorb _ _).
Qed.

Lemma crc_bits_word n r v : 0 <= r < 2 ^ 32 → 0 <= crc_bits n r v < 2 ^ 32.
Proof. revert r v. induction n; simpl; auto using crc_bit_word. Qed.

Lemma crc_word data r :
  0 <= r < 2 ^ 32 → 0 <= foldl (crc_bits 8) r data < 2 ^ 32.
Proof. revert r. induction data; cbn [foldl]; auto using crc_bits_word. Qed.

Lemma crc_bit_kernel r : 0 <= r < 2 ^ 32 → crc_bit r false = 0 → r = 0.
Proof.
  intros Hr. unfold crc_bit. rewrite xorb_false_r, Z.shiftr_div_pow2 by lia.
  rewrite Z.lxor_eq_0_iff. pose proof (Zdiv2_odd_eqn r) as Hodd.
  rewrite Z.div2_div in Hodd. change (2 ^ 1) with 2.
  destruct (Z.odd r); intros H; rewrite H in Hodd.
  - unfold crc_poly in Hodd. lia.
  - lia.
Qed.

Lemma crc_bits_kernel n r : 0 <= r < 2 ^ 32 → crc_bits n r 0 = 0 → r = 0.
Proof.
  revert r. induction n as [|n IH]; intros r Hr; [done|].
  cbn [crc_bits]. intros H. apply crc_bit_kernel; [done|].
  apply IH; [by apply crc_bit_word|done].
Qed.

Lemma crc_bits_inj n r r' v :
  0 <= r < 2 ^ 32 → 0 <= r' < 2 ^ 32 → crc_bits n r v = crc_bits n r' v → r = r'.
Proof.
  intros Hr Hr' H. apply Z.lxor_eq, (crc_bits_kernel n); [by apply word_lxor|].
  pose proof (crc_bits_lxor n r r' v v) as Hx.
  by rewrite H, !Z.lxor_nilpotent in Hx.
Qed.

Lemma crc_inj data r r' :
  0 <= r < 2 ^ 32 → 0 <= r' < 2 ^ 32 →
  foldl (crc_bits 8) r data = foldl (crc_bits 8) r' data → r = r'.
Proof.
  revert r r'. induction data as [|b data IH]; intros r r' Hr Hr' H; [done|].
  cbn [foldl] in H. apply IH in H; auto using crc_bits_word.
  by apply crc_bits_inj in H.
Qed.

(** Four bytes fed to the register, as one 32-bit value. *)
Lemma crc_word_bytes r w :
  bytes w → length w = 4%nat →
  foldl (crc_bits 8) r w = crc_bits 32 (Z.lxor r (le_val w)) 0.
Proof.
  intros Hw Hlen. rewrite <-(le_bytes_le_val w Hw) at 1. rewrite Hlen.
  rewrite crc_bits_le_bytes. apply (crc_bits_feed 32).
  pose proof (le_val_bound w Hw) as Hb. by rewrite Hlen in Hb.
Qed.

Lemma ones32_word : 0 <= ones32 < 2 ^ 32.
Proof. unfold ones32. lia. Qed.

(** ** Properties *)

(** C21: the table-driven [ether_fcs] computes the bit-serial IEEE 802.3 CRC-32
    of its input, for every input and every length. *)
Theorem ether_fcs_correct data : ether_fcs data = crc32 data.
Proof. apply ether_fcs_is_crc32. Qed.

(** Error detection: two frames that differ only inside a window of four
    consecutive bytes never have the same FCS. *)
Theorem ether_fcs_detects_bursts pre w w' post :
  bytes w → bytes w' → length w = 4%nat → length w' = 4%nat → w ≠ w' →
  ether_fcs (pre ++ w ++ post) ≠ ether_fcs (pre ++ w' ++ post).
Proof.
  intros Hw Hw' Hl Hl' Hne H. apply Hne.
  rewrite !ether_fcs_is_crc32 in H. unfold crc32 in H.
  rewrite !foldl_app in H. apply (f_equal (fun x => Z.lxor x ones32)) in H.
  rewrite !Z.lxor_assoc, Z.lxor_nilpotent, !Z.lxor_0_r in H.
  pose proof (crc_word pre _ ones32_word) as Hr.
  apply crc_inj in H; [|by apply crc_word|by apply crc_word].
  rewrite (crc_word_bytes _ w), (crc_word_bytes _ w') in H by done.
  pose proof (le_val_bound w Hw) as Hb. pose proof (le_val_bound w' Hw') as Hb'.
  rewrite Hl in Hb. rewrite Hl' in Hb'.
  apply crc_bits_inj in H; [|by apply word_lxor|by apply word_lxor].
  apply (f_equal (Z.lxor (foldl (crc_bits 8) ones32 pre))) in H.
  rewrite <-!Z.lxor_assoc, !Z.lxor_nilpotent, !Z.lxor_0_l in H.
  rewrite <-(le_bytes_le_val w Hw), <-(le_bytes_le_val w' Hw'). congruence.
Qed.

Lemma ether_fcs_detects_bursts_witness :
  ether_fcs ([1; 2] ++ [3; 4; 5; 6] ++ [7]) ≠ ether_fcs ([1; 2] ++ [3; 4; 5; 134] ++ [7]).
Proof.
  apply ether_fcs_detects_bursts;
    [repeat constructor; unfold is_byte; lia
    |repeat constructor; unfold is_byte; lia|reflexivity|reflexivity|discriminate].
Defined.

(** The receiver's check: running [ether_fcs] over a frame followed by the
    FCS in the byte order in which [ether_send] stores it gives the fixed
    CRC-32 residue, whatever the frame. *)
Theorem ether_fcs_residue data :
  ether_fcs (data ++ le_bytes 4 (ether_fcs data)) = 0x2144DF1C.
Proof.
  rewrite !ether_fcs_is_crc32. unfold crc32. rewrite foldl_app.
  pose proof (crc_word data _ ones32_word) as Hr.
  rewrite crc_bits_le_bytes, crc_bits_feed by (apply word_lxor; [done..|apply ones32_word]).
  rewrite <-Z.lxor_assoc, Z.lxor_nilpotent, Z.lxor_0_l. vm_compute. reflexivity.
Qed.
