(* ===== verification/Checksum.v ===== *)
(** * The Internet checksum ([ip_checksum] of [src/ip.c], [tcp_checksum] of
    [src/tcp.c])

    Both routines add host-order 16-bit words to an accumulator preset to
    [0xffff] and subtract [0xffff] whenever it overflows 16 bits.  The results:
    the accumulator is the one's complement sum in the range 1..0xffff; the
    stored bytes are those of the RFC 1071 algorithm over big-endian words
    (except on all-zero data, where the code gives the other zero); storing the
    checksum in a zeroed field makes the verification sum zero; a change of a
    single word is detected; the TCP routine is the IP routine over the pseudo
    header followed by the segment. *)

From S2P Require Import Prelude Bytes.

#[local] Open Scope Z_scope.

(** ** The code *)

(** [acc += word; if (acc > 0xffff) acc -= ntohs(0xffff);] on [uint32_t]. *)
Definition csum_add (acc word : Z) : Z :=
  let acc := u32 (acc + word) in
  if bool_decide (acc > 0xffff) then u32 (acc - ntohs 0xffff) else acc.

(** [for (i = 0; i + 1 < bsize; i += 2)] over the bytes [data]. *)
Fixpoint csum_words (acc : Z) (data : list Z) : Z :=
  match data with
  | a :: b :: data => csum_words (csum_add acc (le_val [a; b])) data
  | _ => acc
  end.

(** [if (bsize & 1)]: the last byte, padded with a zero byte. *)
Definition csum_tail (acc : Z) (data : list Z) : Z :=
  if Nat.odd (length data)
  then csum_add acc (le_val [List.last data 0; 0]) else acc.

Definition csum_acc (acc : Z) (data : list Z) : Z :=
  csum_tail (csum_words acc data) data.

Definition ip_checksum (data : list Z) : Z :=
  u16 (Z.lnot (csum_acc 0xffff data)).

Definition IP_PROTO_TCP : Z := 6.

(** The packed [pseudo_header] structure of [tcp_checksum], in memory. *)
Definition tcp_pseudo_header (src dst bsize : Z) : list Z :=
  le_bytes 4 (htonl src) ++ le_bytes 4 (htonl dst) ++
  [0; IP_PROTO_TCP] ++ le_bytes 2 (htons (u16 bsize)).

Definition tcp_checksum (src dst : Z) (data : list Z) : Z :=
  let acc := csum_words 0xffff (tcp_pseudo_header src dst (length data)) in
  u16 (Z.lnot (csum_acc acc data)).

(** ** The reference: RFC 1071 *)
Fixpoint be_sum (data : list Z) : Z :=
  match data with
  | a :: b :: data => 256 * a + b + be_sum data
  | [a] => 256 * a
  | [] => 0
  end.

Definition fold_carry (s : Z) : Z := Z.land s 0xffff + Z.shiftr s 16.

Definition rfc1071 (data : list Z) : Z :=
  0xffff - fold_carry (fold_carry (be_sum data)).

(** ** The accumulator *)
Fixpoint le_sum (data : list Z) : Z :=
  match data with
  | a :: b :: data => a + 256 * b + le_sum data
  | [a] => a
  | [] => 0
  end.

Lemma pair_ind (P : list Z → Prop) :
  P [] → (∀ a, P [a]) → (∀ a b l, P l → P (a :: b :: l)) → ∀ l, P l.
Proof.
  intros H0 H1 H2 l.
  enough (P l ∧ ∀ a, P (a :: l)) by tauto.
  induction l as [|b l [IH1 IH2]]; auto.
Qed.

Definition acc_ok (acc : Z) : Prop := 1 <= acc <= 65535.

Lemma csum_add_spec acc w :
  acc_ok acc → 0 <= w < 65536 →
  acc_ok (csum_add acc w) ∧ csum_add acc w mod 65535 = (acc + w) mod 65535.
Proof.
  unfold acc_ok, csum_add, u32. intros Ha Hw.
  change (ntohs 0xffff) with 65535. rewrite (Z.mod_small (acc + w)) by lia.
  case_tests.
  - rewrite Z.mod_small by lia. split; [lia|].
    replace (acc + w - 65535) with (acc + w + (-1) * 65535) by lia.
    apply Z.mod_add. lia.
  - split; [lia|done].
Qed.

Lemma le_pair a b : is_byte a → is_byte b → 0 <= le_val [a; b] < 65536.
Proof. unfold is_byte. simpl. lia. Qed.

Lemma csum_acc_cons acc a b data :
  csum_acc acc (a :: b :: data) = csum_acc (csum_add acc (le_val [a; b])) data.
Proof.
  unfold csum_acc, csum_tail.
  change (Nat.odd (length (a :: b :: data))) with (Nat.odd (length data)).
  by destruct data as [|c data].
Qed.

Lemma csum_acc_spec data acc :
  bytes data → acc_ok acc →
  acc_ok (csum_acc acc data) ∧
  csum_acc acc data mod 65535 = (acc + le_sum data) mod 65535.
Proof.
  revert acc. induction data as [|a|a b data IH] using pair_ind; intros acc Hd Ha.
  - cbn [le_sum]. by rewrite Z.add_0_r.
  - apply Forall_cons in Hd as [Hb _].
    assert (Hp : 0 <= le_val [a; 0] < 65536) by (apply le_pair; [done|by unfold is_byte]).
    change (csum_acc acc [a]) with (csum_add acc (le_val [a; 0])).
    replace (le_sum [a]) with (le_val [a; 0]) by (simpl; lia).
    by apply csum_add_spec.
  - apply Forall_cons in Hd as [Hba Hd]. apply Forall_cons in Hd as [Hbb Hd].
    rewrite csum_acc_cons.
    destruct (csum_add_spec acc _ Ha (le_pair a b Hba Hbb)) as [Ha' Hm].
    destruct (IH _ Hd Ha') as [Hr Hrm]. split; [done|]. rewrite Hrm.
    rewrite <-Zplus_mod_idemp_l, Hm, Zplus_mod_idemp_l. f_equal. simpl. lia.
Qed.

Lemma csum_result acc : acc_ok acc → u16 (Z.lnot acc) = 65535 - acc.
Proof. unfold acc_ok, u16, Z.lnot. intros. change (2 ^ 16) with 65536. dlia. Qed.

(** The checksum as one's complement arithmetic. *)
Lemma ip_checksum_spec data :
  bytes data →
  ∃ s, acc_ok s ∧ s mod 65535 = le_sum data mod 65535 ∧ ip_checksum data = 65535 - s.
Proof.
  intros Hd. destruct (csum_acc_spec data 0xffff Hd) as [Hs Hm]; [by unfold acc_ok|].
  exists (csum_acc 0xffff data). split; [done|]. split.
  - rewrite Hm. replace (0xffff + le_sum data) with (le_sum data + 1 * 65535) by lia.
    apply Z.mod_add. lia.
  - by apply csum_result.
Qed.

Lemma acc_ok_unique a b : acc_ok a → acc_ok b → a mod 65535 = b mod 65535 → a = b.
Proof. unfold acc_ok. intros. dlia. Qed.

Lemma ip_checksum_range data : bytes data → 0 <= ip_checksum data < 65536.
Proof.
  intros Hd. destruct (ip_checksum_spec data Hd) as (s & Hs & _ & ->).
  unfold acc_ok in Hs. lia.
Qed.

(** The checksum is determined by the sum of the words. *)
Lemma ip_checksum_eq_iff d d' :
  bytes d → bytes d' →
  ip_checksum d = ip_checksum d' ↔ le_sum d mod 65535 = le_sum d' mod 65535.
Proof.
  intros Hd Hd'. destruct (ip_checksum_spec d Hd) as (s & Hs & Hm & ->).
  destruct (ip_checksum_spec d' Hd') as (s' & Hs' & Hm' & ->). split.
  - intros H. rewrite <-Hm, <-Hm'. f_equal. lia.
  - intros H. rewrite (acc_ok_unique s s'); [done..|congruence].
Qed.

Lemma ip_checksum_0_iff d :
  bytes d → ip_checksum d = 0 ↔ le_sum d mod 65535 = 0.
Proof.
  intros Hd. rewrite (ip_checksum_eq_iff d [] Hd) by constructor. done.
Qed.

(** ** Sums over concatenations *)
Lemma le_sum_app pre post :
  Nat.even (length pre) = true → le_sum (pre ++ post) = le_sum pre + le_sum post.
Proof.
  intros Hp. induction pre as [|a|a b pre IH] using pair_ind; [done|done|].
  cbn [app le_sum]. rewrite IH by done. lia.
Qed.

Lemma csum_words_app acc pre post :
  Nat.even (length pre) = true →
  csum_words acc (pre ++ post) = csum_words (csum_words acc pre) post.
Proof.
  intros Hp. revert acc.
  induction pre as [|a|a b pre IH] using pair_ind; intros acc; [done|done|].
  cbn [app csum_words]. by apply IH.
Qed.

Lemma csum_acc_app acc pre post :
  Nat.even (length pre) = true →
  csum_acc acc (pre ++ post) = csum_acc (csum_words acc pre) post.
Proof.
  intros Hp. revert acc.
  induction pre as [|a|a b pre IH] using pair_ind; intros acc; [done|done|].
  cbn [app csum_words]. rewrite csum_acc_cons. by apply IH.
Qed.

(** Writing the checksum over a zeroed, word-aligned field makes the sum of
    the whole zero. *)
Lemma checksum_field_verifies pre post :
  bytes pre → bytes post → Nat.even (length pre) = true →
  ip_checksum (pre ++ le_bytes 2 (ip_checksum (pre ++ [0; 0] ++ post)) ++ post) = 0.
Proof.
  intros Hpre Hpost Hev.
  assert (Hz : bytes [0; 0]) by (repeat constructor; done).
  assert (Hb : bytes (pre ++ [0; 0] ++ post)) by auto using Forall_app_2.
  destruct (ip_checksum_spec _ Hb) as (s & Hs & Hm & Hc).
  apply ip_checksum_0_iff; [auto using Forall_app_2, le_bytes_bytes|].
  pose proof (ip_checksum_range _ Hb) as Hr.
  revert Hc Hr. generalize (ip_checksum (pre ++ [0; 0] ++ post)). intros c Hc Hr.
  assert (Hf : le_sum (le_bytes 2 c) = c) by (simpl; dlia).
  rewrite le_sum_app in Hm |- * by done.
  rewrite le_sum_app in Hm |- * by done. rewrite Hf.
  simpl (le_sum [0; 0]) in Hm. subst c. unfold acc_ok in Hs.
  rewrite Z.add_0_l in Hm.
  replace (le_sum pre + (65535 - s + le_sum post))
    with (le_sum pre + le_sum post - s + 1 * 65535) by lia.
  rewrite Z.mod_add, Zminus_mod, <-Hm, Z.sub_diag by lia. done.
Qed.

(** ** The relation with RFC 1071 *)
Lemma swap_mod c : 0 <= c < 65536 → htons c mod 65535 = (256 * c) mod 65535.
Proof.
  intros Hc. unfold htons, be_val. simpl.
  rewrite (Z.mod_small (c / 256)) by dlia.
  replace (256 * c) with (c / 256 + 256 * (c mod 256 + 256 * 0) + (c / 256) * 65535)
    by dlia.
  by rewrite Z.mod_add by lia.
Qed.

Lemma swap_complement s : 0 <= s <= 65535 → htons (65535 - s) = 65535 - htons s.
Proof. intros Hs. unfold htons, be_val. simpl. dlia. Qed.

Lemma swap_acc_ok s : acc_ok s → acc_ok (htons s).
Proof. unfold acc_ok, htons, be_val. simpl. dlia. Qed.

Lemma be_sum_bound data :
  bytes data → 0 <= be_sum data <= 65535 * (length data + 1) / 2.
Proof.
  induction data as [|a|a b data IH] using pair_ind; intros Hd.
  - simpl. dlia.
  - apply Forall_cons in Hd as [Ha _]. unfold is_byte in Ha. simpl. dlia.
  - apply Forall_cons in Hd as [Ha Hd]. apply Forall_cons in Hd as [Hb Hd].
    specialize (IH Hd). unfold is_byte in *. cbn [be_sum length]. dlia.
Qed.

Lemma be_sum_zero data : bytes data → be_sum data = 0 → Forall (eq 0) data.
Proof.
  induction data as [|a|a b data IH] using pair_ind; intros Hd.
  - constructor.
  - apply Forall_cons in Hd as [Ha _]. unfold is_byte in Ha. simpl.
    repeat constructor. lia.
  - apply Forall_cons in Hd as [Ha Hd]. apply Forall_cons in Hd as [Hb Hd].
    pose proof (be_sum_bound data Hd) as Hs. unfold is_byte in *.
    cbn [be_sum]. intros H. repeat constructor; [lia|lia|]. apply IH; [done|lia].
Qed.

Lemma be_le_sum data :
  bytes data → be_sum data mod 65535 = (256 * le_sum data) mod 65535.
Proof.
  induction data as [|a|a b data IH] using pair_ind; intros Hd; [done..|].
  apply Forall_cons in Hd as [Ha Hd]. apply Forall_cons in Hd as [Hb Hd].
  cbn [be_sum le_sum]. rewrite Zplus_mod, (IH Hd), <-Zplus_mod.
  replace (256 * (a + 256 * b + le_sum data))
    with (256 * a + b + 256 * le_sum data + b * 65535) by lia.
  by rewrite Z.mod_add.
Qed.

Lemma fold_carry_spec s :
  0 <= s → fold_carry s mod 65535 = s mod 65535 ∧
  fold_carry s = s mod 65536 + s / 65536.
Proof.
  intros Hs. unfold fold_carry. change 0xffff with (Z.ones 16).
  rewrite Z.land_ones, Z.shiftr_div_pow2 by lia. change (2 ^ 16) with 65536.
  split; [|done].
  replace s with (s mod 65536 + s / 65536 + (s / 65536) * 65535) at 3 by dlia.
  by rewrite Z.mod_add.
Qed.

(** Two folds of a sum below 2^32 reach a 16-bit value, zero only for zero. *)
Lemma fold_carry_twice s :
  0 < s < 2 ^ 32 →
  acc_ok (fold_carry (fold_carry s)) ∧
  fold_carry (fold_carry s) mod 65535 = s mod 65535.
Proof.
  intros Hs. destruct (fold_carry_spec s) as [Hm He]; [lia|].
  assert (H1 : 0 < fold_carry s <= 131070) by dlia.
  destruct (fold_carry_spec (fold_carry s)) as [Hm' He']; [lia|].
  split; [|congruence]. unfold acc_ok. dlia.
Qed.

(** ** Properties *)

(** C22: for every non-zero input of at most 65535 bytes, the two bytes that
    the code stores in memory are, read in network order, the checksum of
    RFC 1071 over big-endian words. *)
Theorem ip_checksum_rfc1071 data :
  bytes data → length data <= 65535 → ¬ Forall (eq 0) data →
  be_val (le_bytes 2 (ip_checksum data)) = rfc1071 data.
Proof.
  intros Hd Hlen Hnz. change (be_val (le_bytes 2 ?x)) with (htons x).
  destruct (ip_checksum_spec data Hd) as (s & Hs & Hm & ->).
  pose proof (be_sum_bound data Hd) as Hb.
  assert (Hpos : be_sum data ≠ 0) by (intros H; by apply Hnz, be_sum_zero).
  destruct (fold_carry_twice (be_sum data)) as [Hf Hfm]; [dlia|].
  unfold rfc1071. rewrite swap_complement by (unfold acc_ok in Hs; lia).
  f_equal. apply acc_ok_unique; [by apply swap_acc_ok|done|].
  rewrite Hfm, be_le_sum, swap_mod by (done || (unfold acc_ok in Hs; lia)).
  by rewrite <-Zmult_mod_idemp_r, Hm, Zmult_mod_idemp_r.
Qed.

Lemma ip_checksum_rfc1071_witness :
  be_val (le_bytes 2 (ip_checksum [0x45; 0; 0; 0x1d; 7])) =
  rfc1071 [0x45; 0; 0; 0x1d; 7].
Proof.
  apply ip_checksum_rfc1071.
  - repeat constructor; done.
  - simpl. lia.
  - intros H. inversion H. discriminate.
Defined.

(** Replacing one aligned 16-bit word of a packet by a different one
    changes the checksum, unless the two words are the two zeros 0x0000 and
    0xffff of one's complement arithmetic. *)
Theorem ip_checksum_detects_word pre a b a' b' post :
  bytes (pre ++ [a; b] ++ post) → bytes [a'; b'] →
  Nat.even (length pre) = true →
  ip_checksum (pre ++ [a; b] ++ post) = ip_checksum (pre ++ [a'; b'] ++ post) →
  [a; b] = [a'; b'] ∨ ([a; b] = [0; 0] ∧ [a'; b'] = [255; 255]) ∨
  ([a; b] = [255; 255] ∧ [a'; b'] = [0; 0]).
Proof.
  intros Hd Hw' Hev. apply Forall_app in Hd as [Hpre Hd].
  apply Forall_app in Hd as [Hw Hpost].
  rewrite ip_checksum_eq_iff by auto using Forall_app_2.
  rewrite !le_sum_app by done. simpl (le_sum [_; _]).
  apply Forall_cons in Hw as [Ha Hw]. apply Forall_cons in Hw as [Hb _].
  apply Forall_cons in Hw' as [Ha' Hw']. apply Forall_cons in Hw' as [Hb' _].
  unfold is_byte in *. intros H.
  assert (Hcase : a + 256 * b = a' + 256 * b' ∨ (a + 256 * b = 0 ∧ a' + 256 * b' = 65535)
    ∨ (a + 256 * b = 65535 ∧ a' + 256 * b' = 0)).
  { generalize dependent (le_sum pre). intros p H.
    generalize dependent (le_sum post). intros q H. dlia. }
  destruct Hcase as [Hc|[[H1 H2]|[H1 H2]]].
  - left. assert (a = a') by lia. assert (b = b') by lia. congruence.
  - right. left. split; repeat f_equal; lia.
  - right. right. split; repeat f_equal; lia.
Qed.

Lemma ip_checksum_detects_word_witness :
  [0; 0] = [255; 255] ∨ ([0; 0] = [0; 0] ∧ [255; 255] = [255; 255]) ∨
  ([0; 0] = [255; 255] ∧ [255; 255] = [0; 0]).
Proof.
  apply (ip_checksum_detects_word [1; 2] 0 0 255 255 [3]).
  - repeat constructor; done.
  - repeat constructor; done.
  - reflexivity.
  - vm_compute. reflexivity.
Defined.

Lemma tcp_pseudo_header_length src dst n :
  length (tcp_pseudo_header src dst n) = 12%nat.
Proof. done. Qed.

Lemma tcp_pseudo_header_bytes src dst n : bytes (tcp_pseudo_header src dst n).
Proof.
  unfold tcp_pseudo_header.
  repeat apply Forall_app_2; auto with bytes. repeat constructor; done.
Qed.

(** The TCP checksum is the Internet checksum of pseudo header and segment. *)
Lemma tcp_checksum_ip src dst data :
  tcp_checksum src dst data =
  ip_checksum (tcp_pseudo_header src dst (length data) ++ data).
Proof.
  unfold tcp_checksum, ip_checksum. by rewrite csum_acc_app.
Qed.

Lemma tcp_checksum_field_verifies src dst pre post :
  bytes pre → bytes post → Nat.even (length pre) = true →
  tcp_checksum src dst
    (pre ++ le_bytes 2 (tcp_checksum src dst (pre ++ [0; 0] ++ post)) ++ post) = 0.
Proof.
  intros Hpre Hpost Hev. rewrite !tcp_checksum_ip.
  assert (Hl : ∀ c, length (pre ++ le_bytes 2 c ++ post) = length (pre ++ [0; 0] ++ post)).
  { intros c. by autorewrite with lengths. }
  rewrite Hl, !(app_assoc (tcp_pseudo_header _ _ _)).
  apply checksum_field_verifies; [|done|].
  - apply Forall_app_2; [apply tcp_pseudo_header_bytes|done].
  - by rewrite length_app, Nat.even_add, Hev.
Qed.
