(* ===== verification/IpHeader.v ===== *)
(** * IPv4 headers ([src/xstack_ip.h], header routines of [src/ip.c])

    [struct ip_hdr] is a record of its fields as the host reads them; the
    packed structure in a packet buffer is its 20-byte little-endian image
    ([ip_hdr_store], [ip_hdr_load]).  [ip_hton], [ip_ntoh] and
    [ip_reply_header] work on the buffer the pointers of the code point into,
    so that the checksum covers the bytes that are really there, options
    included, and an access past the end of the buffer is [Fault]. *)

From S2P Require Import Prelude Bytes Checksum.

#[local] Open Scope Z_scope.

(** ** Data *)
Record ip_hdr : Type := IpHdr {
  ip_vhl : Z;
  ip_tos : Z;
  ip_len : Z;
  ip_id : Z;
  ip_foff : Z;
  ip_ttl : Z;
  ip_proto : Z;
  ip_csum : Z;
  ip_src : Z;
  ip_dst : Z
}.

Definition IP_VHL_DEFAULT : Z := 0x45.
Definition IP_TOS_DEFAULT : Z := 0x0.
Definition IP_TOFF_DEFAULT : Z := 0x4000.
Definition IP_TTL_DEFAULT : Z := 64.
Definition IP_FLAGS_MF : Z := 0x2000.
Definition IP_MAX_BYTES : Z := 65535.
Definition IP_PROTO_ICMP : Z := 1.
Definition IP_PROTO_UDP : Z := 17.

Definition IP_HDR_SIZE : nat := 20.

(** The fields are in the range of their C types. *)
Definition ip_hdr_ok (h : ip_hdr) : Prop :=
  0 <= ip_vhl h < 256 ∧ 0 <= ip_tos h < 256 ∧ 0 <= ip_len h < 65536 ∧
  0 <= ip_id h < 65536 ∧ 0 <= ip_foff h < 65536 ∧ 0 <= ip_ttl h < 256 ∧
  0 <= ip_proto h < 256 ∧ 0 <= ip_csum h < 65536 ∧
  0 <= ip_src h < 4294967296 ∧ 0 <= ip_dst h < 4294967296.

(** The packed structure in memory. *)
Definition ip_hdr_store (h : ip_hdr) : list Z :=
  le_bytes 1 (ip_vhl h) ++ le_bytes 1 (ip_tos h) ++ le_bytes 2 (ip_len h) ++
  le_bytes 2 (ip_id h) ++ le_bytes 2 (ip_foff h) ++ le_bytes 1 (ip_ttl h) ++
  le_bytes 1 (ip_proto h) ++ le_bytes 2 (ip_csum h) ++
  le_bytes 4 (ip_src h) ++ le_bytes 4 (ip_dst h).

Definition field (off n : nat) (m : list Z) : Z := le_val (take n (drop off m)).

Definition ip_hdr_load (m : list Z) : outcome ip_hdr :=
  if bool_decide (IP_HDR_SIZE <= length m)%nat then
    Done {| ip_vhl := field 0 1 m; ip_tos := field 1 1 m; ip_len := field 2 2 m;
            ip_id := field 4 2 m; ip_foff := field 6 2 m; ip_ttl := field 8 1 m;
            ip_proto := field 9 1 m; ip_csum := field 10 2 m;
            ip_src := field 12 4 m; ip_dst := field 16 4 m |}
  else Fault.

(** ** Operations *)
Definition ip_hdr_hlen (ip : ip_hdr) : Z := Z.land (ip_vhl ip) 0x0f * 4.

Definition set_csum (c : Z) (h : ip_hdr) : ip_hdr :=
  {| ip_vhl := ip_vhl h; ip_tos := ip_tos h; ip_len := ip_len h; ip_id := ip_id h;
     ip_foff := ip_foff h; ip_ttl := ip_ttl h; ip_proto := ip_proto h; ip_csum := c;
     ip_src := ip_src h; ip_dst := ip_dst h |}.

(** The field by field assignments of [ip_hton], with [net->ip_csum = 0]. *)
Definition hdr_hton (host : ip_hdr) : ip_hdr :=
  {| ip_vhl := ip_vhl host; ip_tos := ip_tos host; ip_len := htons (ip_len host);
     ip_id := htons (ip_id host); ip_foff := htons (ip_foff host);
     ip_ttl := ip_ttl host; ip_proto := ip_proto host; ip_csum := 0;
     ip_src := htonl (ip_src host); ip_dst := htonl (ip_dst host) |}.

(** [ip_hton(host, net)]: [net] is the buffer that starts at the [net]
    pointer.  [host] may be the header stored in that same buffer. *)
Definition ip_hton (host : ip_hdr) (net : list Z) : outcome (list Z) :=
  let hlen := ip_hdr_hlen host in
  net ← mem_write 0 (ip_hdr_store (hdr_hton host)) net;
  covered ← mem_read 0 (Z.to_nat hlen) net;
  mem_write 10 (le_bytes 2 (ip_checksum covered)) net.

(** The field by field assignments of [ip_ntoh]. *)
Definition hdr_ntoh (net : ip_hdr) : ip_hdr :=
  {| ip_vhl := ip_vhl net; ip_tos := ip_tos net; ip_len := ntohs (ip_len net);
     ip_id := ntohs (ip_id net); ip_foff := ntohs (ip_foff net);
     ip_ttl := ip_ttl net; ip_proto := ip_proto net; ip_csum := ip_csum net;
     ip_src := ntohl (ip_src net); ip_dst := ntohl (ip_dst net) |}.

(** [ip_ntoh(net, host)]: the header length and the host order header. *)
Definition ip_ntoh (net : list Z) : outcome (Z * ip_hdr) :=
  h ← ip_hdr_load net;
  let host := hdr_ntoh h in
  Done (ip_hdr_hlen host, host).

(** [ip_ntoh(ip, ip)]: the conversion in place. *)
Definition ip_ntoh_inplace (m : list Z) : outcome (list Z) :=
  '(_, host) ← ip_ntoh m;
  mem_write 0 (ip_hdr_store host) m.

(** The assignments of [ip_reply_header] before [ip_hton(ip, ip)]. *)
Definition reply_hdr (ip : ip_hdr) (bsize : Z) : ip_hdr :=
  {| ip_vhl := ip_vhl ip; ip_tos := ip_tos ip; ip_len := u16 bsize;
     ip_id := ip_id ip; ip_foff := ip_foff ip; ip_ttl := IP_TTL_DEFAULT;
     ip_proto := ip_proto ip; ip_csum := ip_csum ip;
     ip_src := ip_dst ip; ip_dst := ip_src ip |}.

Definition ip_reply_header (m : list Z) (bsize : Z) : outcome (Z * list Z) :=
  ip ← ip_hdr_load m;
  let bsize := u64 (bsize + ip_hdr_hlen ip) in
  m ← ip_hton (reply_hdr ip bsize) m;
  Done (bsize, m).

Definition ip_fragment_is_frag (hdr : ip_hdr) : bool :=
  negb (Z.eqb (Z.land (ip_foff hdr) IP_FLAGS_MF) 0) ||
  negb (Z.eqb (Z.land (ip_foff hdr) 0x1fff) 0).

(** ** Layout lemmas *)
Lemma ip_hdr_store_length h : length (ip_hdr_store h) = IP_HDR_SIZE.
Proof. done. Qed.

Lemma ip_hdr_store_bytes h : bytes (ip_hdr_store h).
Proof. unfold ip_hdr_store. repeat apply Forall_app_2; auto with bytes. Qed.

Lemma ip_hdr_load_store h rest :
  ip_hdr_ok h → ip_hdr_load (ip_hdr_store h ++ rest) = Done h.
Proof.
  intros Hok. unfold ip_hdr_load. rewrite bool_decide_true.
  2:{ rewrite length_app, ip_hdr_store_length. lia. }
  f_equal. destruct h as [a b c d e f g i j k]. unfold ip_hdr_ok in Hok.
  simpl in Hok. destruct_and!. unfold field. simpl.
  f_equal; dlia.
Qed.

Lemma ip_hdr_store_load m h :
  bytes m → ip_hdr_load m = Done h → take IP_HDR_SIZE m = ip_hdr_store h ∧ ip_hdr_ok h.
Proof.
  intros Hm. unfold ip_hdr_load. case_tests; [|done]. intros [= <-].
  do 20 (destruct m as [|? m]; [simpl in *; unfold IP_HDR_SIZE in *; lia|]).
  do 20 (apply Forall_cons in Hm as [? Hm]). clear Hm. unfold is_byte in *.
  split.
  - unfold field, ip_hdr_store. simpl. rewrite take_0. repeat f_equal; dlia.
  - unfold ip_hdr_ok, field. simpl. lia.
Qed.

(** The bytes before and after the checksum field. *)
Definition store_pre (h : ip_hdr) : list Z := take 10 (ip_hdr_store h).
Definition store_post (h : ip_hdr) : list Z := drop 12 (ip_hdr_store h).

Lemma ip_hdr_store_csum h c :
  ip_hdr_store (set_csum c h) = store_pre h ++ le_bytes 2 c ++ store_post h.
Proof. done. Qed.

Lemma mem_write_csum h c r :
  mem_write 10 (le_bytes 2 c) (ip_hdr_store h ++ r) =
  Done (ip_hdr_store (set_csum c h) ++ r).
Proof.
  rewrite mem_write_ok; [done|].
  rewrite length_app, ip_hdr_store_length, le_bytes_length. unfold IP_HDR_SIZE. lia.
Qed.

Lemma mem_write_hdr h m :
  (IP_HDR_SIZE <= length m)%nat →
  mem_write 0 (ip_hdr_store h) m = Done (ip_hdr_store h ++ drop IP_HDR_SIZE m).
Proof. intros Hm. by rewrite mem_write_ok. Qed.

Lemma land_15_bound v : 0 <= Z.land v 0x0f <= 15.
Proof.
  assert (H : Z.land v 0x0f = v mod 2 ^ 4) by (by rewrite <-Z.land_ones).
  rewrite H. dlia.
Qed.

Lemma ip_hdr_hlen_range h : 0 <= ip_hdr_hlen h <= 60.
Proof. unfold ip_hdr_hlen. pose proof (land_15_bound (ip_vhl h)). lia. Qed.

Lemma hdr_hton_ok h : ip_hdr_ok h → ip_hdr_ok (hdr_hton h).
Proof.
  unfold ip_hdr_ok. simpl. intros Hok. destruct_and!.
  pose proof (htons_range (ip_len h)). pose proof (htons_range (ip_id h)).
  pose proof (htons_range (ip_foff h)). pose proof (htonl_range (ip_src h)).
  pose proof (htonl_range (ip_dst h)). split_and!; lia.
Qed.

Lemma hdr_ntoh_hton h : ip_hdr_ok h → hdr_ntoh (hdr_hton h) = set_csum 0 h.
Proof.
  unfold ip_hdr_ok, hdr_ntoh, hdr_hton, set_csum. simpl. intros Hok. destruct_and!.
  by rewrite !ntohs_htons, !ntohl_htonl by done.
Qed.

Lemma set_csum_ok c h : 0 <= c < 65536 → ip_hdr_ok h → ip_hdr_ok (set_csum c h).
Proof. unfold ip_hdr_ok. simpl. tauto. Qed.

(** The closed form of [ip_hton]: what it writes, and that it stays in the
    buffer exactly when the header, options included, fits. *)
Definition hton_csum (host : ip_hdr) (net : list Z) : Z :=
  ip_checksum (take (Z.to_nat (ip_hdr_hlen host))
    (ip_hdr_store (hdr_hton host) ++ drop IP_HDR_SIZE net)).

Lemma ip_hton_done host net :
  (IP_HDR_SIZE <= length net)%nat → ip_hdr_hlen host <= length net →
  ip_hton host net =
  Done (ip_hdr_store (set_csum (hton_csum host net) (hdr_hton host))
        ++ drop IP_HDR_SIZE net).
Proof.
  intros Hn Hh. unfold ip_hton. rewrite mem_write_hdr by done. rewrite bind_done.
  rewrite mem_read_ok, bind_done.
  2:{ rewrite length_app, ip_hdr_store_length, length_drop. lia. }
  rewrite drop_0. by rewrite mem_write_csum.
Qed.

Lemma ip_hton_length host net net' :
  ip_hton host net = Done net' → length net' = length net.
Proof.
  unfold ip_hton. intros H. inv_done.
  repeat match goal with H : mem_write _ _ _ = Done _ |- _ =>
    apply mem_write_length in H end. lia.
Qed.

Lemma ip_hton_inv host net net' :
  ip_hton host net = Done net' →
  (IP_HDR_SIZE <= length net)%nat ∧ ip_hdr_hlen host <= length net.
Proof.
  pose proof (ip_hdr_hlen_range host) as Hr.
  unfold ip_hton. intros H. inv_done.
  pose proof (mem_write_length _ _ _ _ Ha) as Hl.
  apply mem_write_done in Ha as [Hle _]. apply mem_read_done in Ha0 as [Hle' _].
  rewrite ip_hdr_store_length in Hle. split; lia.
Qed.

Lemma hton_csum_range host net : bytes net → 0 <= hton_csum host net < 65536.
Proof.
  intros Hn. apply ip_checksum_range, Forall_take, Forall_app_2;
    auto using ip_hdr_store_bytes, Forall_drop.
Qed.

Lemma take_hdr_csum h c n r :
  (20 <= n)%nat →
  take n (ip_hdr_store (set_csum c h) ++ r) =
  store_pre h ++ le_bytes 2 c ++ take (n - 12) (store_post h ++ r).
Proof.
  intros Hn. rewrite ip_hdr_store_csum, <-!app_assoc.
  rewrite take_app_ge by (simpl; lia). rewrite take_app_ge by (simpl; lia).
  do 3 f_equal. simpl. lia.
Qed.

Lemma store_pre_bytes h : bytes (store_pre h).
Proof. apply Forall_take, ip_hdr_store_bytes. Qed.

Lemma store_post_bytes h : bytes (store_post h).
Proof. apply Forall_drop, ip_hdr_store_bytes. Qed.

#[export] Hint Resolve ip_hdr_store_bytes store_pre_bytes store_post_bytes : bytes.

Lemma ip_hton_checksum_zero host net net' :
  bytes net → 20 <= ip_hdr_hlen host →
  ip_hton host net = Done net' →
  ip_checksum (take (Z.to_nat (ip_hdr_hlen host)) net') = 0.
Proof.
  intros Hb Hh Hdone. destruct (ip_hton_inv _ _ _ Hdone) as [Hl1 Hl2].
  rewrite ip_hton_done in Hdone by done. apply done_inj in Hdone as <-.
  rewrite take_hdr_csum by lia. unfold hton_csum.
  change (ip_hdr_store (hdr_hton host)) with (ip_hdr_store (set_csum 0 (hdr_hton host))).
  rewrite take_hdr_csum by lia. change (le_bytes 2 0) with [0; 0].
  apply checksum_field_verifies; auto with bytes.
  apply Forall_take, Forall_app_2; auto using Forall_drop with bytes.
Qed.

(** [ip_hton] of a header without options: it verifies on its own, whatever
    follows it. *)
Lemma ip_hton_header host net :
  ip_hdr_hlen host = 20 → (20 <= length net)%nat →
  ∃ c, 0 <= c < 65536 ∧
    ip_hton host net = Done (ip_hdr_store (set_csum c (hdr_hton host)) ++ drop 20 net) ∧
    ip_checksum (ip_hdr_store (set_csum c (hdr_hton host))) = 0.
Proof.
  intros Hh Hl. set (hd := ip_hdr_store (hdr_hton host)).
  assert (Hb : bytes hd) by apply ip_hdr_store_bytes.
  assert (Hc : hton_csum host net = hton_csum host hd).
  { unfold hton_csum. rewrite Hh. by rewrite !take_app_exact. }
  exists (hton_csum host net). rewrite Hc. split; [by apply hton_csum_range|].
  split; [rewrite <-Hc; apply ip_hton_done; [done|lia]|].
  assert (Hd : ip_hton host hd = Done (ip_hdr_store (set_csum (hton_csum host hd) (hdr_hton host)) ++
    drop 20 hd)) by (apply ip_hton_done; [done|rewrite Hh; done]).
  assert (Hge : 20 <= ip_hdr_hlen host) by lia.
  pose proof (ip_hton_checksum_zero _ _ _ Hb Hge Hd) as Hz.
  rewrite Hh in Hz. by rewrite take_app_exact in Hz.
Qed.

Lemma ip_hton_plain host net :
  bytes net → ip_hdr_hlen host = 20 → (20 <= length net)%nat →
  ∃ c, 0 <= c < 65536 ∧
    ip_hton host net = Done (ip_hdr_store (set_csum c (hdr_hton host)) ++ drop 20 net) ∧
    ip_checksum (ip_hdr_store (set_csum c (hdr_hton host))) = 0.
Proof. intros _. apply ip_hton_header. Qed.

(** [ip_ntoh] inverts [ip_hton], up to the checksum. *)
Lemma ip_ntoh_hton host net net' :
  bytes net → ip_hdr_ok host → ip_hton host net = Done net' →
  ip_ntoh net' = Done (ip_hdr_hlen host, set_csum (hton_csum host net) host).
Proof.
  intros Hb Hok Hdone. destruct (ip_hton_inv _ _ _ Hdone) as [Hl1 Hl2].
  rewrite ip_hton_done in Hdone by done. apply done_inj in Hdone as <-.
  unfold ip_ntoh. rewrite ip_hdr_load_store.
  2:{ apply set_csum_ok; [by apply hton_csum_range|by apply hdr_hton_ok]. }
  rewrite bind_done. cbv zeta. do 2 f_equal.
  assert (H := hdr_ntoh_hton host Hok).
  apply (f_equal (set_csum (hton_csum host net))) in H. exact H.
Qed.

Lemma ip_hdr_load_inv m h :
  ip_hdr_load m = Done h → (IP_HDR_SIZE <= length m)%nat.
Proof. unfold ip_hdr_load. by case_tests. Qed.

Lemma reply_hdr_ok h n : ip_hdr_ok h → ip_hdr_ok (reply_hdr h n).
Proof.
  unfold ip_hdr_ok. simpl. intros H. destruct_and!. split_and!; try lia.
  all: unfold u16, IP_TTL_DEFAULT; dlia.
Qed.

Lemma ip_reply_header_done m h n :
  ip_hdr_load m = Done h → ip_hdr_hlen h <= length m →
  ip_reply_header m n =
  (m' ← ip_hton (reply_hdr h (u64 (n + ip_hdr_hlen h))) m;
   Done (u64 (n + ip_hdr_hlen h), m')).
Proof. intros Hl Hh. unfold ip_reply_header. by rewrite Hl. Qed.

(** A concrete packet for the witnesses: 10.0.0.1 to 10.0.0.2, 24 bytes. *)
Definition sample_hdr : ip_hdr :=
  {| ip_vhl := 0x45; ip_tos := 0; ip_len := 24; ip_id := 7; ip_foff := 0x4000;
     ip_ttl := 9; ip_proto := 1; ip_csum := 0xbeef;
     ip_src := 167772161; ip_dst := 167772162 |}.

Definition sample_packet : list Z := ip_hdr_store sample_hdr ++ [1; 2; 3; 4].

Lemma sample_hdr_ok : ip_hdr_ok sample_hdr.
Proof. unfold ip_hdr_ok. simpl. lia. Qed.

Lemma sample_packet_bytes : bytes sample_packet.
Proof. repeat constructor; done. Qed.

(** ** Properties *)

(** A header that [ip_hton] has put into a packet buffer passes the
    checksum verification of its receiver: the Internet checksum of the whole
    header, options included, is zero. *)
Theorem ip_hton_verifies host net net' :
  bytes net → 20 <= ip_hdr_hlen host →
  ip_hton host net = Done net' →
  ip_checksum (take (Z.to_nat (ip_hdr_hlen host)) net') = 0.
Proof. apply ip_hton_checksum_zero. Qed.

Lemma ip_hton_verifies_witness :
  ∃ net', ip_hton sample_hdr sample_packet = Done net' ∧
  ip_checksum (take (Z.to_nat (ip_hdr_hlen sample_hdr)) net') = 0.
Proof.
  eexists. split; [vm_compute; reflexivity|].
  eapply (ip_hton_verifies sample_hdr sample_packet).
  - apply sample_packet_bytes.
  - vm_compute. discriminate.
  - vm_compute. reflexivity.
Defined.

(** Round trip between host and network order: [ip_hton] succeeds exactly
    when the header with its options fits the buffer, leaves the bytes after
    the fixed header alone, and [ip_ntoh] of the result gives back every field
    of the header except the checksum, which is the one just computed. *)
Theorem ip_hton_ntoh_roundtrip host net :
  bytes net → ip_hdr_ok host →
  match ip_hton host net with
  | Done net' =>
      length net' = length net ∧ drop 20 net' = drop 20 net ∧
      ip_ntoh net' = Done (ip_hdr_hlen host, set_csum (hton_csum host net) host)
  | _ => (length net < 20)%nat ∨ length net < ip_hdr_hlen host
  end.
Proof.
  intros Hb Hok. destruct (decide (20 <= length net)%nat) as [Hn|Hn].
  - destruct (decide (ip_hdr_hlen host <= length net)) as [Hh|Hh].
    + assert (Hd := ip_hton_done host net Hn Hh). rewrite Hd.
      pose proof (ip_hton_length _ _ _ Hd) as Hl.
      split; [done|]. split; [done|]. by apply ip_ntoh_hton.
    + destruct (ip_hton host net) eqn:Hd; [|right; lia|right; lia].
      apply ip_hton_inv in Hd. lia.
  - destruct (ip_hton host net) eqn:Hd; [|left; lia|left; lia].
    apply ip_hton_inv in Hd. unfold IP_HDR_SIZE in Hd. lia.
Qed.

Lemma ip_hton_ntoh_roundtrip_witness :
  match ip_hton sample_hdr sample_packet with
  | Done net' =>
      length net' = length sample_packet ∧ drop 20 net' = drop 20 sample_packet ∧
      ip_ntoh net' =
      Done (ip_hdr_hlen sample_hdr, set_csum (hton_csum sample_hdr sample_packet) sample_hdr)
  | _ => (length sample_packet < 20)%nat ∨ length sample_packet < ip_hdr_hlen sample_hdr
  end.
Proof.
  apply ip_hton_ntoh_roundtrip; [apply sample_packet_bytes|apply sample_hdr_ok].
Defined.

(** [ip_reply_header] turns a received packet into a valid packet back to
    its sender: source and destination exchanged, TTL reset, total length of
    header plus data, a header checksum that verifies, and all bytes after the
    fixed header kept; it returns the total length. *)
Theorem ip_reply_header_correct m h n :
  bytes m → ip_hdr_load m = Done h →
  20 <= ip_hdr_hlen h <= length m → 0 <= n → n + ip_hdr_hlen h < 65536 →
  ∃ m' h',
    ip_reply_header m n = Done (n + ip_hdr_hlen h, m') ∧
    ip_ntoh m' = Done (ip_hdr_hlen h, h') ∧
    ip_src h' = ip_dst h ∧ ip_dst h' = ip_src h ∧ ip_ttl h' = 64 ∧
    ip_len h' = n + ip_hdr_hlen h ∧ ip_proto h' = ip_proto h ∧
    ip_checksum (take (Z.to_nat (ip_hdr_hlen h)) m') = 0 ∧
    drop 20 m' = drop 20 m.
Proof.
  intros Hb Hl Hh Hn Hlen.
  pose proof (ip_hdr_load_inv _ _ Hl) as Hsz.
  destruct (ip_hdr_store_load m h Hb Hl) as [_ Hok].
  rewrite (ip_reply_header_done m h n) by (done || lia).
  replace (u64 (n + ip_hdr_hlen h)) with (n + ip_hdr_hlen h)
    by (unfold u64; rewrite Z.mod_small; lia).
  set (r := reply_hdr h (n + ip_hdr_hlen h)).
  assert (Hr : ip_hdr_ok r) by by apply reply_hdr_ok.
  assert (Hd := ip_hton_done r m Hsz ltac:(apply Hh)).
  rewrite Hd, bind_done. eexists _, _. split; [done|].
  split; [apply (ip_ntoh_hton r m _ Hb Hr Hd)|].
  do 3 (split; [done|]). split; [simpl; unfold u16; by rewrite Z.mod_small by lia|].
  split; [done|]. split; [|done].
  apply (ip_hton_checksum_zero r m); [done|apply Hh|done].
Qed.

Lemma ip_reply_header_correct_witness :
  ∃ m' h',
    ip_reply_header sample_packet 4 = Done (4 + ip_hdr_hlen sample_hdr, m') ∧
    ip_ntoh m' = Done (ip_hdr_hlen sample_hdr, h') ∧
    ip_src h' = ip_dst sample_hdr ∧ ip_dst h' = ip_src sample_hdr ∧ ip_ttl h' = 64 ∧
    ip_len h' = 4 + ip_hdr_hlen sample_hdr ∧ ip_proto h' = ip_proto sample_hdr ∧
    ip_checksum (take (Z.to_nat (ip_hdr_hlen sample_hdr)) m') = 0 ∧
    drop 20 m' = drop 20 sample_packet.
Proof.
  apply ip_reply_header_correct.
  - apply sample_packet_bytes.
  - vm_compute. reflexivity.
  - vm_compute. split; discriminate.
  - lia.
  - vm_compute. reflexivity.
Defined.
