(* ===== verification/QueueR.v ===== *)
(** * The lock-free datagram queue ([util/queue_r.c], [include/queue_r.h])

    A ring of [a_len] blocks of [b_size] bytes with one write index (owned by
    the producer) and one read index (owned by the consumer).  The first part
    models every function of the file on the control block and relates it to
    the FIFO of occupied slots.  The second part runs one producer (the loop
    of [xstack_sendto] and [xstack_sock_dgram_input]: allocate, fill, commit)
    and one consumer (peek, read, discard) as an interleaving of their
    accesses to the shared control block and data array, and proves that the
    consumer receives exactly the committed blocks, in order, and that neither
    side ever touches the slot the other one is using.  The interleaving is
    sequentially consistent. *)

From S2P Require Import Prelude Bytes.
From stdpp Require Import relations.

#[local] Open Scope Z_scope.

(** ** The control block and its operations *)
Record queue_cb : Type := QueueCb {
  b_size : Z;   (* Block size in bytes. *)
  a_len : Z;    (* Array length. *)
  m_write : Z;  (* Write index. *)
  m_read : Z    (* Read index. *)
}.

Definition set_m_write (w : Z) (cb : queue_cb) : queue_cb :=
  {| b_size := b_size cb; a_len := a_len cb; m_write := w; m_read := m_read cb |}.

Definition set_m_read (r : Z) (cb : queue_cb) : queue_cb :=
  {| b_size := b_size cb; a_len := a_len cb; m_write := m_write cb; m_read := r |}.

(** [(x + 1) % cb->a_len] on [size_t]; a zero divisor is undefined. *)
Definition next_index (cb : queue_cb) (x : Z) : outcome Z :=
  _ ← require (bool_decide (a_len cb ≠ 0));
  Done (u64 (x + 1) mod a_len cb).

Definition queue_create (block_size array_size : Z) : outcome queue_cb :=
  _ ← require (bool_decide (block_size ≠ 0));
  Done {| b_size := block_size; a_len := array_size / block_size;
          m_read := 0; m_write := 0 |}.

(** The byte offset of the block, -1 when the queue is full. *)
Definition queue_alloc (cb : queue_cb) : outcome Z :=
  let write := m_write cb in
  next_element ← next_index cb write;
  if bool_decide (next_element = m_read cb) then Done (-1)
  else Done (s32 (u64 (write * b_size cb))).

Definition queue_commit (cb : queue_cb) : outcome queue_cb :=
  next_element ← next_index cb (m_write cb);
  Done (set_m_write next_element cb).

(** [Some index] for a return value of 1, [None] for 0 (queue empty). *)
Definition queue_peek (cb : queue_cb) : option Z :=
  let read := m_read cb in
  if bool_decide (read = m_write cb) then None
  else Some (s32 (u64 (read * b_size cb))).

Fixpoint queue_discard (cb : queue_cb) (n : nat) : outcome (Z * queue_cb) :=
  match n with
  | O => Done (0, cb)
  | S n =>
      let read := m_read cb in
      if bool_decide (read = m_write cb) then Done (0, cb)
      else
        next ← next_index cb read;
        '(count, cb) ← queue_discard (set_m_read next cb) n;
        Done (count + 1, cb)
  end.

Definition queue_clear_from_push_end (cb : queue_cb) : queue_cb :=
  set_m_write (m_read cb) cb.

Definition queue_clear_from_pop_end (cb : queue_cb) : queue_cb :=
  set_m_read (m_write cb) cb.

Definition queue_isempty (cb : queue_cb) : bool :=
  bool_decide (m_write cb = m_read cb).

Definition queue_isfull (cb : queue_cb) : outcome bool :=
  next ← next_index cb (m_write cb);
  Done (bool_decide (next = m_read cb)).

(** ** The invariant and the FIFO of occupied slots *)
Definition queue_ok (cb : queue_cb) : Prop :=
  0 < b_size cb ∧ 0 < a_len cb ∧ a_len cb * b_size cb <= 2 ^ 31 ∧
  0 <= m_write cb < a_len cb ∧ 0 <= m_read cb < a_len cb.

Definition queue_len (cb : queue_cb) : Z := (m_write cb - m_read cb) mod a_len cb.

Definition slot (cb : queue_cb) (k : Z) : Z := (m_read cb + k) mod a_len cb.

Definition occupied (cb : queue_cb) : list Z := slot cb <$> seqZ 0 (queue_len cb).

Lemma wrap_mod x a : 0 <= x < 2 * a → x mod a = if bool_decide (x < a) then x else x - a.
Proof.
  intros Hx. case_tests.
  - apply Z.mod_small. lia.
  - replace x with (x - a + 1 * a) at 1 by lia. rewrite Z.mod_add by lia.
    apply Z.mod_small. lia.
Qed.

Lemma queue_len_eq cb :
  queue_ok cb →
  queue_len cb = if bool_decide (m_read cb <= m_write cb) then m_write cb - m_read cb
                 else m_write cb - m_read cb + a_len cb.
Proof.
  unfold queue_ok, queue_len. intros H. destruct_and!. case_tests.
  - apply Z.mod_small. lia.
  - replace (m_write cb - m_read cb)
      with (m_write cb - m_read cb + a_len cb + (-1) * a_len cb) by lia.
    rewrite Z.mod_add by lia. rewrite Z.mod_small; lia.
Qed.

Lemma queue_len_range cb : queue_ok cb → 0 <= queue_len cb < a_len cb.
Proof. unfold queue_ok, queue_len. intros. apply Z.mod_pos_bound. lia. Qed.

Lemma slot_eq cb k :
  queue_ok cb → 0 <= k < a_len cb →
  slot cb k = if bool_decide (m_read cb + k < a_len cb) then m_read cb + k
              else m_read cb + k - a_len cb.
Proof. unfold queue_ok, slot. intros. apply wrap_mod. lia. Qed.

(** Unfold the ring arithmetic to linear arithmetic. *)
Ltac ring_arith :=
  repeat match goal with
  | H : queue_ok ?cb |- _ =>
      lazymatch goal with
      | _ : queue_len cb = _ |- _ => fail
      | |- _ => pose proof (queue_len_range cb H); pose proof (queue_len_eq cb H)
      end
  end;
  repeat match goal with
  | H : context [bool_decide ?P] |- _ => destruct (bool_decide_reflect P)
  end;
  case_tests; unfold queue_ok in *; destruct_and?; try lia.

Lemma next_index_done cb x :
  queue_ok cb → 0 <= x < a_len cb →
  next_index cb x = Done (if bool_decide (x + 1 = a_len cb) then 0 else x + 1).
Proof.
  unfold queue_ok, next_index. intros H Hx. destruct_and!.
  rewrite require_decide_true by lia. rewrite bind_done. f_equal.
  assert (a_len cb <= 2 ^ 31) by nia.
  unfold u64. rewrite (Z.mod_small (x + 1)) by lia.
  rewrite wrap_mod by lia. ring_arith.
Qed.

Lemma offset_done cb x :
  queue_ok cb → 0 <= x < a_len cb → s32 (u64 (x * b_size cb)) = x * b_size cb.
Proof.
  unfold queue_ok. intros H Hx. destruct_and!.
  assert (0 <= x * b_size cb < 2 ^ 31) by nia.
  unfold s32, u32, u64. rewrite !(Z.mod_small (x * b_size cb)) by lia.
  by rewrite bool_decide_true by lia.
Qed.

Lemma occupied_elem cb s :
  s ∈ occupied cb ↔ ∃ k, s = slot cb k ∧ 0 <= k < queue_len cb.
Proof.
  unfold occupied. rewrite list_elem_of_fmap. setoid_rewrite elem_of_seqZ.
  split; intros (k & ? & ?); exists k; split; auto; lia.
Qed.

Lemma occupied_length cb : queue_ok cb → Z.of_nat (length (occupied cb)) = queue_len cb.
Proof.
  intros H. unfold occupied. rewrite length_fmap, length_seqZ. ring_arith.
Qed.

Lemma write_slot_free cb : queue_ok cb → m_write cb ∉ occupied cb.
Proof.
  intros H Hin. apply occupied_elem in Hin as (k & Hk & Hr).
  pose proof (queue_len_range cb H). rewrite slot_eq in Hk by (done || lia).
  ring_arith.
Qed.

Lemma occupied_nodup cb : queue_ok cb → NoDup (occupied cb).
Proof.
  intros H. apply NoDup_fmap_2_strong; [|apply NoDup_seqZ].
  intros x y Hx%elem_of_seqZ Hy%elem_of_seqZ. pose proof (queue_len_range cb H).
  rewrite !slot_eq by (done || lia). ring_arith.
Qed.

Lemma occupied_range cb s : queue_ok cb → s ∈ occupied cb → 0 <= s < a_len cb.
Proof.
  intros H Hin. apply occupied_elem in Hin as (k & -> & Hr).
  unfold slot. unfold queue_ok in H. apply Z.mod_pos_bound. lia.
Qed.

(** *** Commit appends the write slot *)
Lemma commit_ok cb :
  queue_ok cb → ∃ w, queue_commit cb = Done (set_m_write w cb) ∧
  next_index cb (m_write cb) = Done w ∧ queue_ok (set_m_write w cb).
Proof.
  intros H. unfold queue_commit.
  assert (Hw : 0 <= m_write cb < a_len cb) by (unfold queue_ok in H; tauto).
  rewrite (next_index_done cb _ H Hw). eexists. split; [done|]. split; [done|].
  unfold queue_ok in *. simpl. destruct_and!. split_and!; ring_arith.
Qed.

Lemma occupied_commit cb w :
  queue_ok cb → next_index cb (m_write cb) = Done w → w ≠ m_read cb →
  occupied (set_m_write w cb) = occupied cb ++ [m_write cb].
Proof.
  intros H Hw Hne.
  assert (Hm : 0 <= m_write cb < a_len cb) by (unfold queue_ok in H; tauto).
  rewrite (next_index_done cb _ H Hm) in Hw. apply done_inj in Hw.
  assert (Hok : queue_ok (set_m_write w cb)).
  { unfold queue_ok in *. simpl. destruct_and!. split_and!; ring_arith. }
  assert (Hlen : queue_len (set_m_write w cb) = queue_len cb + 1).
  { rewrite !queue_len_eq by done. simpl. ring_arith. }
  unfold occupied. rewrite Hlen. pose proof (queue_len_range cb H).
  rewrite seqZ_app by lia. rewrite fmap_app. f_equal.
  simpl. f_equal. rewrite slot_eq by (done || lia). simpl.
  pose proof (queue_len_eq cb H). ring_arith.
Qed.

(** *** Advancing the read index removes the oldest slot *)
Lemma read_ok cb r :
  queue_ok cb → next_index cb (m_read cb) = Done r → queue_ok (set_m_read r cb).
Proof.
  intros H. assert (Hr : 0 <= m_read cb < a_len cb) by (unfold queue_ok in H; tauto).
  rewrite (next_index_done cb _ H Hr). intros Hd. apply done_inj in Hd as <-.
  unfold queue_ok in *. simpl. destruct_and!. split_and!; ring_arith.
Qed.

Lemma occupied_advance cb r :
  queue_ok cb → next_index cb (m_read cb) = Done r → m_read cb ≠ m_write cb →
  occupied cb = m_read cb :: occupied (set_m_read r cb).
Proof.
  intros H Hr Hne. pose proof (read_ok cb r H Hr) as Hok.
  assert (Hm : 0 <= m_read cb < a_len cb) by (unfold queue_ok in H; tauto).
  rewrite (next_index_done cb _ H Hm) in Hr. apply done_inj in Hr.
  assert (Hlen : queue_len cb = queue_len (set_m_read r cb) + 1).
  { rewrite !queue_len_eq by done. simpl. ring_arith. }
  unfold occupied. rewrite Hlen. pose proof (queue_len_range _ Hok).
  rewrite (Z.add_comm _ 1), seqZ_app by lia. rewrite fmap_app. simpl.
  f_equal; [rewrite slot_eq by (done || lia); ring_arith|].
  rewrite <-(fmap_add_seqZ 1 0), <-list_fmap_compose.
  apply list_fmap_ext. intros i k [-> Hk]%lookup_seqZ. simpl.
  pose proof (queue_len_range cb H).
  rewrite (slot_eq cb), (slot_eq (set_m_read r cb)) by (done || simpl; lia).
  simpl. ring_arith.
Qed.

Lemma occupied_nil_iff cb : queue_ok cb → occupied cb = [] ↔ m_read cb = m_write cb.
Proof.
  intros H. rewrite <-length_zero_iff_nil. pose proof (occupied_length cb H).
  pose proof (queue_len_eq cb H). ring_arith.
Qed.

Lemma full_iff cb w :
  queue_ok cb → next_index cb (m_write cb) = Done w →
  w = m_read cb ↔ queue_len cb = a_len cb - 1.
Proof.
  intros H Hw. assert (Hm : 0 <= m_write cb < a_len cb) by (unfold queue_ok in H; tauto).
  rewrite (next_index_done cb _ H Hm) in Hw. apply done_inj in Hw.
  pose proof (queue_len_eq cb H). ring_arith.
Qed.

Lemma set_m_write_same cb : set_m_write (m_write cb) cb = cb.
Proof. by destruct cb. Qed.

Lemma queue_peek_hd cb :
  queue_ok cb → queue_peek cb = (fun s => s * b_size cb) <$> head (occupied cb).
Proof.
  intros H. unfold queue_peek. case_tests.
  - by rewrite (proj2 (occupied_nil_iff cb H)).
  - assert (Hm : 0 <= m_read cb < a_len cb) by (unfold queue_ok in H; tauto).
    erewrite (occupied_advance cb) by (done || by apply next_index_done). simpl.
    f_equal. by apply offset_done.
Qed.

Lemma discard_spec n cb :
  queue_ok cb →
  ∃ cb', queue_discard cb n = Done (Z.min n (queue_len cb), cb') ∧
    queue_ok cb' ∧ occupied cb' = drop n (occupied cb) ∧
    m_write cb' = m_write cb ∧ b_size cb' = b_size cb ∧ a_len cb' = a_len cb.
Proof.
  revert cb. induction n as [|n IH]; intros cb H; cbn [queue_discard].
  { pose proof (queue_len_range cb H). exists cb. rewrite Z.min_l by lia.
    by rewrite drop_0. }
  pose proof (queue_len_range cb H).
  destruct (bool_decide_reflect (m_read cb = m_write cb)) as [He|He].
  { assert (Ho := proj2 (occupied_nil_iff cb H) He).
    pose proof (occupied_length cb H) as Hl. rewrite Ho in Hl. simpl in Hl.
    exists cb. rewrite <-Hl, Ho, drop_nil. by rewrite Z.min_r by lia. }
  assert (Hm : 0 <= m_read cb < a_len cb) by (unfold queue_ok in H; tauto).
  destruct (next_index cb (m_read cb)) as [r| |] eqn:Hr;
    try by rewrite next_index_done in Hr.
  rewrite bind_done. pose proof (read_ok cb r H Hr) as Hok.
  pose proof (occupied_advance cb r H Hr He) as Ho.
  destruct (IH _ Hok) as (cb' & Hd & Hok' & Ho' & Hw & Hb & Ha).
  rewrite Hd, bind_done. exists cb'. split_and!; try done.
  - do 2 f_equal. pose proof (occupied_length cb H) as Hl.
    pose proof (occupied_length _ Hok). rewrite Ho in Hl. simpl in Hl. lia.
  - rewrite Ho'. by rewrite Ho.
Qed.

(** ** One producer and one consumer *)
Section spsc.
Context {A : Type}.

(** Where the producer is: idle; holding a slot to fill; slot filled; next
    write index computed by [queue_commit], about to be stored. *)
Inductive producer : Type :=
| PIdle
| PAlloc (idx : Z) (x : A)
| PFilled (x : A)
| PStore (next : Z) (x : A).

(** Where the consumer is: idle; peeked a slot; block copied out; next read
    index computed by [queue_discard], about to be stored. *)
Inductive consumer : Type :=
| CIdle
| CPeeked (idx : Z)
| CCopied (x : A)
| CStore (next : Z) (x : A).

(** The shared memory, the two program counters, and as history the blocks
    the producer has committed and the consumer has discarded. *)
Record spsc : Type := Spsc {
  q_cb : queue_cb;
  q_data : list A;
  q_prod : producer;
  q_cons : consumer;
  q_sent : list A;
  q_recv : list A
}.

(** The block at byte offset [idx]. *)
Definition block (cb : queue_cb) (idx : Z) : nat := Z.to_nat (idx / b_size cb).

Inductive spsc_step : spsc → spsc → Prop :=
| step_alloc cb data c sent recv idx x :
    queue_alloc cb = Done idx → idx ≠ -1 →
    spsc_step (Spsc cb data PIdle c sent recv)
              (Spsc cb data (PAlloc idx x) c sent recv)
| step_fill cb data c sent recv idx x :
    spsc_step (Spsc cb data (PAlloc idx x) c sent recv)
              (Spsc cb (<[block cb idx := x]> data) (PFilled x) c sent recv)
| step_commit_load cb data c sent recv x cb' :
    queue_commit cb = Done cb' →
    spsc_step (Spsc cb data (PFilled x) c sent recv)
              (Spsc cb data (PStore (m_write cb') x) c sent recv)
| step_commit_store cb data c sent recv next x :
    spsc_step (Spsc cb data (PStore next x) c sent recv)
              (Spsc (set_m_write next cb) data PIdle c (sent ++ [x]) recv)
| step_peek cb data p sent recv idx :
    queue_peek cb = Some idx →
    spsc_step (Spsc cb data p CIdle sent recv)
              (Spsc cb data p (CPeeked idx) sent recv)
| step_copy cb data p sent recv idx x :
    data !! block cb idx = Some x →
    spsc_step (Spsc cb data p (CPeeked idx) sent recv)
              (Spsc cb data p (CCopied x) sent recv)
| step_discard_load cb data p sent recv x cb' :
    queue_discard cb 1 = Done (1, cb') →
    spsc_step (Spsc cb data p (CCopied x) sent recv)
              (Spsc cb data p (CStore (m_read cb') x) sent recv)
| step_discard_store cb data p sent recv next x :
    spsc_step (Spsc cb data p (CStore next x) sent recv)
              (Spsc (set_m_read next cb) data p CIdle sent (recv ++ [x])).

(** The start: an empty ring over [a_len] blocks. *)
Definition spsc_init (s : spsc) : Prop :=
  queue_ok (q_cb s) ∧ m_read (q_cb s) = m_write (q_cb s) ∧
  Z.of_nat (length (q_data s)) = a_len (q_cb s) ∧
  q_prod s = PIdle ∧ q_cons s = CIdle ∧ q_sent s = [] ∧ q_recv s = [].

(** The committed blocks that wait in the ring. *)
Definition pending (s : spsc) : list (option A) :=
  (fun k => q_data s !! Z.to_nat k) <$> occupied (q_cb s).

Definition prod_inv (s : spsc) : Prop :=
  match q_prod s with
  | PIdle => True
  | PAlloc idx x =>
      idx = m_write (q_cb s) * b_size (q_cb s) ∧
      ∃ w, next_index (q_cb s) (m_write (q_cb s)) = Done w ∧ w ≠ m_read (q_cb s)
  | PFilled x =>
      q_data s !! Z.to_nat (m_write (q_cb s)) = Some x ∧
      ∃ w, next_index (q_cb s) (m_write (q_cb s)) = Done w ∧ w ≠ m_read (q_cb s)
  | PStore next x =>
      q_data s !! Z.to_nat (m_write (q_cb s)) = Some x ∧
      next_index (q_cb s) (m_write (q_cb s)) = Done next ∧ next ≠ m_read (q_cb s)
  end.

Definition cons_inv (s : spsc) : Prop :=
  match q_cons s with
  | CIdle => True
  | CPeeked idx =>
      idx = m_read (q_cb s) * b_size (q_cb s) ∧ m_read (q_cb s) ≠ m_write (q_cb s)
  | CCopied x =>
      q_data s !! Z.to_nat (m_read (q_cb s)) = Some x ∧
      m_read (q_cb s) ≠ m_write (q_cb s)
  | CStore next x =>
      q_data s !! Z.to_nat (m_read (q_cb s)) = Some x ∧
      m_read (q_cb s) ≠ m_write (q_cb s) ∧
      next_index (q_cb s) (m_read (q_cb s)) = Done next
  end.

Definition spsc_inv (s : spsc) : Prop :=
  queue_ok (q_cb s) ∧ Z.of_nat (length (q_data s)) = a_len (q_cb s) ∧
  Some <$> q_sent s = (Some <$> q_recv s) ++ pending s ∧
  prod_inv s ∧ cons_inv s.

Lemma block_offset cb k : queue_ok cb → block cb (k * b_size cb) = Z.to_nat k.
Proof. unfold queue_ok, block. intros. by rewrite Z.div_mul by lia. Qed.

(** Filling the write slot does not disturb a slot that is in use. *)
Lemma lookup_other_slot (data : list A) cb k x :
  queue_ok cb → k ∈ occupied cb →
  <[Z.to_nat (m_write cb) := x]> data !! Z.to_nat k = data !! Z.to_nat k.
Proof.
  intros H Hk. pose proof (occupied_range cb k H Hk).
  apply list_lookup_insert_ne. intros He.
  apply (write_slot_free cb H). replace (m_write cb) with k; [done|].
  unfold queue_ok in H. lia.
Qed.

Lemma read_slot_occupied cb :
  queue_ok cb → m_read cb ≠ m_write cb → m_read cb ∈ occupied cb.
Proof.
  intros H Hne.
  assert (Hm : 0 <= m_read cb < a_len cb) by (unfold queue_ok in H; tauto).
  erewrite (occupied_advance cb) by (done || by apply next_index_done). left.
Qed.

Lemma next_index_inj cb x y z :
  queue_ok cb → 0 <= x < a_len cb → 0 <= y < a_len cb →
  next_index cb x = Done z → next_index cb y = Done z → x = y.
Proof.
  intros H Hx Hy. rewrite !next_index_done by done.
  intros Hz%done_inj Hz'%done_inj. ring_arith.
Qed.

Lemma index_ranges cb :
  queue_ok cb → 0 <= m_write cb < a_len cb ∧ 0 <= m_read cb < a_len cb.
Proof. unfold queue_ok. tauto. Qed.

(** The producer's next index is not the slot the consumer moves to. *)
Lemma next_ne_advanced cb w r :
  queue_ok cb → next_index cb (m_write cb) = Done w →
  next_index cb (m_read cb) = Done r → m_read cb ≠ m_write cb → w ≠ r.
Proof.
  intros H Hw Hr Hne ->. destruct (index_ranges cb H).
  by apply Hne, (next_index_inj cb _ _ r).
Qed.

Lemma inv_alloc cb data c sent recv idx x :
  queue_alloc cb = Done idx → idx ≠ -1 →
  spsc_inv (Spsc cb data PIdle c sent recv) →
  spsc_inv (Spsc cb data (PAlloc idx x) c sent recv).
Proof.
  intros Ha Hi (Hok & Hl & Hs & _ & Hc). unfold spsc_inv. simpl in *.
  split_and!; [done..| |done]. unfold prod_inv. simpl.
  unfold queue_alloc in Ha. inv_done. revert Ha. case_tests; intros Ha%done_inj; [done|].
  destruct (index_ranges cb Hok). subst idx. rewrite offset_done by done. eauto.
Qed.

Lemma inv_fill cb data c sent recv idx x :
  spsc_inv (Spsc cb data (PAlloc idx x) c sent recv) →
  spsc_inv (Spsc cb (<[block cb idx := x]> data) (PFilled x) c sent recv).
Proof.
  intros (Hok & Hl & Hs & (Hi & w & Hw & Hne) & Hc). simpl in *. subst idx.
  rewrite block_offset by done. destruct (index_ranges cb Hok).
  assert (Hread : m_read cb ≠ m_write cb →
    <[Z.to_nat (m_write cb) := x]> data !! Z.to_nat (m_read cb) = data !! Z.to_nat (m_read cb)).
  { intros. by apply lookup_other_slot, read_slot_occupied. }
  unfold spsc_inv. simpl. split_and!; [done| | | |].
  - by rewrite length_insert.
  - rewrite Hs. f_equal. unfold pending. simpl.
    apply list_fmap_ext. intros i k Hk%list_elem_of_lookup_2.
    symmetry. by apply lookup_other_slot.
  - unfold prod_inv. simpl. split; [|eauto].
    apply list_lookup_insert_eq. lia.
  - unfold cons_inv in *. simpl in *. destruct c; try done; rewrite Hread by tauto; done.
Qed.

Lemma inv_commit_store cb data c sent recv next x :
  spsc_inv (Spsc cb data (PStore next x) c sent recv) →
  spsc_inv (Spsc (set_m_write next cb) data PIdle c (sent ++ [x]) recv).
Proof.
  intros (Hok & Hl & Hs & (Hx & Hw & Hne) & Hc). simpl in *.
  destruct (commit_ok cb Hok) as (w & _ & Hw' & Hok').
  rewrite Hw in Hw'. apply done_inj in Hw' as <-.
  unfold spsc_inv. simpl. split_and!; [done|done| |done|].
  - rewrite fmap_app, Hs, <-app_assoc. f_equal. unfold pending. simpl.
    rewrite (occupied_commit cb next) by done. rewrite fmap_app. simpl. by rewrite Hx.
  - unfold cons_inv in *. simpl in *. destruct c; naive_solver.
Qed.

Lemma inv_peek cb data p sent recv idx :
  queue_peek cb = Some idx →
  spsc_inv (Spsc cb data p CIdle sent recv) →
  spsc_inv (Spsc cb data p (CPeeked idx) sent recv).
Proof.
  intros Hp (Hok & Hl & Hs & Hpi & _). unfold spsc_inv. simpl in *.
  split_and!; [done..|]. unfold cons_inv. simpl.
  unfold queue_peek in Hp. revert Hp. case_tests; [done|].
  destruct (index_ranges cb Hok). rewrite offset_done by done. naive_solver.
Qed.

Lemma inv_discard_store cb data p sent recv next x :
  spsc_inv (Spsc cb data p (CStore next x) sent recv) →
  spsc_inv (Spsc (set_m_read next cb) data p CIdle sent (recv ++ [x])).
Proof.
  intros (Hok & Hl & Hs & Hpi & (Hx & Hne & Hr)). simpl in *.
  unfold spsc_inv. simpl. split_and!; [by apply read_ok|done| | |done].
  - rewrite fmap_app, <-app_assoc, Hs. f_equal. unfold pending. simpl.
    rewrite (occupied_advance cb next) by done. simpl. by rewrite Hx.
  - unfold prod_inv in *. simpl in *. destruct p; try done.
    + destruct Hpi as (? & w & Hw & _). split; [done|]. exists w. split; [done|].
      by eapply next_ne_advanced.
    + destruct Hpi as (? & w & Hw & _). split; [done|]. exists w. split; [done|].
      by eapply next_ne_advanced.
    + destruct Hpi as (? & Hw & _). split_and!; [done..|]. by eapply next_ne_advanced.
Qed.

Lemma spsc_step_inv s s' : spsc_step s s' → spsc_inv s → spsc_inv s'.
Proof.
  destruct 1 as [| |cb data c sent recv x cb' Hcm| | |cb data p sent recv idx x Hx
    |cb data p sent recv x cb' Hd|]; intros Hinv.
  - by eapply inv_alloc.
  - by apply inv_fill.
  - destruct Hinv as (Hok & Hl & Hs & (Hf & w & Hw & Hne) & Hc). simpl in *.
    unfold spsc_inv. simpl. split_and!; try done.
    unfold queue_commit in Hcm. rewrite Hw, bind_done in Hcm. by apply done_inj in Hcm as <-.
  - by apply inv_commit_store.
  - by apply inv_peek.
  - destruct Hinv as (Hok & Hl & Hs & Hp & (Hi & Hne)). simpl in *. subst idx.
    rewrite block_offset in Hx by done. by unfold spsc_inv.
  - destruct Hinv as (Hok & Hl & Hs & Hp & (Hf & Hne)). simpl in *.
    unfold spsc_inv. simpl. split_and!; try done. unfold cons_inv. simpl.
    split_and!; [done..|]. simpl in Hd. rewrite bool_decide_false in Hd by done.
    inv_done. by injection Hd as <-.
  - by apply inv_discard_store.
Qed.

Lemma spsc_init_inv s : spsc_init s → spsc_inv s.
Proof.
  destruct s as [cb data p c sent recv]. unfold spsc_init. simpl.
  intros (Hok & Hrw & Hl & -> & -> & -> & ->). unfold spsc_inv. simpl.
  split_and!; try done. unfold pending. simpl.
  by rewrite (proj2 (occupied_nil_iff cb Hok)).
Qed.

Lemma spsc_reachable_inv s s' : spsc_init s → rtc spsc_step s s' → spsc_inv s'.
Proof.
  intros Hi%spsc_init_inv Hr. induction Hr; eauto using spsc_step_inv.
Qed.
End spsc.

(** ** Properties *)

(** Functional refinement of every operation of the queue by a bounded
    FIFO of slots.  [queue_alloc] returns -1 exactly when [a_len - 1] slots
    are occupied, and otherwise the offset of a slot that is not occupied;
    [queue_commit] then appends that slot; [queue_peek] gives the offset of the
    oldest slot; [queue_discard] removes the [n] oldest ones and returns how
    many there were; the two clear operations leave it empty; the two
    predicates are exact. *)
Theorem queue_refines_fifo cb n :
  queue_ok cb →
  let full := Z.of_nat (length (occupied cb)) = a_len cb - 1 in
  queue_alloc cb =
    Done (if bool_decide full then -1 else m_write cb * b_size cb) ∧
  (m_write cb ∉ occupied cb) ∧
  (¬ full → ∃ cb', queue_commit cb = Done cb' ∧ queue_ok cb' ∧
     occupied cb' = occupied cb ++ [m_write cb]) ∧
  queue_peek cb = (fun s => s * b_size cb) <$> head (occupied cb) ∧
  (∃ cb', queue_discard cb n = Done (Z.min n (length (occupied cb)), cb') ∧
     queue_ok cb' ∧ occupied cb' = drop n (occupied cb)) ∧
  occupied (queue_clear_from_push_end cb) = [] ∧
  occupied (queue_clear_from_pop_end cb) = [] ∧
  queue_isempty cb = bool_decide (occupied cb = []) ∧
  queue_isfull cb = Done (bool_decide full).
Proof.
  intros H full. destruct (index_ranges cb H) as [Hw Hr].
  pose proof (occupied_length cb H) as Hlen.
  destruct (commit_ok cb H) as (w & Hc & Hn & Hok).
  pose proof (full_iff cb w H Hn) as Hf.
  assert (Hfull : w = m_read cb ↔ full) by (unfold full; rewrite Hlen; done).
  split_and!.
  - unfold queue_alloc. rewrite Hn, bind_done, (bool_decide_ext _ _ Hfull).
    case_tests; [done|]. by rewrite offset_done.
  - by apply write_slot_free.
  - intros Hnf. exists (set_m_write w cb). split_and!; [done..|].
    apply occupied_commit; [done|done|]. tauto.
  - by apply queue_peek_hd.
  - rewrite Hlen. destruct (discard_spec n cb H) as (cb' & ?). exists cb'. tauto.
  - apply occupied_nil_iff; [|done]. unfold queue_ok in *. simpl. tauto.
  - apply occupied_nil_iff; [|done]. unfold queue_ok in *. simpl. tauto.
  - unfold queue_isempty. apply bool_decide_ext.
    rewrite (occupied_nil_iff cb H). naive_solver.
  - unfold queue_isfull. rewrite Hn, bind_done. f_equal. by apply bool_decide_ext.
Qed.

(** The queue of a socket: [queue_create(4096, 16384)], one block committed. *)
Definition sample_queue : queue_cb := QueueCb 4096 4 3 2.

Lemma sample_queue_ok : queue_ok sample_queue.
Proof. unfold queue_ok. simpl. lia. Qed.

Lemma queue_refines_fifo_witness :
  queue_alloc sample_queue = Done 12288 ∧
  ∃ cb', queue_discard sample_queue 2 = Done (1, cb') ∧ queue_ok cb' ∧
    occupied cb' = [].
Proof.
  destruct (queue_refines_fifo sample_queue 2 sample_queue_ok)
    as (Ha & _ & _ & _ & Hd & _). split; [exact Ha|exact Hd].
Defined.

(** C18: no lost, duplicated, reordered or corrupted datagram: in every state
    that the interleaved producer and consumer can reach, the blocks the
    consumer has received are a prefix of those the producer has committed,
    the rest are stored in the ring in order, and they are at most
    [a_len - 1]. *)
Theorem spsc_fifo {A} (s s' : @spsc A) :
  spsc_init s → rtc spsc_step s s' →
  ∃ rest, q_sent s' = q_recv s' ++ rest ∧ pending s' = Some <$> rest ∧
    Z.of_nat (length rest) <= a_len (q_cb s') - 1.
Proof.
  intros Hi Hr. destruct (spsc_reachable_inv s s' Hi Hr) as (Hok & _ & Hs & _).
  apply fmap_app_inv in Hs as (recv & rest & Hrecv & Hrest & Hsent).
  apply (inj (fmap Some)) in Hrecv. subst recv.
  exists rest. split_and!; [done|done|].
  apply (f_equal length) in Hrest. unfold pending in Hrest.
  rewrite !length_fmap in Hrest. pose proof (occupied_length _ Hok).
  pose proof (queue_len_range _ Hok). lia.
Qed.

(** A concrete run for the witnesses: a ring of three one-byte blocks in which
    one datagram is committed and copied out while a second one is filled. *)
Definition run_init : @spsc nat := Spsc (QueueCb 1 3 0 0) [0; 0; 0]%nat PIdle CIdle [] [].

Definition run_mid : @spsc nat :=
  Spsc (QueueCb 1 3 1 0) [7; 0; 0]%nat (PAlloc 1 8%nat) (CPeeked 0) [7%nat] [].

Lemma run_init_ok : spsc_init run_init.
Proof. unfold spsc_init, queue_ok. simpl. split_and!; try done; lia. Qed.

Lemma run_init_mid : rtc spsc_step run_init run_mid.
Proof.
  eapply rtc_l; [apply (step_alloc _ _ _ _ _ 0 7%nat); done|].
  eapply rtc_l; [apply step_fill|].
  eapply rtc_l; [eapply step_commit_load; vm_compute; reflexivity|].
  eapply rtc_l; [apply step_commit_store|].
  eapply rtc_l; [apply (step_alloc _ _ _ _ _ 1 8%nat); done|].
  eapply rtc_l; [apply (step_peek _ _ _ _ _ 0); done|].
  apply rtc_refl.
Qed.

Lemma spsc_fifo_witness :
  ∃ rest, q_sent run_mid = q_recv run_mid ++ rest ∧ pending run_mid = Some <$> rest ∧
    Z.of_nat (length rest) <= a_len (q_cb run_mid) - 1.
Proof. apply (spsc_fifo run_init run_mid); [apply run_init_ok|apply run_init_mid]. Defined.

(** No data race on the blocks: whenever the producer is about to fill a
    block and the consumer is about to copy one, they are different blocks, and
    both are inside the data array. *)
Theorem spsc_no_race {A} (s s' : @spsc A) i j x :
  spsc_init s → rtc spsc_step s s' →
  q_prod s' = PAlloc i x → q_cons s' = CPeeked j →
  block (q_cb s') i ≠ block (q_cb s') j ∧
  (block (q_cb s') i < length (q_data s'))%nat ∧
  (block (q_cb s') j < length (q_data s'))%nat.
Proof.
  intros Hi Hr Hp Hc. destruct (spsc_reachable_inv s s' Hi Hr) as (Hok & Hl & _ & Hpi & Hci).
  unfold prod_inv in Hpi. unfold cons_inv in Hci. rewrite Hp in Hpi. rewrite Hc in Hci.
  destruct Hpi as (-> & _). destruct Hci as (-> & Hne).
  destruct (index_ranges _ Hok). rewrite !block_offset by done. lia.
Qed.

Lemma spsc_no_race_witness :
  block (q_cb run_mid) 1 ≠ block (q_cb run_mid) 0 ∧
  (block (q_cb run_mid) 1 < length (q_data run_mid))%nat ∧
  (block (q_cb run_mid) 0 < length (q_data run_mid))%nat.
Proof.
  apply (spsc_no_race run_init run_mid 1 0 8%nat);
    [apply run_init_ok|apply run_init_mid|reflexivity|reflexivity].
Defined.

(** No deadlock: with a ring of at least two blocks, in every reachable
    state the producer can move unless the ring is full, the consumer can move
    unless it is empty, and so one of them always can. *)
Theorem spsc_progress {A} (s s' : @spsc A) (x : A) :
  spsc_init s → rtc spsc_step s s' → 2 <= a_len (q_cb s') →
  (queue_len (q_cb s') < a_len (q_cb s') - 1 →
     ∃ t, spsc_step s' t ∧ q_cons t = q_cons s' ∧ q_recv t = q_recv s') ∧
  (0 < queue_len (q_cb s') →
     ∃ t, spsc_step s' t ∧ q_prod t = q_prod s' ∧ q_sent t = q_sent s') ∧
  ∃ t, spsc_step s' t.
Proof.
  intros Hi Hr Hlen. pose proof (spsc_reachable_inv s s' Hi Hr) as (Hok & Hl & _ & Hpi & Hci).
  destruct s' as [cb data p c sent recv]. simpl in *.
  enough (Hpc : (queue_len cb < a_len cb - 1 →
     ∃ t, spsc_step (Spsc cb data p c sent recv) t ∧ q_cons t = c ∧ q_recv t = recv) ∧
    (0 < queue_len cb →
     ∃ t, spsc_step (Spsc cb data p c sent recv) t ∧ q_prod t = p ∧ q_sent t = sent)).
  { split_and!; [apply Hpc|apply Hpc|].
    destruct (decide (0 < queue_len cb)); [naive_solver|].
    destruct Hpc as [Hpc _]. destruct Hpc as (t & ? & _); [|by exists t].
    pose proof (queue_len_range cb Hok). lia. }
  destruct (index_ranges cb Hok). split; intros Hq.
  - destruct (commit_ok cb Hok) as (w & Hcm & Hn & _).
    destruct p as [|idx y|y|next y].
    + eexists. split; [eapply (step_alloc _ _ _ _ _ _ x)|done].
      * unfold queue_alloc. rewrite Hn, bind_done, bool_decide_false; [done|].
        rewrite (full_iff cb w Hok Hn). lia.
      * rewrite offset_done by done. unfold queue_ok in Hok. nia.
    + eexists. split; [apply step_fill|done].
    + eexists. split; [by eapply step_commit_load|done].
    + eexists. split; [apply step_commit_store|done].
  - assert (Hne : m_read cb ≠ m_write cb).
    { rewrite <-occupied_nil_iff by done. intros He.
      pose proof (occupied_length cb Hok) as Ho. rewrite He in Ho. simpl in Ho. lia. }
    destruct c as [|idx|y|next y].
    + eexists. split; [eapply step_peek|done].
      unfold queue_peek. by rewrite bool_decide_false.
    + destruct (lookup_lt_is_Some_2 data (block cb idx)) as [y Hy].
      { destruct Hci as (-> & _). simpl. rewrite block_offset by done. lia. }
      eexists. split; [by eapply step_copy|done].
    + destruct (discard_spec 1 cb Hok) as (cb' & Hd & _).
      rewrite Z.min_l in Hd by lia.
      eexists. split; [by eapply step_discard_load|done].
    + eexists. split; [apply step_discard_store|done].
Qed.

Lemma spsc_progress_witness :
  (queue_len (q_cb run_mid) < a_len (q_cb run_mid) - 1 →
     ∃ t, spsc_step run_mid t ∧ q_cons t = q_cons run_mid ∧ q_recv t = q_recv run_mid) ∧
  (0 < queue_len (q_cb run_mid) →
     ∃ t, spsc_step run_mid t ∧ q_prod t = q_prod run_mid ∧ q_sent t = q_sent run_mid) ∧
  ∃ t, spsc_step run_mid t.
Proof.
  apply (spsc_progress run_init run_mid 0%nat); [apply run_init_ok|apply run_init_mid|].
  vm_compute. discriminate.
Defined.
