(* ===== verification/RBTree.v ===== *)
(** * The red-black trees of [src/tree.h]

    [RB_GENERATE] instantiates one algorithm for the ARP cache, the two route
    tables, the UDP sockets, the TCP connections and the reassembly buffers.
    It is modelled at the level of its pointers: an element is identified by a
    number (its address), the [RB_ENTRY] fields of all elements are a finite
    map, and every macro and function reads and writes that map in the order of
    the source.  A NULL pointer or an address without an element is [Fault].

    The two mirror-image branches that the source spells out with [RB_LEFT] and
    [RB_RIGHT] exchanged are one text over a direction [d]: [RB_CHILD L] is
    [RB_LEFT] and [RB_CHILD R] is [RB_RIGHT]. *)

From S2P Require Import Prelude.

(** ** Data *)
Inductive rb_color : Type := RB_BLACK | RB_RED.

Inductive dir : Type := L | R.

Definition opp (d : dir) : dir := match d with L => R | R => L end.

#[export] Instance rb_color_eq_dec : EqDecision rb_color.
Proof. solve_decision. Defined.

#[export] Instance dir_eq_dec : EqDecision dir.
Proof. solve_decision. Defined.

Abbreviation ptr := (option nat).

(** [RB_ENTRY(type)] *)
Record rb_entry : Type := RbEntry {
  rbe_left : ptr;
  rbe_right : ptr;
  rbe_parent : ptr;
  rbe_color : rb_color
}.

(** [RB_HEAD(name, type)] together with the entries of all elements. *)
Record rb_head : Type := RbHead {
  rbh_root : ptr;
  rb_nodes : gmap nat rb_entry
}.

(** ** Field access *)
Definition get_child (d : dir) (e : rb_entry) : ptr :=
  match d with L => rbe_left e | R => rbe_right e end.

Definition put_child (d : dir) (v : ptr) (e : rb_entry) : rb_entry :=
  match d with
  | L => RbEntry v (rbe_right e) (rbe_parent e) (rbe_color e)
  | R => RbEntry (rbe_left e) v (rbe_parent e) (rbe_color e)
  end.

Definition put_parent (v : ptr) (e : rb_entry) : rb_entry :=
  RbEntry (rbe_left e) (rbe_right e) v (rbe_color e).

Definition put_color (c : rb_color) (e : rb_entry) : rb_entry :=
  RbEntry (rbe_left e) (rbe_right e) (rbe_parent e) c.

(** [*elm]: the entry of the element a pointer points to. *)
Definition entry (h : rb_head) (elm : ptr) : outcome rb_entry :=
  i ← deref elm; deref (rb_nodes h !! i).

Definition RB_CHILD (d : dir) (h : rb_head) (elm : ptr) : outcome ptr :=
  get_child d <$> entry h elm.
Definition RB_LEFT : rb_head → ptr → outcome ptr := RB_CHILD L.
Definition RB_RIGHT : rb_head → ptr → outcome ptr := RB_CHILD R.
Definition RB_PARENT (h : rb_head) (elm : ptr) : outcome ptr :=
  rbe_parent <$> entry h elm.
Definition RB_COLOR (h : rb_head) (elm : ptr) : outcome rb_color :=
  rbe_color <$> entry h elm.

Definition update (f : rb_entry → rb_entry) (h : rb_head) (elm : ptr) : outcome rb_head :=
  i ← deref elm; e ← deref (rb_nodes h !! i);
  Done (RbHead (rbh_root h) (<[i := f e]> (rb_nodes h))).

Definition set_child (d : dir) (h : rb_head) (elm v : ptr) : outcome rb_head :=
  update (put_child d v) h elm.
Definition set_parent (h : rb_head) (elm v : ptr) : outcome rb_head :=
  update (put_parent v) h elm.
Definition set_color (h : rb_head) (elm : ptr) (c : rb_color) : outcome rb_head :=
  update (put_color c) h elm.
Definition set_root (h : rb_head) (v : ptr) : rb_head := RbHead v (rb_nodes h).

(** [if (elm) RB_PARENT(elm) = v], [if (elm) RB_COLOR(elm) = c] *)
Definition set_parent_if (h : rb_head) (elm v : ptr) : outcome rb_head :=
  match elm with Some _ => set_parent h elm v | None => Done h end.
Definition set_color_if (h : rb_head) (elm : ptr) (c : rb_color) : outcome rb_head :=
  match elm with Some _ => set_color h elm c | None => Done h end.

(** [elm && RB_COLOR(elm) == RB_RED] *)
Definition is_red (h : rb_head) (elm : ptr) : outcome bool :=
  match elm with
  | Some _ => c ← RB_COLOR h elm; Done (bool_decide (c = RB_RED))
  | None => Done false
  end.

(** [elm == NULL || RB_COLOR(elm) == RB_BLACK] *)
Definition is_black (h : rb_head) (elm : ptr) : outcome bool :=
  r ← is_red h elm; Done (negb r).

Definition RB_SET (h : rb_head) (elm parent : ptr) : outcome rb_head :=
  update (fun _ => RbEntry None None parent RB_RED) h elm.

Definition RB_SET_BLACKRED (h : rb_head) (black red : ptr) : outcome rb_head :=
  h ← set_color h black RB_BLACK; set_color h red RB_RED.

(** The link from [parent] (or from the head) to [elm] now points to [v]. *)
Definition relink (h : rb_head) (parent elm v : ptr) : outcome rb_head :=
  match parent with
  | Some _ =>
      l ← RB_LEFT h parent;
      if bool_decide (l = elm) then set_child L h parent v else set_child R h parent v
  | None => Done (set_root h v)
  end.

(** [RB_ROTATE_LEFT] ([d = L]) and [RB_ROTATE_RIGHT] ([d = R]). *)
Definition RB_ROTATE (d : dir) (h : rb_head) (elm : ptr) : outcome rb_head :=
  tmp ← RB_CHILD (opp d) h elm;
  c ← RB_CHILD d h tmp;
  h ← set_child (opp d) h elm c;
  h ← set_parent_if h c elm;
  p ← RB_PARENT h elm;
  h ← set_parent h tmp p;
  h ← relink h p elm tmp;
  h ← set_child d h tmp elm;
  set_parent h elm tmp.

(** ** Insertion *)
Fixpoint RB_INSERT_COLOR_loop (fuel : nat) (h : rb_head) (elm : ptr) : outcome rb_head :=
  match fuel with
  | O => Spin
  | S fuel =>
    parent ← RB_PARENT h elm;
    red ← is_red h parent;
    if negb red then Done h else
    gparent ← RB_PARENT h parent;
    l ← RB_LEFT h gparent;
    let d := if bool_decide (parent = l) then L else R in
    tmp ← RB_CHILD (opp d) h gparent;
    tmp_red ← is_red h tmp;
    if (tmp_red : bool) then
      h ← set_color h tmp RB_BLACK;
      h ← RB_SET_BLACKRED h parent gparent;
      RB_INSERT_COLOR_loop fuel h gparent
    else
      inner ← RB_CHILD (opp d) h parent;
      '(h, parent, elm) ←
        (if bool_decide (inner = elm) then
           h ← RB_ROTATE d h parent; Done (h, elm, parent)
         else Done (h, parent, elm));
      h ← RB_SET_BLACKRED h parent gparent;
      h ← RB_ROTATE (opp d) h gparent;
      RB_INSERT_COLOR_loop fuel h elm
  end.

Definition RB_INSERT_COLOR (fuel : nat) (h : rb_head) (elm : ptr) : outcome rb_head :=
  h ← RB_INSERT_COLOR_loop fuel h elm;
  set_color h (rbh_root h) RB_BLACK.

(** The loops below run over chains of distinct elements: one step per element
    and one to stop are enough when the links form a tree. *)
Definition fuel_of (h : rb_head) : nat := S (size (rb_nodes h)).

#[global] Arguments fuel_of h : simpl never.

(** The descent of [RB_INSERT] and [RB_FIND]: [cmp i] is [cmp(elm, tmp)] for
    the element [i] of the tree.  The result is the element that compares
    equal, or the last one visited with the side the search left it on. *)
Fixpoint descend (fuel : nat) (cmp : nat → Z) (h : rb_head) (parent tmp : ptr) (comp : Z)
    : outcome (ptr + (ptr * Z)) :=
  match fuel with
  | O => Spin
  | S fuel =>
    match tmp with
    | None => Done (inr (parent, comp))
    | Some i =>
        let comp := cmp i in
        if bool_decide (comp < 0)%Z then
          l ← RB_LEFT h tmp; descend fuel cmp h tmp l comp
        else if bool_decide (comp > 0)%Z then
          r ← RB_RIGHT h tmp; descend fuel cmp h tmp r comp
        else Done (inl tmp)
    end
  end.

(** [RB_INSERT]: [None] when the element was linked, or the element of the
    tree that has the same key. *)
Definition RB_INSERT (cmp : nat → Z) (h : rb_head) (elm : nat) : outcome (ptr * rb_head) :=
  res ← descend (fuel_of h) cmp h None (rbh_root h) 0;
  match res with
  | inl tmp => Done (tmp, h)
  | inr (parent, comp) =>
      h ← RB_SET h (Some elm) parent;
      h ← (match parent with
           | Some _ =>
               if bool_decide (comp < 0)%Z then set_child L h parent (Some elm)
               else set_child R h parent (Some elm)
           | None => Done (set_root h (Some elm))
           end);
      h ← RB_INSERT_COLOR (fuel_of h) h (Some elm);
      Done (None, h)
  end.

(** ** Lookup *)
Definition RB_FIND (cmp : nat → Z) (h : rb_head) : outcome ptr :=
  res ← descend (fuel_of h) cmp h None (rbh_root h) 0;
  match res with
  | inl tmp => Done tmp
  | inr _ => Done None
  end.

(** ** Removal *)
Fixpoint RB_REMOVE_COLOR_loop (fuel : nat) (h : rb_head) (parent elm : ptr)
    : outcome (rb_head * ptr) :=
  match fuel with
  | O => Spin
  | S fuel =>
    black ← is_black h elm;
    if negb black || bool_decide (elm = rbh_root h) then Done (h, elm) else
    l ← RB_LEFT h parent;
    let d := if bool_decide (l = elm) then L else R in
    tmp ← RB_CHILD (opp d) h parent;
    c ← RB_COLOR h tmp;
    '(h, tmp) ←
      (if bool_decide (c = RB_RED) then
         h ← RB_SET_BLACKRED h tmp parent;
         h ← RB_ROTATE d h parent;
         tmp ← RB_CHILD (opp d) h parent;
         Done (h, tmp)
       else Done (h, tmp));
    near ← RB_CHILD d h tmp;
    near_black ← is_black h near;
    far ← RB_CHILD (opp d) h tmp;
    far_black ← is_black h far;
    if near_black && far_black then
      h ← set_color h tmp RB_RED;
      grand ← RB_PARENT h parent;
      RB_REMOVE_COLOR_loop fuel h grand parent
    else
      '(h, tmp) ←
        (if (far_black : bool) then
           h ← set_color_if h near RB_BLACK;
           h ← set_color h tmp RB_RED;
           h ← RB_ROTATE (opp d) h tmp;
           tmp ← RB_CHILD (opp d) h parent;
           Done (h, tmp)
         else Done (h, tmp));
      pc ← RB_COLOR h parent;
      h ← set_color h tmp pc;
      h ← set_color h parent RB_BLACK;
      far ← RB_CHILD (opp d) h tmp;
      h ← set_color_if h far RB_BLACK;
      h ← RB_ROTATE d h parent;
      Done (h, rbh_root h)
  end.

Definition RB_REMOVE_COLOR (fuel : nat) (h : rb_head) (parent elm : ptr) : outcome rb_head :=
  '(h, elm) ← RB_REMOVE_COLOR_loop fuel h parent elm;
  set_color_if h elm RB_BLACK.

(** [while ((left = RB_LEFT(elm)) != NULL) elm = left;] *)
Fixpoint leftmost (fuel : nat) (h : rb_head) (elm : ptr) : outcome ptr :=
  match fuel with
  | O => Spin
  | S fuel =>
    l ← RB_LEFT h elm;
    match l with
    | Some _ => leftmost fuel h l
    | None => Done elm
    end
  end.

(** [do { RB_AUGMENT(left); } while ((left = RB_PARENT(left)) != NULL)]: with an
    empty [RB_AUGMENT] only the walk to the root is left. *)
Fixpoint augment_walk (fuel : nat) (h : rb_head) (left : ptr) : outcome unit :=
  match fuel with
  | O => Spin
  | S fuel =>
    left ← RB_PARENT h left;
    match left with
    | Some _ => augment_walk fuel h left
    | None => Done tt
    end
  end.

Definition RB_REMOVE (h : rb_head) (elm : ptr) : outcome rb_head :=
  let old := elm in
  oldl ← RB_LEFT h elm;
  oldr ← RB_RIGHT h elm;
  '(h, color, parent, child) ←
    (match oldl, oldr with
     | Some _, Some _ =>
         elm ← leftmost (fuel_of h) h oldr;
         child ← RB_RIGHT h elm;
         parent ← RB_PARENT h elm;
         color ← RB_COLOR h elm;
         h ← set_parent_if h child parent;
         h ← relink h parent elm child;
         ep ← RB_PARENT h elm;
         let parent := if bool_decide (ep = old) then elm else parent in
         olde ← entry h old;
         h ← update (fun _ => olde) h elm;
         h ← relink h (rbe_parent olde) old elm;
         ol ← RB_LEFT h old;
         h ← set_parent h ol elm;
         or ← RB_RIGHT h old;
         h ← set_parent_if h or elm;
         _ ← (match parent with
              | Some _ => augment_walk (fuel_of h) h parent
              | None => Done tt
              end);
         Done (h, color, parent, child)
     | _, _ =>
         let child := match oldl with None => oldr | Some _ => oldl end in
         parent ← RB_PARENT h elm;
         color ← RB_COLOR h elm;
         h ← set_parent_if h child parent;
         h ← relink h parent elm child;
         Done (h, color, parent, child)
     end);
  if bool_decide (color = RB_BLACK) then RB_REMOVE_COLOR (fuel_of h) h parent child
  else Done h.

(** ** Traversal *)
Fixpoint RB_MINMAX_loop (fuel : nat) (d : dir) (h : rb_head) (parent tmp : ptr) : outcome ptr :=
  match fuel with
  | O => Spin
  | S fuel =>
    match tmp with
    | None => Done parent
    | Some _ => t ← RB_CHILD d h tmp; RB_MINMAX_loop fuel d h tmp t
    end
  end.

Definition RB_MIN (h : rb_head) : outcome ptr :=
  RB_MINMAX_loop (fuel_of h) L h None (rbh_root h).

(** [while (RB_PARENT(elm) && elm == RB_RIGHT(RB_PARENT(elm))) elm = RB_PARENT(elm);] *)
Fixpoint climb (fuel : nat) (h : rb_head) (elm : ptr) : outcome ptr :=
  match fuel with
  | O => Spin
  | S fuel =>
    p ← RB_PARENT h elm;
    match p with
    | None => Done elm
    | Some _ =>
        r ← RB_RIGHT h p;
        if bool_decide (elm = r) then climb fuel h p else Done elm
    end
  end.

Definition RB_NEXT (h : rb_head) (elm : ptr) : outcome ptr :=
  r ← RB_RIGHT h elm;
  match r with
  | Some _ => leftmost (fuel_of h) h r
  | None =>
      p ← RB_PARENT h elm;
      l ← (match p with Some _ => RB_LEFT h p | None => Done None end);
      if bool_decide (p ≠ None) && bool_decide (elm = l) then Done p
      else
        e ← climb (fuel_of h) h elm;
        RB_PARENT h e
  end.

(** [RB_FOREACH(x, name, head) if (f x) goto match]: the first element, in the
    order of the traversal, that satisfies [f]. *)
Fixpoint foreach_find (fuel : nat) (f : nat → bool) (h : rb_head) (x : ptr) : outcome ptr :=
  match fuel with
  | O => Spin
  | S fuel =>
    match x with
    | None => Done None
    | Some i => if f i then Done (Some i) else n ← RB_NEXT h x; foreach_find fuel f h n
    end
  end.

Definition RB_FOREACH_FIND (f : nat → bool) (h : rb_head) : outcome ptr :=
  x ← RB_MIN h; foreach_find (fuel_of h) f h x.
