(* ===== verification/RBShape.v ===== *)
(** * The shape of a red-black tree in memory

    The inductive trees and contexts (zippers) that the pointer structure of
    [RBTree] represents, the red-black invariants on them, and the
    representation predicate [focus h z t]: the heap [h] holds the tree [t] in
    the context [z].  Every primitive of [RBTree] gets a lemma on [focus]; the
    files [RBInsert] and [RBRemove] only use those. *)

From S2P Require Import Prelude RBTree.

(** ** Trees and contexts *)
Inductive tree : Type :=
| E
| T (c : rb_color) (l : tree) (i : nat) (r : tree).

#[export] Instance tree_eq_dec : EqDecision tree.
Proof. solve_decision. Defined.

(** A frame: the hole is the [d] child of element [i] of colour [c], whose
    other child is [s]. *)
Record frame : Type := Frame {
  f_dir : dir;
  f_color : rb_color;
  f_id : nat;
  f_sib : tree
}.

Abbreviation zipper := (list frame).

(** The node with [near] on its [d] side. *)
Definition mk (d : dir) (c : rb_color) (near : tree) (i : nat) (far : tree) : tree :=
  match d with L => T c near i far | R => T c far i near end.

Definition root_ptr (t : tree) : ptr :=
  match t with E => None | T _ _ i _ => Some i end.

Definition zparent (z : zipper) : ptr :=
  match z with [] => None | f :: _ => Some (f_id f) end.

Fixpoint inorder (t : tree) : list nat :=
  match t with
  | E => []
  | T _ l i r => inorder l ++ i :: inorder r
  end.

(** The elements left and right of the hole of a context, in order. *)
Fixpoint zleft (z : zipper) : list nat :=
  match z with
  | [] => []
  | f :: z =>
      match f_dir f with L => zleft z | R => zleft z ++ inorder (f_sib f) ++ [f_id f] end
  end.

Fixpoint zright (z : zipper) : list nat :=
  match z with
  | [] => []
  | f :: z =>
      match f_dir f with L => f_id f :: inorder (f_sib f) ++ zright z | R => zright z end
  end.

Definition whole (z : zipper) (t : tree) : list nat := zleft z ++ inorder t ++ zright z.

Fixpoint height (t : tree) : nat :=
  match t with
  | E => 0
  | T _ l _ r => S (max (height l) (height r))
  end.

(** ** The red-black invariants *)

(** [rb c n t]: no red element of [t] has a red child, every path has [n]
    black elements, and the root has colour [c] (an empty tree is black). *)
Inductive rb : rb_color → nat → tree → Prop :=
| rb_E : rb RB_BLACK 0 E
| rb_red n l i r : rb RB_BLACK n l → rb RB_BLACK n r → rb RB_RED n (T RB_RED l i r)
| rb_black n cl cr l i r : rb cl n l → rb cr n r → rb RB_BLACK (S n) (T RB_BLACK l i r).

(** [rbz c n z]: filling the hole of [z] with a tree of root colour [c] and
    black height [n] gives a red-black tree with a black root. *)
Inductive rbz : rb_color → nat → zipper → Prop :=
| rbz_nil n : rbz RB_BLACK n []
| rbz_red n d i s z :
    rb RB_BLACK n s → rbz RB_RED n z → rbz RB_BLACK n (Frame d RB_RED i s :: z)
| rbz_black n c cs d i s z :
    rb cs n s → rbz RB_BLACK (S n) z → rbz c n (Frame d RB_BLACK i s :: z).

(** ** Representation in the heap *)
Definition mke (d : dir) (near far parent : ptr) (c : rb_color) : rb_entry :=
  match d with L => RbEntry near far parent c | R => RbEntry far near parent c end.

Fixpoint rep (m : gmap nat rb_entry) (parent : ptr) (t : tree) : Prop :=
  match t with
  | E => True
  | T c l i r =>
      m !! i = Some (RbEntry (root_ptr l) (root_ptr r) parent c) ∧
      rep m (Some i) l ∧ rep m (Some i) r
  end.

(** The context around the subtree with root pointer [hole]. *)
Fixpoint repz (m : gmap nat rb_entry) (root hole : ptr) (z : zipper) : Prop :=
  match z with
  | [] => root = hole
  | f :: z =>
      m !! f_id f =
        Some (mke (f_dir f) hole (root_ptr (f_sib f)) (zparent z) (f_color f)) ∧
      rep m (Some (f_id f)) (f_sib f) ∧
      repz m root (Some (f_id f)) z
  end.

Definition focus (h : rb_head) (z : zipper) (t : tree) : Prop :=
  rep (rb_nodes h) (zparent z) t ∧
  repz (rb_nodes h) (rbh_root h) (root_ptr t) z ∧
  NoDup (whole z t).

(** Two heaps with the same set of elements. *)
Definition same_dom (h h' : rb_head) : Prop := dom (rb_nodes h') = dom (rb_nodes h).

(** ** Elementary facts *)
Lemma opp_opp d : opp (opp d) = d.
Proof. by destruct d. Qed.

Lemma opp_ne d : opp d ≠ d.
Proof. by destruct d. Qed.

Lemma mk_opp d c a i b : mk (opp d) c a i b = mk d c b i a.
Proof. by destruct d. Qed.

Lemma mke_opp d a b p c : mke (opp d) a b p c = mke d b a p c.
Proof. by destruct d. Qed.

Lemma root_ptr_mk d c a i b : root_ptr (mk d c a i b) = Some i.
Proof. by destruct d. Qed.

Lemma root_ptr_None t : root_ptr t = None ↔ t = E.
Proof. by destruct t. Qed.

Lemma T_mk d c l i r :
  T c l i r = mk d c (match d with L => l | R => r end) i (match d with L => r | R => l end).
Proof. by destruct d. Qed.

Lemma get_child_mke d a b p c : get_child d (mke d a b p c) = a.
Proof. by destruct d. Qed.

Lemma get_child_opp_mke d a b p c : get_child (opp d) (mke d a b p c) = b.
Proof. by destruct d. Qed.

Lemma put_child_mke d v a b p c : put_child d v (mke d a b p c) = mke d v b p c.
Proof. by destruct d. Qed.

Lemma put_child_opp_mke d v a b p c : put_child (opp d) v (mke d a b p c) = mke d a v p c.
Proof. by destruct d. Qed.

Lemma put_parent_mke d v a b p c : put_parent v (mke d a b p c) = mke d a b v c.
Proof. by destruct d. Qed.

Lemma put_color_mke d v a b p c : put_color v (mke d a b p c) = mke d a b p v.
Proof. by destruct d. Qed.

Lemma rbe_parent_mke d a b p c : rbe_parent (mke d a b p c) = p.
Proof. by destruct d. Qed.

Lemma rbe_color_mke d a b p c : rbe_color (mke d a b p c) = c.
Proof. by destruct d. Qed.

Create Rewrite HintDb rb.
#[export] Hint Rewrite opp_opp mk_opp mke_opp root_ptr_mk get_child_mke get_child_opp_mke
  put_child_mke put_child_opp_mke put_parent_mke put_color_mke rbe_parent_mke rbe_color_mke
  : rb.

Lemma rep_mk m p d c a i b :
  rep m p (mk d c a i b) ↔
  m !! i = Some (mke d (root_ptr a) (root_ptr b) p c) ∧ rep m (Some i) a ∧ rep m (Some i) b.
Proof. destruct d; simpl; tauto. Qed.

Lemma rep_root m p t i :
  rep m p t → root_ptr t = Some i → ∃ e, m !! i = Some e ∧ rbe_parent e = p.
Proof. destruct t as [|c l j r]; simpl; [done|]. intros [H _] [= <-]. eauto. Qed.

Lemma whole_up f z t :
  whole (f :: z) t = whole z (mk (f_dir f) (f_color f) t (f_id f) (f_sib f)).
Proof.
  unfold whole. destruct f as [[] c i s]; simpl; by rewrite <-?app_assoc; simpl;
    rewrite <-?app_assoc.
Qed.

Lemma whole_inorder z t t' : inorder t = inorder t' → whole z t = whole z t'.
Proof. unfold whole. by intros ->. Qed.

(** A rotation does not change the order of the elements. *)
Lemma inorder_rotate d c1 c2 c3 c4 a x b y e :
  inorder (mk d c1 a x (mk d c2 b y e)) = inorder (mk d c3 (mk d c4 a x b) y e).
Proof. by destruct d; simpl; rewrite <-?app_assoc. Qed.

Lemma inorder_mk_color d c c' a i b : inorder (mk d c a i b) = inorder (mk d c' a i b).
Proof. by destruct d. Qed.

(** Moving the focus up is no operation on the heap. *)
Lemma focus_up h f z t :
  focus h (f :: z) t ↔ focus h z (mk (f_dir f) (f_color f) t (f_id f) (f_sib f)).
Proof.
  unfold focus. rewrite <-whole_up, rep_mk, root_ptr_mk. simpl. tauto.
Qed.

Lemma focus_down d h z c a i b :
  focus h z (mk d c a i b) ↔ focus h (Frame d c i b :: z) a.
Proof. by rewrite focus_up. Qed.

Lemma focus_T h z c l i r : focus h z (T c l i r) ↔ focus h (Frame L c i r :: z) l.
Proof. by rewrite focus_up. Qed.

(** *** Frame properties of the representation *)
Lemma rep_ext m m' p t :
  (∀ i, i ∈ inorder t → m' !! i = m !! i) → rep m p t → rep m' p t.
Proof.
  revert p. induction t as [|c l IHl j r IHr]; intros p Hm; [done|].
  simpl in *. intros (Hj & Hl & Hr). split_and!.
  - rewrite Hm; [done|]. rewrite elem_of_app, elem_of_cons. tauto.
  - apply IHl; [|done]. intros i Hi. apply Hm. rewrite elem_of_app. tauto.
  - apply IHr; [|done]. intros i Hi. apply Hm. rewrite elem_of_app, elem_of_cons. tauto.
Qed.

Lemma repz_ext m m' root hole z :
  (∀ i, i ∈ zleft z ∨ i ∈ zright z → m' !! i = m !! i) →
  repz m root hole z → repz m' root hole z.
Proof.
  revert hole. induction z as [|[d c j s] z IH]; intros hole Hm; [done|].
  simpl. intros (Hj & Hs & Hz). split_and!.
  - rewrite Hm; [done|]. destruct d; simpl; set_solver.
  - apply (rep_ext m); [|done]. intros i Hi. apply Hm. destruct d; simpl; set_solver.
  - apply IH; [|done]. intros i Hi. apply Hm. destruct d; simpl; set_solver.
Qed.

(** *** Distinctness *)
Lemma NoDup_mid (a b c : list nat) :
  NoDup (a ++ b ++ c) ↔
  NoDup b ∧ NoDup (a ++ c) ∧ ∀ i, i ∈ b → i ∉ a ++ c.
Proof.
  rewrite !NoDup_app. setoid_rewrite elem_of_app. naive_solver.
Qed.

Lemma inorder_mk d c a i b j : j ∈ inorder (mk d c a i b) ↔ j = i ∨ j ∈ inorder a ∨ j ∈ inorder b.
Proof. destruct d; simpl; rewrite elem_of_app, elem_of_cons; tauto. Qed.

(** The disjointness facts that a valid focus on a node provides. *)
Definition apart (a b : list nat) : Prop := ∀ j, j ∈ a → j ∉ b.

Lemma whole_mk z d c a i b :
  NoDup (whole z (mk d c a i b)) ↔
  (i ∉ inorder a) ∧ (i ∉ inorder b) ∧ (i ∉ zleft z ++ zright z) ∧
  apart (inorder a) (inorder b) ∧ apart (inorder a) (zleft z ++ zright z) ∧
  apart (inorder b) (zleft z ++ zright z) ∧
  NoDup (inorder a) ∧ NoDup (inorder b) ∧ NoDup (zleft z ++ zright z).
Proof.
  unfold whole, apart. rewrite NoDup_mid.
  assert (NoDup (inorder (mk d c a i b)) ↔ (i ∉ inorder a) ∧ (i ∉ inorder b) ∧
    (∀ j, j ∈ inorder a → j ∉ inorder b) ∧ NoDup (inorder a) ∧ NoDup (inorder b)) as ->.
  { destruct d; simpl; rewrite NoDup_app, NoDup_cons; setoid_rewrite elem_of_cons; naive_solver. }
  setoid_rewrite inorder_mk. naive_solver.
Qed.

Lemma whole_nodup z t :
  NoDup (whole z t) ↔
  NoDup (inorder t) ∧ NoDup (zleft z ++ zright z) ∧ apart (inorder t) (zleft z ++ zright z).
Proof. unfold whole, apart. apply NoDup_mid. Qed.

Lemma whole_nil t : whole [] t = inorder t.
Proof. unfold whole. simpl. apply app_nil_r. Qed.

Lemma inorder_mk_nodup d c a i b :
  NoDup (inorder (mk d c a i b)) →
  (i ∉ inorder a) ∧ (i ∉ inorder b) ∧ apart (inorder a) (inorder b) ∧
  NoDup (inorder a) ∧ NoDup (inorder b).
Proof. rewrite <-whole_nil, whole_mk. tauto. Qed.

Lemma zparent_in z i : zparent z = Some i → i ∈ zleft z ++ zright z.
Proof.
  destruct z as [|[[] c j s] z]; simpl; [done| |]; intros [= ->]; set_solver.
Qed.

Lemma root_ptr_in t i : root_ptr t = Some i → i ∈ inorder t.
Proof. destruct t; simpl; [done|]. intros [= ->]. set_solver. Qed.

(** ** The primitives on a represented tree *)
Lemma update_done f h i e :
  rb_nodes h !! i = Some e →
  update f h (Some i) = Done (RbHead (rbh_root h) (<[i := f e]> (rb_nodes h))).
Proof. intros H. unfold update. simpl. by rewrite H. Qed.

Lemma set_parent_done h i e v :
  rb_nodes h !! i = Some e →
  set_parent h (Some i) v =
  Done (RbHead (rbh_root h) (<[i := put_parent v e]> (rb_nodes h))).
Proof. apply update_done. Qed.

Lemma set_child_done d h i e v :
  rb_nodes h !! i = Some e →
  set_child d h (Some i) v =
  Done (RbHead (rbh_root h) (<[i := put_child d v e]> (rb_nodes h))).
Proof. apply update_done. Qed.

Lemma entry_done h i e : rb_nodes h !! i = Some e → entry h (Some i) = Done e.
Proof. intros H. unfold entry. simpl. by rewrite H. Qed.

Lemma child_done d h i e :
  rb_nodes h !! i = Some e → RB_CHILD d h (Some i) = Done (get_child d e).
Proof. intros H. unfold RB_CHILD. by rewrite (entry_done h i e H). Qed.

Lemma parent_done h i e :
  rb_nodes h !! i = Some e → RB_PARENT h (Some i) = Done (rbe_parent e).
Proof. intros H. unfold RB_PARENT. by rewrite (entry_done h i e H). Qed.

Lemma color_done h i e :
  rb_nodes h !! i = Some e → RB_COLOR h (Some i) = Done (rbe_color e).
Proof. intros H. unfold RB_COLOR. by rewrite (entry_done h i e H). Qed.

Lemma same_dom_insert h root i e e' :
  rb_nodes h !! i = Some e → same_dom h (RbHead root (<[i := e']> (rb_nodes h))).
Proof.
  intros H. unfold same_dom. simpl. rewrite dom_insert_L.
  apply elem_of_dom_2 in H. set_solver.
Qed.

Lemma same_dom_trans h1 h2 h3 : same_dom h1 h2 → same_dom h2 h3 → same_dom h1 h3.
Proof. unfold same_dom. congruence. Qed.

Section focus_reads.
Context (h : rb_head) (z : zipper) (d : dir) (c : rb_color) (a : tree) (i : nat) (b : tree).
Context (Hf : focus h z (mk d c a i b)).

Lemma focus_entry :
  rb_nodes h !! i = Some (mke d (root_ptr a) (root_ptr b) (zparent z) c).
Proof. destruct Hf as [Hr _]. by apply rep_mk in Hr as [? _]. Qed.

Lemma focus_child : RB_CHILD d h (Some i) = Done (root_ptr a).
Proof. rewrite (child_done _ h i _ focus_entry). by autorewrite with rb. Qed.

Lemma focus_child_opp : RB_CHILD (opp d) h (Some i) = Done (root_ptr b).
Proof. rewrite (child_done _ h i _ focus_entry). by autorewrite with rb. Qed.

Lemma focus_parent : RB_PARENT h (Some i) = Done (zparent z).
Proof. rewrite (parent_done h i _ focus_entry). by autorewrite with rb. Qed.

Lemma focus_color : RB_COLOR h (Some i) = Done c.
Proof. rewrite (color_done h i _ focus_entry). by autorewrite with rb. Qed.
End focus_reads.

Definition tree_red (t : tree) : bool :=
  match t with T RB_RED _ _ _ => true | _ => false end.

Lemma focus_is_red h z t : focus h z t → is_red h (root_ptr t) = Done (tree_red t).
Proof.
  destruct t as [|c l i r]; [done|]. intros H. simpl root_ptr. unfold is_red.
  rewrite (focus_color h z L c l i r H). by destruct c.
Qed.

Lemma focus_is_black h z t : focus h z t → is_black h (root_ptr t) = Done (negb (tree_red t)).
Proof. intros H. unfold is_black. by rewrite (focus_is_red h z t H). Qed.

(** *** Colour changes *)
Definition paint (c : rb_color) (t : tree) : tree :=
  match t with E => E | T _ l i r => T c l i r end.

Lemma inorder_paint c t : inorder (paint c t) = inorder t.
Proof. by destruct t. Qed.

Lemma root_ptr_paint c t : root_ptr (paint c t) = root_ptr t.
Proof. by destruct t. Qed.

Lemma set_color_focus h z c' d c a i b :
  focus h z (mk d c a i b) →
  ∃ h', set_color h (Some i) c' = Done h' ∧ focus h' z (mk d c' a i b) ∧
    same_dom h h' ∧ rbh_root h' = rbh_root h.
Proof.
  intros Hf. pose proof (focus_entry h z d c a i b Hf) as He.
  destruct Hf as (Hr & Hz & Hn). unfold set_color.
  rewrite (update_done _ _ _ _ He). eexists. split; [done|].
  split; [|split; [by eapply same_dom_insert|done]].
  pose proof Hn as (Hia & Hib & Hiz & _)%whole_mk. apply rep_mk in Hr as (_ & Ha & Hb).
  split_and!.
  - simpl. apply rep_mk. rewrite lookup_insert_eq. autorewrite with rb.
    split_and!; [done|..].
    + eapply rep_ext; [|done]. intros j Hj. apply lookup_insert_ne. naive_solver.
    + eapply rep_ext; [|done]. intros j Hj. apply lookup_insert_ne. naive_solver.
  - simpl. rewrite root_ptr_mk in Hz |- *. eapply repz_ext; [|done]. intros j Hj.
    apply lookup_insert_ne. rewrite elem_of_app in Hiz. naive_solver.
  - by apply whole_mk; apply whole_mk in Hn.
Qed.

Lemma set_color_if_focus h z c t :
  focus h z t →
  ∃ h', set_color_if h (root_ptr t) c = Done h' ∧ focus h' z (paint c t) ∧
    same_dom h h' ∧ rbh_root h' = rbh_root h.
Proof.
  destruct t as [|c' l i r]; intros Hf.
  - exists h. done.
  - apply (set_color_focus h z c L c' l i r Hf).
Qed.

(** *** Parent links *)
Lemma set_parent_if_spec h p v t :
  rep (rb_nodes h) p t → NoDup (inorder t) →
  ∃ h', set_parent_if h (root_ptr t) v = Done h' ∧ rbh_root h' = rbh_root h ∧
    rep (rb_nodes h') v t ∧
    (∀ i, root_ptr t ≠ Some i → rb_nodes h' !! i = rb_nodes h !! i) ∧ same_dom h h'.
Proof.
  destruct t as [|c l i r]; intros Hr Hn; [by exists h|].
  simpl in Hr, Hn. destruct Hr as (Hi & Hl & Hr).
  apply NoDup_app in Hn as (_ & Hd & (Hir & _)%NoDup_cons).
  simpl. unfold set_parent. rewrite (update_done _ _ _ _ Hi). eexists. split; [done|].
  split; [done|]. split; [|split].
  - simpl. rewrite lookup_insert_eq. split_and!; [done|..].
    + eapply rep_ext; [|done]. intros j Hj. apply lookup_insert_ne. set_solver.
    + eapply rep_ext; [|done]. intros j Hj. apply lookup_insert_ne. set_solver.
  - intros j Hj. simpl. apply lookup_insert_ne. naive_solver.
  - by eapply same_dom_insert.
Qed.

(** *** The link to the subtree *)
Definition put_hole (h : rb_head) (z : zipper) (v : ptr) : outcome rb_head :=
  match z with
  | [] => Done (set_root h v)
  | f :: _ => set_child (f_dir f) h (Some (f_id f)) v
  end.

Lemma frame_fresh d c p s z j :
  NoDup (zleft (Frame d c p s :: z) ++ zright (Frame d c p s :: z)) →
  j ∈ inorder s ∨ j ∈ zleft z ∨ j ∈ zright z → j ≠ p.
Proof.
  intros Hn Hj ->. destruct d; simpl in Hn.
  - apply NoDup_app in Hn as (_ & Hd & (Hp' & _)%NoDup_cons). set_solver.
  - rewrite <-!app_assoc in Hn. apply NoDup_app in Hn as (_ & Hd & Hn).
    apply NoDup_app in Hn as (_ & Hd' & Hn). apply NoDup_cons in Hn as (Hp' & _).
    set_solver.
Qed.

Lemma put_hole_spec h z hole v :
  repz (rb_nodes h) (rbh_root h) hole z → NoDup (zleft z ++ zright z) →
  ∃ h', put_hole h z v = Done h' ∧
    repz (rb_nodes h') (rbh_root h') v z ∧
    (∀ i, zparent z ≠ Some i → rb_nodes h' !! i = rb_nodes h !! i) ∧ same_dom h h'.
Proof.
  destruct z as [|[d c p s] z]; intros Hz Hn; simpl in Hz.
  { eexists. split; [done|]. done. }
  destruct Hz as (Hp & Hs & Hz). simpl. rewrite (set_child_done _ _ _ _ _ Hp).
  eexists. split; [done|]. split; [|split].
  - simpl. rewrite lookup_insert_eq, put_child_mke. split; [done|]. split.
    + eapply rep_ext; [|done]. intros j Hj. apply lookup_insert_ne.
      apply not_eq_sym. eapply frame_fresh; [exact Hn|tauto].
    + eapply repz_ext; [|done]. intros j Hj. apply lookup_insert_ne.
      apply not_eq_sym. eapply frame_fresh; [exact Hn|tauto].
  - intros i Hi. simpl. apply lookup_insert_ne. naive_solver.
  - by eapply same_dom_insert.
Qed.

Lemma relink_put_hole h z elm v :
  repz (rb_nodes h) (rbh_root h) (Some elm) z → elm ∉ zleft z ++ zright z →
  relink h (zparent z) (Some elm) v = put_hole h z v.
Proof.
  destruct z as [|[d c p s] z]; intros Hz He; simpl in Hz; [done|].
  destruct Hz as (Hp & _ & _). simpl zparent. unfold relink, RB_LEFT.
  rewrite (child_done _ _ _ _ Hp). simpl.
  assert (Hside : bool_decide (rbe_left (mke d (Some elm) (root_ptr s) (zparent z) c)
                   = Some elm) = bool_decide (d = L)).
  { apply bool_decide_ext. destruct d; simpl; [done|].
    split; [|done]. intros Hs'%root_ptr_in. set_solver. }
  rewrite Hside. by destruct d.
Qed.

Lemma relink_spec h z elm v :
  repz (rb_nodes h) (rbh_root h) (Some elm) z →
  NoDup (zleft z ++ zright z) → elm ∉ zleft z ++ zright z →
  ∃ h', relink h (zparent z) (Some elm) v = Done h' ∧
    repz (rb_nodes h') (rbh_root h') v z ∧
    (∀ i, zparent z ≠ Some i → rb_nodes h' !! i = rb_nodes h !! i) ∧ same_dom h h'.
Proof. intros Hz Hn He. rewrite relink_put_hole by done. by eapply put_hole_spec. Qed.

(** *** Rotation *)

(** The parts of the tree around [x] and its child [y] are apart. *)
Definition rotate_apart (z : zipper) (a : tree) (x : nat) (b : tree) (y : nat) (e : tree) : Prop :=
  let out := zleft z ++ zright z in
  (x ∉ inorder a ∧ x ∉ inorder b ∧ x ∉ inorder e ∧ x ∉ out ∧ x ≠ y) ∧
  (y ∉ inorder a ∧ y ∉ inorder b ∧ y ∉ inorder e ∧ y ∉ out) ∧
  (apart (inorder a) (inorder b) ∧ apart (inorder b) (inorder e) ∧ apart (inorder a) (inorder e)) ∧
  (apart (inorder a) out ∧ apart (inorder b) out ∧ apart (inorder e) out) ∧
  NoDup (inorder b) ∧ NoDup out.

Lemma whole_apart z d c1 a x c2 b y e :
  NoDup (whole z (mk d c1 a x (mk d c2 b y e))) → rotate_apart z a x b y e.
Proof.
  intros (Hxa & Hxr & Hxz & Har & Haz & Hrz & Hna & Hnr & Hnz)%whole_mk.
  pose proof Hnr as (Hyb & Hye & Hbe & Hnb & Hne)%inorder_mk_nodup.
  assert (Hin : ∀ j, j ∈ inorder b ∨ j = y ∨ j ∈ inorder e → j ∈ inorder (mk d c2 b y e))
    by (intros j Hj; apply inorder_mk; tauto).
  unfold rotate_apart, apart in *. split_and!; try done.
  - intros ?. apply Hxr, Hin. tauto.
  - intros ?. apply Hxr, Hin. tauto.
  - intros ->. apply Hxr, Hin. tauto.
  - intros ?. eapply Har; [done|]. apply Hin. tauto.
  - apply Hrz, Hin. tauto.
  - intros j Hj ?. eapply Har; [done|]. apply Hin. tauto.
  - intros j Hj ?. eapply Har; [done|]. apply Hin. tauto.
  - intros j Hj. apply Hrz, Hin. tauto.
  - intros j Hj. apply Hrz, Hin. tauto.
Qed.

(** The subtree with the two nodes exchanged. *)
Lemma rotate_rep (ns : gmap nat rb_entry) p d c1 a x c2 b y e :
  ns !! x = Some (mke d (root_ptr a) (root_ptr b) (Some y) c1) →
  ns !! y = Some (mke d (Some x) (root_ptr e) p c2) →
  rep ns (Some x) a → rep ns (Some x) b → rep ns (Some y) e →
  rep ns p (mk d c2 (mk d c1 a x b) y e).
Proof. intros Hx Hy Ha Hb He. apply rep_mk. rewrite root_ptr_mk. split; [done|]. split; [by apply rep_mk|done]. Qed.

Lemma rotate_focus h z d c1 a x c2 b y e :
  focus h z (mk d c1 a x (mk d c2 b y e)) →
  ∃ h', RB_ROTATE d h (Some x) = Done h' ∧
    focus h' z (mk d c2 (mk d c1 a x b) y e) ∧ same_dom h h'.
Proof.
  intros (Hr & Hz & Hn).
  apply rep_mk in Hr as (Hx & Ha & Hr). apply rep_mk in Hr as (Hy & Hb & He).
  rewrite root_ptr_mk in Hx, Hz.
  pose proof (whole_apart _ _ _ _ _ _ _ _ _ Hn) as ((Hxa & Hxb & Hxe & Hxz & Hxy) & (Hya & Hyb & Hye & Hyz) &
    (Hab & Hbe & Hae) & (Haz & Hbz & Hez) & Hnb & Hnz).
  unfold RB_ROTATE. rewrite (child_done _ _ _ _ Hx), get_child_opp_mke, bind_done.
  rewrite (child_done _ _ _ _ Hy), get_child_mke, bind_done.
  rewrite (set_child_done _ _ _ _ _ Hx), put_child_opp_mke, bind_done.
  set (h1 := RbHead _ _).
  assert (Hb1 : rep (rb_nodes h1) (Some y) b).
  { eapply rep_ext; [|done]. intros j Hj. apply lookup_insert_ne. naive_solver. }
  destruct (set_parent_if_spec h1 (Some y) (Some x) b Hb1 Hnb)
    as (h2 & -> & Hroot2 & Hb2 & Hsame2 & Hdom2). rewrite bind_done.
  assert (Hbr : ∀ j, j ∉ inorder b → root_ptr b ≠ Some j).
  { intros j Hj ?%root_ptr_in. done. }
  assert (Hx2 : rb_nodes h2 !! x = Some (mke d (root_ptr a) (root_ptr b) (zparent z) c1)).
  { rewrite Hsame2 by auto. simpl. apply lookup_insert_eq. }
  assert (Hy2 : rb_nodes h2 !! y = Some (mke d (root_ptr b) (root_ptr e) (Some x) c2)).
  { rewrite Hsame2 by auto. simpl. by rewrite lookup_insert_ne. }
  rewrite (parent_done _ _ _ Hx2), rbe_parent_mke, bind_done.
  rewrite (set_parent_done _ _ _ _ Hy2), put_parent_mke, bind_done.
  set (h3 := RbHead _ _).
  assert (Hz3 : repz (rb_nodes h3) (rbh_root h3) (Some x) z).
  { simpl. rewrite Hroot2. eapply repz_ext; [|exact Hz].
    intros j Hj. rewrite <-elem_of_app in Hj.
    rewrite lookup_insert_ne, Hsame2; [simpl; apply lookup_insert_ne| |]; try by intros ->.
    intros ?%root_ptr_in. by eapply Hbz. }
  destruct (relink_spec h3 z x (Some y) Hz3 Hnz Hxz) as (h4 & -> & Hz4 & Hsame4 & Hdom4).
  rewrite bind_done.
  assert (Hpz : ∀ j, j ∉ zleft z ++ zright z → zparent z ≠ Some j).
  { intros j Hj ?%zparent_in. done. }
  assert (Hy4 : rb_nodes h4 !! y = Some (mke d (root_ptr b) (root_ptr e) (zparent z) c2)).
  { rewrite Hsame4 by auto. simpl. apply lookup_insert_eq. }
  assert (Hx4 : rb_nodes h4 !! x = Some (mke d (root_ptr a) (root_ptr b) (zparent z) c1)).
  { rewrite Hsame4 by auto. simpl. by rewrite lookup_insert_ne. }
  rewrite (set_child_done _ _ _ _ _ Hy4), put_child_mke, bind_done.
  erewrite set_parent_done by (simpl; by rewrite lookup_insert_ne).
  rewrite put_parent_mke. eexists. split; [done|].
  assert (Hother : ∀ j, j ≠ x → j ≠ y → zparent z ≠ Some j → root_ptr b ≠ Some j →
    rb_nodes h4 !! j = rb_nodes h !! j).
  { intros j ????. rewrite Hsame4 by done. simpl. rewrite lookup_insert_ne, Hsame2 by done.
    simpl. by apply lookup_insert_ne. }
  split; [split_and!|].
  - simpl. apply rotate_rep.
    + by rewrite lookup_insert_eq.
    + by rewrite lookup_insert_ne, lookup_insert_eq.
    + eapply rep_ext; [|exact Ha]. intros j Hj.
      rewrite !lookup_insert_ne by by intros ->.
      apply Hother; [by intros ->|by intros ->|apply Hpz; by apply Haz|apply Hbr; by apply Hab].
    + eapply rep_ext; [|exact Hb2]. intros j Hj.
      rewrite !lookup_insert_ne by by intros ->.
      rewrite Hsame4 by (apply Hpz; by apply Hbz). simpl. apply lookup_insert_ne. by intros ->.
    + eapply rep_ext; [|exact He]. intros j Hj.
      rewrite !lookup_insert_ne by by intros ->.
      apply Hother; [by intros ->|by intros ->|apply Hpz; by apply Hez|].
      apply Hbr. intros ?. by eapply Hbe.
  - rewrite root_ptr_mk. simpl. eapply repz_ext; [|exact Hz4].
    intros j Hj. rewrite <-elem_of_app in Hj. rewrite !lookup_insert_ne; [done|by intros ->|by intros ->].
  - by erewrite whole_inorder in Hn by apply inorder_rotate.
  - eapply same_dom_trans; [|eapply (same_dom_trans h3)].
    + apply (same_dom_trans _ h1); [eapply same_dom_insert; exact Hx|].
      apply (same_dom_trans _ h2); [exact Hdom2|eapply same_dom_insert; exact Hy2].
    + exact Hdom4.
    + unfold same_dom. simpl. rewrite !dom_insert_L.
      apply elem_of_dom_2 in Hx4, Hy4. set_solver.
Qed.

(** ** Closing the focus *)
Fixpoint plug (z : zipper) (t : tree) : tree :=
  match z with
  | [] => t
  | f :: z => plug z (mk (f_dir f) (f_color f) t (f_id f) (f_sib f))
  end.

Lemma focus_plug h z t : focus h z t ↔ focus h [] (plug z t).
Proof. revert t. induction z as [|f z IH]; intros t; [done|]. by rewrite focus_up, IH. Qed.

Lemma inorder_plug z t : inorder (plug z t) = whole z t.
Proof.
  revert t. induction z as [|f z IH]; intros t; [symmetry; apply whole_nil|].
  simpl. by rewrite IH, whole_up.
Qed.

Lemma rb_mk_red d n a i b :
  rb RB_BLACK n a → rb RB_BLACK n b → rb RB_RED n (mk d RB_RED a i b).
Proof. destruct d; simpl; by constructor. Qed.

Lemma rb_mk_black d n ca cb a i b :
  rb ca n a → rb cb n b → rb RB_BLACK (S n) (mk d RB_BLACK a i b).
Proof. destruct d; simpl; by econstructor. Qed.

Lemma rb_plug c n z t : rbz c n z → rb c n t → ∃ n', rb RB_BLACK n' (plug z t).
Proof.
  intros Hz. revert t. induction Hz; intros t Ht; simpl; eauto using rb_mk_red, rb_mk_black.
Qed.

Lemma rb_color_eq c n t : rb c n t → c = if tree_red t then RB_RED else RB_BLACK.
Proof. by destruct 1. Qed.

Lemma rb_not_red c n t : rb c n t → tree_red t = false → rb RB_BLACK n t.
Proof. intros H Hr. pose proof (rb_color_eq _ _ _ H) as ->. by rewrite Hr in H. Qed.

Lemma rb_red_inv c n t :
  rb c n t → tree_red t = true →
  ∃ l i r, t = T RB_RED l i r ∧ rb RB_BLACK n l ∧ rb RB_BLACK n r.
Proof. destruct 1; simpl; naive_solver. Qed.

(** The black height bounds the height: the balance that makes every operation
    logarithmic. *)
Lemma rb_size_height c n t :
  rb c n t →
  (2 ^ n <= S (length (inorder t)) ∧
   height t <= 2 * n + (if decide (c = RB_RED) then 1 else 0))%nat.
Proof.
  induction 1 as [|n l i r _ [IHl Hl] _ [IHr Hr]|n cl cr l i r _ [IHl Hl] _ [IHr Hr]];
    simpl in *; rewrite ?length_app; simpl.
  - lia.
  - lia.
  - case_decide; case_decide; lia.
Qed.

(** The test [RB_LEFT(parent) == elm] finds the side of [elm]. *)
Lemma side_test h z d c a i b :
  focus h z (mk d c a i b) → root_ptr a ≠ root_ptr b →
  ∃ l, RB_LEFT h (Some i) = Done l ∧
    (if bool_decide (l = root_ptr a) then L else R) = d ∧
    (if bool_decide (root_ptr a = l) then L else R) = d.
Proof.
  intros Hf Hne. unfold RB_LEFT. destruct d; simpl in Hf.
  - rewrite (focus_child h z L c a i b Hf). eexists. split; [done|].
    by rewrite !bool_decide_true.
  - exists (root_ptr b). split; [apply (focus_child_opp h z R c a i b Hf)|].
    by rewrite !bool_decide_false.
Qed.

Lemma focus_root_ne h z d c a i b p :
  focus h z (mk d c a i b) → root_ptr a = Some p → root_ptr b ≠ Some p.
Proof.
  intros (_ & _ & Hn) Ha%root_ptr_in Hb%root_ptr_in.
  apply whole_mk in Hn as (_ & _ & _ & Hab & _). by eapply Hab.
Qed.

(** Going down one level keeps the invariant of the context. *)
Lemma rbz_down c n z d c' a i b :
  rb c n (mk d c' a i b) → rbz c n z →
  ∃ ca na, rb ca na a ∧ rbz ca na (Frame d c' i b :: z).
Proof.
  intros Ht Hz. destruct d; simpl in Ht; inversion Ht; subst;
    eexists _, _; (split; [done|]); by econstructor.
Qed.

(** The number of elements bounds the depth, hence the fuel. *)
Lemma height_inorder t : (height t <= length (inorder t))%nat.
Proof. induction t; simpl; rewrite ?length_app; simpl; lia. Qed.

Lemma length_zipper z : (length z <= length (zleft z ++ zright z))%nat.
Proof.
  induction z as [|[[] c i s] z IH]; simpl; rewrite ?length_app in *; simpl;
    rewrite ?length_app; simpl; lia.
Qed.

Lemma rep_in_dom m p t i : rep m p t → i ∈ inorder t → i ∈ dom m.
Proof.
  revert p. induction t as [|c l IHl j r IHr]; intros p; simpl; [set_solver|].
  intros (Hj & Hl & Hr). rewrite elem_of_app, elem_of_cons.
  intros [?|[->|?]]; [by eapply IHl|by eapply elem_of_dom_2|by eapply IHr].
Qed.

Lemma NoDup_dom_length (m : gmap nat rb_entry) (l : list nat) :
  NoDup l → (∀ i, i ∈ l → i ∈ dom m) → (length l <= size m)%nat.
Proof.
  intros Hn Hl. rewrite <-size_dom, <-(size_list_to_set (C:=gset nat) l Hn).
  apply subseteq_size. intros i. rewrite elem_of_list_to_set. apply Hl.
Qed.

Lemma focus_fuel h z t : focus h z t → (length (whole z t) < fuel_of h)%nat.
Proof.
  intros Hf. unfold fuel_of. apply focus_plug in Hf as (Hr & _ & Hn).
  rewrite whole_nil in Hn. rewrite <-inorder_plug.
  apply le_n_S, NoDup_dom_length; [done|]. intros i Hi. by eapply rep_in_dom.
Qed.

Lemma focus_fuel_height h z t : focus h z t → (height t + length z < fuel_of h)%nat.
Proof.
  intros Hf%focus_fuel. pose proof (height_inorder t). pose proof (length_zipper z).
  unfold whole in Hf. rewrite !length_app in *. lia.
Qed.

(** ** The heap holds a red-black tree over a sequence of elements *)
Definition valid (h : rb_head) (order : list nat) : Prop :=
  ∃ t n, focus h [] t ∧ rb RB_BLACK n t ∧ inorder t = order.

Lemma valid_nodup h order : valid h order → NoDup order.
Proof. intros (t & n & (_ & _ & Hn) & _ & <-). by rewrite whole_nil in Hn. Qed.

Lemma valid_in_dom h order i : valid h order → i ∈ order → i ∈ dom (rb_nodes h).
Proof. intros (t & n & (Hr & _) & _ & <-) Hi. by eapply rep_in_dom. Qed.

Lemma locate h z t c n i :
  focus h z t → rb c n t → rbz c n z → i ∈ inorder t →
  ∃ z' c' l r n', focus h z' (T c' l i r) ∧ rb c' n' (T c' l i r) ∧ rbz c' n' z' ∧
    whole z' (T c' l i r) = whole z t.
Proof.
  revert z c n. induction t as [|c' l IHl j r IHr]; intros z c n Hf Ht Hz Hi.
  { by apply elem_of_nil in Hi. }
  simpl in Hi. apply elem_of_app in Hi as [Hi|[->|Hi]%elem_of_cons].
  - destruct (rbz_down c n z L c' l j r Ht Hz) as (ca & na & Ha & Hza).
    destruct (IHl (Frame L c' j r :: z) ca na) as (z' & c2 & l2 & r2 & n2 & H); [|done..|].
    { by apply focus_T in Hf. }
    rewrite whole_up in H. eauto 10.
  - exists z, c', l, r, n. pose proof (rb_color_eq _ _ _ Ht) as ->. by destruct c'.
  - destruct (rbz_down c n z R c' r j l Ht Hz) as (ca & na & Ha & Hza).
    destruct (IHr (Frame R c' j l :: z) ca na) as (z' & c2 & l2 & r2 & n2 & H); [|done..|].
    { by rewrite focus_up. }
    rewrite whole_up in H. eauto 10.
Qed.

Lemma valid_focus h order i :
  valid h order → i ∈ order →
  ∃ z c l r n, focus h z (T c l i r) ∧ rb c n (T c l i r) ∧ rbz c n z ∧
    whole z (T c l i r) = order.
Proof.
  intros (t & n & Hf & Ht & <-) Hi. rewrite <-(whole_nil t).
  apply (locate h [] t RB_BLACK n); [done|done|constructor|done].
Qed.

(** Overwriting the links of an element outside the tree is harmless. *)
Lemma valid_unlinked h order i e :
  valid h order → i ∉ order → valid (RbHead (rbh_root h) (<[i := e]> (rb_nodes h))) order.
Proof.
  intros (t & n & (Hr & Hz & Hn) & Ht & <-) Hi. exists t, n. split_and!; [|done|done].
  split_and!; [|exact Hz|exact Hn]. eapply rep_ext; [|exact Hr].
  intros j Hj. apply lookup_insert_ne. by intros ->.
Qed.
