(* ===== verification/RBInsert.v ===== *)
(** * Insertion into a red-black tree

    [RB_INSERT_COLOR] restores the red-black invariants without changing the
    sequence of elements, and its loop stops within the height of the tree;
    [RB_INSERT] puts the new element at its place in the key order or returns
    the element that already has its key. *)

From S2P Require Import Prelude RBTree RBShape.

(** The result of a fix-up: the heap holds a balanced tree over the same
    sequence of elements. *)
Definition fixed (h h' : rb_head) (order : list nat) : Prop :=
  ∃ t n, focus h' [] t ∧ inorder t = order ∧ rb RB_BLACK n (paint RB_BLACK t) ∧
    t ≠ E ∧ same_dom h h'.

Lemma fixed_dom h0 h h' order : same_dom h0 h → fixed h h' order → fixed h0 h' order.
Proof.
  intros Hd (t & n & ? & ? & ? & ? & ?). exists t, n.
  split_and!; eauto using same_dom_trans.
Qed.

Lemma plug_not_E z d c a i b : plug z (mk d c a i b) ≠ E.
Proof.
  revert d c a i b. induction z as [|f z IH]; intros d c a i b; [by destruct d|].
  simpl. apply IH.
Qed.

Lemma rb_paint_black c n t : rb c n t → ∃ n', rb RB_BLACK n' (paint RB_BLACK t).
Proof. destruct 1; simpl; eauto using rb. Qed.

Lemma fixed_focus h z t c n :
  focus h z t → rbz c n z → rb c n t → t ≠ E → fixed h h (whole z t).
Proof.
  intros Hf Hz Ht Hne. destruct (rb_plug _ _ _ _ Hz Ht) as (n' & Hp).
  destruct (rb_paint_black _ _ _ Hp) as (m & Hm).
  exists (plug z t), m. rewrite <-focus_plug, inorder_plug. split_and!; [done..| |done].
  destruct t as [|c' l i r]; [done|]. rewrite (T_mk L). apply plug_not_E.
Qed.

(** The loop stops at once below a black parent or at the root. *)
Lemma insert_loop_stop fuel h z t i :
  focus h z t → root_ptr t = Some i →
  match z with [] => True | f :: _ => f_color f = RB_BLACK end →
  RB_INSERT_COLOR_loop (S fuel) h (Some i) = Done h.
Proof.
  intros Hf Hi Hz. destruct t as [|c l i' r]; [done|]. injection Hi as ->.
  simpl. rewrite (focus_parent h z L c l i r Hf), bind_done.
  destruct z as [|f z]; [done|]. apply focus_up in Hf. simpl in Hz.
  unfold is_red. simpl zparent. rewrite (focus_color _ _ _ _ _ _ _ Hf), Hz. done.
Qed.

(** The last iteration: recolour, rotate at the grandparent, stop. *)
Lemma insert_final fuel h z d n t i p s g u :
  focus h z (mk d RB_BLACK (mk d RB_RED t p s) g u) →
  root_ptr t = Some i → rb RB_RED n t → rb RB_BLACK n s → rb RB_BLACK n u →
  rbz RB_BLACK (S n) z →
  ∃ h', (h ← RB_SET_BLACKRED h (Some p) (Some g);
         h ← RB_ROTATE (opp d) h (Some g);
         RB_INSERT_COLOR_loop (S fuel) h (Some i)) = Done h' ∧
    fixed h h' (whole z (mk d RB_BLACK (mk d RB_RED t p s) g u)).
Proof.
  intros Hf Hi Ht Hs Hu Hz. unfold RB_SET_BLACKRED.
  apply focus_down in Hf.
  destruct (set_color_focus h _ RB_BLACK _ _ _ _ _ Hf) as (h1 & -> & Hf1 & Hd1 & _).
  rewrite bind_done. rewrite <-focus_down in Hf1.
  destruct (set_color_focus h1 _ RB_RED _ _ _ _ _ Hf1) as (h2 & -> & Hf2 & Hd2 & _).
  rewrite bind_done. rewrite <-mk_opp, <-(mk_opp d RB_BLACK) in Hf2.
  destruct (rotate_focus _ _ _ _ _ _ _ _ _ _ Hf2) as (h3 & -> & Hf3 & Hd3).
  rewrite bind_done.
  assert (Hf4 : focus h3 (Frame d RB_BLACK p (mk d RB_RED s g u) :: z) t).
  { rewrite focus_up. simpl. by rewrite !mk_opp in Hf3. }
  exists h3. split; [by apply (insert_loop_stop fuel h3 _ t i Hf4)|].
  apply (fixed_dom _ h3); [eauto using same_dom_trans|].
  eapply (fixed_focus _ _ _ RB_RED n) in Hf4;
    [|eapply rbz_black; [by apply rb_mk_red|done]|done|by intros ->].
  rewrite whole_up in Hf4. simpl in Hf4.
  by erewrite whole_inorder in Hf4 by apply inorder_rotate.
Qed.

(** The three recolourings of the red uncle case. *)
Lemma insert_recolor h z d t p s d1 g ul ui ur :
  focus h z (mk d RB_BLACK (mk d1 RB_RED t p s) g (T RB_RED ul ui ur)) →
  ∃ h1 h2, set_color h (Some ui) RB_BLACK = Done h1 ∧
    RB_SET_BLACKRED h1 (Some p) (Some g) = Done h2 ∧
    focus h2 z (mk d RB_RED (mk d1 RB_BLACK t p s) g (T RB_BLACK ul ui ur)) ∧
    same_dom h h2.
Proof.
  intros Hf. rewrite <-mk_opp in Hf. apply focus_down in Hf.
  destruct (set_color_focus h _ RB_BLACK L _ _ _ _ Hf) as (h1 & He1 & Hf1 & Hd1 & _).
  rewrite <-focus_down, mk_opp in Hf1. apply focus_down in Hf1.
  destruct (set_color_focus h1 _ RB_BLACK _ _ _ _ _ Hf1) as (h2 & He2 & Hf2 & Hd2 & _).
  rewrite <-focus_down in Hf2.
  destruct (set_color_focus h2 _ RB_RED _ _ _ _ _ Hf2) as (h3 & He3 & Hf3 & Hd3 & _).
  exists h1, h3. unfold RB_SET_BLACKRED. rewrite He2, bind_done.
  split_and!; [done|done|done|]. eauto using same_dom_trans.
Qed.

(** The black uncle cases: an inner child is first rotated outwards. *)
Lemma insert_black_uncle fuel h z d n t i p s d1 g u :
  focus h z (mk d RB_BLACK (mk d1 RB_RED t p s) g u) →
  root_ptr t = Some i → rb RB_RED n t → rb RB_BLACK n s → rb RB_BLACK n u →
  rbz RB_BLACK (S n) z →
  ∃ h', (inner ← RB_CHILD (opp d) h (Some p);
         '(h, parent, elm) ←
           (if bool_decide (inner = Some i) then
              h ← RB_ROTATE d h (Some p); Done (h, Some i, Some p)
            else Done (h, Some p, Some i));
         h ← RB_SET_BLACKRED h parent (Some g);
         h ← RB_ROTATE (opp d) h (Some g);
         RB_INSERT_COLOR_loop (S fuel) h elm) = Done h' ∧
    fixed h h' (whole z (mk d RB_BLACK (mk d1 RB_RED t p s) g u)).
Proof.
  intros Hf Hi Ht Hs Hu Hz. pose proof Hf as Hp. apply focus_down in Hp.
  destruct (decide (d1 = d)) as [->|Hd].
  - rewrite (focus_child_opp _ _ _ _ _ _ _ Hp), bind_done, bool_decide_false
      by (by eapply focus_root_ne).
    rewrite bind_done. by eapply insert_final.
  - assert (d1 = opp d) as -> by by destruct d, d1. rewrite mk_opp in Hf, Hp |- *.
    inversion Ht as [|n' l i0 r Hl Hr|]; subst. injection Hi as ->.
    rewrite (focus_child_opp _ _ _ _ _ _ _ Hp), bind_done, bool_decide_true by done.
    rewrite (T_mk d) in Hp.
    destruct (rotate_focus _ _ _ _ _ _ _ _ _ _ Hp) as (h1 & -> & Hf1 & Hd1).
    rewrite !bind_done. rewrite <-focus_down in Hf1.
    edestruct (insert_final fuel h1) as (h2 & -> & Hfix); [exact Hf1|..|exact Hz|].
    { apply root_ptr_mk. }
    { apply rb_mk_red; [done|by destruct d]. }
    { by destruct d. }
    { done. }
    exists h2. split; [done|]. eapply fixed_dom; [exact Hd1|].
    erewrite whole_inorder; [exact Hfix|].
    destruct d; simpl; by rewrite <-?app_assoc; simpl; rewrite <-?app_assoc.
Qed.

Lemma insert_loop_spec k fuel h z t i n :
  (length z <= k)%nat → (length z < fuel)%nat →
  focus h z t → root_ptr t = Some i → rb RB_RED n t → rbz RB_BLACK n z →
  ∃ h', RB_INSERT_COLOR_loop fuel h (Some i) = Done h' ∧ fixed h h' (whole z t).
Proof.
  revert fuel h z t i n. induction k as [|k IH]; intros fuel h z t i n Hk Hfuel Hf Hi Ht Hz;
    (destruct fuel as [|fuel]; [lia|]).
  all: destruct z as [|[d1 c1 p s] z1]; [|simpl in Hk].
  1, 3: exists h; split; [by apply (insert_loop_stop fuel h [] t i Hf)|];
    destruct (rb_paint_black _ _ _ Ht) as (m & Hm); exists t, m; rewrite whole_nil;
    split_and!; [done|done|done|by intros ->|done].
  { lia. }
  destruct c1.
  { exists h. split; [by apply (insert_loop_stop fuel h _ t i Hf)|].
    inversion Hz; subst. eapply fixed_focus; [done| |done|by intros ->].
    by eapply rbz_black. }
  inversion Hz as [|n' d' i' s' z' Hs Hz1|]; subst.
  inversion Hz1 as [| |n' c' cu d2 g u z2 Hu Hz2]; subst.
  pose proof Hf as Hfp. rewrite focus_up in Hfp. simpl in Hfp.
  pose proof Hfp as Hfg. rewrite focus_up in Hfg. simpl in Hfg.
  rewrite !whole_up. simpl f_dir. simpl f_color. simpl f_id. simpl f_sib.
  cbn [RB_INSERT_COLOR_loop].
  inversion Ht as [|n' l i0 r Hl Hr|]; subst. injection Hi as ->.
  rewrite (focus_parent h _ L _ _ _ _ Hf), bind_done. simpl zparent.
  assert (Hred : is_red h (Some p) = Done true).
  { unfold is_red. by rewrite (focus_color _ _ _ _ _ _ _ Hfp). }
  rewrite Hred, bind_done. simpl negb. cbv iota.
  rewrite (focus_parent h _ _ _ _ _ _ Hfp), bind_done. simpl zparent.
  destruct (side_test _ _ _ _ _ _ _ Hfg) as (lp & -> & _ & Hside).
  { rewrite root_ptr_mk. apply not_eq_sym. eapply focus_root_ne; [exact Hfg|apply root_ptr_mk]. }
  rewrite bind_done, root_ptr_mk in *. rewrite Hside.
  rewrite (focus_child_opp _ _ _ _ _ _ _ Hfg), bind_done.
  assert (Hur : is_red h (root_ptr u) = Done (tree_red u)).
  { eapply (focus_is_red h (Frame (opp d2) RB_BLACK g _ :: z2)).
    rewrite <-focus_down, mk_opp. exact Hfg. }
  rewrite Hur, bind_done.
  destruct (tree_red u) eqn:Hu'.
  - destruct (rb_red_inv _ _ _ Hu Hu') as (ul & ui & ur & -> & Hul & Hur').
    destruct (insert_recolor _ _ _ _ _ _ _ _ _ _ _ Hfg) as (h1 & h2 & He1 & He2 & Hf2 & Hd).
    simpl root_ptr. rewrite He1, bind_done, He2, bind_done.
    edestruct (IH fuel h2 z2) as (h3 & -> & Hfix); [| |exact Hf2|..].
    { simpl in Hk. lia. }
    { simpl in Hfuel. lia. }
    { apply root_ptr_mk. }
    { apply rb_mk_red; [by eapply rb_mk_black|by eapply rb_black]. }
    { done. }
    exists h3. split; [done|]. eapply fixed_dom; [exact Hd|].
    erewrite whole_inorder; [exact Hfix|]. by destruct d2, d1.
  - simpl in Hfuel. destruct fuel as [|fuel]; [lia|].
    apply (insert_black_uncle fuel h z2 d2 n); [done..|by eapply rb_not_red|done].
Qed.

Lemma insert_color_spec fuel h z t i n :
  (length z < fuel)%nat → focus h z t → root_ptr t = Some i → rb RB_RED n t →
  rbz RB_BLACK n z →
  ∃ h', RB_INSERT_COLOR fuel h (Some i) = Done h' ∧ valid h' (whole z t) ∧ same_dom h h'.
Proof.
  intros Hfuel Hf Hi Ht Hz.
  destruct (insert_loop_spec (length z) fuel h z t i n) as (h1 & He & t1 & m & Hf1 & Ho & Hb & Hne & Hd);
    [done..|].
  unfold RB_INSERT_COLOR. rewrite He, bind_done.
  assert (Hroot : rbh_root h1 = root_ptr t1) by apply Hf1.
  destruct t1 as [|c l j r]; [done|]. rewrite Hroot. simpl root_ptr.
  destruct (set_color_focus h1 [] RB_BLACK L _ _ _ _ Hf1) as (h2 & -> & Hf2 & Hd2 & _).
  exists h2. split; [done|]. split; [|eauto using same_dom_trans].
  exists (T RB_BLACK l j r), m. split_and!; done.
Qed.

(** ** The descent *)
Section search.
Context (key : nat → Z).

(** The key order of the tree, and a comparator that searches for [k]. *)
Definition sorted_by (order : list nat) : Prop :=
  StronglySorted (fun i j => key i < key j)%Z order.

Definition cmp_ok (k : Z) (cmp : nat → Z) (order : list nat) : Prop :=
  ∀ i, i ∈ order → (cmp i < 0 ↔ k < key i)%Z ∧ (0 < cmp i ↔ key i < k)%Z.

Lemma sorted_T l i r :
  sorted_by (l ++ i :: r) →
  sorted_by l ∧ sorted_by r ∧ (∀ j, j ∈ l → key j < key i)%Z ∧
  (∀ j, j ∈ r → key i < key j)%Z.
Proof.
  unfold sorted_by. intros (H1 & Hl & [Hr Hi]%StronglySorted_inv)%StronglySorted_app.
  rewrite Forall_forall in Hi. split_and!; [done|done| |done].
  intros j Hj. apply H1; set_solver.
Qed.

(** The side on which the search left the last element. *)
Definition side_ok (z : zipper) (comp : Z) : Prop :=
  match z with
  | [] => True
  | f :: _ => match f_dir f with L => (comp < 0)%Z | R => (0 < comp)%Z end
  end.

Lemma descend_spec fuel h cmp k z t c n comp :
  (height t < fuel)%nat → focus h z t → rb c n t → rbz c n z →
  sorted_by (inorder t) → cmp_ok k cmp (inorder t) → side_ok z comp →
  (∃ i, i ∈ inorder t ∧ key i = k ∧
     descend fuel cmp h (zparent z) (root_ptr t) comp = Done (inl (Some i))) ∨
  ((∀ i, i ∈ inorder t → key i ≠ k) ∧
   ∃ z' comp', descend fuel cmp h (zparent z) (root_ptr t) comp =
       Done (inr (zparent z', comp')) ∧
     focus h z' E ∧ rbz RB_BLACK 0 z' ∧ side_ok z' comp' ∧
     whole z' E = whole z t ∧
     (∀ i, i ∈ zleft z' → i ∈ zleft z ∨ key i < k)%Z ∧
     (∀ i, i ∈ zright z' → i ∈ zright z ∨ k < key i)%Z).
Proof.
  revert fuel z c n comp.
  induction t as [|c' l IHl j r IHr]; intros fuel z c n comp Hfuel Hf Ht Hz Hs Hc Hside;
    (destruct fuel as [|fuel]; [simpl in Hfuel; lia|]); cbn [descend root_ptr].
  { right. split; [intros i Hi; by apply elem_of_nil in Hi|]. exists z, comp.
    inversion Ht; subst. split_and!; auto. }
  simpl in Hfuel, Hs, Hc. apply sorted_T in Hs as (Hsl & Hsr & Hlj & Hrj).
  destruct (Hc j) as [Hlt Hgt]; [set_solver|].
  destruct (bool_decide_reflect (cmp j < 0)%Z) as [Hcmp|Hcmp].
  - apply Hlt in Hcmp as Hk. unfold RB_LEFT.
    rewrite (focus_child h z L c' l j r Hf), bind_done.
    destruct (rbz_down c n z L c' l j r Ht Hz) as (ca & na & Ha & Hza).
    destruct (IHl fuel (Frame L c' j r :: z) ca na (cmp j)) as
      [(i & Hi & Hki & Hd)|(Hne & z' & comp' & Hd & Hf' & Hz' & Hside' & Hw & Hzl & Hzr)];
      [lia|by apply focus_T in Hf|done|done|done|intros i Hi; apply Hc; set_solver|done|..].
    + left. exists i. simpl in *. split_and!; [set_solver|done|done].
    + right. split.
      { intros i [Hi|[->|Hi]%elem_of_cons]%elem_of_app; [by apply Hne|lia|].
        specialize (Hrj i Hi). lia. }
      exists z', comp'. simpl in Hd. rewrite whole_up in Hw. split_and!; try done.
      intros i [Hi|?]%Hzr; [|by right]. simpl in Hi.
      apply elem_of_cons in Hi as [->|[Hi|Hi]%elem_of_app]; [by right| |by left].
      right. specialize (Hrj i Hi). lia.
  - destruct (bool_decide_reflect (cmp j > 0)%Z) as [Hcmp'|Hcmp'].
    + assert (Hk : (key j < k)%Z) by (apply Hgt; lia). unfold RB_RIGHT.
      rewrite (focus_child_opp h z L c' l j r Hf : RB_CHILD R h (Some j) = _), bind_done.
      destruct (rbz_down c n z R c' r j l Ht Hz) as (ca & na & Ha & Hza).
      destruct (IHr fuel (Frame R c' j l :: z) ca na (cmp j)) as
        [(i & Hi & Hki & Hd)|(Hne & z' & comp' & Hd & Hf' & Hz' & Hside' & Hw & Hzl & Hzr)];
        [lia|by rewrite focus_up|done|done|done|intros i Hi; apply Hc; set_solver|simpl; lia|..].
      * left. exists i. simpl in *. split_and!; [set_solver|done|done].
      * right. split.
        { intros i [Hi|[->|Hi]%elem_of_cons]%elem_of_app; [|lia|by apply Hne].
          specialize (Hlj i Hi). lia. }
        exists z', comp'. simpl in Hd. rewrite whole_up in Hw. split_and!; try done.
        intros i [Hi|?]%Hzl; [|by right]. simpl in Hi.
        apply elem_of_app in Hi as [Hi|[Hi|Hi]%elem_of_app]; [by left| |].
        -- right. specialize (Hlj i Hi). lia.
        -- apply list_elem_of_singleton in Hi as ->. by right.
    + left. exists j. split_and!; [set_solver|lia|done].
Qed.

(** ** Lookup *)
Lemma find_spec h order k cmp :
  valid h order → sorted_by order → cmp_ok k cmp order →
  (∃ i, i ∈ order ∧ key i = k ∧ RB_FIND cmp h = Done (Some i)) ∨
  ((∀ i, i ∈ order → key i ≠ k) ∧ RB_FIND cmp h = Done None).
Proof.
  intros (t & n & Hf & Ht & <-) Hs Hc. unfold RB_FIND.
  assert (Hroot : rbh_root h = root_ptr t) by apply Hf. rewrite Hroot.
  destruct (descend_spec (fuel_of h) h cmp k [] t RB_BLACK n 0) as
    [(i & Hi & Hki & Hd)|(Hne & z' & comp' & Hd & _)];
    [|done|done|constructor|done|done|done|..].
  - pose proof (focus_fuel_height _ _ _ Hf). lia.
  - left. exists i. simpl zparent in Hd. by rewrite Hd.
  - right. simpl zparent in Hd. by rewrite Hd.
Qed.

(** ** Insertion *)

(** Linking a fresh red leaf into the hole the search has found. *)
Lemma link_leaf h z elm :
  focus h z E → elm ∈ dom (rb_nodes h) → elm ∉ whole z E →
  ∃ h1 h2, RB_SET h (Some elm) (zparent z) = Done h1 ∧
    put_hole h1 z (Some elm) = Done h2 ∧
    focus h2 z (T RB_RED E elm E) ∧ same_dom h h2.
Proof.
  intros (_ & Hz & Hn) [e He]%elem_of_dom Hw.
  apply whole_nodup in Hn as (_ & Hnz & _). unfold whole in Hw. simpl in Hw.
  unfold RB_SET. rewrite (update_done _ _ _ _ He). eexists.
  edestruct (put_hole_spec (RbHead (rbh_root h) (<[elm := RbEntry None None (zparent z) RB_RED]>
    (rb_nodes h))) z None (Some elm)) as (h2 & Hput & Hz2 & Hsame & Hdom); [|done|].
  { simpl. eapply repz_ext; [|done]. intros j Hj. rewrite <-elem_of_app in Hj.
    apply lookup_insert_ne. by intros ->. }
  exists h2. split; [done|]. split; [done|]. split.
  - split_and!; [|done|].
    + simpl. rewrite Hsame by (by intros ?%zparent_in). simpl. by rewrite lookup_insert_eq.
    + apply (whole_mk z L RB_RED E elm E). simpl. unfold apart.
      split_and!; try (by intros ?%elem_of_nil); try (by intros j ?%elem_of_nil); try done;
        constructor.
  - eapply same_dom_trans; [by eapply same_dom_insert|exact Hdom].
Qed.

(** The search has ended at the empty subtree below [z], on the side [comp]. *)
Lemma insert_at_hole h z cmp elm comp :
  descend (fuel_of h) cmp h None (rbh_root h) 0 = Done (inr (zparent z, comp)) →
  focus h z E → rbz RB_BLACK 0 z → side_ok z comp →
  elm ∈ dom (rb_nodes h) → elm ∉ zleft z ++ zright z →
  ∃ h', RB_INSERT cmp h elm = Done (None, h') ∧
    valid h' (zleft z ++ elm :: zright z) ∧ same_dom h h'.
Proof.
  intros Hd Hfz Hz Hside Hdom Helm. unfold RB_INSERT. rewrite Hd, bind_done.
  destruct (link_leaf h z elm Hfz Hdom) as (h1 & h2 & -> & Hput & Hf2 & Hd2); [done|].
  rewrite bind_done.
  assert (Hlink : (match zparent z with
           | Some _ =>
               if bool_decide (comp < 0)%Z then set_child L h1 (zparent z) (Some elm)
               else set_child R h1 (zparent z) (Some elm)
           | None => Done (set_root h1 (Some elm))
           end) = Done h2).
  { rewrite <-Hput. destruct z as [|[[] cz p s] z]; simpl in *; [done| |].
    - by rewrite bool_decide_true.
    - by rewrite bool_decide_false by lia. }
  rewrite Hlink, bind_done.
  destruct (insert_color_spec (fuel_of h2) h2 z (T RB_RED E elm E) elm 0)
    as (h3 & -> & Hv & Hd3); [|done|done|repeat constructor|done|].
  { pose proof (focus_fuel_height _ _ _ Hf2). lia. }
  exists h3. split_and!; [done|exact Hv|]. eauto using same_dom_trans.
Qed.

Lemma insert_spec h order k cmp elm :
  valid h order → sorted_by order → cmp_ok k cmp order →
  elm ∈ dom (rb_nodes h) → elm ∉ order →
  (∃ i, i ∈ order ∧ key i = k ∧ RB_INSERT cmp h elm = Done (Some i, h)) ∨
  ((∀ i, i ∈ order → key i ≠ k) ∧
   ∃ h' l1 l2, RB_INSERT cmp h elm = Done (None, h') ∧ order = l1 ++ l2 ∧
     valid h' (l1 ++ elm :: l2) ∧ same_dom h h' ∧
     (∀ i, i ∈ l1 → key i < k)%Z ∧ (∀ i, i ∈ l2 → k < key i)%Z).
Proof.
  intros (t & n & Hf & Ht & <-) Hs Hc Hdom Helm.
  assert (Hroot : rbh_root h = root_ptr t) by apply Hf.
  destruct (descend_spec (fuel_of h) h cmp k [] t RB_BLACK n 0) as
    [(i & Hi & Hki & Hd)|(Hne & z & comp & Hd & Hfz & Hz & Hside & Hw & Hzl & Hzr)];
    [|done|done|constructor|done|done|done|..]; try (simpl zparent in Hd; rewrite <-Hroot in Hd).
  { pose proof (focus_fuel_height _ _ _ Hf). lia. }
  { left. exists i. unfold RB_INSERT. by rewrite Hd. }
  right. split; [done|]. rewrite whole_nil in Hw. unfold whole in Hw. simpl in Hw.
  destruct (insert_at_hole h z cmp elm comp) as (h' & He & Hv & Hd'); [done..|by rewrite Hw|].
  exists h', (zleft z), (zright z). split_and!; [done|done|exact Hv|done| |].
  - intros i [Hi|?]%Hzl; [by apply elem_of_nil in Hi|done].
  - intros i [Hi|?]%Hzr; [by apply elem_of_nil in Hi|done].
Qed.
End search.

(** ** Any comparator

    Without an order on the keys a search is meaningless, but it still ends in
    the tree, and an insertion still leaves a red-black tree. *)
Lemma descend_any fuel h cmp z t c n comp :
  (height t < fuel)%nat → focus h z t → rb c n t → rbz c n z → side_ok z comp →
  (∃ i, i ∈ inorder t ∧ cmp i = 0%Z ∧
     descend fuel cmp h (zparent z) (root_ptr t) comp = Done (inl (Some i))) ∨
  (∃ z' comp', descend fuel cmp h (zparent z) (root_ptr t) comp =
       Done (inr (zparent z', comp')) ∧
     focus h z' E ∧ rbz RB_BLACK 0 z' ∧ side_ok z' comp' ∧ whole z' E = whole z t).
Proof.
  revert fuel z c n comp.
  induction t as [|c' l IHl j r IHr]; intros fuel z c n comp Hfuel Hf Ht Hz Hside;
    (destruct fuel as [|fuel]; [simpl in Hfuel; lia|]); cbn [descend root_ptr].
  { right. exists z, comp. inversion Ht; subst. by split_and!. }
  simpl in Hfuel. simpl inorder.
  destruct (bool_decide_reflect (cmp j < 0)%Z) as [Hcmp|Hcmp];
    [|destruct (bool_decide_reflect (cmp j > 0)%Z) as [Hcmp'|Hcmp']].
  - rewrite (focus_child h z L c' l j r Hf : RB_LEFT h (Some j) = _), bind_done.
    destruct (rbz_down c n z L c' l j r Ht Hz) as (ca & na & Ha & Hza).
    destruct (IHl fuel (Frame L c' j r :: z) ca na (cmp j)) as
      [(i & Hi & H)|(z' & comp' & Hd & H1 & H2 & H3 & Hw)];
      [lia|by apply focus_T in Hf|done|done|done|left; exists i; set_solver|].
    right. exists z', comp'. by rewrite whole_up in Hw.
  - rewrite (focus_child_opp h z L c' l j r Hf : RB_RIGHT h (Some j) = _), bind_done.
    destruct (rbz_down c n z R c' r j l Ht Hz) as (ca & na & Ha & Hza).
    destruct (IHr fuel (Frame R c' j l :: z) ca na (cmp j)) as
      [(i & Hi & H)|(z' & comp' & Hd & H1 & H2 & H3 & Hw)];
      [lia|by rewrite focus_up|done|done|simpl; lia|left; exists i; set_solver|].
    right. exists z', comp'. by rewrite whole_up in Hw.
  - left. exists j. split_and!; [set_solver|lia|done].
Qed.

Lemma descend_root_any h order cmp :
  valid h order →
  (∃ i, i ∈ order ∧ cmp i = 0%Z ∧
     descend (fuel_of h) cmp h None (rbh_root h) 0 = Done (inl (Some i))) ∨
  (∃ z comp, descend (fuel_of h) cmp h None (rbh_root h) 0 = Done (inr (zparent z, comp)) ∧
     focus h z E ∧ rbz RB_BLACK 0 z ∧ side_ok z comp ∧ zleft z ++ zright z = order).
Proof.
  intros (t & n & Hf & Ht & <-). assert (Hroot : rbh_root h = root_ptr t) by apply Hf.
  pose proof (focus_fuel_height _ _ _ Hf). rewrite Hroot.
  destruct (descend_any (fuel_of h) h cmp [] t RB_BLACK n 0)
    as [H1|(z & comp & Hd & H1 & H2 & H3 & Hw)]; [lia|done|done|constructor|done|by left|].
  right. exists z, comp. rewrite whole_nil in Hw. by split_and!.
Qed.

Lemma find_any h order cmp :
  valid h order →
  (∃ i, i ∈ order ∧ cmp i = 0%Z ∧ RB_FIND cmp h = Done (Some i)) ∨ RB_FIND cmp h = Done None.
Proof.
  intros Hv. unfold RB_FIND.
  destruct (descend_root_any h order cmp Hv) as [(i & Hi & Hc & ->)|(z & comp & -> & _)]; eauto.
Qed.

Lemma insert_any h order cmp elm :
  valid h order → elm ∈ dom (rb_nodes h) → elm ∉ order →
  (∃ i, i ∈ order ∧ cmp i = 0%Z ∧ RB_INSERT cmp h elm = Done (Some i, h)) ∨
  (∃ h' l1 l2, RB_INSERT cmp h elm = Done (None, h') ∧ order = l1 ++ l2 ∧
     valid h' (l1 ++ elm :: l2) ∧ same_dom h h').
Proof.
  intros Hv Hdom Helm.
  destruct (descend_root_any h order cmp Hv) as [(i & Hi & Hc & Hd)|(z & comp & Hd & Hf & Hz & Hs & <-)].
  - left. exists i. unfold RB_INSERT. by rewrite Hd.
  - right. destruct (insert_at_hole h z cmp elm comp) as (h' & He & Hv' & Hd'); [done..|].
    by exists h', (zleft z), (zright z).
Qed.
