(* ===== verification/RBRemove.v ===== *)
(** * Removal from a red-black tree

    [RB_REMOVE] unlinks an element, directly or by putting its successor in its
    place, and [RB_REMOVE_COLOR] restores the black height where a black
    element has gone.  The result is again a red-black tree, over the same
    sequence without the element. *)

From S2P Require Import Prelude RBTree RBShape.

(** ** Contexts *)
Lemma rbz_black_hole c n z : rbz c n z → rbz RB_BLACK n z.
Proof. destruct 1; by econstructor. Qed.

Lemma rbz_rename c n zz d c' i j s z :
  rbz c n (zz ++ Frame d c' i s :: z) → rbz c n (zz ++ Frame d c' j s :: z).
Proof.
  revert c n. induction zz as [|f zz IH]; intros c n Hz; simpl in *.
  - inversion Hz; subst; by econstructor.
  - inversion Hz; subst; econstructor; eauto.
Qed.

Lemma focus_plug_app h zz z t : focus h (zz ++ z) t ↔ focus h z (plug zz t).
Proof. revert t. induction zz as [|f zz IH]; intros t; [done|]. simpl. by rewrite focus_up, IH. Qed.

Lemma focus_sib d h z c a i b :
  focus h z (mk d c a i b) ↔ focus h (Frame (opp d) c i a :: z) b.
Proof. by rewrite focus_up; simpl; rewrite mk_opp. Qed.

(** The root is outside every proper subtree. *)
Lemma focus_root_outside h f z t :
  focus h (f :: z) t → root_ptr t ≠ rbh_root h.
Proof.
  intros (_ & Hz & Hn) Heq. apply whole_nodup in Hn as (_ & _ & Hd).
  assert (∀ z hole, repz (rb_nodes h) (rbh_root h) hole z →
    z ≠ [] → ∃ r, rbh_root h = Some r ∧ r ∈ zleft z ++ zright z) as Hroot.
  { clear. induction z as [|[d c p s] z IH]; intros hole Hz Hne; [done|].
    simpl in Hz. destruct Hz as (_ & _ & Hz). destruct z as [|f z].
    - exists p. destruct d; simpl; set_solver.
    - destruct (IH _ Hz ltac:(done)) as (r & Hr & Hin). exists r. split; [done|].
      rewrite elem_of_app in Hin |- *. destruct d; simpl in *; set_solver. }
  destruct (Hroot _ _ Hz) as (r & Hr & Hin); [done|].
  rewrite Hr in Heq. apply root_ptr_in in Heq. by eapply Hd.
Qed.

(** ** The fix-up *)

(** The subtree at the hole is one black element short of what the context
    wants, or it is red and painting it black makes up for it. *)
Definition short (n : nat) (t : tree) : Prop :=
  rb RB_BLACK n t ∨ (tree_red t = true ∧ rb RB_BLACK (S n) (paint RB_BLACK t)).

(** What the fix-up loop returns: the element to paint black at the end. *)
Definition repaired (h h' : rb_head) (elm : ptr) (order : list nat) : Prop :=
  ∃ z t n, focus h' z t ∧ root_ptr t = elm ∧ whole z t = order ∧
    rbz RB_BLACK n z ∧ rb RB_BLACK n (paint RB_BLACK t) ∧ same_dom h h'.

Lemma repaired_dom h0 h h' elm order :
  same_dom h0 h → repaired h h' elm order → repaired h0 h' elm order.
Proof.
  intros Hd (z & t & n & ?&?&?&?&?&?). exists z, t, n. split_and!; eauto using same_dom_trans.
Qed.

Lemma repaired_order h h' elm o o' : repaired h h' elm o → o = o' → repaired h h' elm o'.
Proof. by intros ? <-. Qed.

(** Two trees in the same context that list the same elements. *)
Ltac order_eq d :=
  rewrite ?whole_up; apply whole_inorder; destruct d; simpl; rewrite ?inorder_paint;
  repeat (rewrite <-?app_assoc; simpl).

Lemma rb_black_paint n t : rb RB_BLACK n t → paint RB_BLACK t = t.
Proof. by inversion 1. Qed.

(** A balanced tree, reported through its root. *)
Lemma repaired_root h z t c n :
  focus h z t → rbz c n z → rb c n t → repaired h h (rbh_root h) (whole z t).
Proof.
  intros Hf Hz Ht. destruct (rb_plug _ _ _ _ Hz Ht) as (m & Hp).
  exists [], (plug z t), m. apply focus_plug in Hf as Hf'.
  split_and!; [done|..|constructor| |done].
  - symmetry. apply Hf'.
  - by rewrite whole_nil, inorder_plug.
  - by rewrite (rb_black_paint _ _ Hp).
Qed.

(** The black height above a node of colour [c]. *)
Definition above (c : rb_color) (n : nat) : nat :=
  match c with RB_RED => S n | RB_BLACK => S (S n) end.

(** The last step, with a red far nephew: one rotation and three colours. *)
Lemma remove_far_red h z d c t p a w b n ca :
  focus h z (mk d c t p (mk d RB_BLACK a w b)) →
  rb RB_BLACK n t → rb ca n a → rb RB_RED n b → rbz c (above c n) z →
  ∃ h', (pc ← RB_COLOR h (Some p);
         h ← set_color h (Some w) pc;
         h ← set_color h (Some p) RB_BLACK;
         far ← RB_CHILD (opp d) h (Some w);
         h ← set_color_if h far RB_BLACK;
         h ← RB_ROTATE d h (Some p);
         Done (h, rbh_root h)) = Done (h', rbh_root h') ∧
    repaired h h' (rbh_root h') (whole z (mk d c t p (mk d RB_BLACK a w b))).
Proof.
  intros Hf Ht Ha Hb Hz.
  rewrite (focus_color _ _ _ _ _ _ _ Hf), bind_done.
  apply -> focus_sib in Hf.
  destruct (set_color_focus h _ c d _ _ _ _ Hf) as (h1 & -> & Hf1 & Hd1 & _).
  rewrite bind_done. apply <- focus_sib in Hf1.
  destruct (set_color_focus h1 _ RB_BLACK d _ _ _ _ Hf1) as (h2 & -> & Hf2 & Hd2 & _).
  rewrite bind_done. apply -> focus_sib in Hf2.
  rewrite (focus_child_opp _ _ _ _ _ _ _ Hf2), bind_done. apply -> focus_sib in Hf2.
  destruct (set_color_if_focus h2 _ RB_BLACK b Hf2) as (h3 & -> & Hf3 & Hd3 & _).
  rewrite bind_done. apply <- focus_sib in Hf3. apply <- focus_sib in Hf3.
  destruct (rotate_focus _ _ _ _ _ _ _ _ _ _ Hf3) as (h4 & -> & Hf4 & Hd4).
  rewrite bind_done. exists h4. split; [done|].
  apply (repaired_dom _ h4); [eauto using same_dom_trans|].
  apply (repaired_root _ _ _ c (above c n)) in Hf4; [|done|].
  - erewrite whole_inorder in Hf4; [exact Hf4|].
    destruct d; simpl; rewrite inorder_paint, <-?app_assoc; done.
  - inversion Hb as [|n' l i r Hl Hr|]; subst.
    assert (rb RB_BLACK (S n) (T RB_BLACK l i r)) by by eapply rb_black.
    destruct c; simpl; [eapply rb_mk_black|apply rb_mk_red]; try done;
      by eapply rb_mk_black.
Qed.

(** A black far nephew next to a red near one: the near one is rotated into
    its place. *)
Lemma remove_near_red h z d c t p a1 v a2 w b n ca2 ca1 :
  focus h z (mk d c t p (mk d RB_BLACK (mk d RB_RED a1 v a2) w b)) →
  rb ca1 n a1 → rb ca2 n a2 → rb RB_BLACK n b →
  ∃ h0 h1 h2, set_color h (Some v) RB_BLACK = Done h0 ∧
    set_color h0 (Some w) RB_RED = Done h1 ∧
    RB_ROTATE (opp d) h1 (Some w) = Done h2 ∧
    RB_CHILD (opp d) h2 (Some p) = Done (Some v) ∧
    focus h2 z (mk d c t p (mk d RB_BLACK a1 v (mk d RB_RED a2 w b))) ∧ same_dom h h2.
Proof.
  intros Hf Ha1 Ha2 Hb. apply -> focus_sib in Hf. apply -> focus_down in Hf.
  destruct (set_color_focus h _ RB_BLACK d _ _ _ _ Hf) as (h1 & He1 & Hf1 & Hd1 & _).
  apply <- focus_down in Hf1.
  destruct (set_color_focus h1 _ RB_RED d _ _ _ _ Hf1) as (h2 & He2 & Hf2 & Hd2 & _).
  rewrite <-(mk_opp d RB_RED), <-(mk_opp d RB_BLACK) in Hf2.
  destruct (rotate_focus _ _ _ _ _ _ _ _ _ _ Hf2) as (h3 & He3 & Hf3 & Hd3).
  rewrite !mk_opp in Hf3. apply <- focus_sib in Hf3.
  exists h1, h2, h3. split_and!; [done..| |done|eauto using same_dom_trans].
  by rewrite (focus_child_opp _ _ _ _ _ _ _ Hf3), root_ptr_mk.
Qed.

Lemma focus_sib_is_black h z d c a i b :
  focus h z (mk d c a i b) →
  is_black h (root_ptr a) = Done (negb (tree_red a)) ∧
  is_black h (root_ptr b) = Done (negb (tree_red b)).
Proof.
  intros Hf. split; [apply -> focus_down in Hf|apply -> focus_sib in Hf]; by eapply focus_is_black.
Qed.

(** One iteration with a black sibling: either the parent is the next element
    to look at, or the tree is repaired. *)
Lemma remove_black_sibling fuel h z d c t p a w b n ca cb :
  focus h z (mk d c t p (mk d RB_BLACK a w b)) →
  rb RB_BLACK n t → rb ca n a → rb cb n b → rbz c (above c n) z →
  ∃ h', let res :=
      near ← RB_CHILD d h (Some w);
      near_black ← is_black h near;
      far ← RB_CHILD (opp d) h (Some w);
      far_black ← is_black h far;
      if near_black && far_black then
        h ← set_color h (Some w) RB_RED;
        grand ← RB_PARENT h (Some p);
        RB_REMOVE_COLOR_loop fuel h grand (Some p)
      else
        '(h, tmp) ←
          (if (far_black : bool) then
             h ← set_color_if h near RB_BLACK;
             h ← set_color h (Some w) RB_RED;
             h ← RB_ROTATE (opp d) h (Some w);
             tmp ← RB_CHILD (opp d) h (Some p);
             Done (h, tmp)
           else Done (h, Some w));
        pc ← RB_COLOR h (Some p);
        h ← set_color h tmp pc;
        h ← set_color h (Some p) RB_BLACK;
        far ← RB_CHILD (opp d) h tmp;
        h ← set_color_if h far RB_BLACK;
        h ← RB_ROTATE d h (Some p);
        Done (h, rbh_root h) in
    same_dom h h' ∧
    ((res = RB_REMOVE_COLOR_loop fuel h' (zparent z) (Some p) ∧
      focus h' z (mk d c t p (mk d RB_RED a w b)) ∧
      rb RB_BLACK n a ∧ rb RB_BLACK n b) ∨
     (res = Done (h', rbh_root h') ∧
      repaired h h' (rbh_root h') (whole z (mk d c t p (mk d RB_BLACK a w b))))).
Proof.
  intros Hf Ht Ha Hb Hz. pose proof (proj1 (focus_sib _ _ _ _ _ _ _) Hf) as Hfw. simpl.
  destruct (focus_sib_is_black _ _ _ _ _ _ _ Hfw) as [Hab Hbb].
  rewrite (focus_child _ _ _ _ _ _ _ Hfw), bind_done, Hab, bind_done.
  rewrite (focus_child_opp _ _ _ _ _ _ _ Hfw), bind_done, Hbb, bind_done.
  destruct (tree_red b) eqn:Hrb; [|destruct (tree_red a) eqn:Hra]; simpl.
  - rewrite andb_false_r. assert (cb = RB_RED) as ->.
    { pose proof (rb_color_eq _ _ _ Hb). by rewrite Hrb in *. }
    destruct (remove_far_red h z d c t p a w b n ca) as (h' & He & Hrep); [done..|].
    exists h'. split; [by destruct Hrep as (?&?&?&?&?&?&?&?&?)|]. right. by rewrite He.
  - destruct (rb_red_inv _ _ _ Ha Hra) as (l & v & r & -> & Hl & Hr).
    rewrite (T_mk d) in Hf |- *.
    assert (rb RB_BLACK n (match d with L => l | R => r end)) by by destruct d.
    assert (rb RB_BLACK n (match d with L => r | R => l end)) by by destruct d.
    destruct (remove_near_red _ _ _ _ _ _ _ _ _ _ _ n RB_BLACK RB_BLACK Hf)
      as (h0 & h1 & h2 & He0 & He1 & He2 & He3 & Hf2 & Hd2); [done|done|by eapply rb_not_red|].
    rewrite root_ptr_mk. unfold set_color_if. rewrite He0, bind_done, He1, bind_done, He2, bind_done, He3, !bind_done.
    edestruct (remove_far_red h2) as (h' & He & Hrep);
      [exact Hf2|done|done|apply rb_mk_red; [done|by eapply rb_not_red]|done|].
    apply (repaired_dom _ _ _ _ _ Hd2) in Hrep.
    exists h'. split; [by destruct Hrep as (?&?&?&?&?&?&?&?&?)|]. right. split; [exact He|].
    erewrite whole_inorder; [exact Hrep|]. by destruct d; simpl; rewrite <-?app_assoc; simpl; rewrite <-?app_assoc.
  - destruct (set_color_focus h _ RB_RED d _ _ _ _ Hfw) as (h1 & -> & Hf1 & Hd1 & _).
    rewrite bind_done. apply <- focus_sib in Hf1.
    rewrite (focus_parent _ _ _ _ _ _ _ Hf1), bind_done.
    exists h1. split; [done|]. left. split_and!; [done|done|exact (rb_not_red _ _ _ Ha Hra)|exact (rb_not_red _ _ _ Hb Hrb)].
Qed.

(** The situation after a black sibling has been painted red. *)
Lemma short_parent c d t p s n :
  rb RB_BLACK n t → rb RB_RED n s →
  short (match c with RB_RED => n | RB_BLACK => S n end) (mk d c t p s).
Proof.
  intros Ht Hs. destruct c; [left; by eapply rb_mk_black|right].
  assert (paint RB_BLACK (mk d RB_RED t p s) = mk d RB_BLACK t p s) as -> by by destruct d.
  split; [by destruct d|by eapply rb_mk_black].
Qed.

(** A red sibling: after one rotation the sibling is black. *)
Lemma remove_red_sibling h z d c t p a w b :
  focus h z (mk d c t p (mk d RB_RED a w b)) →
  ∃ h', (h ← RB_SET_BLACKRED h (Some w) (Some p);
         h ← RB_ROTATE d h (Some p);
         tmp ← RB_CHILD (opp d) h (Some p);
         Done (h, tmp)) = Done (h', root_ptr a) ∧
    focus h' (Frame d RB_BLACK w b :: z) (mk d RB_RED t p a) ∧ same_dom h h'.
Proof.
  intros Hf. apply -> focus_sib in Hf. unfold RB_SET_BLACKRED.
  destruct (set_color_focus h _ RB_BLACK d _ _ _ _ Hf) as (h1 & -> & Hf1 & Hd1 & _).
  rewrite bind_done. apply <- focus_sib in Hf1.
  destruct (set_color_focus h1 _ RB_RED d _ _ _ _ Hf1) as (h2 & -> & Hf2 & Hd2 & _).
  rewrite bind_done.
  destruct (rotate_focus _ _ _ _ _ _ _ _ _ _ Hf2) as (h3 & -> & Hf3 & Hd3).
  rewrite bind_done. apply -> focus_down in Hf3.
  rewrite (focus_child_opp _ _ _ _ _ _ _ Hf3), bind_done.
  exists h3. split_and!; [done..|]. eauto using same_dom_trans.
Qed.

(** A tree of positive black height is not empty. *)
Lemma rb_S_inv c n s :
  rb c (S n) s → ∃ l i r, s = T c l i r.
Proof. inversion 1; subst; eauto. Qed.

Lemma remove_loop_stop fuel h z t n :
  focus h z t → rbz RB_BLACK (S n) z → short n t → (tree_red t = true ∨ z = []) →
  ∃ h' e, RB_REMOVE_COLOR_loop (S fuel) h (zparent z) (root_ptr t) = Done (h', e) ∧
    repaired h h' e (whole z t).
Proof.
  intros Hf Hz Ht Hstop. simpl. rewrite (focus_is_black _ _ _ Hf), bind_done.
  exists h, (root_ptr t).
  assert (negb (negb (tree_red t)) || bool_decide (root_ptr t = rbh_root h) = true) as ->.
  { destruct Hstop as [->| ->]; [done|]. apply orb_true_iff. right. apply bool_decide_eq_true.
    symmetry. apply Hf. }
  split; [done|].
  destruct Ht as [Ht|[Hr Ht]].
  - destruct Hstop as [Hr| ->]; [by inversion Ht; subst; simplify_eq/=|].
    exists [], t, n. rewrite (rb_black_paint _ _ Ht). split_and!; try done. constructor.
  - exists z, t, (S n). done.
Qed.

Lemma rb_mk_red_inv d c n a i b :
  rb c n (mk d RB_RED a i b) → c = RB_RED ∧ rb RB_BLACK n a ∧ rb RB_BLACK n b.
Proof. destruct d; inversion 1; subst; done. Qed.

Lemma rb_mk_black_inv d c n a i b :
  rb c (S n) (mk d RB_BLACK a i b) → ∃ ca cb, rb ca n a ∧ rb cb n b.
Proof. destruct d; inversion 1; subst; eauto. Qed.

(** What the context of a short subtree looks like: there is a sibling. *)
Lemma sibling_cases d c p s z n :
  rbz RB_BLACK (S n) (Frame d c p s :: z) →
  rbz c (above c n) z ∧
  ∃ cs a w b, s = mk d cs a w b ∧ rb cs (S n) s ∧ (cs = RB_RED → c = RB_BLACK).
Proof.
  inversion 1 as [|n' d' i' s' z' Hs Hz1|n' c' cs d' i' s' z' Hs Hz1]; subst; (split; [done|]);
    destruct (rb_S_inv _ _ _ Hs) as (l & w & r & ->); rewrite (T_mk d) in Hs |- *;
    by eexists _, _, _, _.
Qed.

Lemma remove_loop_spec fuel h z t n :
  (length z < fuel)%nat → focus h z t → rbz RB_BLACK (S n) z → short n t →
  ∃ h' e, RB_REMOVE_COLOR_loop fuel h (zparent z) (root_ptr t) = Done (h', e) ∧
    repaired h h' e (whole z t).
Proof.
  revert fuel h t n. induction z as [|[d c p s] z IH]; intros fuel h t n Hfuel Hf Hz Ht;
    (destruct fuel as [|fuel]; [simpl in Hfuel; lia|]); [eapply remove_loop_stop; eauto|].
  destruct (tree_red t) eqn:Hred; [eapply remove_loop_stop; eauto|].
  destruct Ht as [Ht|[? _]]; [|congruence]. simpl in Hfuel.
  cbn [RB_REMOVE_COLOR_loop]. rewrite (focus_is_black _ _ _ Hf), bind_done, Hred.
  rewrite bool_decide_false by (by eapply focus_root_outside). simpl.
  pose proof (proj1 (focus_up _ _ _ _) Hf) as Hfp. simpl in Hfp.
  apply sibling_cases in Hz as (Hz & cs & a & w & b & -> & Hs & Hcs).
  destruct (side_test _ _ _ _ _ _ _ Hfp) as (lp & -> & Hside & _).
  { intros Heq. rewrite root_ptr_mk in Heq. by eapply focus_root_ne, root_ptr_mk. }
  rewrite bind_done, Hside, (focus_child_opp _ _ _ _ _ _ _ Hfp), bind_done, root_ptr_mk.
  pose proof (proj1 (focus_sib _ _ _ _ _ _ _) Hfp) as Hfs.
  rewrite (focus_color _ _ _ _ _ _ _ Hfs), bind_done, whole_up. simpl.
  destruct cs.
  - rewrite bool_decide_false, bind_done by done.
    destruct (rb_mk_black_inv _ _ _ _ _ _ Hs) as (ca & cb & Ha & Hb).
    destruct (remove_black_sibling fuel h z d c t p a w b n ca cb)
      as (h1 & Hd1 & [(He & Hf1 & Ha' & Hb')|(He & Hrep)]); [done..| |].
    + simpl in He. rewrite He. rewrite <-(root_ptr_mk d c t p (mk d RB_RED a w b)).
      destruct (IH fuel h1 _ (match c with RB_RED => n | RB_BLACK => S n end)
        ltac:(lia) Hf1) as (h2 & e & -> & Hrep).
      { destruct c; by eapply rbz_black_hole. }
      { apply short_parent; [done|by apply rb_mk_red]. }
      exists h2, e. split; [done|]. eapply repaired_dom; [exact Hd1|].
      erewrite whole_inorder; [exact Hrep|]. by destruct d.
    + simpl in He. rewrite He. eauto.
  - rewrite (Hcs eq_refl) in *. rewrite bool_decide_true by done.
    apply rb_mk_red_inv in Hs as (_ & Ha & Hb).
    destruct (remove_red_sibling _ _ _ _ _ _ _ _ _ Hfp) as (h1 & He1 & Hf1 & Hd1).
    rewrite He1, bind_done.
    destruct (rb_S_inv _ _ _ Ha) as (l & v & r & ->). rewrite (T_mk d) in *.
    destruct (rb_mk_black_inv _ _ _ _ _ _ Ha) as (ca & cb & Hl & Hr).
    assert (Hz1 : rbz RB_RED (S n) (Frame d RB_BLACK w b :: z)) by by eapply rbz_black.
    rewrite root_ptr_mk.
    destruct (remove_black_sibling fuel h1 _ d RB_RED t p _ v _ n ca cb Hf1)
      as (h2 & Hd2 & [(He & Hf2 & Ha' & Hb')|(He & Hrep)]); [done..| |]; simpl in He.
    + simpl zparent. rewrite He. destruct fuel as [|fuel]; [lia|].
      rewrite <-(root_ptr_mk d RB_RED t p (mk d RB_RED (if d then l else r) v (if d then r else l))).
      edestruct (remove_loop_stop fuel h2) as (h3 & e & He3 & Hrep);
        [exact Hf2|by eapply rbz_black_hole|by apply (short_parent RB_RED); [|apply rb_mk_red]|
         left; by destruct d|].
      simpl zparent in He3. rewrite He3. exists h3, e. split; [done|].
      eapply repaired_dom; [exact Hd1|]. eapply repaired_dom; [exact Hd2|].
      eapply repaired_order; [exact Hrep|]. by order_eq d.
    + rewrite He. exists h2, (rbh_root h2). split; [done|].
      eapply repaired_dom; [exact Hd1|]. eapply repaired_order; [exact Hrep|]. by order_eq d.
Qed.

Lemma remove_color_spec fuel h z t n :
  (length z < fuel)%nat → focus h z t → rbz RB_BLACK (S n) z → short n t →
  ∃ h', RB_REMOVE_COLOR fuel h (zparent z) (root_ptr t) = Done h' ∧
    valid h' (whole z t) ∧ same_dom h h'.
Proof.
  intros Hfuel Hf Hz Ht. unfold RB_REMOVE_COLOR.
  destruct (remove_loop_spec fuel h z t n Hfuel Hf Hz Ht)
    as (h1 & e & -> & z1 & t1 & m & Hf1 & <- & <- & Hz1 & Ht1 & Hd1).
  rewrite bind_done.
  destruct (set_color_if_focus h1 z1 RB_BLACK t1 Hf1) as (h2 & -> & Hf2 & Hd2 & _).
  exists h2. split; [done|]. split; [|eauto using same_dom_trans].
  destruct (rb_plug _ _ _ _ Hz1 Ht1) as (k & Hk).
  exists (plug z1 (paint RB_BLACK t1)), k. rewrite <-focus_plug, inorder_plug.
  split_and!; [done|done|]. apply whole_inorder, inorder_paint.
Qed.

Lemma focus_left h z c l i r : focus h z (T c l i r) → RB_LEFT h (Some i) = Done (root_ptr l).
Proof. apply (focus_child h z L). Qed.

Lemma focus_right h z c l i r : focus h z (T c l i r) → RB_RIGHT h (Some i) = Done (root_ptr r).
Proof. apply (focus_child_opp h z L). Qed.

(** ** Unlinking *)

(** An element with at most one child is replaced by that child. *)
Lemma splice_spec h z d c i t :
  focus h z (mk d c E i t) →
  ∃ h1 h2, set_parent_if h (root_ptr t) (zparent z) = Done h1 ∧
    relink h1 (zparent z) (Some i) (root_ptr t) = Done h2 ∧
    focus h2 z t ∧ same_dom h h2 ∧
    rb_nodes h2 !! i = rb_nodes h !! i.
Proof.
  intros (Hr & Hz & Hn). apply rep_mk in Hr as (Hi & _ & Ht). rewrite root_ptr_mk in Hz.
  pose proof Hn as (_ & Hit & Hiz & _ & _ & Htz & _ & Hnt & Hnz)%whole_mk.
  destruct (set_parent_if_spec h (Some i) (zparent z) t Ht Hnt) as (h1 & He1 & Hr1 & Ht1 & Hs1 & Hd1).
  assert (Hout : ∀ j, j ∈ zleft z ∨ j ∈ zright z → root_ptr t ≠ Some j).
  { intros j Hj Hr%root_ptr_in. apply (Htz j Hr). by apply elem_of_app. }
  assert (Hz1 : repz (rb_nodes h1) (rbh_root h1) (Some i) z).
  { rewrite Hr1. eapply repz_ext; [|exact Hz]. auto. }
  destruct (relink_spec h1 z i (root_ptr t) Hz1 Hnz Hiz) as (h2 & He2 & Hz2 & Hs2 & Hd2).
  exists h1, h2. split_and!; [done|done|split_and!|eauto using same_dom_trans|].
  - eapply rep_ext; [|exact Ht1]. intros j Hj. apply Hs2. intros ?%zparent_in. by eapply Htz.
  - exact Hz2.
  - apply whole_nodup. done.
  - rewrite Hs2, Hs1; [done|by intros ?%root_ptr_in|by intros ?%zparent_in].
Qed.

(** Another element takes the place of [i]: it gets the links and the colour of
    [i], and the neighbours of [i] now point to it. *)
Lemma replace_spec h z c l i r m :
  focus h z (T c l i r) → l ≠ E → m ∈ dom (rb_nodes h) → m ∉ whole z (T c l i r) →
  let olde := RbEntry (root_ptr l) (root_ptr r) (zparent z) c in
  ∃ h1 h2 h3 h4, entry h (Some i) = Done olde ∧
    update (fun _ => olde) h (Some m) = Done h1 ∧
    relink h1 (zparent z) (Some i) (Some m) = Done h2 ∧
    RB_LEFT h2 (Some i) = Done (root_ptr l) ∧
    set_parent h2 (root_ptr l) (Some m) = Done h3 ∧
    RB_RIGHT h3 (Some i) = Done (root_ptr r) ∧
    set_parent_if h3 (root_ptr r) (Some m) = Done h4 ∧
    focus h4 z (T c l m r) ∧ same_dom h h4.
Proof.
  intros (Hr & Hz & Hn) Hl [em Hm]%elem_of_dom Hmw olde. simpl in Hr, Hz.
  destruct Hr as (Hi & Hrl & Hrr).
  pose proof (proj1 (whole_mk z L c l i r) Hn) as (Hil & Hir & Hiz & Hlr & Hlz & Hrz & Hnl & Hnr & Hnz).
  assert ((m ≠ i) ∧ (m ∉ inorder l) ∧ (m ∉ inorder r) ∧ (m ∉ zleft z ++ zright z)) as (Hmi & Hml & Hmr & Hmz).
  { unfold whole in Hmw. simpl in Hmw. repeat rewrite ?elem_of_app, ?elem_of_cons in Hmw.
    rewrite elem_of_app. naive_solver. }
  set (h1 := RbHead (rbh_root h) (<[m := olde]> (rb_nodes h))).
  assert (Hz1 : repz (rb_nodes h1) (rbh_root h1) (Some i) z).
  { eapply repz_ext; [|exact Hz]. intros j Hj%elem_of_app. apply lookup_insert_ne. by intros ->. }
  destruct (relink_spec h1 z i (Some m) Hz1 Hnz Hiz) as (h2 & He2 & Hz2 & Hs2 & Hd2).
  assert (Hzp : ∀ j, j ∉ zleft z ++ zright z → zparent z ≠ Some j) by (by intros j Hj ?%zparent_in).
  assert (Hs12 : ∀ j, j ∉ zleft z ++ zright z → j ≠ m → rb_nodes h2 !! j = rb_nodes h !! j).
  { intros j Hj Hjm. rewrite Hs2 by auto. by apply lookup_insert_ne. }
  assert (Hi2 : rb_nodes h2 !! i = Some olde) by (by rewrite Hs12).
  assert (Hrl2 : rep (rb_nodes h2) (Some i) l).
  { eapply rep_ext; [|exact Hrl]. intros j Hj. apply Hs12; [by apply Hlz|by intros ->]. }
  destruct (set_parent_if_spec h2 (Some i) (Some m) l Hrl2 Hnl) as (h3 & He3 & Hr3 & Hl3 & Hs3 & Hd3).
  assert (Hll : ∀ j, j ∉ inorder l → root_ptr l ≠ Some j) by (by intros j Hj ?%root_ptr_in).
  assert (Hrr3 : rep (rb_nodes h3) (Some i) r).
  { eapply rep_ext; [|exact Hrr]. intros j Hj.
    rewrite Hs3; [apply Hs12; [by apply Hrz|by intros ->]|].
    apply Hll. intros Hjl. by apply (Hlr j). }
  destruct (set_parent_if_spec h3 (Some i) (Some m) r Hrr3 Hnr) as (h4 & He4 & Hr4 & Hl4 & Hs4 & Hd4).
  assert (Hrp : ∀ j, j ∉ inorder r → root_ptr r ≠ Some j) by (by intros j Hj ?%root_ptr_in).
  exists h1, h2, h3, h4. split_and!.
  - by apply entry_done.
  - apply (update_done _ _ _ _ Hm).
  - exact He2.
  - unfold RB_LEFT. by rewrite (child_done _ _ _ _ Hi2).
  - by destruct l.
  - assert (Hi3 : rb_nodes h3 !! i = Some olde) by (rewrite Hs3; auto).
    unfold RB_RIGHT. by rewrite (child_done _ _ _ _ Hi3).
  - exact He4.
  - split_and!.
    + simpl. rewrite Hs4, Hs3, Hs2 by auto. simpl. rewrite lookup_insert_eq. split_and!; [done| |done].
      eapply rep_ext; [|exact Hl3]. intros j Hj. apply Hs4, Hrp. by apply Hlr.
    + rewrite Hr4, Hr3. eapply repz_ext; [|exact Hz2]. intros j Hj%elem_of_app.
      rewrite Hs4, Hs3; [done|apply Hll; intros Hjl; by apply (Hlz j)|apply Hrp; intros Hjr; by apply (Hrz j)].
    + apply (whole_mk z L c l m r). done.
  - apply (same_dom_trans _ h1); [by eapply same_dom_insert|]. eauto using same_dom_trans.
Qed.

(** The walk to the leftmost element of a subtree. *)
Lemma leftmost_spec fuel h z c t n :
  (height t <= fuel)%nat → t ≠ E → focus h z t → rb c n t → rbz c n z →
  ∃ zz cm m mr k, leftmost fuel h (root_ptr t) = Done (Some m) ∧
    focus h (zz ++ z) (T cm E m mr) ∧ rb cm k (T cm E m mr) ∧ rbz cm k (zz ++ z) ∧
    plug zz (T cm E m mr) = t ∧ zleft zz = [].
Proof.
  revert z c t n. induction fuel as [|fuel IH]; intros z c t n Hfuel Hne Hf Ht Hz;
    (destruct t as [|c' l i r]; [done|]; simpl in Hfuel); [lia|].
  simpl. unfold RB_LEFT. rewrite (focus_child h z L c' l i r Hf), bind_done.
  assert (Hhl : (height l <= fuel)%nat) by lia. destruct l as [|cl ll j lr].
  { exists [], c', i, r, n. pose proof (rb_color_eq _ _ _ Ht) as Hc.
    assert (c = c') as -> by by destruct c'. by split_and!. }
  destruct (rbz_down c n z L c' (T cl ll j lr) i r Ht Hz) as (ca & na & Ha & Hza).
  destruct (IH (Frame L c' i r :: z) ca (T cl ll j lr) na)
    as (zz & cm & m & mr & k & He & Hf' & Hm & Hzm & Hp & Hl); [done|done| |done|done|].
  { by apply focus_T in Hf. }
  exists (zz ++ [Frame L c' i r]), cm, m, mr, k. rewrite <-!app_assoc.
  split_and!; try done.
  - clear -Hp. rewrite <-Hp. clear Hp. generalize (T cm E m mr). 
    induction zz as [|f zz IH]; intros t; simpl; [done|]. apply IH.
  - clear -Hl. revert Hl. induction zz as [|[[] ???] zz IH]; simpl; [done|done|].
    intros [_ [_ ?]%app_nil]%app_nil. done.
Qed.

(** The walk from an element up to the root ends. *)
Lemma augment_walk_done fuel h z c l i r :
  (length z < fuel)%nat → focus h z (T c l i r) → augment_walk fuel h (Some i) = Done tt.
Proof.
  revert z c l i r. induction fuel as [|fuel IH]; intros z c l i r Hfuel Hf; [lia|].
  simpl. rewrite (focus_parent h z L c l i r Hf), bind_done.
  destruct z as [|[d c' p s] z]; [done|]. apply -> focus_up in Hf. simpl in Hf, Hfuel.
  simpl zparent. destruct d; (eapply IH; [|exact Hf]; lia).
Qed.

Lemma augment_walk_parent h z t i :
  focus h z t → zparent z = Some i → augment_walk (fuel_of h) h (Some i) = Done tt.
Proof.
  intros Hf Hi. pose proof (focus_fuel_height _ _ _ Hf).
  destruct z as [|[d c p s] z]; [done|]. injection Hi as ->.
  apply -> focus_up in Hf. cbn [f_dir f_color f_id f_sib length] in *.
  destruct d; simpl in Hf; (eapply augment_walk_done; [|exact Hf]; lia).
Qed.

(** ** Removal *)

(** The fix-up after the element of colour [c] above [t] has gone. *)
Lemma remove_fix h z c t n ct :
  focus h z t → rbz c n z → rb ct (match c with RB_RED => n | RB_BLACK => pred n end) t →
  (c = RB_RED → ct = RB_BLACK) → (c = RB_BLACK → n ≠ 0) →
  ∃ h', (if bool_decide (c = RB_BLACK) then RB_REMOVE_COLOR (fuel_of h) h (zparent z) (root_ptr t)
         else Done h) = Done h' ∧ valid h' (whole z t) ∧ same_dom h h'.
Proof.
  intros Hf Hz Ht Hred Hblack. destruct c.
  - rewrite bool_decide_true by done. destruct n as [|n]; [by destruct Hblack|]. simpl in Ht.
    apply (remove_color_spec _ h z t n); [|done|done|].
    + pose proof (focus_fuel_height _ _ _ Hf). lia.
    + destruct ct; [by left|]. right.
      inversion Ht; subst. split; [done|]. by eapply rb_black.
  - rewrite bool_decide_false by done. rewrite (Hred eq_refl) in Ht. exists h. split; [done|].
    split; [|done]. destruct (rb_plug _ _ _ _ (rbz_black_hole _ _ _ Hz) Ht) as (m & Hm).
    exists (plug z t), m. rewrite <-focus_plug, inorder_plug. done.
Qed.

Lemma splice_height d c n i t :
  rb c n (mk d c E i t) →
  ∃ ct, rb ct (match c with RB_RED => n | RB_BLACK => pred n end) t ∧
    (c = RB_RED → ct = RB_BLACK) ∧ (c = RB_BLACK → n ≠ 0).
Proof. intros Ht. destruct d, c; inversion Ht; subst; eexists; split_and!; done. Qed.

(** An element with an empty child. *)
Lemma remove_single h z d c i t n :
  focus h z (mk d c E i t) → rb c n (mk d c E i t) → rbz c n z →
  ∃ h', ('(h, color, parent, child) ←
      (parent ← RB_PARENT h (Some i);
       color ← RB_COLOR h (Some i);
       h ← set_parent_if h (root_ptr t) parent;
       h ← relink h parent (Some i) (root_ptr t);
       Done (h, color, parent, root_ptr t));
     if bool_decide (color = RB_BLACK) then RB_REMOVE_COLOR (fuel_of h) h parent child
     else Done h) = Done h' ∧ valid h' (whole z t) ∧ same_dom h h'.
Proof.
  intros Hf Ht Hz.
  rewrite (focus_parent _ _ _ _ _ _ _ Hf), bind_done.
  rewrite (focus_color _ _ _ _ _ _ _ Hf), bind_done.
  destruct (splice_spec _ _ _ _ _ _ Hf) as (h1 & h2 & -> & He2 & Hf2 & Hd2 & _).
  rewrite bind_done, He2, !bind_done.
  destruct (splice_height _ _ _ _ _ Ht) as (ct & Hct & Hcr & Hcb).
  destruct (remove_fix h2 z c t n ct) as (h3 & -> & Hv & Hd3); [done..|].
  exists h3. split_and!; [done|done|]. eauto using same_dom_trans.
Qed.

(** Where the fix-up starts when the successor is spliced out. *)
Lemma successor_parent zz z c i m l mr :
  i ∉ inorder (plug zz mr) →
  (if bool_decide (zparent (zz ++ Frame R c i l :: z) = Some i) then Some m
   else zparent (zz ++ Frame R c i l :: z)) = zparent (zz ++ Frame R c m l :: z).
Proof.
  destruct zz as [|f zz]; intros Hi; simpl app; simpl zparent.
  - by rewrite bool_decide_true.
  - rewrite bool_decide_false; [done|]. intros [= <-]. apply Hi.
    rewrite inorder_plug. unfold whole.
    assert (f_id f ∈ zleft (f :: zz) ++ zright (f :: zz)) as Hin by by apply zparent_in.
    rewrite elem_of_app in Hin. rewrite !elem_of_app. tauto.
Qed.

Lemma focus_plug_nin h z c l i r : focus h z (T c l i r) → i ∉ inorder r.
Proof. intros (_ & _ & Hn). by apply (whole_mk z L c l i r) in Hn as (_ & ? & _). Qed.

Lemma plug_app zz z t : plug (zz ++ z) t = plug z (plug zz t).
Proof. revert t. induction zz as [|f zz IH]; intros t; [done|]. apply IH. Qed.

(** An element with two children: its successor is spliced out and takes its
    place. *)
Lemma remove_double h z c l i r n :
  focus h z (T c l i r) → rb c n (T c l i r) → rbz c n z → l ≠ E → r ≠ E →
  ∃ h', RB_REMOVE h (Some i) = Done h' ∧
    valid h' (zleft z ++ (inorder l ++ inorder r) ++ zright z) ∧ same_dom h h'.
Proof.
  intros Hf Ht Hz Hl Hr. unfold RB_REMOVE.
  rewrite (focus_left _ _ _ _ _ _ Hf), bind_done, (focus_right _ _ _ _ _ _ Hf), bind_done.
  destruct (rbz_down c n z R c r i l Ht Hz) as (ca & na & Ha & Hza).
  assert (Hfr : focus h (Frame R c i l :: z) r) by by rewrite focus_up.
  destruct (leftmost_spec (fuel_of h) h (Frame R c i l :: z) ca r na)
    as (zz & cm & m & mr & k & He & Hfm & Hm & Hzm & Hp & Hzz);
    [pose proof (focus_fuel_height _ _ _ Hfr); lia|done..|].
  assert (Hrl : ∃ il, root_ptr l = Some il) by (destruct l; [done|by eexists]).
  assert (Hrr : ∃ ir, root_ptr r = Some ir) by (destruct r; [done|by eexists]).
  destruct Hrl as [il Hrl], Hrr as [ir Hrr]. rewrite Hrl, Hrr in *. cbv iota.
  rewrite He, bind_done. rewrite (focus_right _ _ _ _ _ _ Hfm), bind_done.
  rewrite (focus_parent _ _ L _ _ _ _ Hfm), bind_done.
  rewrite (focus_color _ _ L _ _ _ _ Hfm), bind_done.
  destruct (splice_spec _ _ L _ _ _ Hfm) as (h1 & h2 & -> & He2 & Hf2 & Hd2 & Hm2).
  rewrite bind_done, He2, bind_done.
  pose proof (focus_entry _ _ L _ _ _ _ Hfm) as Hem. rewrite <-Hm2 in Hem.
  rewrite (parent_done _ _ _ Hem), bind_done. cbn [rbe_parent mke].
  assert (Hf2' : focus h2 z (T c l i (plug zz mr))).
  { apply focus_plug_app in Hf2. by apply focus_up in Hf2. }
  assert (Hord : inorder r = m :: inorder (plug zz mr)).
  { rewrite <-Hp, !inorder_plug. unfold whole. by rewrite Hzz. }
  edestruct (replace_spec h2 z c l i (plug zz mr) m Hf2' Hl)
    as (h3 & h4 & h5 & h6 & -> & He3 & He4 & He5 & He6 & He7 & He8 & Hf6 & Hd6).
  { by apply elem_of_dom. }
  { destruct Hf as (_ & _ & Hn). unfold whole in Hn |- *. simpl in Hn |- *. rewrite Hord in Hn.
    clear -Hn. intros Hin. apply NoDup_app in Hn as (_ & Hd & Hn).
    apply NoDup_app in Hn as (Hn & Hd' & Hz).
    apply NoDup_app in Hn as (_ & Hd1 & Hn). apply NoDup_cons in Hn as (Him & Hn).
    apply NoDup_cons in Hn as (Hm & Hn).
    repeat rewrite ?elem_of_app, ?elem_of_cons in Hin. set_solver. }
  rewrite bind_done, He3, bind_done. simpl rbe_parent. rewrite He4, bind_done, He5, bind_done.
  rewrite He6, bind_done, He7, bind_done, He8, bind_done.
  rewrite (successor_parent zz z c i m l mr) by (by eapply focus_plug_nin).
  assert (Hf7 : focus h6 (zz ++ Frame R c m l :: z) mr).
  { apply focus_plug_app. by apply focus_up. }
  assert (Hwalk : (match zparent (zz ++ Frame R c m l :: z) with
    | Some _ => augment_walk (fuel_of h6) h6 (zparent (zz ++ Frame R c m l :: z))
    | None => Done ()
    end) = Done ()).
  { destruct (zparent (zz ++ Frame R c m l :: z)) as [p|] eqn:Hp'; [|done].
    by eapply augment_walk_parent. }
  rewrite Hwalk, !bind_done.
  destruct (splice_height L _ _ _ _ Hm) as (ct & Hct & Hcr & Hcb).
  destruct (remove_fix h6 (zz ++ Frame R c m l :: z) cm mr k ct) as (h7 & -> & Hv & Hd7);
    [done|by eapply rbz_rename|done..|].
  exists h7. split; [done|]. split; [|eauto using same_dom_trans].
  assert (whole (zz ++ Frame R c m l :: z) mr = zleft z ++ (inorder l ++ inorder r) ++ zright z) as <-; [|done].
  rewrite <-!inorder_plug, plug_app. simpl. rewrite inorder_plug. unfold whole. simpl.
  by rewrite Hord, <-!app_assoc.
Qed.

Lemma remove_spec h order i :
  valid h order → i ∈ order →
  ∃ h' l1 l2, order = l1 ++ i :: l2 ∧ RB_REMOVE h (Some i) = Done h' ∧
    valid h' (l1 ++ l2) ∧ same_dom h h'.
Proof.
  intros Hv Hi. destruct (valid_focus _ _ _ Hv Hi) as (z & c & l & r & n & Hf & Ht & Hz & <-).
  assert (Hsplit : whole z (T c l i r) = (zleft z ++ inorder l) ++ i :: inorder r ++ zright z).
  { unfold whole. simpl. by rewrite <-!app_assoc. }
  assert (∃ h', RB_REMOVE h (Some i) = Done h' ∧
    valid h' (zleft z ++ (inorder l ++ inorder r) ++ zright z) ∧ same_dom h h')
    as (h' & He & Hv' & Hd).
  { destruct (decide (l = E)) as [->|Hl]; [|destruct (decide (r = E)) as [->|Hr]].
    - destruct (remove_single h z L c i r n Hf Ht Hz) as (h' & He & Hv' & Hd).
      exists h'. split; [|done]. unfold RB_REMOVE.
      rewrite (focus_left _ _ _ _ _ _ Hf), bind_done, (focus_right _ _ _ _ _ _ Hf), bind_done.
      exact He.
    - destruct (remove_single h z R c i l n Hf Ht Hz) as (h' & He & Hv' & Hd).
      exists h'. unfold whole in Hv'. rewrite app_nil_r. split; [|done]. unfold RB_REMOVE.
      rewrite (focus_left _ _ _ _ _ _ Hf), bind_done, (focus_right _ _ _ _ _ _ Hf), bind_done.
      rewrite <-He. by destruct l.
    - by eapply remove_double. }
  exists h', (zleft z ++ inorder l), (inorder r ++ zright z).
  rewrite <-!app_assoc in *. done.
Qed.
