(* ===== verification/RBIter.v ===== *)
(** * Traversal of a red-black tree

    [RB_MIN], [RB_NEXT] and [RB_FOREACH] walk through the elements in the order
    of the tree: the first element, the successor of every element, and the
    first element that satisfies a condition. *)

From S2P Require Import Prelude RBTree RBShape RBRemove.

Lemma nodup_split_eq (l1 l2 k1 k2 : list nat) (i : nat) :
  NoDup (l1 ++ i :: l2) → l1 ++ i :: l2 = k1 ++ i :: k2 → l2 = k2.
Proof.
  revert k1. induction l1 as [|a l1 IH]; intros [|b k1] Hn Heq; simplify_eq/=.
  - done.
  - apply NoDup_cons in Hn as [Hn _]. set_solver.
  - apply NoDup_cons in Hn as [Hn _]. set_solver.
  - apply NoDup_cons in Hn as [_ Hn]. eauto.
Qed.

(** ** The minimum *)
Lemma minmax_spec fuel h z p t :
  (height t < fuel)%nat → focus h z t →
  RB_MINMAX_loop fuel L h p (root_ptr t) =
  Done (match head (inorder t) with Some i => Some i | None => p end).
Proof.
  revert z p t. induction fuel as [|fuel IH]; intros z p t Hfuel Hf; [lia|].
  destruct t as [|c l i r]; [done|]. cbn [RB_MINMAX_loop root_ptr].
  rewrite (focus_child h z L c l i r Hf), bind_done.
  assert (height l < fuel)%nat by (simpl in Hfuel; lia).
  apply focus_T in Hf. rewrite (IH _ _ _ ltac:(done) Hf). simpl. by destruct (inorder l).
Qed.

Lemma min_spec h order : valid h order → RB_MIN h = Done (head order).
Proof.
  intros (t & n & Hf & _ & <-). unfold RB_MIN.
  assert (Hroot : rbh_root h = root_ptr t) by apply Hf. rewrite Hroot.
  rewrite (minmax_spec _ h [] None t); [by destruct (inorder t)| |done].
  pose proof (focus_fuel_height _ _ _ Hf). lia.
Qed.

(** ** The successor *)
Lemma climb_spec fuel h z t i :
  (length z < fuel)%nat → focus h z t → root_ptr t = Some i →
  ∃ e, climb fuel h (Some i) = Done e ∧ RB_PARENT h e = Done (head (zright z)).
Proof.
  revert z t i. induction fuel as [|fuel IH]; intros z t i Hfuel Hf Hi; [lia|].
  assert (Hp : RB_PARENT h (Some i) = Done (zparent z)).
  { destruct t as [|c l j r]; [done|]. injection Hi as ->. apply (focus_parent h z L c l i r Hf). }
  cbn [climb]. rewrite Hp, bind_done.
  destruct z as [|[d c p s] z]; [by exists (Some i)|]. simpl zparent in *.
  pose proof (proj1 (focus_up _ _ _ _) Hf) as Hfp.
  cbn [f_dir f_color f_id f_sib length] in Hfp, Hfuel. cbv iota.
  destruct d; simpl in Hfp.
  - rewrite (focus_right _ _ _ _ _ _ Hfp), bind_done, bool_decide_false; [by exists (Some i)|].
    apply not_eq_sym. eapply (focus_root_ne h z L); [exact Hfp|done].
  - rewrite (focus_right _ _ _ _ _ _ Hfp), bind_done, ?Hi, bool_decide_true by done.
    eapply (IH z (T c s p t) p); [lia|exact Hfp|done].
Qed.

(** [RB_NEXT] below an element without a right child. *)
Lemma next_up h z c l i :
  focus h z (T c l i E) → RB_NEXT h (Some i) = Done (head (zright z)).
Proof.
  intros Hf. unfold RB_NEXT. rewrite (focus_right _ _ _ _ _ _ Hf), bind_done. simpl root_ptr.
  rewrite (focus_parent h z L _ _ _ _ Hf), bind_done.
  pose proof (focus_fuel_height _ _ _ Hf).
  destruct (climb_spec (fuel_of h) h z _ i ltac:(lia) Hf) as (e & He & Hpe); [done|].
  destruct z as [|[d k p s] z].
  { simpl zparent. cbv iota. rewrite bind_done, (bool_decide_false (None ≠ None)) by (by intros []).
    rewrite andb_false_l, He, bind_done. exact Hpe. }
  pose proof (proj1 (focus_up _ _ _ _) Hf) as Hfp. simpl in Hfp. simpl zparent.
  destruct d; simpl in Hfp.
  - rewrite (focus_left _ _ _ _ _ _ Hfp), bind_done, !bool_decide_true by done.
    done.
  - rewrite (focus_left _ _ _ _ _ _ Hfp), bind_done.
    rewrite (bool_decide_false (Some i = _)).
    + rewrite andb_false_r, He, bind_done. exact Hpe.
    + apply not_eq_sym. eapply (focus_root_ne h z R); [exact Hfp|done].
Qed.

(** [RB_NEXT] of an element with a right child. *)
Lemma next_down h z c l i r n :
  focus h z (T c l i r) → rb c n (T c l i r) → rbz c n z → r ≠ E →
  RB_NEXT h (Some i) = Done (head (inorder r)).
Proof.
  intros Hf Ht Hz Hr. unfold RB_NEXT. rewrite (focus_right _ _ _ _ _ _ Hf), bind_done.
  destruct (rbz_down c n z R c r i l Ht Hz) as (ca & na & Ha & Hza).
  assert (Hfr : focus h (Frame R c i l :: z) r) by by rewrite focus_up.
  pose proof (focus_fuel_height _ _ _ Hfr).
  destruct (leftmost_spec (fuel_of h) h (Frame R c i l :: z) ca r na ltac:(lia) Hr Hfr Ha Hza)
    as (zz & cm & m & mr & k & He & _ & _ & _ & <- & Hzz).
  rewrite inorder_plug. unfold whole. rewrite Hzz. simpl.
  destruct (root_ptr (plug zz (T cm E m mr))) eqn:Hroot; [exact He|].
  by apply root_ptr_None in Hroot.
Qed.

Lemma next_spec h l1 i l2 : valid h (l1 ++ i :: l2) → RB_NEXT h (Some i) = Done (head l2).
Proof.
  intros Hv. pose proof (valid_nodup _ _ Hv) as Hn.
  destruct (valid_focus _ _ i Hv) as (z & c & l & r & n & Hf & Ht & Hz & Hw); [set_solver|].
  assert (l2 = inorder r ++ zright z) as ->.
  { eapply nodup_split_eq; [exact Hn|]. rewrite <-Hw. unfold whole. simpl.
    by rewrite <-(app_assoc (inorder l)), (app_assoc (zleft z)). }
  destruct (decide (r = E)) as [->|Hr].
  - by eapply next_up.
  - rewrite (next_down _ _ _ _ _ _ _ Hf Ht Hz Hr).
    destruct r as [|cr rl j rr]; [done|]. simpl. by destruct (inorder rl).
Qed.

(** ** The loop *)
Lemma foreach_find_spec fuel f h l1 l2 :
  (length l2 < fuel)%nat → valid h (l1 ++ l2) →
  foreach_find fuel f h (head l2) = Done (List.find f l2).
Proof.
  revert l1 l2. induction fuel as [|fuel IH]; intros l1 l2 Hfuel Hv; [lia|].
  destruct l2 as [|i l2]; [done|]. cbn [foreach_find head List.find].
  destruct (f i); [done|]. rewrite (next_spec _ _ _ _ Hv), bind_done.
  apply (IH (l1 ++ [i])); [simpl in Hfuel; lia|]. by rewrite <-app_assoc.
Qed.

Lemma foreach_spec f h order : valid h order → RB_FOREACH_FIND f h = Done (List.find f order).
Proof.
  intros Hv. unfold RB_FOREACH_FIND. rewrite (min_spec _ _ Hv), bind_done.
  apply (foreach_find_spec _ _ _ []); [|done].
  apply le_n_S, NoDup_dom_length; [by eapply valid_nodup|].
  intros i. by apply valid_in_dom.
Qed.
