(* ===== verification/RBIndex.v ===== *)
(** * Red-black trees as ordered indexes

    What the rest of the stack relies on: a tree is a set of elements with
    distinct keys, in which one can search by key, insert, remove and walk in
    key order.  [OrderedIndex] states this as an interface; the instance at the
    end of the file discharges it with the lemmas of [RBInsert], [RBRemove] and
    [RBIter].  The files of the components that keep a tree are proved against
    the interface. *)

From S2P Require Import Prelude RBTree RBShape RBInsert RBRemove RBIter.

(** ** The abstract view *)

(** [h] is an index of the elements of [s] by their key. *)
Definition indexes (key : nat → Z) (h : rb_head) (s : gset nat) : Prop :=
  ∃ order, valid h order ∧ sorted_by key order ∧ s = list_to_set order.

(** [cmp] compares the key [k] with the keys of the elements of [s]. *)
Definition compares (key : nat → Z) (k : Z) (cmp : nat → Z) (s : gset nat) : Prop :=
  ∀ i, i ∈ s → (cmp i < 0 ↔ k < key i)%Z ∧ (0 < cmp i ↔ key i < k)%Z.

(** The result of a search in the abstract view. *)
Definition found (key : nat → Z) (k : Z) (s : gset nat) (res : option nat) : Prop :=
  match res with
  | Some i => i ∈ s ∧ key i = k
  | None => ∀ i, i ∈ s → key i ≠ k
  end.

(** The result of a traversal that stops at the first element satisfying [f]. *)
Definition first_sat (key : nat → Z) (f : nat → bool) (s : gset nat) (res : option nat) : Prop :=
  match res with
  | Some i => i ∈ s ∧ f i = true ∧ ∀ j, j ∈ s → f j = true → (key i <= key j)%Z
  | None => ∀ i, i ∈ s → f i = false
  end.

Class OrderedIndex (H : Type) (ix : (nat → Z) → H → gset nat → Prop) (nodes : H → gset nat)
    (find : (nat → Z) → H → outcome (option nat))
    (insert : (nat → Z) → H → nat → outcome (option nat * H))
    (remove : H → option nat → outcome H)
    (foreach : (nat → bool) → H → outcome (option nat)) : Prop := {
  ix_inj key h s i j : ix key h s → i ∈ s → j ∈ s → key i = key j → i = j;
  ix_nodes key h s i : ix key h s → i ∈ s → i ∈ nodes h;
  ix_ext key key' h s : ix key h s → (∀ i, i ∈ s → key' i = key i) → ix key' h s;
  ix_find key h s k cmp :
    ix key h s → compares key k cmp s →
    ∃ res, find cmp h = Done res ∧ found key k s res;
  ix_insert key h s i cmp :
    ix key h s → compares key (key i) cmp s → i ∈ nodes h → i ∉ s →
    ∃ res h', insert cmp h i = Done (res, h') ∧ found key (key i) s res ∧
      nodes h' = nodes h ∧
      match res with Some _ => h' = h | None => ix key h' ({[i]} ∪ s) end;
  ix_remove key h s i :
    ix key h s → i ∈ s →
    ∃ h', remove h (Some i) = Done h' ∧ ix key h' (s ∖ {[i]}) ∧ nodes h' = nodes h;
  ix_foreach key h s f :
    ix key h s → ∃ res, foreach f h = Done res ∧ first_sat key f s res
}.

(** ** Facts on sorted sequences *)
Section sorted.
Context (key : nat → Z).

Lemma sorted_inj order i j :
  sorted_by key order → i ∈ order → j ∈ order → key i = key j → i = j.
Proof.
  induction order as [|a order IH]; intros Hs Hi Hj Heq; [by apply elem_of_nil in Hi|].
  apply StronglySorted_inv in Hs as [Hs Ha]. rewrite Forall_forall in Ha.
  apply elem_of_cons in Hi as [->|Hi], Hj as [->|Hj].
  - done.
  - specialize (Ha j Hj). simpl in Ha. lia.
  - specialize (Ha i Hi). simpl in Ha. lia.
  - by apply IH.
Qed.

Lemma sorted_mid l1 i l2 :
  sorted_by key (l1 ++ l2) → (∀ j, j ∈ l1 → key j < key i)%Z → (∀ j, j ∈ l2 → key i < key j)%Z →
  sorted_by key (l1 ++ i :: l2).
Proof.
  unfold sorted_by. rewrite !StronglySorted_app. intros (H12 & H1 & H2) Hl Hr. split_and!.
  - intros j k Hj [->|Hk]%elem_of_cons; [by apply Hl|by apply H12].
  - done.
  - constructor; [done|]. by apply Forall_forall.
Qed.

Lemma sorted_drop l1 i l2 : sorted_by key (l1 ++ i :: l2) → sorted_by key (l1 ++ l2).
Proof.
  unfold sorted_by. rewrite !StronglySorted_app. intros (H12 & H1 & [H2 _]%StronglySorted_inv).
  split_and!; [|done|done]. intros j k Hj Hk. apply H12; [done|]. by right.
Qed.

Lemma sorted_ext key' order :
  (∀ i, i ∈ order → key' i = key i) → sorted_by key order → sorted_by key' order.
Proof.
  unfold sorted_by. intros He Hs. induction Hs as [|a l Hs IH Ha]; constructor.
  - apply IH. intros i Hi. apply He. by right.
  - rewrite Forall_forall in Ha |- *. intros j Hj. rewrite !He by (left || by right). by apply Ha.
Qed.

Lemma sorted_find f order :
  sorted_by key order → first_sat key f (list_to_set order) (List.find f order).
Proof.
  induction order as [|a order IH]; intros Hs; simpl; [set_solver|].
  apply StronglySorted_inv in Hs as [Hs Ha]. rewrite Forall_forall in Ha.
  destruct (f a) eqn:Hf.
  - split_and!; [set_solver|done|]. intros j Hj _.
    apply elem_of_union in Hj as [->%elem_of_singleton|Hj%elem_of_list_to_set]; [lia|].
    specialize (Ha j Hj). simpl in Ha. lia.
  - specialize (IH Hs). destruct (List.find f order) as [i|]; simpl in *.
    + destruct IH as (Hi & Hfi & Hmin). split_and!; [set_solver|done|].
      intros j [->%elem_of_singleton|Hj]%elem_of_union Hfj; [congruence|by apply Hmin].
    + intros i [->%elem_of_singleton|Hi]%elem_of_union; [done|by apply IH].
Qed.
End sorted.

Lemma compares_cmp_ok key k cmp order :
  compares key k cmp (list_to_set order) → cmp_ok key k cmp order.
Proof. intros Hc i Hi. apply Hc. by apply elem_of_list_to_set. Qed.

(** ** The implementation meets the interface *)
Definition nodes (h : rb_head) : gset nat := dom (rb_nodes h).

Lemma indexes_find key h s k cmp :
  indexes key h s → compares key k cmp s →
  ∃ res, RB_FIND cmp h = Done res ∧ found key k s res.
Proof.
  intros (order & Hv & Hs & ->) Hc%compares_cmp_ok.
  destruct (find_spec key h order k cmp Hv Hs Hc) as [(i & Hi & Hk & He)|[Hne He]].
  - exists (Some i). split; [done|]. split; [by apply elem_of_list_to_set|done].
  - exists None. split; [done|]. intros i Hi%elem_of_list_to_set. auto.
Qed.

Lemma indexes_insert key h s i cmp :
  indexes key h s → compares key (key i) cmp s → i ∈ nodes h → i ∉ s →
  ∃ res h', RB_INSERT cmp h i = Done (res, h') ∧ found key (key i) s res ∧
    nodes h' = nodes h ∧
    match res with Some _ => h' = h | None => indexes key h' ({[i]} ∪ s) end.
Proof.
  intros (order & Hv & Hs & ->) Hc%compares_cmp_ok Hi Hni.
  rewrite elem_of_list_to_set in Hni.
  destruct (insert_spec key h order (key i) cmp i Hv Hs Hc Hi Hni)
    as [(j & Hj & Hk & He)|(Hne & h' & l1 & l2 & He & -> & Hv' & Hd & Hl1 & Hl2)].
  - exists (Some j), h. split_and!; [done|split; [by apply elem_of_list_to_set|done]|done|done].
  - exists None, h'. split_and!; [done| |done|].
    + intros j Hj%elem_of_list_to_set. auto.
    + exists (l1 ++ i :: l2). split_and!; [done|by apply sorted_mid|].
      rewrite !list_to_set_app_L. simpl. set_solver.
Qed.

Lemma indexes_remove key h s i :
  indexes key h s → i ∈ s →
  ∃ h', RB_REMOVE h (Some i) = Done h' ∧ indexes key h' (s ∖ {[i]}) ∧ nodes h' = nodes h.
Proof.
  intros (order & Hv & Hs & ->) Hi%elem_of_list_to_set.
  destruct (remove_spec h order i Hv Hi) as (h' & l1 & l2 & -> & He & Hv' & Hd).
  exists h'. split_and!; [done| |done]. exists (l1 ++ l2).
  split_and!; [done|by eapply sorted_drop|].
  apply valid_nodup, NoDup_app in Hv as (_ & Hd1 & [Hi2 _]%NoDup_cons).
  rewrite !list_to_set_app_L. simpl. set_solver.
Qed.

#[export] Instance rb_ordered_index :
  OrderedIndex rb_head indexes nodes RB_FIND RB_INSERT RB_REMOVE RB_FOREACH_FIND.
Proof.
  split.
  - intros key h s i j (order & _ & Hs & ->) Hi%elem_of_list_to_set Hj%elem_of_list_to_set.
    by apply (sorted_inj key order).
  - intros key h s i (order & Hv & _ & ->) Hi%elem_of_list_to_set. by eapply valid_in_dom.
  - intros key key' h s (order & Hv & Hs & ->) He. exists order. split_and!; [done| |done].
    eapply sorted_ext; [|done]. intros i Hi. apply He. by apply elem_of_list_to_set.
  - apply indexes_find.
  - apply indexes_insert.
  - apply indexes_remove.
  - intros key h s f (order & Hv & Hs & ->). eexists. split; [by apply foreach_spec|].
    by apply sorted_find.
Qed.

(** Overwriting the links of an element outside the tree is harmless. *)
Lemma indexes_unlinked key h s i e :
  indexes key h s → i ∉ s → indexes key (RbHead (rbh_root h) (<[i := e]> (rb_nodes h))) s.
Proof.
  intros (order & Hv & Hs & ->) Hi. rewrite elem_of_list_to_set in Hi.
  exists order. split_and!; [by apply valid_unlinked|done|done].
Qed.

(** ** The empty index, [RB_INITIALIZER] and [RB_INITIALIZER] *)
Definition zero_entry : rb_entry := RbEntry None None None RB_BLACK.

(** The entries of [n] elements in zero-initialised static storage. *)
Definition RB_INITIALIZER (n : nat) : rb_head :=
  RbHead None (list_to_map ((fun i => (i, zero_entry)) <$> seq 0 n)).

Lemma nodes_init n i : i ∈ nodes (RB_INITIALIZER n) ↔ (i < n)%nat.
Proof.
  unfold nodes, RB_INITIALIZER. simpl. rewrite dom_list_to_map, elem_of_list_to_set, <-list_fmap_compose.
  rewrite (list_fmap_ext _ id), list_fmap_id by done. rewrite elem_of_seq. lia.
Qed.

Lemma indexes_init key n : indexes key (RB_INITIALIZER n) ∅.
Proof.
  exists []. split_and!; [|constructor|done]. exists E, 0%nat. split_and!; [|constructor|done].
  split_and!; [done|done|constructor].
Qed.
