(* ===== verification/RBMap.v ===== *)
(** * The red-black tree as a finite map

    The refinement theorem of [src/tree.h]: every sequence of insertions,
    lookups and removals by key gives the answers of a finite map from keys to
    elements.  Next to it the correctness of the single operations, the balance
    of the tree, and what happens when the contract is broken: removing an
    element that was never inserted empties the tree. *)

From S2P Require Import Prelude RBTree RBShape RBInsert RBRemove RBIter RBIndex.

(** ** Sessions *)

(** The ways in which the stack uses a tree: removal is of an element that a
    lookup has just returned. *)
Inductive rb_op : Type :=
| op_insert (i : nat)
| op_find (k : Z)
| op_remove (k : Z).

Section session.
Context (key : nat → Z).

(** The comparator of an element with key [k] against the elements. *)
Definition key_cmp (k : Z) (i : nat) : Z := k - key i.

Definition rb_step (h : rb_head) (o : rb_op) : outcome (ptr * rb_head) :=
  match o with
  | op_insert i => RB_INSERT (key_cmp (key i)) h i
  | op_find k => e ← RB_FIND (key_cmp k) h; Done (e, h)
  | op_remove k =>
      e ← RB_FIND (key_cmp k) h;
      match e with
      | Some _ => h ← RB_REMOVE h e; Done (e, h)
      | None => Done (None, h)
      end
  end.

Fixpoint rb_run (h : rb_head) (ops : list rb_op) : outcome (list ptr * rb_head) :=
  match ops with
  | [] => Done ([], h)
  | o :: ops =>
      '(r, h) ← rb_step h o;
      '(rs, h) ← rb_run h ops;
      Done (r :: rs, h)
  end.

(** The specification: a finite map from keys to elements. *)
Definition map_step (m : gmap Z nat) (o : rb_op) : ptr * gmap Z nat :=
  match o with
  | op_insert i =>
      match m !! key i with
      | Some j => (Some j, m)
      | None => (None, <[key i := i]> m)
      end
  | op_find k => (m !! k, m)
  | op_remove k => (m !! k, delete k m)
  end.

Fixpoint map_run (m : gmap Z nat) (ops : list rb_op) : list ptr * gmap Z nat :=
  match ops with
  | [] => ([], m)
  | o :: ops =>
      let (r, m) := map_step m o in
      let (rs, m) := map_run m ops in
      (r :: rs, m)
  end.

Definition op_ok (n : nat) (o : rb_op) : bool :=
  match o with op_insert i => bool_decide (i < n)%nat | _ => true end.

(** The simulation relation. *)
Definition refines (n : nat) (h : rb_head) (m : gmap Z nat) : Prop :=
  ∃ s, indexes key h s ∧ (∀ i, (i < n)%nat → i ∈ nodes h) ∧
    ∀ k i, m !! k = Some i ↔ i ∈ s ∧ key i = k.

Lemma key_cmp_compares k s : compares key k (key_cmp k) s.
Proof. intros i _. unfold key_cmp. lia. Qed.

Lemma refines_found h s (m : gmap Z nat) k res :
  indexes key h s → (∀ k i, m !! k = Some i ↔ i ∈ s ∧ key i = k) →
  found key k s res → m !! k = res.
Proof.
  intros Hx Hm. destruct res as [i|]; simpl.
  - intros [Hi Hk]. by apply Hm.
  - intros Hne. apply eq_None_not_Some. intros [i [Hi Hk]%Hm]. by apply (Hne i).
Qed.

Lemma refines_find n h m k : refines n h m → RB_FIND (key_cmp k) h = Done (m !! k).
Proof.
  intros (s & Hx & _ & Hm).
  destruct (ix_find key h s k (key_cmp k) Hx) as (res & -> & Hf); [apply key_cmp_compares|].
  by rewrite (refines_found h s m k res).
Qed.

(** An element whose key is taken is not inserted, be it linked or not. *)
Lemma insert_taken cmp h i j : RB_FIND cmp h = Done (Some j) → RB_INSERT cmp h i = Done (Some j, h).
Proof.
  unfold RB_FIND, RB_INSERT.
  destruct (descend _ cmp h None (rbh_root h) 0) as [[tmp|[p c]]| |]; simpl; try done.
  by intros [= ->].
Qed.

Lemma refines_step n h m o :
  refines n h m → op_ok n o = true →
  ∃ h', rb_step h o = Done ((map_step m o).1, h') ∧ refines n h' (map_step m o).2.
Proof.
  intros Hr Ho. pose proof Hr as (s & Hx & Hn & Hm). destruct o as [i|k|k]; simpl in *.
  - apply bool_decide_eq_true in Ho. pose proof (refines_find _ _ _ (key i) Hr) as Hfind.
    destruct (m !! key i) as [j|] eqn:Hj; simpl.
    { exists h. split; [|done]. by apply insert_taken. }
    assert (Hi : i ∉ s) by (intros Hi; by rewrite (proj2 (Hm (key i) i)) in Hj).
    destruct (ix_insert key h s i (key_cmp (key i)) Hx) as (res & h' & He & Hf & Hd & Hres);
      [apply key_cmp_compares|by apply Hn|done|].
    rewrite (refines_found _ _ _ _ _ Hx Hm Hf) in Hj. subst res. exists h'. split; [done|].
    exists ({[i]} ∪ s). split_and!; [done|by rewrite Hd|]. intros k j.
    rewrite elem_of_union, elem_of_singleton, lookup_insert.
    case_decide as Hk; [|rewrite Hm; naive_solver]. split; [naive_solver|].
    intros [[->|Hj] Hkj]; [done|]. destruct (Hf j Hj). congruence.
  - rewrite (refines_find n _ m), bind_done by done. by exists h.
  - rewrite (refines_find n _ m), bind_done by done. destruct (m !! k) as [j|] eqn:Hj.
    + apply Hm in Hj as [Hj Hk]. destruct (ix_remove key h s j Hx Hj) as (h' & -> & Hx' & Hd).
      exists h'. split; [done|]. exists (s ∖ {[j]}). split_and!; [done|by rewrite Hd|].
      intros k' i. rewrite elem_of_difference, elem_of_singleton, lookup_delete_Some, Hm.
      split; [naive_solver|]. intros [[Hi Hij] Hki]. split_and!; [|done|done].
      intros ->. apply Hij. eapply (ix_inj key h s); [done..|congruence].
    + exists h. split; [done|]. by rewrite delete_id.
Qed.

Lemma refines_run n h m ops :
  refines n h m → forallb (op_ok n) ops = true →
  ∃ h', rb_run h ops = Done ((map_run m ops).1, h') ∧ refines n h' (map_run m ops).2.
Proof.
  revert h m. induction ops as [|o ops IH]; intros h m Hr Hok; simpl in *; [by exists h|].
  apply andb_true_iff in Hok as [Ho Hok].
  destruct (refines_step n h m o Hr Ho) as (h1 & -> & Hr1). rewrite bind_done.
  destruct (map_step m o) as [r m1]. simpl in *.
  destruct (IH h1 m1 Hr1 Hok) as (h2 & -> & Hr2). exists h2.
  by destruct (map_run m1 ops).
Qed.
End session.

Lemma refines_init key n : refines key n (RB_INITIALIZER n) ∅.
Proof.
  exists ∅. split_and!; [apply indexes_init|intros i; apply nodes_init|].
  intros k i. rewrite lookup_empty. set_solver.
Qed.

(** ** A concrete tree, for the witnesses *)

(** Three elements with keys 10, 20 and 30, inserted in the order 0, 1, 2; the
    fourth element is not linked. *)
Definition key3 (i : nat) : Z := 10 * (i + 1).

Definition tree3 : rb_head :=
  match rb_run key3 (RB_INITIALIZER 4) [op_insert 0; op_insert 1; op_insert 2] with
  | Done (_, h) => h
  | _ => RB_INITIALIZER 4
  end.

Lemma tree3_valid : valid tree3 [0; 1; 2]%nat.
Proof.
  exists (T RB_BLACK (T RB_RED E 0 E) 1 (T RB_RED E 2 E)), 1%nat. split_and!.
  - split_and!; [by vm_compute|by vm_compute|]. by apply (bool_decide_unpack _); vm_compute.
  - repeat econstructor.
  - done.
Qed.

Lemma tree3_sorted : sorted_by key3 [0; 1; 2]%nat.
Proof. repeat constructor. Qed.

(** ** The properties *)

(** C1: every session of insertions (of the elements of the storage), lookups
    and removals that starts with an empty tree returns, without a NULL
    dereference and without running out of steps, the answers of a finite map
    from keys to elements, and leaves a tree that represents that map. *)
Theorem rb_tree_refines_map key n ops :
  forallb (op_ok n) ops = true →
  ∃ h', rb_run key (RB_INITIALIZER n) ops = Done ((map_run key ∅ ops).1, h') ∧
    refines key n h' (map_run key ∅ ops).2.
Proof. intros Hok. apply refines_run; [apply refines_init|done]. Qed.

Definition sample_ops : list rb_op :=
  [op_insert 0; op_insert 1; op_insert 2; op_insert 3; op_find 20; op_remove 20; op_find 20;
   op_insert 1; op_insert 1; op_remove 40; op_remove 10].

Lemma rb_tree_refines_map_witness :
  forallb (op_ok 4) sample_ops = true ∧
  ∃ h', rb_run key3 (RB_INITIALIZER 4) sample_ops = Done ((map_run key3 ∅ sample_ops).1, h') ∧
    refines key3 4 h' (map_run key3 ∅ sample_ops).2.
Proof. split; [reflexivity|]. apply rb_tree_refines_map. reflexivity. Defined.

(** [RB_INSERT] into a red-black tree with sorted keys either reports the
    element that has the key and changes nothing, or links the new element at
    its place in the key order; the result is again a red-black tree (no red
    element has a red child, all paths have the same number of black elements)
    with consistent parent and child links. *)
Theorem rb_insert_keeps_tree key h order k cmp elm :
  valid h order → sorted_by key order → cmp_ok key k cmp order →
  elm ∈ dom (rb_nodes h) → elm ∉ order →
  (∃ i, i ∈ order ∧ key i = k ∧ RB_INSERT cmp h elm = Done (Some i, h)) ∨
  ((∀ i, i ∈ order → key i ≠ k) ∧
   ∃ h' l1 l2, RB_INSERT cmp h elm = Done (None, h') ∧ order = l1 ++ l2 ∧
     valid h' (l1 ++ elm :: l2) ∧ same_dom h h' ∧
     (∀ i, i ∈ l1 → key i < k)%Z ∧ (∀ i, i ∈ l2 → k < key i)%Z).
Proof. apply insert_spec. Qed.

Lemma rb_insert_keeps_tree_witness :
  (∃ i, i ∈ [0; 1; 2]%nat ∧ key3 i = 25 ∧ RB_INSERT (key_cmp key3 25) tree3 3 = Done (Some i, tree3)) ∨
  ((∀ i, i ∈ [0; 1; 2]%nat → key3 i ≠ 25) ∧
   ∃ h' l1 l2, RB_INSERT (key_cmp key3 25) tree3 3 = Done (None, h') ∧ [0; 1; 2]%nat = l1 ++ l2 ∧
     valid h' (l1 ++ 3%nat :: l2) ∧ same_dom tree3 h' ∧
     (∀ i, i ∈ l1 → key3 i < 25)%Z ∧ (∀ i, i ∈ l2 → 25 < key3 i)%Z).
Proof.
  apply (rb_insert_keeps_tree key3 tree3 [0; 1; 2]%nat 25 (key_cmp key3 25) 3).
  - exact tree3_valid.
  - exact tree3_sorted.
  - intros i _. unfold key_cmp. lia.
  - apply elem_of_dom. by eexists.
  - by apply (bool_decide_unpack _); vm_compute.
Defined.

(** [RB_REMOVE] of a linked element returns a red-black tree over the same
    sequence without that element. *)
Theorem rb_remove_keeps_tree h order i :
  valid h order → i ∈ order →
  ∃ h' l1 l2, order = l1 ++ i :: l2 ∧ RB_REMOVE h (Some i) = Done h' ∧
    valid h' (l1 ++ l2) ∧ same_dom h h'.
Proof. apply remove_spec. Qed.

Lemma rb_remove_keeps_tree_witness :
  ∃ h' l1 l2, [0; 1; 2]%nat = l1 ++ 1%nat :: l2 ∧ RB_REMOVE tree3 (Some 1%nat) = Done h' ∧
    valid h' (l1 ++ l2) ∧ same_dom tree3 h'.
Proof.
  apply (rb_remove_keeps_tree tree3 [0; 1; 2]%nat 1 tree3_valid). right. left.
Defined.

(** C33: a search among [n] elements needs at most [2 log2 (n + 1)] comparisons:
    the descent of [RB_FIND] and [RB_INSERT] ends within that many steps. *)
Theorem rb_search_logarithmic key h order k cmp :
  valid h order → sorted_by key order → cmp_ok key k cmp order →
  is_done (descend (S (2 * Nat.log2 (S (length order)))) cmp h None (rbh_root h) 0) = true.
Proof.
  intros (t & n & Hf & Ht & <-) Hs Hc.
  assert (Hroot : rbh_root h = root_ptr t) by apply Hf. rewrite Hroot.
  destruct (rb_size_height _ _ _ Ht) as [Hsize Hheight].
  apply Nat.log2_le_mono in Hsize. rewrite Nat.log2_pow2 in Hsize by lia.
  rewrite decide_False in Hheight by done.
  destruct (descend_spec key (S (2 * Nat.log2 (S (length (inorder t))))) h cmp k [] t RB_BLACK n 0)
    as [(i & _ & _ & Hd)|(_ & z' & comp' & Hd & _)]; simpl zparent in *;
    [lia|done|done|constructor|done|done|done|by rewrite Hd|by rewrite Hd].
Qed.

Lemma rb_search_logarithmic_witness :
  is_done (descend 5 (key_cmp key3 25) tree3 None (rbh_root tree3) 0) = true.
Proof.
  apply (rb_search_logarithmic key3 tree3 [0; 1; 2]%nat 25 (key_cmp key3 25)).
  - exact tree3_valid.
  - exact tree3_sorted.
  - intros i _. unfold key_cmp. lia.
Defined.

(** [RB_FOREACH] visits the elements in the order of the tree, so a loop
    that stops at the first match returns the first element of the key order
    that satisfies the condition, and visits every element when none does. *)
Theorem rb_foreach_in_order f h order :
  valid h order → RB_FOREACH_FIND f h = Done (List.find f order).
Proof. apply foreach_spec. Qed.

Lemma rb_foreach_in_order_witness :
  RB_FOREACH_FIND (fun i => (15 <? key3 i)%Z) tree3 = Done (Some 1%nat).
Proof. apply (rb_foreach_in_order (fun i => (15 <? key3 i)%Z) tree3 [0; 1; 2]%nat tree3_valid). Defined.

(** ** Removing an element that is not linked *)
Lemma remove_unlinked h i :
  rb_nodes h !! i = Some zero_entry → RB_REMOVE h (Some i) = Done (RbHead None (rb_nodes h)).
Proof.
  intros Hi. unfold RB_REMOVE, RB_LEFT, RB_RIGHT.
  rewrite !(child_done _ _ _ _ Hi), !bind_done. simpl get_child. cbv iota.
  rewrite (parent_done _ _ _ Hi), bind_done, (color_done _ _ _ Hi), !bind_done.
  done.
Qed.

(** ** Trees of one element *)
Section single.
Context (e : nat) (N : gmap nat rb_entry).
Context (He : N !! e = Some zero_entry).

Let h : rb_head := RbHead (Some e) N.

Lemma single_fuel : ∃ n, fuel_of h = S (S n).
Proof.
  unfold fuel_of. simpl. destruct (size N) as [|n] eqn:Hs; [|by exists n].
  apply map_size_empty_inv in Hs. by rewrite Hs, lookup_empty in He.
Qed.

Lemma single_entry : entry h (Some e) = Done zero_entry.
Proof. unfold entry. simpl. by rewrite He. Qed.

Lemma single_descend cmp p :
  descend (fuel_of h) cmp h p (Some e) 0 =
  Done (if bool_decide (cmp e = 0%Z) then inl (Some e) else inr (Some e, cmp e)).
Proof.
  destruct single_fuel as [n ->]. cbn [descend].
  unfold RB_LEFT, RB_RIGHT, RB_CHILD. rewrite single_entry. case_tests; try lia; done.
Qed.

Lemma single_find cmp :
  RB_FIND cmp h = Done (if bool_decide (cmp e = 0%Z) then Some e else None).
Proof.
  unfold RB_FIND. change (rbh_root h) with (Some e). rewrite single_descend, bind_done. by case_tests.
Qed.

Lemma single_child d : RB_CHILD d h (Some e) = Done None.
Proof. unfold RB_CHILD. rewrite single_entry. by destruct d. Qed.

Lemma single_parent : RB_PARENT h (Some e) = Done None.
Proof. unfold RB_PARENT. by rewrite single_entry. Qed.

Lemma single_next : RB_NEXT h (Some e) = Done None.
Proof.
  unfold RB_NEXT, RB_RIGHT. rewrite single_child, bind_done, single_parent, !bind_done.
  destruct single_fuel as [n ->]. cbn [climb]. rewrite single_parent, bind_done. cbv iota.
  rewrite andb_false_l, bind_done. apply single_parent.
Qed.

Lemma single_foreach f : RB_FOREACH_FIND f h = Done (if f e then Some e else None).
Proof.
  unfold RB_FOREACH_FIND, RB_MIN. destruct single_fuel as [n ->].
  cbn [RB_MINMAX_loop]. change (rbh_root h) with (Some e). cbv iota.
  rewrite single_child, !bind_done. cbn [foreach_find]. destruct (f e); [done|].
  by rewrite single_next, bind_done.
Qed.
End single.
