(* ===== verification/Rib.v ===== *)
(** * The routing table, [src/ip_route.c]

    Route entries live in the static array [rib]; the used ones are linked into
    two red-black trees, by network and by interface address, the others into a
    free list.  The operations work on an explicit state and on the pointer
    level trees of [RBTree]. *)

From S2P Require Import Prelude Bytes RBTree RBIndex.

#[local] Open Scope Z_scope.

(** ** Data *)

(** [struct ip_route] *)
Record ip_route : Type := IpRoute {
  r_network : Z;
  r_netmask : Z;
  r_gw : Z;
  r_iface : Z;
  r_iface_handle : Z
}.

#[export] Instance ip_route_eq_dec : EqDecision ip_route.
Proof. solve_decision. Defined.

Definition zero_route : ip_route := IpRoute 0 0 0 0 0.

Definition XSTACK_IP_RIB_SIZE : nat := 5.

(** The static variables of the file.  The tree links of an entry are in the
    [rb_nodes] of the two heads, the free list is the sequence of the entries
    linked by [_rib_freelist_entry]. *)
Record rib_state : Type := RibState {
  rib : list ip_route;
  rib_routetree : rb_head;
  rib_sourcetree : rb_head;
  rib_freelist : list nat
}.

(** The result of the functions that return 0, or -1 with [errno] set. *)
Inductive status : Type :=
| OK
| FAIL (errno : Z).

#[export] Instance status_eq_dec : EqDecision status.
Proof. solve_decision. Defined.

(** ** Comparators *)
Definition entry_route (st : rib_state) (i : nat) : ip_route :=
  default zero_route (rib st !! i).

(** [return a->route.r_network - b->route.r_network]: the difference of two
    [uint32_t] is converted to [int]. *)
Definition route_network_cmp (a b : ip_route) : Z := s32 (u32 (r_network a - r_network b)).
Definition route_iface_cmp (a b : ip_route) : Z := s32 (u32 (r_iface a - r_iface b)).

(** ** Entry allocation *)

(** [SLIST_REMOVE_HEAD] dereferences the first entry. *)
Definition ip_route_entry_alloc (st : rib_state) : outcome (nat * rib_state) :=
  match rib_freelist st with
  | [] => Fault
  | entry :: fl =>
      Done (entry, RibState (rib st) (rib_routetree st) (rib_sourcetree st) fl)
  end.

Definition ip_route_entry_free (st : rib_state) (entry : nat) : rib_state :=
  RibState (rib st) (rib_routetree st) (rib_sourcetree st) (entry :: rib_freelist st).

(** [entry->route = *route] *)
Definition set_route (st : rib_state) (entry : nat) (route : ip_route) : rib_state :=
  RibState (<[entry := route]> (rib st)) (rib_routetree st) (rib_sourcetree st) (rib_freelist st).

(** [memset(entry, 0, sizeof(struct ip_route_entry))] also clears the links. *)
Definition clear_links (h : rb_head) (entry : nat) : rb_head :=
  RbHead (rbh_root h) (<[entry := zero_entry]> (rb_nodes h)).

Definition clear_entry (st : rib_state) (entry : nat) : rib_state :=
  RibState (<[entry := zero_route]> (rib st)) (clear_links (rib_routetree st) entry)
    (clear_links (rib_sourcetree st) entry) (rib_freelist st).

(** ** The trees *)
Definition ip_route_tree_insert (st : rib_state) (entry : nat) : outcome rib_state :=
  let a := entry_route st entry in
  '(_, rt) ← RB_INSERT (fun i => route_network_cmp a (entry_route st i)) (rib_routetree st) entry;
  '(_, src) ← RB_INSERT (fun i => route_iface_cmp a (entry_route st i)) (rib_sourcetree st) entry;
  Done (RibState (rib st) rt src (rib_freelist st)).

Definition ip_route_tree_remove (st : rib_state) (entry : nat) : outcome rib_state :=
  rt ← RB_REMOVE (rib_routetree st) (Some entry);
  src ← RB_REMOVE (rib_sourcetree st) (Some entry);
  Done (RibState (rib st) rt src (rib_freelist st)).

Definition find_network (st : rib_state) (a : ip_route) : outcome ptr :=
  RB_FIND (fun i => route_network_cmp a (entry_route st i)) (rib_routetree st).

Definition find_iface (st : rib_state) (a : ip_route) : outcome ptr :=
  RB_FIND (fun i => route_iface_cmp a (entry_route st i)) (rib_sourcetree st).

(** ** The interface of the module *)
Definition ip_route_add (st : rib_state) (route : ip_route) : outcome (status * rib_state) :=
  '(entry, st) ← ip_route_entry_alloc st;
  let st := set_route st entry route in
  st ← ip_route_tree_insert st entry;
  Done (OK, st).

Definition ip_route_update (st : rib_state) (route : ip_route) : outcome (status * rib_state) :=
  entry ← find_network st route;
  match entry with
  | Some e =>
      st ← ip_route_tree_remove st e;
      let st := set_route st e route in
      st ← ip_route_tree_insert st e;
      Done (OK, st)
  | None => ip_route_add st route
  end.

Definition ip_route_remove (st : rib_state) (route : ip_route) : outcome (status * rib_state) :=
  entry ← find_network st route;
  match entry with
  | None => Done (FAIL ENOENT, st)
  | Some e =>
      st ← ip_route_tree_remove st e;
      let st := clear_entry st e in
      Done (OK, ip_route_entry_free st e)
  end.

Definition with_network (net : Z) : ip_route := IpRoute net 0 0 0 0.
Definition with_iface (addr : Z) : ip_route := IpRoute 0 0 0 addr 0.

(** Exact match, then the network masks, then the default gateway. *)
Definition ip_route_find_by_network (st : rib_state) (addr : Z) : outcome (option ip_route) :=
  let result (entry : ptr) :=
    match entry with
    | None => Done None
    | Some e => Some <$> deref (rib st !! e)
    end in
  entry ← find_network st (with_network addr);
  match entry with
  | Some _ => result entry
  | None =>
    entry ← RB_FOREACH_FIND
      (fun i => let r := entry_route st i in
                bool_decide (r_network r = Z.land addr (r_netmask r))) (rib_routetree st);
    match entry with
    | Some _ => result entry
    | None => entry ← find_network st (with_network 0); result entry
    end
  end.

Definition ip_route_find_by_iface (st : rib_state) (addr : Z) : outcome (option ip_route) :=
  entry ← find_iface st (with_iface addr);
  match entry with
  | None => Done None
  | Some e => Some <$> deref (rib st !! e)
  end.

(** [ip_route_init]: every entry goes to the head of the free list. *)
Definition ip_route_init : rib_state :=
  RibState (repeat zero_route XSTACK_IP_RIB_SIZE)
    (RB_INITIALIZER XSTACK_IP_RIB_SIZE) (RB_INITIALIZER XSTACK_IP_RIB_SIZE)
    (rev (seq 0 XSTACK_IP_RIB_SIZE)).

(** ** Addresses compared on the circle *)

(** The comparators return a 32-bit difference as an [int].  This is an order
    on the addresses of any half of the address circle, here the half that
    starts at [lo]; [pos lo] is the position of an address on it. *)
Definition pos (lo x : Z) : Z := (x - lo) mod 2 ^ 32.
Definition in_half (lo x : Z) : Prop := 0 <= x < 2 ^ 32 ∧ pos lo x < 2 ^ 31.

#[export] Instance in_half_dec lo x : Decision (in_half lo x).
Proof. unfold in_half. apply _. Defined.

Lemma s32_sub lo x y :
  in_half lo x → in_half lo y → s32 (u32 (x - y)) = pos lo x - pos lo y.
Proof. unfold in_half, pos, s32, u32. intros Hx Hy. case_bool_decide; dlia. Qed.

Lemma pos_inj lo x y : in_half lo x → in_half lo y → pos lo x = pos lo y → x = y.
Proof. unfold in_half, pos. intros Hx Hy. dlia. Qed.

(** ** Invariant *)
Section invariant.
Context `{!OrderedIndex rb_head indexes nodes RB_FIND RB_INSERT RB_REMOVE RB_FOREACH_FIND}.
Context (lo lo' : Z).

Definition netkey (st : rib_state) (i : nat) : Z := pos lo (r_network (entry_route st i)).
Definition ifkey (st : rib_state) (i : nat) : Z := pos lo' (r_iface (entry_route st i)).

Definition route_ok (r : ip_route) : Prop := in_half lo (r_network r) ∧ in_half lo' (r_iface r).

(** The elements of [used] are linked into both trees. *)
Record linked (st : rib_state) (used : gset nat) : Prop := Linked {
  linked_net : indexes (netkey st) (rib_routetree st) used;
  linked_if : indexes (ifkey st) (rib_sourcetree st) used;
  linked_nodes_net i : (i < XSTACK_IP_RIB_SIZE)%nat → i ∈ nodes (rib_routetree st);
  linked_nodes_if i : (i < XSTACK_IP_RIB_SIZE)%nat → i ∈ nodes (rib_sourcetree st);
  linked_size : length (rib st) = XSTACK_IP_RIB_SIZE;
  linked_bound i : i ∈ used → (i < XSTACK_IP_RIB_SIZE)%nat;
  linked_ok i : i ∈ used → route_ok (entry_route st i)
}.

(** The free list holds the other entries, each once. *)
Definition free_ok (st : rib_state) (used : gset nat) : Prop :=
  NoDup (rib_freelist st) ∧
  ∀ i, i ∈ rib_freelist st ↔ (i < XSTACK_IP_RIB_SIZE)%nat ∧ i ∉ used.

Lemma net_compares st used a :
  linked st used → in_half lo (r_network a) →
  compares (netkey st) (pos lo (r_network a)) (fun i => route_network_cmp a (entry_route st i)) used.
Proof.
  intros Hl Ha i Hi. unfold route_network_cmp, netkey.
  destruct (linked_ok _ _ Hl i Hi) as [Hn _]. rewrite (s32_sub lo) by done. lia.
Qed.

Lemma if_compares st used a :
  linked st used → in_half lo' (r_iface a) →
  compares (ifkey st) (pos lo' (r_iface a)) (fun i => route_iface_cmp a (entry_route st i)) used.
Proof.
  intros Hl Ha i Hi. unfold route_iface_cmp, ifkey.
  destruct (linked_ok _ _ Hl i Hi) as [_ Hn]. rewrite (s32_sub lo') by done. lia.
Qed.

(** What the lookups answer. *)
Lemma find_network_spec st used a :
  linked st used → in_half lo (r_network a) →
  ∃ res, find_network st a = Done res ∧
    match res with
    | Some i => i ∈ used ∧ r_network (entry_route st i) = r_network a
    | None => ∀ i, i ∈ used → r_network (entry_route st i) ≠ r_network a
    end.
Proof.
  intros Hl Ha. unfold find_network.
  destruct (ix_find _ _ _ _ _ (linked_net _ _ Hl) (net_compares st used a Hl Ha)) as (res & -> & Hf).
  exists res. split; [done|]. destruct res as [i|]; simpl in Hf.
  - destruct Hf as [Hi Hk]. split; [done|]. by apply (pos_inj lo); [apply (linked_ok _ _ Hl)| |].
  - intros i Hi Heq. apply (Hf i Hi). unfold netkey. by rewrite Heq.
Qed.

Lemma find_iface_spec st used a :
  linked st used → in_half lo' (r_iface a) →
  ∃ res, find_iface st a = Done res ∧
    match res with
    | Some i => i ∈ used ∧ r_iface (entry_route st i) = r_iface a
    | None => ∀ i, i ∈ used → r_iface (entry_route st i) ≠ r_iface a
    end.
Proof.
  intros Hl Ha. unfold find_iface.
  destruct (ix_find _ _ _ _ _ (linked_if _ _ Hl) (if_compares st used a Hl Ha)) as (res & -> & Hf).
  exists res. split; [done|]. destruct res as [i|]; simpl in Hf.
  - destruct Hf as [Hi Hk]. split; [done|]. by apply (pos_inj lo'); [apply (linked_ok _ _ Hl)| |].
  - intros i Hi Heq. apply (Hf i Hi). unfold ifkey. by rewrite Heq.
Qed.

(** Entries outside [used] may be rewritten. *)
Lemma entry_set_route st e r i :
  (e < length (rib st))%nat →
  entry_route (set_route st e r) i = if decide (i = e) then r else entry_route st i.
Proof.
  intros He. unfold entry_route, set_route. simpl. case_decide as Hi.
  - subst. by rewrite list_lookup_insert_eq.
  - by rewrite list_lookup_insert_ne.
Qed.

Lemma linked_set_route st used e r :
  linked st used → (e < XSTACK_IP_RIB_SIZE)%nat → e ∉ used → linked (set_route st e r) used.
Proof.
  intros [Hn Hi Hnn Hni Hs Hb Ho] He Heu.
  assert (Hsame : ∀ i, i ∈ used → entry_route (set_route st e r) i = entry_route st i).
  { intros i Hu. rewrite entry_set_route by (by rewrite Hs). rewrite decide_False; [done|].
    by intros ->. }
  split; try done.
  - eapply ix_ext; [exact Hn|]. intros i Hu. unfold netkey. by rewrite Hsame.
  - eapply ix_ext; [exact Hi|]. intros i Hu. unfold ifkey. by rewrite Hsame.
  - simpl. by rewrite length_insert.
  - intros i Hu. rewrite Hsame; auto.
Qed.

Lemma tree_insert_spec st used e :
  linked st used → (e < XSTACK_IP_RIB_SIZE)%nat → e ∉ used → route_ok (entry_route st e) →
  (∀ i, i ∈ used → r_network (entry_route st i) ≠ r_network (entry_route st e) ∧
                   r_iface (entry_route st i) ≠ r_iface (entry_route st e)) →
  ∃ st', ip_route_tree_insert st e = Done st' ∧ linked st' ({[e]} ∪ used) ∧
    rib st' = rib st ∧ rib_freelist st' = rib_freelist st.
Proof.
  intros Hl He Heu [Hon Hoi] Hne. unfold ip_route_tree_insert.
  destruct (ix_insert _ _ _ e _ (linked_net _ _ Hl) (net_compares st used _ Hl Hon))
    as (res & rt & -> & Hf & Hd & Hres); [by apply (linked_nodes_net _ _ Hl)|done|].
  destruct res as [i|].
  { destruct Hf as [Hi Hk]. destruct (Hne i Hi) as [Hc _]. destruct Hc.
    by apply (pos_inj lo); [apply (linked_ok _ _ Hl)| |]. }
  rewrite bind_done.
  destruct (ix_insert _ _ _ e _ (linked_if _ _ Hl) (if_compares st used _ Hl Hoi))
    as (res & src & -> & Hf' & Hd' & Hres'); [by apply (linked_nodes_if _ _ Hl)|done|].
  destruct res as [i|].
  { destruct Hf' as [Hi Hk]. destruct (Hne i Hi) as [_ Hc]. destruct Hc.
    by apply (pos_inj lo'); [apply (linked_ok _ _ Hl)| |]. }
  rewrite bind_done. eexists. split; [done|]. split; [|done]. destruct Hl.
  split; simpl; try done.
  - intros i Hi. rewrite Hd. auto.
  - intros i Hi. rewrite Hd'. auto.
  - intros i [->%elem_of_singleton|Hi]%elem_of_union; auto.
  - intros i [->%elem_of_singleton|Hi]%elem_of_union; [done|]. by apply linked_ok0.
Qed.

Lemma tree_remove_spec st used e :
  linked st used → e ∈ used →
  ∃ st', ip_route_tree_remove st e = Done st' ∧ linked st' (used ∖ {[e]}) ∧
    rib st' = rib st ∧ rib_freelist st' = rib_freelist st.
Proof.
  intros Hl He. unfold ip_route_tree_remove.
  destruct (ix_remove _ _ _ e (linked_net _ _ Hl) He) as (rt & -> & Hrt & Hd). rewrite bind_done.
  destruct (ix_remove _ _ _ e (linked_if _ _ Hl) He) as (src & -> & Hsrc & Hd'). rewrite bind_done.
  eexists. split; [done|]. split; [|done]. destruct Hl. split; simpl; try done.
  - intros i Hi. rewrite Hd. auto.
  - intros i Hi. rewrite Hd'. auto.
  - intros i [Hi _]%elem_of_difference. auto.
  - intros i [Hi _]%elem_of_difference. by apply linked_ok0.
Qed.

Lemma linked_clear st used e :
  linked st used → (e < XSTACK_IP_RIB_SIZE)%nat → e ∉ used → linked (clear_entry st e) used.
Proof.
  intros Hl He Heu. pose proof (linked_set_route st used e zero_route Hl He Heu) as [Hn Hi Hnn Hni Hs Hb Ho].
  split; try done.
  - by apply indexes_unlinked.
  - by apply indexes_unlinked.
  - intros i Hi'. unfold nodes. simpl. rewrite dom_insert_L. apply Hnn in Hi'. set_solver.
  - intros i Hi'. unfold nodes. simpl. rewrite dom_insert_L. apply Hni in Hi'. set_solver.
Qed.

(** ** The table as a finite map from networks to routes *)
Definition rib_refines (st : rib_state) (m : gmap Z ip_route) : Prop :=
  ∃ used, linked st used ∧ free_ok st used ∧
    ∀ net r, m !! net = Some r ↔ ∃ i, i ∈ used ∧ entry_route st i = r ∧ r_network r = net.

(** The interface address of [r] belongs to no route to another network. *)
Definition iface_free (m : gmap Z ip_route) (r : ip_route) : Prop :=
  ∀ net r', m !! net = Some r' → r_iface r' = r_iface r → net = r_network r.

Definition represents (st : rib_state) (used : gset nat) (m : gmap Z ip_route) : Prop :=
  ∀ net r, m !! net = Some r ↔ ∃ i, i ∈ used ∧ entry_route st i = r ∧ r_network r = net.

Lemma network_inj st used i j :
  linked st used → i ∈ used → j ∈ used →
  r_network (entry_route st i) = r_network (entry_route st j) → i = j.
Proof.
  intros Hl Hi Hj Heq. eapply (ix_inj (netkey st)); [apply (linked_net _ _ Hl)|done..|].
  unfold netkey. by rewrite Heq.
Qed.

(** The free list is empty only when the table is full. *)
Lemma free_nonempty st used m :
  linked st used → free_ok st used → represents st used m →
  (size m < XSTACK_IP_RIB_SIZE)%nat → rib_freelist st ≠ [].
Proof.
  intros Hl [_ Hfree] Hm Hsize Hnil. rewrite Hnil in Hfree.
  assert (Hused : ∀ i, i ∈ seq 0 XSTACK_IP_RIB_SIZE → i ∈ used).
  { intros i Hi%elem_of_seq. destruct (decide (i ∈ used)) as [|Hi']; [done|].
    assert (i ∈ @nil nat) as []%elem_of_nil. apply Hfree. split; [lia|done]. }
  set (nets := (fun i => r_network (entry_route st i)) <$> seq 0 XSTACK_IP_RIB_SIZE).
  assert (Hn : NoDup nets).
  { apply NoDup_fmap_2_strong; [|apply NoDup_seq]. intros i j Hi Hj Heq.
    eapply network_inj; [done|by apply Hused|by apply Hused|done]. }
  assert (Hsub : (list_to_set nets : gset Z) ⊆ dom m).
  { intros net Hnet. apply elem_of_list_to_set, list_elem_of_fmap in Hnet as (i & -> & Hi).
    apply elem_of_dom. exists (entry_route st i). apply Hm. eauto. }
  apply subseteq_size in Hsub. rewrite size_list_to_set, size_dom in Hsub by done.
  unfold nets in Hsub. rewrite length_fmap, length_seq in Hsub. lia.
Qed.

(** Linking a new entry adds its route to the table. *)
Lemma represents_insert st st' used m e r0 :
  represents st used m → rib st' = rib st → entry_route st e = r0 →
  (∀ i, i ∈ used → r_network (entry_route st i) ≠ r_network r0) →
  represents st' ({[e]} ∪ used) (<[r_network r0 := r0]> m).
Proof.
  intros Hm Hrib <- Hne net r.
  assert (Hsame : ∀ i, entry_route st' i = entry_route st i) by (intros i; unfold entry_route; by rewrite Hrib).
  rewrite lookup_insert_Some, (Hm net r). split.
  - intros [[<- <-]|(_ & i & Hi & <- & <-)].
    + exists e. rewrite Hsame. set_solver.
    + exists i. rewrite Hsame. set_solver.
  - intros (i & [->%elem_of_singleton|Hi]%elem_of_union & <- & <-); rewrite Hsame; [by left|].
    right. split; [by apply not_eq_sym, Hne|]. by exists i.
Qed.

Lemma represents_remove st st' used m e :
  linked st used → represents st used m → e ∈ used → rib st' = rib st →
  represents st' (used ∖ {[e]}) (delete (r_network (entry_route st e)) m).
Proof.
  intros Hl Hm He Hrib net r.
  assert (Hsame : ∀ i, entry_route st' i = entry_route st i) by (intros i; unfold entry_route; by rewrite Hrib).
  rewrite lookup_delete_Some, (Hm net r). split.
  - intros (Hnet & i & Hi & <- & <-). exists i. rewrite Hsame. split_and!; [|done|done].
    apply elem_of_difference. split; [done|]. intros ->%elem_of_singleton. done.
  - intros (i & [Hi Hie]%elem_of_difference & <- & <-). rewrite Hsame. split; [|by exists i].
    intros Heq. apply Hie, elem_of_singleton. symmetry. by eapply network_inj.
Qed.

Lemma represents_set_route st used m e r :
  linked st used → represents st used m → (e < XSTACK_IP_RIB_SIZE)%nat → e ∉ used →
  represents (set_route st e r) used m.
Proof.
  intros Hl Hm He Heu net r'. rewrite (Hm net r'). split; intros (i & Hi & <- & <-); exists i;
    (rewrite entry_set_route, decide_False; [done|by intros ->|by rewrite (linked_size _ _ Hl)]).
Qed.

(** ** The operations on the abstract table *)

(** Filling entry [e], which is outside the trees, and linking it. *)
Lemma link_route st used m e r :
  linked st used → represents st used m → (e < XSTACK_IP_RIB_SIZE)%nat → e ∉ used →
  route_ok r → m !! r_network r = None → iface_free m r →
  ∃ st', ip_route_tree_insert (set_route st e r) e = Done st' ∧ linked st' ({[e]} ∪ used) ∧
    represents st' ({[e]} ∪ used) (<[r_network r := r]> m) ∧ rib_freelist st' = rib_freelist st.
Proof.
  intros Hl Hm He Heu Hr Hnone Hfree.
  pose proof (linked_set_route _ _ _ r Hl He Heu) as Hl1.
  pose proof (represents_set_route _ _ _ _ r Hl Hm He Heu) as Hm1.
  assert (Her : entry_route (set_route st e r) e = r).
  { rewrite entry_set_route, decide_True; [done|done|by rewrite (linked_size _ _ Hl)]. }
  assert (Hne : ∀ i, i ∈ used → r_network (entry_route (set_route st e r) i) ≠ r_network r ∧
    r_iface (entry_route (set_route st e r) i) ≠ r_iface r).
  { intros i Hi. assert (Hmi : m !! r_network (entry_route (set_route st e r) i) =
      Some (entry_route (set_route st e r) i)) by (apply Hm1; eauto).
    assert (r_network (entry_route (set_route st e r) i) ≠ r_network r) by (intros Heq; congruence).
    split; [done|]. intros Heq. by apply (Hfree _ _ Hmi) in Heq. }
  destruct (tree_insert_spec _ _ _ Hl1 He Heu) as (st' & -> & Hl' & Hrib & Hfl);
    [by rewrite Her|by rewrite Her|].
  exists st'. split_and!; [done|done| |done].
  eapply represents_insert; [done..|]. intros i Hi. by apply Hne.
Qed.

Inductive rib_op : Type :=
| rib_update (r : ip_route)
| rib_remove (r : ip_route)
| rib_by_network (addr : Z)
| rib_by_iface (addr : Z).

Inductive rib_answer : Type :=
| ans_status (s : status)
| ans_route (r : option ip_route).

Definition rib_step (st : rib_state) (o : rib_op) : outcome (rib_answer * rib_state) :=
  match o with
  | rib_update r => '(s, st) ← ip_route_update st r; Done (ans_status s, st)
  | rib_remove r => '(s, st) ← ip_route_remove st r; Done (ans_status s, st)
  | rib_by_network a => r ← ip_route_find_by_network st a; Done (ans_route r, st)
  | rib_by_iface a => r ← ip_route_find_by_iface st a; Done (ans_route r, st)
  end.

Definition table_step (m : gmap Z ip_route) (o : rib_op) : gmap Z ip_route :=
  match o with
  | rib_update r => <[r_network r := r]> m
  | rib_remove r => delete (r_network r) m
  | _ => m
  end.

Definition covers (r : ip_route) (addr : Z) : bool :=
  bool_decide (r_network r = Z.land addr (r_netmask r)).

(** The route to [addr]: the exact network, or else the first network of the
    order whose masked address it is, or else the network 0. *)
Definition route_for (m : gmap Z ip_route) (addr : Z) (res : option ip_route) : Prop :=
  match m !! addr with
  | Some r => res = Some r
  | None =>
      (∃ r, m !! r_network r = Some r ∧ covers r addr = true ∧ res = Some r ∧
        ∀ net r', m !! net = Some r' → covers r' addr = true →
          pos lo (r_network r) <= pos lo net) ∨
      ((∀ net r', m !! net = Some r' → covers r' addr = false) ∧ res = m !! 0)
  end.

Definition table_answer (m : gmap Z ip_route) (o : rib_op) (a : rib_answer) : Prop :=
  match o with
  | rib_update _ => a = ans_status OK
  | rib_remove r =>
      a = ans_status (match m !! r_network r with Some _ => OK | None => FAIL ENOENT end)
  | rib_by_network addr => ∃ res, a = ans_route res ∧ route_for m addr res
  | rib_by_iface addr => ∃ res, a = ans_route res ∧
      match res with
      | Some r => m !! r_network r = Some r ∧ r_iface r = addr
      | None => ∀ net r, m !! net = Some r → r_iface r ≠ addr
      end
  end.

(** The uses for which the table is a table: addresses in one half of the
    circle, one route per interface address, at most [XSTACK_IP_RIB_SIZE]. *)
Definition admissible (m : gmap Z ip_route) (o : rib_op) : Prop :=
  match o with
  | rib_update r => route_ok r ∧ iface_free m r ∧
      (m !! r_network r = None → (size m < XSTACK_IP_RIB_SIZE)%nat)
  | rib_remove r => in_half lo (r_network r)
  | rib_by_network addr => in_half lo addr ∧ in_half lo 0
  | rib_by_iface addr => in_half lo' addr
  end.

Lemma iface_free_delete m r net : iface_free m r → iface_free (delete net m) r.
Proof. intros Hf net' r' [_ H]%lookup_delete_Some. by apply Hf. Qed.

(** A lookup in the trees is a lookup in the table. *)
Lemma find_network_table st used m a :
  linked st used → represents st used m → in_half lo (r_network a) →
  (∃ e, find_network st a = Done (Some e) ∧ e ∈ used ∧ r_network (entry_route st e) = r_network a ∧
     m !! r_network a = Some (entry_route st e)) ∨
  (find_network st a = Done None ∧ m !! r_network a = None).
Proof.
  intros Hl Hm Ha. destruct (find_network_spec st used a Hl Ha) as ([e|] & He & Hres).
  - left. exists e. destruct Hres as [Hu Hn]. split_and!; [done..|]. rewrite <-Hn. apply Hm. eauto.
  - right. split; [done|]. apply eq_None_not_Some. intros [r (i & Hi & <- & Hn)%Hm]. by apply (Hres i).
Qed.

Lemma update_spec st m r :
  rib_refines st m → admissible m (rib_update r) →
  ∃ st', ip_route_update st r = Done (OK, st') ∧ rib_refines st' (<[r_network r := r]> m).
Proof.
  intros (used & Hl & [Hnd Hfree] & Hm) (Hok & Hif & Hsize). unfold ip_route_update.
  destruct (find_network_table st used m r Hl Hm (proj1 Hok)) as [(e & -> & Heu & Hen & Hme)|[-> Hnone]];
    rewrite bind_done; simpl.
  - destruct (tree_remove_spec _ _ _ Hl Heu) as (st1 & -> & Hl1 & Hrib1 & Hfl1). rewrite bind_done.
    pose proof (represents_remove _ _ _ _ _ Hl Hm Heu Hrib1) as Hm1. rewrite Hen in Hm1.
    assert (Hb : (e < XSTACK_IP_RIB_SIZE)%nat) by by apply (linked_bound _ _ Hl).
    destruct (link_route st1 _ _ e r Hl1 Hm1 Hb) as (st2 & -> & Hl2 & Hm2 & Hfl2);
      [set_solver|done|apply lookup_delete_eq|by apply iface_free_delete|].
    rewrite bind_done, insert_delete_eq in *. exists st2. split; [done|].
    assert ({[e]} ∪ used ∖ {[e]} = used) as Hu.
    { apply set_eq. intros i. destruct (decide (i = e)); set_solver. }
    rewrite Hu in *. exists used. split_and!; [done| |done].
    unfold free_ok. rewrite Hfl2, Hfl1. done.
  - unfold ip_route_add, ip_route_entry_alloc.
    pose proof (free_nonempty st used m Hl (conj Hnd Hfree) Hm (Hsize Hnone)) as Hne.
    destruct (rib_freelist st) as [|e fl] eqn:Hfl; [done|]. rewrite bind_done.
    assert (He : (e < XSTACK_IP_RIB_SIZE)%nat ∧ e ∉ used) by (apply Hfree; left).
    destruct He as [Hb Heu]. set (st0 := RibState _ _ _ fl).
    assert (Hl0 : linked st0 used) by (destruct Hl; by split).
    destruct (link_route st0 used m e r Hl0 Hm Hb Heu Hok Hnone Hif) as (st2 & -> & Hl2 & Hm2 & Hfl2).
    rewrite bind_done. exists st2. split; [done|]. exists ({[e]} ∪ used). split_and!; [done| |done].
    unfold free_ok. rewrite Hfl2. simpl. apply NoDup_cons in Hnd as [Hefl Hnd]. split; [done|].
    intros i. rewrite not_elem_of_union, not_elem_of_singleton. specialize (Hfree i).
    rewrite elem_of_cons in Hfree. split.
    + intros Hi. destruct (proj1 Hfree (or_intror Hi)) as [? ?]. split_and!; [done| |done].
      by intros ->.
    + intros (Hi & Hie & Hiu). by destruct (proj2 Hfree (conj Hi Hiu)).
Qed.

Lemma remove_entry_spec st m r :
  rib_refines st m → in_half lo (r_network r) →
  ∃ st', ip_route_remove st r =
      Done (match m !! r_network r with Some _ => OK | None => FAIL ENOENT end, st') ∧
    rib_refines st' (delete (r_network r) m).
Proof.
  intros (used & Hl & [Hnd Hfree] & Hm) Hr. unfold ip_route_remove.
  destruct (find_network_table st used m r Hl Hm Hr) as [(e & -> & Heu & Hen & Hme)|[-> Hnone]];
    rewrite bind_done; simpl.
  - destruct (tree_remove_spec _ _ _ Hl Heu) as (st1 & -> & Hl1 & Hrib1 & Hfl1).
    rewrite bind_done, Hme. pose proof (represents_remove _ _ _ _ _ Hl Hm Heu Hrib1) as Hm1.
    rewrite Hen in Hm1.
    assert (Hb : (e < XSTACK_IP_RIB_SIZE)%nat) by by apply (linked_bound _ _ Hl).
    assert (Heu' : e ∉ used ∖ {[e]}) by set_solver.
    pose proof (linked_clear _ _ _ Hl1 Hb Heu') as Hl2.
    pose proof (represents_set_route _ _ _ _ zero_route Hl1 Hm1 Hb Heu') as Hm2.
    eexists. split; [done|]. exists (used ∖ {[e]}). split_and!; [by destruct Hl2; split| |done].
    unfold free_ok. simpl. rewrite Hfl1. split.
    + apply NoDup_cons. split; [|done]. intros Hi%Hfree. by destruct Hi.
    + intros i. rewrite elem_of_cons, Hfree, not_elem_of_difference, elem_of_singleton.
      destruct (decide (i = e)) as [->|]; [naive_solver|]. naive_solver.
  - exists st. rewrite Hnone, delete_id by done. split; [done|]. by exists used.
Qed.

Lemma deref_entry st used e :
  linked st used → e ∈ used → Some <$> deref (rib st !! e) = Done (Some (entry_route st e)).
Proof.
  intros Hl He. assert (e < length (rib st))%nat as [r Hr]%lookup_lt_is_Some.
  { rewrite (linked_size _ _ Hl). by apply (linked_bound _ _ Hl). }
  unfold entry_route. by rewrite Hr.
Qed.

Lemma by_iface_spec st m addr :
  rib_refines st m → in_half lo' addr →
  ∃ res, ip_route_find_by_iface st addr = Done res ∧
    match res with
    | Some r => m !! r_network r = Some r ∧ r_iface r = addr
    | None => ∀ net r, m !! net = Some r → r_iface r ≠ addr
    end.
Proof.
  intros (used & Hl & _ & Hm) Ha. unfold ip_route_find_by_iface.
  destruct (find_iface_spec st used (with_iface addr) Hl Ha) as ([e|] & -> & Hres); rewrite bind_done.
  - destruct Hres as [Hu Hi]. rewrite (deref_entry _ _ _ Hl Hu). eexists. split; [done|].
    split; [|done]. apply Hm. eauto.
  - exists None. split; [done|]. intros net r (i & Hi & <- & _)%Hm. by apply Hres.
Qed.

Lemma by_network_spec st m addr :
  rib_refines st m → in_half lo addr → in_half lo 0 →
  ∃ res, ip_route_find_by_network st addr = Done res ∧ route_for m addr res.
Proof.
  intros (used & Hl & _ & Hm) Ha H0. unfold ip_route_find_by_network, route_for.
  destruct (find_network_table st used m (with_network addr) Hl Hm Ha)
    as [(e & -> & Heu & Hen & Hme)|[-> Hnone]]; rewrite bind_done; simpl in *.
  { rewrite Hme, (deref_entry _ _ _ Hl Heu). eauto. }
  rewrite Hnone.
  edestruct (ix_foreach (netkey st)) as (res & -> & Hres); [apply (linked_net _ _ Hl)|].
  rewrite bind_done. destruct res as [e|]; simpl in Hres.
  - destruct Hres as (Heu & Hcov & Hmin). rewrite (deref_entry _ _ _ Hl Heu).
    eexists. split; [done|]. left. exists (entry_route st e). split_and!; [|done|done|].
    + apply Hm. eauto.
    + intros net r' (i & Hi & <- & <-)%Hm Hc. by apply (Hmin i).
  - assert (Hno : ∀ net r', m !! net = Some r' → covers r' addr = false).
    { intros net r' (i & Hi & <- & _)%Hm. by apply Hres. }
    destruct (find_network_table st used m (with_network 0) Hl Hm H0)
      as [(e & -> & Heu & Hen & Hme)|[-> Hnone0]]; rewrite bind_done; simpl in *.
    + rewrite (deref_entry _ _ _ Hl Heu). eexists. split; [done|]. by right.
    + eexists. split; [done|]. right. by rewrite Hnone0.
Qed.

Lemma rib_step_spec st m o :
  rib_refines st m → admissible m o →
  ∃ a st', rib_step st o = Done (a, st') ∧ table_answer m o a ∧ rib_refines st' (table_step m o).
Proof.
  intros Hr Ha. destruct o as [r|r|addr|addr]; simpl.
  - destruct (update_spec st m r Hr Ha) as (st' & -> & Hr'). by eexists _, st'.
  - destruct (remove_entry_spec st m r Hr Ha) as (st' & -> & Hr'). by eexists _, st'.
  - destruct Ha as [Ha H0]. destruct (by_network_spec st m addr Hr Ha H0) as (res & -> & Hres).
    exists (ans_route res), st. eauto.
  - destruct (by_iface_spec st m addr Hr Ha) as (res & -> & Hres).
    exists (ans_route res), st. eauto.
Qed.

Lemma rib_init_refines : rib_refines ip_route_init ∅.
Proof.
  exists ∅. split_and!.
  - split; try done.
    + apply indexes_init.
    + apply indexes_init.
    + intros i. apply nodes_init.
    + intros i. apply nodes_init.
  - split; [apply (bool_decide_unpack _); by vm_compute|].
    intros i. change (rib_freelist ip_route_init) with (rev (seq 0 XSTACK_IP_RIB_SIZE)).
    rewrite list_elem_of_In, <-in_rev, in_seq. set_solver by lia.
  - intros net r. rewrite lookup_empty. set_solver.
Qed.
End invariant.

(** ** Sessions *)
Fixpoint rib_run (st : rib_state) (ops : list rib_op) : outcome (list rib_answer * rib_state) :=
  match ops with
  | [] => Done ([], st)
  | o :: ops =>
      '(a, st) ← rib_step st o;
      '(l, st) ← rib_run st ops;
      Done (a :: l, st)
  end.

(** The answers of a session on the table [m], all uses being admissible. *)
Fixpoint answers (lo : Z) (m : gmap Z ip_route) (ops : list rib_op) (l : list rib_answer) : Prop :=
  match ops, l with
  | [], [] => True
  | o :: ops, a :: l => table_answer lo m o a ∧ answers lo (table_step m o) ops l
  | _, _ => False
  end.

Fixpoint admissible_all (lo lo' : Z) (m : gmap Z ip_route) (ops : list rib_op) : Prop :=
  match ops with
  | [] => True
  | o :: ops => admissible lo lo' m o ∧ admissible_all lo lo' (table_step m o) ops
  end.

Lemma rib_run_spec lo lo' st m ops :
  rib_refines lo lo' st m → admissible_all lo lo' m ops →
  ∃ l st', rib_run st ops = Done (l, st') ∧ answers lo m ops l ∧
    rib_refines lo lo' st' (fold_left table_step ops m).
Proof.
  revert st m. induction ops as [|o ops IH]; intros st m Hr; simpl.
  { intros _. by exists [], st. }
  intros [Ha Hops]. destruct (rib_step_spec lo lo' st m o Hr Ha) as (a & st1 & -> & Hans & Hr1).
  rewrite bind_done. destruct (IH st1 _ Hr1 Hops) as (l & st2 & -> & Hl & Hr2).
  by exists (a :: l), st2.
Qed.

(** ** Properties *)

(** C2: used with addresses of one half of the address circle, with one route
    per interface address and at most [XSTACK_IP_RIB_SIZE] routes, the routing
    table is a finite map from networks to routes: every session of
    [ip_route_update], [ip_route_remove] and the two lookups that starts after
    [ip_route_init] returns, without an invalid dereference, the answers of
    that map (0, [ENOENT] for an absent route; the exact, then the masked, then
    the default route), and keeps both trees and the free list consistent. *)
Theorem rib_refines_table lo lo' ops :
  admissible_all lo lo' ∅ ops →
  ∃ l st', rib_run ip_route_init ops = Done (l, st') ∧ answers lo ∅ ops l ∧
    rib_refines lo lo' st' (fold_left table_step ops ∅).
Proof. apply rib_run_spec, rib_init_refines. Qed.

(** 192.168.0.0/16 on 192.168.0.2, 10.1.0.0/16 on 10.1.0.2 *)
Definition lan : ip_route := IpRoute 0xC0A80000 0xFFFF0000 0 0xC0A80002 1.
Definition lab : ip_route := IpRoute 0x0A010000 0xFFFF0000 0 0x0A010002 2.

Definition sample_session : list rib_op :=
  [rib_update lan; rib_update lab; rib_update lan; rib_by_network 0xC0A80105; rib_by_iface 0x0A010002;
   rib_remove lab; rib_by_network 0x0A010001; rib_remove lab].

Lemma rib_refines_table_witness :
  admissible_all 0xC0000000 0xC0000000 ∅ sample_session ∧
  ∃ l st', rib_run ip_route_init sample_session = Done (l, st') ∧
    answers 0xC0000000 ∅ sample_session l ∧
    rib_refines 0xC0000000 0xC0000000 st' (fold_left table_step sample_session ∅).
Proof.
  assert (Ha : admissible_all 0xC0000000 0xC0000000 ∅ sample_session).
  { assert (Hhalf : ∀ x, bool_decide (in_half 0xC0000000 x) = true → in_half 0xC0000000 x)
      by (intros x; apply bool_decide_eq_true).
    assert (Hfree : ∀ m r, bool_decide (map_Forall (fun net r' => r_iface r' = r_iface r → net = r_network r) m)
      = true → iface_free m r).
    { intros m r Hm%bool_decide_eq_true net r' Hl. apply (Hm _ _ Hl). }
    cbn [admissible_all sample_session admissible table_step]. unfold route_ok.
    split_and!; try (by apply Hhalf; vm_compute); try (by apply Hfree; vm_compute); try done;
      intros _; vm_compute; lia. }
  split; [exact Ha|]. apply rib_refines_table, Ha.
Defined.

(** ** Where the table is not a table *)

(** A default gateway on the interface of the local network: both routes have
    the same interface address, so only the first one is in the source tree,
    and removing (or updating) the second one empties that tree: the interface
    of the first route is no longer found. *)
Definition gateway : ip_route := IpRoute 0 0 0xC0A80001 0xC0A80002 1.

Lemma shared_interface_lost :
  fst <$> rib_run ip_route_init
    [rib_update lan; rib_update gateway; rib_by_iface 0xC0A80002;
     rib_remove gateway; rib_by_iface 0xC0A80002] =
  Done [ans_status OK; ans_status OK; ans_route (Some lan); ans_status OK; ans_route None].
Proof. by vm_compute. Qed.

(** The default route matches every masked address, so it is taken before the
    route to a directly connected network that comes after it in the order. *)
Lemma default_route_shadows :
  fst <$> rib_run ip_route_init
    [rib_update lab; rib_update gateway; rib_by_network 0x0A010005] =
  Done [ans_status OK; ans_status OK; ans_route (Some gateway)].
Proof. by vm_compute. Qed.

(** [ip_route_entry_alloc] dereferences the head of an empty free list before
    the caller can test for it. *)
Lemma rib_full_faults st route :
  find_network st route = Done None → rib_freelist st = [] → ip_route_update st route = Fault.
Proof.
  intros Hf Hfl. unfold ip_route_update, ip_route_add, ip_route_entry_alloc.
  by rewrite Hf, bind_done, Hfl.
Qed.
