(* ===== verification/Socket.v ===== *)
(** * Sockets: the shared memory of an application and the stack

    [src/xstack.c] (the stack side) and [lib/xstack.c] (the application side)
    exchange datagrams through two queues of [queue_r] in shared memory, one
    per direction.  A datagram is a [struct xstack_dgram] in a block of the
    data area.  The busy waiting for a free block, and the wait for a datagram,
    are [Spin] when nobody else runs.  Signals, [mmap] and the process ids are
    left out. *)

From S2P Require Import Prelude Bytes QueueR.

#[local] Open Scope Z_scope.

(** ** Data *)

(** [struct xstack_sockaddr] *)
Record sockaddr : Type := Sockaddr { inet4_addr : Z; port : Z }.

#[export] Instance sockaddr_eq_dec : EqDecision sockaddr.
Proof. solve_decision. Defined.

Definition sockaddr_bytes (a : sockaddr) : list Z :=
  le_bytes 4 (inet4_addr a) ++ le_bytes 4 (port a).

Definition sockaddr_load (m : list Z) : sockaddr :=
  Sockaddr (le_val (take 4 m)) (s32 (le_val (take 4 (drop 4 m)))).

Definition sockaddr_ok (a : sockaddr) : Prop :=
  0 <= inet4_addr a < 2 ^ 32 ∧ - 2 ^ 31 <= port a < 2 ^ 31.

(** [enum xstack_sock_proto] *)
Definition XIP_PROTO_NONE : Z := 0.
Definition XIP_PROTO_TCP : Z := 1.
Definition XIP_PROTO_UDP : Z := 2.
Definition XIP_PROTO_LAST : Z := 3.

Definition XSTACK_SOCK_PORT_MAX : Z := 49151.
Definition XSTACK_DATAGRAM_SIZE_MAX : Z := 4096.
Definition XSTACK_DATAGRAM_BUF_SIZE : Z := 16384.

(** [struct xstack_sock]: the descriptor with its two queues and data areas. *)
Record xstack_sock : Type := Sock {
  sock_proto : Z;
  sock_addr : sockaddr;
  ingress_q : queue_cb;
  ingress_data : list Z;
  egress_q : queue_cb;
  egress_data : list Z
}.

(** [struct xstack_dgram]: source, destination, size, data. *)
Definition DGRAM_DST : nat := 8.
Definition DGRAM_SIZE : nat := 16.
Definition DGRAM_BUF : nat := 24.

Definition set_ingress (s : xstack_sock) (q : queue_cb) (data : list Z) : xstack_sock :=
  Sock (sock_proto s) (sock_addr s) q data (egress_q s) (egress_data s).

Definition set_egress (s : xstack_sock) (q : queue_cb) (data : list Z) : xstack_sock :=
  Sock (sock_proto s) (sock_addr s) (ingress_q s) (ingress_data s) q data.

(** ** The stack side *)

(** [xstack_sock_dgram_input(sock, srcaddr, buf, bsize)] *)
Definition xstack_sock_dgram_input (s : xstack_sock) (srcaddr : sockaddr) (buf : list Z)
    : outcome (Z * xstack_sock) :=
  dgram_index ← queue_alloc (ingress_q s);
  if bool_decide (dgram_index = -1) then Spin else
  let dgram := Z.to_nat dgram_index in
  data ← mem_write dgram (sockaddr_bytes srcaddr) (ingress_data s);
  data ← mem_write (dgram + DGRAM_DST) (sockaddr_bytes (sock_addr s)) data;
  data ← mem_write (dgram + DGRAM_SIZE) (le_bytes 8 (length buf)) data;
  data ← mem_write (dgram + DGRAM_BUF) buf data;
  q ← queue_commit (ingress_q s);
  Done (0, set_ingress s q data).

(** A datagram as [proto_send] finds it. *)
Record dgram : Type := Dgram {
  dgram_srcaddr : sockaddr;
  dgram_dstaddr : sockaddr;
  dgram_buf_size : Z;
  dgram_buf : list Z     (* the memory from [buf] on *)
}.

Definition dgram_load (off : nat) (data : list Z) : outcome dgram :=
  hdr ← mem_read off DGRAM_BUF data;
  Done (Dgram (sockaddr_load hdr) (sockaddr_load (drop DGRAM_DST hdr))
          (le_val (take 8 (drop DGRAM_SIZE hdr))) (drop (off + DGRAM_BUF) data)).

(** The egress loop for one socket: the datagram at the head of the queue, which
    stays there while it is sent, and its removal. *)
Definition egress_peek (s : xstack_sock) : outcome (option dgram) :=
  if queue_isempty (egress_q s) then Done None
  else
    match queue_peek (egress_q s) with
    | None => Spin
    | Some dgram_index => d ← dgram_load (Z.to_nat dgram_index) (egress_data s); Done (Some d)
    end.

Definition egress_discard (s : xstack_sock) : outcome xstack_sock :=
  '(_, q) ← queue_discard (egress_q s) 1; Done (set_egress s q (egress_data s)).

(** [xstack_init] for one socket: cleared memory and empty queues. *)
Definition xstack_init_sock (proto : Z) (addr : sockaddr) : outcome xstack_sock :=
  iq ← queue_create XSTACK_DATAGRAM_SIZE_MAX XSTACK_DATAGRAM_BUF_SIZE;
  eq ← queue_create XSTACK_DATAGRAM_SIZE_MAX XSTACK_DATAGRAM_BUF_SIZE;
  let zeros := repeat 0 (Z.to_nat XSTACK_DATAGRAM_BUF_SIZE) in
  Done (Sock proto addr iq zeros eq zeros).

(** ** The application side *)
Definition smin (a b : Z) : Z := u32 (Z.min a b).

(** [xstack_recvfrom(socket, buffer, length, flags, address)]: the number of
    bytes, the source address and the bytes. *)
Definition xstack_recvfrom (s : xstack_sock) (len : Z) (peek : bool)
    : outcome (Z * sockaddr * list Z * xstack_sock) :=
  match queue_peek (ingress_q s) with
  | None => Spin
  | Some dgram_index =>
      d ← dgram_load (Z.to_nat dgram_index) (ingress_data s);
      let rd := smin len (dgram_buf_size d) in
      bytes ← mem_read 0 (Z.to_nat rd) (dgram_buf d);
      if peek then Done (rd, dgram_srcaddr d, bytes, s)
      else
        '(_, q) ← queue_discard (ingress_q s) 1;
        Done (rd, dgram_srcaddr d, bytes, set_ingress s q (ingress_data s))
  end.

(** [xstack_sendto(socket, buffer, length, flags, dest_addr)]: the length, or
    -1 with [ENOBUFS]. *)
Definition xstack_sendto (s : xstack_sock) (buffer : list Z) (dest_addr : sockaddr)
    : outcome ((Z + Z) * xstack_sock) :=
  if bool_decide (XSTACK_DATAGRAM_SIZE_MAX < length buffer) then Done (inr ENOBUFS, s) else
  dgram_index ← queue_alloc (egress_q s);
  if bool_decide (dgram_index = -1) then Spin else
  let dgram := Z.to_nat dgram_index in
  data ← mem_write dgram (repeat 0 8) (egress_data s);
  data ← mem_write (dgram + DGRAM_DST) (sockaddr_bytes dest_addr) data;
  data ← mem_write (dgram + DGRAM_BUF) buffer data;
  q ← queue_commit (egress_q s);
  Done (inl (Z.of_nat (length buffer)), set_egress s q data).

(** ** Blocks *)
Lemma sockaddr_bytes_length a : length (sockaddr_bytes a) = 8%nat.
Proof. done. Qed.

Lemma s32_id x : - 2 ^ 31 <= x < 2 ^ 31 → s32 x = x.
Proof. unfold s32, u32. intros Hx. case_tests; dlia. Qed.

Lemma s32_u32 x : - 2 ^ 31 <= x < 2 ^ 31 → s32 (u32 x) = x.
Proof. intros Hx. rewrite <-(s32_id x) at 2 by done. unfold s32, u32. by rewrite Z.mod_mod. Qed.

Lemma sockaddr_load_bytes a rest :
  sockaddr_ok a → sockaddr_load (sockaddr_bytes a ++ rest) = a.
Proof.
  intros [Ha Hp]. unfold sockaddr_load, sockaddr_bytes. rewrite <-app_assoc.
  rewrite take_app_exact, drop_app_exact, take_app_exact by done.
  rewrite !le_val_le_bytes. change (2 ^ (8 * 4%nat)) with (2 ^ 32).
  rewrite Z.mod_small by done. change (le_bytes 4 (port a)) with (le_bytes 4 (port a)).
  destruct a as [addr p]. simpl in *. f_equal. by apply s32_u32.
Qed.

(** The memory image of a datagram, and a datagram at the offset [off] of the
    data area. *)
Definition dgram_bytes (src dst : sockaddr) (buf : list Z) : list Z :=
  sockaddr_bytes src ++ sockaddr_bytes dst ++ le_bytes 8 (length buf) ++ buf.

Definition block_at (off : nat) (src dst : sockaddr) (buf data : list Z) : Prop :=
  mem_read off (24 + length buf) data = Done (dgram_bytes src dst buf).

Lemma dgram_bytes_length src dst buf : length (dgram_bytes src dst buf) = (24 + length buf)%nat.
Proof. unfold dgram_bytes. by rewrite !length_app. Qed.

(** The pieces of a data area around the block at [off]. *)
Lemma split_block off n (data : list Z) :
  (off + 24 + n <= length data)%nat →
  ∃ a b c e, data = take off data ++ a ++ b ++ c ++ e ++ drop (off + 24 + n) data ∧
    length a = 8%nat ∧ length b = 8%nat ∧ length c = 8%nat ∧ length e = n.
Proof.
  intros Hl. exists (take 8 (drop off data)), (take 8 (drop (off + 8) data)),
    (take 8 (drop (off + 16) data)), (take n (drop (off + 24) data)).
  split; [|rewrite !length_take, !length_drop; lia].
  rewrite <-(take_drop off data) at 1. f_equal.
  rewrite <-(take_drop 8 (drop off data)) at 1. f_equal. rewrite drop_drop.
  rewrite <-(take_drop 8 (drop (off + 8) data)) at 1. f_equal. rewrite drop_drop, <-Nat.add_assoc.
  rewrite <-(take_drop 8 (drop (off + (8 + 8)) data)) at 1. f_equal. rewrite drop_drop, <-Nat.add_assoc.
  rewrite <-(take_drop n (drop (off + (8 + 8 + 8)) data)) at 1. f_equal. by rewrite drop_drop.
Qed.

(** Writing [src], [dst], size and data in turn gives such a block and touches
    nothing outside it. *)
Lemma write_block off src dst buf data :
  (off + 24 + length buf <= length data)%nat →
  ∃ data', mem_write off (dgram_bytes src dst buf) data = Done data' ∧
    ∀ B (K : list Z → outcome B), (d ← mem_write off (sockaddr_bytes src) data;
      d ← mem_write (off + DGRAM_DST) (sockaddr_bytes dst) d;
      d ← mem_write (off + DGRAM_SIZE) (le_bytes 8 (length buf)) d;
      d ← mem_write (off + DGRAM_BUF) buf d; K d) = K data'.
Proof.
  intros Hl. destruct (split_block off (length buf) data Hl) as (a & b & c & e & Hsp & Ha & Hb & Hc & He).
  assert (Hpre : length (take off data) = off) by (rewrite length_take; lia).
  assert (Hw := mem_write_ok off (dgram_bytes src dst buf) data).
  rewrite dgram_bytes_length in Hw. specialize (Hw ltac:(lia)).
  rewrite (Nat.add_assoc off 24) in Hw. eexists. split; [exact Hw|]. intros B K. clear Hw.
  unfold dgram_bytes. remember (take off data) as pre eqn:Epre. remember (drop (off + 24 + length buf) data) as post eqn:Epost.
  clear Epre Epost. subst data.
  rewrite (mem_write_mid off) by done. rewrite bind_done.
  rewrite (app_assoc pre). rewrite (mem_write_mid (off + DGRAM_DST));
    [|by rewrite length_app, Hpre|done]. rewrite bind_done.
  rewrite (app_assoc (pre ++ _)). rewrite (mem_write_mid (off + DGRAM_SIZE));
    [|by rewrite !length_app, Hpre; unfold DGRAM_SIZE; simpl; lia|done]. rewrite bind_done.
  rewrite (app_assoc ((pre ++ _) ++ _)). rewrite (mem_write_mid (off + DGRAM_BUF));
    [by rewrite bind_done, <-!app_assoc| |done].
  rewrite !length_app, Hpre. unfold DGRAM_BUF. simpl. lia.
Qed.

Lemma block_load off src dst buf data :
  block_at off src dst buf data → sockaddr_ok src → sockaddr_ok dst →
  (length buf < 2 ^ 32)%Z →
  ∃ post, dgram_load off data = Done (Dgram src dst (length buf) (buf ++ post)).
Proof.
  intros Hblk Hs Hd Hb. unfold block_at in Hblk. apply mem_read_done in Hblk as [Hl Hblk].
  set (post := drop (24 + length buf) (drop off data)).
  assert (Hdata : data = take off data ++ sockaddr_bytes src ++ sockaddr_bytes dst ++
    le_bytes 8 (length buf) ++ buf ++ post).
  { rewrite <-(take_drop off data) at 1. f_equal.
    rewrite <-(take_drop (24 + length buf) (drop off data)), <-Hblk at 1.
    unfold dgram_bytes. by rewrite <-!app_assoc. }
  assert (Hpre : length (take off data) = off) by (rewrite length_take; lia).
  remember (take off data) as pre eqn:Epre. remember post as post' eqn:Epost. clear Epre Epost post.
  subst data. rename post' into post. clear Hblk Hl. exists post. unfold dgram_load.
  assert (Hsplit : pre ++ sockaddr_bytes src ++ sockaddr_bytes dst ++ le_bytes 8 (length buf) ++ buf ++ post
    = pre ++ (sockaddr_bytes src ++ sockaddr_bytes dst ++ le_bytes 8 (length buf)) ++ buf ++ post)
    by by rewrite <-!app_assoc.
  rewrite Hsplit, (mem_read_mid off DGRAM_BUF) by done. rewrite bind_done.
  rewrite sockaddr_load_bytes by done. rewrite drop_app_exact by done.
  rewrite sockaddr_load_bytes by done.
  assert (Hsz : le_val (take 8 (drop DGRAM_SIZE (sockaddr_bytes src ++ sockaddr_bytes dst ++
    le_bytes 8 (length buf)))) = length buf).
  { rewrite app_assoc, drop_app_exact by done. rewrite take_ge by (rewrite le_bytes_length; lia).
    rewrite le_val_le_bytes. apply Z.mod_small. change (2 ^ (8 * 8%nat)) with (2 ^ 64). lia. }
  rewrite Hsz. do 2 f_equal. rewrite <-drop_drop, drop_app_exact by done.
  by apply drop_app_exact.
Qed.

Lemma mem_read_prefix off n m k data bs :
  (m <= n)%nat → mem_read off n data = Done bs → k = take m bs → mem_read off m data = Done k.
Proof.
  intros Hm [Hl ->]%mem_read_done ->. rewrite mem_read_ok by lia.
  by rewrite take_take, Nat.min_l by lia.
Qed.

(** ** The FIFO of datagrams a socket holds *)
Definition slot_off (k : Z) : nat := Z.to_nat (k * XSTACK_DATAGRAM_SIZE_MAX).

Definition payload_ok (buf : list Z) : Prop := Z.of_nat (length buf) <= 4072.

Definition ingress_geometry (s : xstack_sock) : Prop :=
  queue_ok (ingress_q s) ∧ b_size (ingress_q s) = XSTACK_DATAGRAM_SIZE_MAX ∧
  a_len (ingress_q s) = 4 ∧ Z.of_nat (length (ingress_data s)) = XSTACK_DATAGRAM_BUF_SIZE ∧
  sockaddr_ok (sock_addr s).

(** The socket [s] holds the datagrams [ds], the oldest first. *)
Definition ingress_holds (s : xstack_sock) (ds : list (sockaddr * list Z)) : Prop :=
  ingress_geometry s ∧ Forall (fun d => sockaddr_ok d.1 ∧ payload_ok d.2) ds ∧
  Forall2 (fun k d => block_at (slot_off k) d.1 (sock_addr s) d.2 (ingress_data s))
    (occupied (ingress_q s)) ds.

Lemma ingress_length s ds :
  ingress_holds s ds → queue_len (ingress_q s) = length ds.
Proof.
  intros (Hg & _ & Hf). apply Forall2_length in Hf. rewrite <-Hf.
  symmetry. apply occupied_length, Hg.
Qed.

Lemma slot_off_far k w : 0 <= k → 0 <= w → k ≠ w →
  (slot_off k + 4096 <= slot_off w ∨ slot_off w + 4096 <= slot_off k)%nat.
Proof. unfold slot_off, XSTACK_DATAGRAM_SIZE_MAX. lia. Qed.

(** A write in the free slot [w] leaves the blocks of the other slots. *)
Lemma block_at_write w bs data data' k src dst buf :
  mem_write (slot_off w) bs data = Done data' → (length bs <= 4096)%nat → payload_ok buf →
  0 <= k → 0 <= w → k ≠ w →
  block_at (slot_off k) src dst buf data → block_at (slot_off k) src dst buf data'.
Proof.
  unfold block_at, payload_ok. intros Hw Hbs Hbuf Hk Hw0 Hne Hb.
  rewrite (mem_write_read_disjoint _ _ _ _ _ _ Hw); [done|].
  pose proof (slot_off_far k w Hk Hw0 Hne). lia.
Qed.

Lemma dgram_input_full s ds src buf :
  ingress_holds s ds → length ds = 3%nat → xstack_sock_dgram_input s src buf = Spin.
Proof.
  intros Hh Hl. pose proof (ingress_length s ds Hh) as Hq.
  destruct Hh as ((Hok & Hb & Ha & _) & _). unfold xstack_sock_dgram_input, queue_alloc.
  destruct (commit_ok _ Hok) as (w & _ & Hn & _). rewrite Hn, bind_done.
  rewrite (bool_decide_true (w = _)); [done|]. apply (full_iff _ _ Hok Hn). lia.
Qed.

Lemma dgram_input_accepts s ds src buf :
  ingress_holds s ds → (length ds < 3)%nat → sockaddr_ok src → payload_ok buf →
  ∃ s', xstack_sock_dgram_input s src buf = Done (0, s') ∧
    ingress_holds s' (ds ++ [(src, buf)]) ∧ sock_addr s' = sock_addr s ∧
    sock_proto s' = sock_proto s.
Proof.
  intros Hh Hl Hsrc Hbuf. pose proof (ingress_length s ds Hh) as Hq.
  destruct Hh as ((Hok & Hb & Ha & Hd & Haddr) & Hall & Hf).
  destruct (commit_ok _ Hok) as (w & Hc & Hn & Hok').
  assert (Hne : w ≠ m_read (ingress_q s)).
  { intros E. apply (full_iff _ _ Hok Hn) in E. lia. }
  assert (Hm : 0 <= m_write (ingress_q s) < 4) by (unfold queue_ok in Hok; rewrite <-Ha; tauto).
  unfold payload_ok in Hbuf.
  destruct (write_block (slot_off (m_write (ingress_q s))) src (sock_addr s) buf (ingress_data s))
    as (data' & Hw & Hseq). { unfold slot_off, XSTACK_DATAGRAM_SIZE_MAX, XSTACK_DATAGRAM_BUF_SIZE in *. lia. }
  exists (set_ingress s (set_m_write w (ingress_q s)) data'). split; [|split; [|done]].
  - unfold xstack_sock_dgram_input, queue_alloc. rewrite Hn, bind_done.
    rewrite (bool_decide_false (w = _)) by done. rewrite bind_done.
    rewrite offset_done by (done || lia). rewrite Hb.
    rewrite bool_decide_false by (unfold XSTACK_DATAGRAM_SIZE_MAX; lia).
    fold (slot_off (m_write (ingress_q s))). rewrite Hseq, Hc. done.
  - split; [|split].
    + split_and!; [done..| |done]. simpl. by rewrite (mem_write_length _ _ _ _ Hw).
    + apply Forall_app; split; [done|]. constructor; [done|constructor].
    + simpl. rewrite occupied_commit by done. apply Forall2_app.
      * apply Forall2_same_length_lookup. pose proof Hf as Hf'.
        apply Forall2_same_length_lookup in Hf' as [Hlen Hlk]. split; [done|].
        intros i k d Hk Hdi. specialize (Hlk i k d Hk Hdi).
        assert (Hin : k ∈ occupied (ingress_q s)) by by eapply list_elem_of_lookup_2.
        pose proof (occupied_range _ _ Hok Hin). pose proof (write_slot_free _ Hok).
        rewrite Forall_lookup in Hall.
        apply (block_at_write _ _ _ _ _ _ _ _ Hw); [|by apply (Hall i)|lia|lia|congruence|done].
        rewrite dgram_bytes_length. lia.
      * constructor; [|constructor]. unfold block_at. simpl.
        pose proof (mem_write_read_same _ _ _ _ Hw) as Hr. by rewrite dgram_bytes_length in Hr.
Qed.

Lemma recvfrom_empty s len peek :
  ingress_holds s [] → xstack_recvfrom s len peek = Spin.
Proof.
  intros ((Hok & _) & _ & Hf). inversion Hf as [Ho|]. unfold xstack_recvfrom.
  by rewrite queue_peek_hd, <-Ho.
Qed.

Lemma recvfrom_head s src buf ds len peek :
  ingress_holds s ((src, buf) :: ds) → 0 <= len < 2 ^ 32 →
  ∃ s', xstack_recvfrom s len peek =
      Done (Z.min len (length buf), src, take (Z.to_nat len) buf, s') ∧
    ingress_holds s' (if peek then (src, buf) :: ds else ds) ∧ sock_addr s' = sock_addr s.
Proof.
  intros Hh Hlen. assert (Hh' := Hh). destruct Hh' as ((Hok & Hb & Ha & Hd & Haddr) & Hall & Hf).
  apply Forall2_cons_inv_r in Hf as (k & ks & Hblk & Hks & Ho).
  apply Forall_cons in Hall as [[Hsrc Hbuf] Hall]. simpl in Hsrc, Hbuf, Hblk. unfold payload_ok in Hbuf.
  destruct (block_load _ _ _ _ _ Hblk Hsrc Haddr ltac:(lia)) as [post Hload].
  assert (Hpeek : queue_peek (ingress_q s) = Some (k * XSTACK_DATAGRAM_SIZE_MAX)).
  { rewrite queue_peek_hd, Ho, Hb by done. done. }
  assert (Hrd : smin len (length buf) = Z.min len (length buf)).
  { unfold smin, u32. apply Z.mod_small. lia. }
  assert (Hbytes : mem_read 0 (Z.to_nat (Z.min len (length buf))) (buf ++ post)
    = Done (take (Z.to_nat len) buf)).
  { rewrite mem_read_ok by (rewrite length_app; lia). rewrite drop_0. f_equal.
    rewrite take_app_le by lia. destruct (decide (len <= length buf)); [by rewrite Z.min_l|].
    rewrite !take_ge; [done|lia..]. }
  unfold xstack_recvfrom. rewrite Hpeek. fold (slot_off k). rewrite Hload, bind_done.
  cbn [dgram_buf_size dgram_buf dgram_srcaddr]. rewrite Hrd, Hbytes, bind_done.
  destruct peek; [by exists s|].
  destruct (discard_spec 1 _ Hok) as (q & Hq & Hok' & Ho' & _ & Hb' & Ha').
  rewrite Hq, bind_done. eexists. split; [done|]. split; [|done]. split; [|split; [done|]].
  - split_and!; simpl; [done|by rewrite Hb'|by rewrite Ha'|done|done].
  - simpl. by rewrite Ho', Ho.
Qed.

(** ** Sessions on the ingress side of a socket *)
Inductive ingress_op : Type :=
| OpDeliver (src : sockaddr) (buf : list Z)
| OpRecv (len : Z) (peek : bool).

(** The results of a session: 0 for a delivery, and size, source and bytes for
    a reception. *)
Definition ingress_result : Type := Z * option (sockaddr * list Z).

Fixpoint ingress_run (s : xstack_sock) (ops : list ingress_op) : outcome (list ingress_result) :=
  match ops with
  | [] => Done []
  | OpDeliver src buf :: ops =>
      '(r, s) ← xstack_sock_dgram_input s src buf;
      rs ← ingress_run s ops; Done ((r, None) :: rs)
  | OpRecv len peek :: ops =>
      '(r, src, bs, s) ← xstack_recvfrom s len peek;
      rs ← ingress_run s ops; Done ((r, Some (src, bs)) :: rs)
  end.

(** The promise: a FIFO of at most three datagrams; a caller that finds it full
    or empty waits.  Reception truncates to the given length. *)
Fixpoint ingress_spec (ds : list (sockaddr * list Z)) (ops : list ingress_op)
    : outcome (list ingress_result) :=
  match ops with
  | [] => Done []
  | OpDeliver src buf :: ops =>
      if bool_decide (length ds = 3%nat) then Spin else
      rs ← ingress_spec (ds ++ [(src, buf)]) ops; Done ((0, None) :: rs)
  | OpRecv len peek :: ops =>
      match ds with
      | [] => Spin
      | (src, buf) :: ds' =>
          rs ← ingress_spec (if peek then ds else ds') ops;
          Done ((Z.min len (length buf), Some (src, take (Z.to_nat len) buf)) :: rs)
      end
  end.

(** The callers' side of the contract: addresses are machine values, a payload
    fits a block with its header, and a length is an [unsigned]. *)
Definition ingress_op_ok (op : ingress_op) : Prop :=
  match op with
  | OpDeliver src buf => sockaddr_ok src ∧ payload_ok buf
  | OpRecv len _ => 0 <= len < 2 ^ 32
  end.

Lemma ingress_run_spec ops : ∀ s ds,
  ingress_holds s ds → Forall ingress_op_ok ops → ingress_run s ops = ingress_spec ds ops.
Proof.
  induction ops as [|op ops IH]; intros s ds Hh Hops; [done|].
  apply Forall_cons in Hops as [Hop Hops].
  destruct op as [src buf|len peek]; cbn [ingress_run ingress_spec].
  - destruct Hop as [Hsrc Hbuf]. case_bool_decide as H3.
    { by rewrite (dgram_input_full _ _ _ _ Hh H3). }
    pose proof (ingress_length s ds Hh) as Hq. pose proof Hh as ((Hok & _ & Ha & _) & _).
    pose proof (queue_len_range _ Hok).
    destruct (dgram_input_accepts s ds src buf Hh ltac:(lia) Hsrc Hbuf) as (s' & Hs' & Hh' & _).
    rewrite Hs', bind_done. by rewrite (IH s' _ Hh' Hops).
  - destruct ds as [|[src buf] ds]; [by rewrite (recvfrom_empty _ _ _ Hh)|].
    destruct (recvfrom_head _ _ _ _ _ peek Hh Hop) as (s' & Hs' & Hh' & _).
    rewrite Hs', bind_done. by rewrite (IH s' _ Hh' Hops).
Qed.

Lemma init_sock_holds proto addr :
  sockaddr_ok addr → ∃ s, xstack_init_sock proto addr = Done s ∧ ingress_holds s [].
Proof.
  intros Ha. set (q := QueueCb XSTACK_DATAGRAM_SIZE_MAX 4 0 0).
  set (zeros := repeat 0 (Z.to_nat XSTACK_DATAGRAM_BUF_SIZE)).
  exists (Sock proto addr q zeros q zeros). split; [done|]. split; [|split; [done|]]; simpl.
  - split_and!; done.
  - rewrite (proj2 (occupied_nil_iff q ltac:(done))); done.
Qed.

(** A socket set up by [xstack_init] is a FIFO of datagrams from the stack
    to the application: whatever sequence of [xstack_sock_dgram_input] and
    [xstack_recvfrom] (with or without [XMSG_PEEK]) is run on it, every
    reception returns the source address and the first bytes of the oldest
    datagram that is still queued, at most three are queued, and a caller
    waits exactly when the queue is full or empty. *)
Theorem socket_refines_fifo proto addr ops :
  sockaddr_ok addr → Forall ingress_op_ok ops →
  (s ← xstack_init_sock proto addr; ingress_run s ops) = ingress_spec [] ops.
Proof.
  intros Ha Hops. destruct (init_sock_holds proto addr Ha) as (s & Hs & Hh).
  rewrite Hs, bind_done. by apply ingress_run_spec.
Qed.

Definition demo_peer : sockaddr := Sockaddr 167772163 4000.

Definition demo_ops : list ingress_op :=
  [OpDeliver demo_peer [1; 2; 3]; OpDeliver demo_peer [4; 5]; OpRecv 2 true;
   OpRecv 100 false; OpRecv 100 false].

Lemma socket_refines_fifo_witness :
  (s ← xstack_init_sock XIP_PROTO_UDP (Sockaddr 167772162 10); ingress_run s demo_ops)
    = ingress_spec [] demo_ops ∧
  ingress_spec [] demo_ops = Done
    [(0, None); (0, None); (2, Some (demo_peer, [1; 2])); (3, Some (demo_peer, [1; 2; 3]));
     (2, Some (demo_peer, [4; 5]))].
Proof.
  split; [|reflexivity]. apply (socket_refines_fifo _ _ _).
  - done.
  - repeat (apply Forall_cons_2 || apply Forall_nil_2); done.
Defined.

(** ** The egress side *)

(** [xstack_sendto] never writes [buf_size] and the stack clears the shared
    memory, so the datagram the stack takes has size 0, which
    [xstack_udp_send] refuses. *)
Lemma sendto_size_lost :
  (s ← xstack_init_sock XIP_PROTO_UDP (Sockaddr 167772162 10);
   '(_, s) ← xstack_sendto s [1; 2; 3] demo_peer;
   d ← egress_peek s;
   Done (option_map (fun d => (dgram_dstaddr d, dgram_buf_size d)) d)) = Done (Some (demo_peer, 0)).
Proof. by vm_compute. Qed.

(** The length check of [xstack_sendto] allows a whole block, though 24 bytes
    of it hold the header: the last bytes land in the next block, and behind
    the data area when the block is the last one. *)
Lemma sendto_overruns_slot :
  (s ← xstack_init_sock XIP_PROTO_UDP (Sockaddr 167772162 10);
   '(_, s) ← xstack_sendto s (repeat 7 (Z.to_nat 4096)) demo_peer;
   mem_read (Z.to_nat 4096) 24 (egress_data s)) = Done (repeat 7 24).
Proof. by vm_compute. Qed.
