(* ===== verification/Udp.v ===== *)
(** * UDP, [src/udp.c]

    The tree of bound sockets, binding, the input handler that hands datagrams
    to the socket bound to their destination, and the datagrams of
    [xstack_udp_send].  The sockets are the static array of [src/xstack.c], the
    pointer of a socket is its index. *)

From S2P Require Import Prelude Bytes IpHeader RBTree RBIndex QueueR Socket.

#[local] Open Scope Z_scope.

(** ** Data *)

(** [struct udp_hdr] *)
Record udp_hdr : Type := UdpHdr {
  udp_sport : Z;
  udp_dport : Z;
  udp_len : Z;
  udp_csum : Z
}.

Definition UDP_HDR_SIZE : nat := 8.
Definition UDP_MAXLEN : Z := 65507.

Definition udp_hdr_store (h : udp_hdr) : list Z :=
  le_bytes 2 (udp_sport h) ++ le_bytes 2 (udp_dport h) ++ le_bytes 2 (udp_len h) ++
  le_bytes 2 (udp_csum h).

Definition udp_hdr_load (m : list Z) : outcome udp_hdr :=
  if bool_decide (UDP_HDR_SIZE <= length m)%nat then
    Done (UdpHdr (field 0 2 m) (field 2 2 m) (field 4 2 m) (field 6 2 m))
  else Fault.

(** [udp_hton] and [udp_ntoh] leave the checksum field alone. *)
Definition udp_hton (host : udp_hdr) : udp_hdr :=
  UdpHdr (htons (udp_sport host)) (htons (udp_dport host)) (htons (udp_len host)) (udp_csum host).

Definition udp_ntoh (net : udp_hdr) : udp_hdr :=
  UdpHdr (ntohs (udp_sport net)) (ntohs (udp_dport net)) (ntohs (udp_len net)) (udp_csum net).

(** The socket table and [upd_sock_tree_head]. *)
Record udp_state : Type := UdpState {
  sockets : list xstack_sock;
  upd_sock_tree_head : rb_head
}.

Definition no_sock : xstack_sock :=
  let q := QueueCb 0 0 0 0 in Sock 0 (Sockaddr 0 0) q [] q [].

Definition sock_at (st : udp_state) (i : nat) : xstack_sock := default no_sock (sockets st !! i).

(** ** The tree of bound sockets *)
Definition udp_socket_cmp (a b : sockaddr) : Z := memcmp (sockaddr_bytes a) (sockaddr_bytes b).

Definition find_udp_socket (st : udp_state) (addr : sockaddr) : outcome ptr :=
  RB_FIND (fun i => udp_socket_cmp addr (sock_addr (sock_at st i))) (upd_sock_tree_head st).

(** [xstack_udp_bind]: 0, or -1 with [errno]. *)
Definition xstack_udp_bind (st : udp_state) (sock : nat) : outcome (option Z * udp_state) :=
  let addr := sock_addr (sock_at st sock) in
  if bool_decide (port addr > XSTACK_SOCK_PORT_MAX) then Done (Some EINVAL, st) else
  p ← find_udp_socket st addr;
  match p with
  | Some _ => Done (Some EADDRINUSE, st)
  | None =>
      '(_, h) ← RB_INSERT (fun i => udp_socket_cmp addr (sock_addr (sock_at st i)))
                  (upd_sock_tree_head st) sock;
      Done (None, UdpState (sockets st) h)
  end.

(** ** Input *)

(** [udp_input(ip_hdr, payload, bsize)]: the result, the buffer with the header
    in host order, and the sockets.  What follows a positive return value of
    [xstack_sock_dgram_input] is the construction of a reply. *)
Definition udp_input (st : udp_state) (ip : ip_hdr) (payload : list Z) (bsize : Z)
    : outcome (Z * list Z * udp_state) :=
  if bool_decide (bsize < UDP_HDR_SIZE) then Done (- EBADMSG, payload, st) else
  net ← udp_hdr_load payload;
  let udp := udp_ntoh net in
  payload ← mem_write 0 (udp_hdr_store udp) payload;
  sock ← find_udp_socket st (Sockaddr (ip_dst ip) (udp_dport udp));
  match sock with
  | Some sock =>
      data ← mem_read UDP_HDR_SIZE (Z.to_nat bsize - UDP_HDR_SIZE) payload;
      '(retval, s) ← xstack_sock_dgram_input (sock_at st sock)
                       (Sockaddr (ip_src ip) (udp_sport udp)) data;
      let st := UdpState (<[sock := s]> (sockets st)) (upd_sock_tree_head st) in
      if bool_decide (retval > 0) then
        let reply := UdpHdr (udp_dport udp) (udp_sport udp) (u16 (8 + retval)) 0 in
        payload ← mem_write 0 (udp_hdr_store (udp_hton reply)) payload;
        Done (retval, payload, st)
      else Done (retval, payload, st)
  | None => Done (- ENOTSOCK, payload, st)
  end.

(** ** Output *)

(** The buffer [xstack_udp_send] hands to [ip_send], or the error. *)
Definition udp_datagram (s : xstack_sock) (d : dgram) : outcome (list Z + Z) :=
  if negb (bool_decide (0 < dgram_buf_size d) && bool_decide (dgram_buf_size d < UDP_MAXLEN))
  then Done (inr (- EINVAL)) else
  let udp := UdpHdr (u16 (port (sock_addr s))) (u16 (port (dgram_dstaddr d)))
               (u16 (8 + dgram_buf_size d)) 0 in
  payload ← mem_read 0 (Z.to_nat (dgram_buf_size d)) (dgram_buf d);
  Done (inl (udp_hdr_store (udp_hton udp) ++ payload)).

(** ** Socket addresses in memory order *)

Definition addr_key (a : sockaddr) : Z := be_val (sockaddr_bytes a).

Lemma sockaddr_bytes_ok a : bytes (sockaddr_bytes a).
Proof. unfold sockaddr_bytes. apply Forall_app_2; apply le_bytes_bytes. Qed.

Lemma udp_cmp_order a b :
  (udp_socket_cmp a b < 0 ↔ addr_key a < addr_key b) ∧
  (0 < udp_socket_cmp a b ↔ addr_key b < addr_key a).
Proof. apply memcmp_be_val; [apply sockaddr_bytes_ok..|done]. Qed.

Lemma addr_key_inj a b : sockaddr_ok a → sockaddr_ok b → addr_key a = addr_key b → a = b.
Proof.
  intros Ha Hb E. unfold addr_key in E. apply (f_equal (le_bytes 8)) in E.
  rewrite !(le_bytes_be_val (sockaddr_bytes _)) in E by apply sockaddr_bytes_ok.
  apply (f_equal (@rev Z)) in E. rewrite !rev_involutive in E.
  rewrite <-(sockaddr_load_bytes a []), <-(sockaddr_load_bytes b []), E; done.
Qed.

(** ** Invariant *)
Section invariant.
Context `{!OrderedIndex rb_head indexes nodes RB_FIND RB_INSERT RB_REMOVE RB_FOREACH_FIND}.

Definition sock_key (st : udp_state) (i : nat) : Z := addr_key (sock_addr (sock_at st i)).

(** The sockets of [bound] are linked into the tree, in any order. *)
Record udp_linked (st : udp_state) (bound : list nat) : Prop := UdpLinked {
  udp_tree : indexes (sock_key st) (upd_sock_tree_head st) (list_to_set bound);
  udp_nodes i : (i < length (sockets st))%nat → i ∈ nodes (upd_sock_tree_head st);
  udp_bound i : i ∈ bound → (i < length (sockets st))%nat;
  udp_addr_ok i : (i < length (sockets st))%nat → sockaddr_ok (sock_addr (sock_at st i))
}.

(** The socket bound to an address. *)
Definition bound_to (st : udp_state) (bound : list nat) (a : sockaddr) : option nat :=
  List.find (fun i => bool_decide (sock_addr (sock_at st i) = a)) bound.

Lemma udp_compares st s a :
  compares (sock_key st) (addr_key a) (fun i => udp_socket_cmp a (sock_addr (sock_at st i))) s.
Proof. intros i _. apply udp_cmp_order. Qed.

Lemma found_bound st bound a res :
  udp_linked st bound → sockaddr_ok a →
  found (sock_key st) (addr_key a) (list_to_set bound) res → res = bound_to st bound a.
Proof.
  intros Hl Ha Hf. unfold bound_to.
  destruct (List.find _ bound) as [j|] eqn:Hj.
  - apply List.find_some in Hj as [Hj He]. apply bool_decide_eq_true in He.
    apply list_elem_of_In in Hj. destruct res as [i|]; simpl in Hf.
    + destruct Hf as [Hi Hk]. f_equal. apply (ix_inj _ _ _ i j (udp_tree _ _ Hl) Hi).
      * by apply elem_of_list_to_set.
      * unfold sock_key in *. by rewrite He.
    + destruct (Hf j); [by apply elem_of_list_to_set|]. unfold sock_key. by rewrite He.
  - destruct res as [i|]; [|done]. simpl in Hf. destruct Hf as [Hi Hk].
    apply elem_of_list_to_set in Hi. pose proof (List.find_none _ _ Hj i) as Hn.
    rewrite <-list_elem_of_In in Hn. specialize (Hn Hi). apply bool_decide_eq_false in Hn.
    destruct Hn. apply addr_key_inj; [|done|done]. by apply (udp_addr_ok _ _ Hl), (udp_bound _ _ Hl).
Qed.

Lemma find_bound st bound a :
  udp_linked st bound → sockaddr_ok a → find_udp_socket st a = Done (bound_to st bound a).
Proof.
  intros Hl Ha. unfold find_udp_socket.
  destruct (ix_find _ _ _ _ _ (udp_tree _ _ Hl) (udp_compares st _ a)) as (res & -> & Hf).
  by rewrite (found_bound st bound a res).
Qed.

Lemma bound_to_in st bound a i :
  bound_to st bound a = Some i → i ∈ bound ∧ sock_addr (sock_at st i) = a.
Proof.
  intros [Hi He]%List.find_some. apply bool_decide_eq_true in He. by apply list_elem_of_In in Hi.
Qed.

(** Binding links a socket whose address is free. *)
Lemma bind_free st bound i :
  udp_linked st bound → (i < length (sockets st))%nat →
  bound_to st bound (sock_addr (sock_at st i)) = None →
  ∃ h, RB_INSERT (fun j => udp_socket_cmp (sock_addr (sock_at st i)) (sock_addr (sock_at st j)))
         (upd_sock_tree_head st) i = Done (None, h) ∧
    udp_linked (UdpState (sockets st) h) (i :: bound).
Proof.
  intros Hl Hi Hnone. set (a := sock_addr (sock_at st i)).
  assert (Hni : i ∉ (list_to_set bound : gset nat)).
  { intros Hin%elem_of_list_to_set%list_elem_of_In.
    pose proof (List.find_none _ _ Hnone i Hin) as Hf. by apply bool_decide_eq_false in Hf. }
  destruct (ix_insert _ _ _ _ _ (udp_tree _ _ Hl) (udp_compares st _ a) (udp_nodes _ _ Hl i Hi) Hni)
    as (res & h & Hins & Hf & Hnod & Hres).
  rewrite (found_bound st bound a res Hl (udp_addr_ok _ _ Hl i Hi) Hf) in Hins, Hres.
  fold a in Hnone. rewrite Hnone in Hins, Hres. exists h. split; [done|]. destruct Hl. split; simpl.
  - apply Hres.
  - intros j Hj. rewrite Hnod. auto.
  - intros j [->|Hj]%elem_of_cons; auto.
  - done.
Qed.

(** Replacing a socket by one with the same address keeps the tree. *)
Lemma linked_update st bound i s :
  udp_linked st bound → sock_addr s = sock_addr (sock_at st i) →
  udp_linked (UdpState (<[i := s]> (sockets st)) (upd_sock_tree_head st)) bound.
Proof.
  intros Hl Hs.
  assert (He : ∀ j, sock_addr (sock_at (UdpState (<[i := s]> (sockets st)) (upd_sock_tree_head st)) j)
    = sock_addr (sock_at st j)).
  { intros j. unfold sock_at in *. simpl. destruct (decide (j = i)) as [->|Hne].
    - destruct (decide (i < length (sockets st))%nat) as [Hlt|Hge].
      + by rewrite list_lookup_insert_eq.
      + by rewrite list_insert_ge by lia.
    - by rewrite list_lookup_insert_ne. }
  destruct Hl. split; simpl.
  - apply (ix_ext (sock_key st)); [done|]. intros j _. unfold sock_key. by rewrite He.
  - intros j. rewrite length_insert. auto.
  - intros j. rewrite length_insert. auto.
  - intros j. rewrite length_insert, He. auto.
Qed.
End invariant.

(** ** Sessions *)
Inductive udp_op : Type :=
| UdpBind (sock : nat)
| UdpDeliver (ip : ip_hdr) (payload : list Z)
| UdpRecv (sock : nat) (len : Z) (peek : bool).

(** The return value or [errno], with the source and data of a reception. *)
Definition udp_answer : Type := Z * option (sockaddr * list Z).

Definition udp_step (st : udp_state) (o : udp_op) : outcome (udp_answer * udp_state) :=
  match o with
  | UdpBind i => '(r, st) ← xstack_udp_bind st i; Done ((default 0 r, None), st)
  | UdpDeliver ip payload =>
      '(r, _, st) ← udp_input st ip payload (length payload); Done ((r, None), st)
  | UdpRecv i len peek =>
      '(r, src, bs, s) ← xstack_recvfrom (sock_at st i) len peek;
      Done ((r, Some (src, bs)), UdpState (<[i := s]> (sockets st)) (upd_sock_tree_head st))
  end.

Fixpoint udp_run (st : udp_state) (ops : list udp_op) : outcome (list udp_answer) :=
  match ops with
  | [] => Done []
  | o :: ops => '(a, st) ← udp_step st o; l ← udp_run st ops; Done (a :: l)
  end.

(** The promise: a list of bound sockets and a FIFO per socket. *)
Record udp_model : Type := UdpModel {
  md_bound : list nat;
  md_queue : list (list (sockaddr * list Z))
}.

Definition md_find (addrs : list sockaddr) (m : udp_model) (a : sockaddr) : option nat :=
  List.find (fun i => bool_decide (addrs !! i = Some a)) (md_bound m).

Definition md_step (addrs : list sockaddr) (m : udp_model) (o : udp_op)
    : outcome (udp_answer * udp_model) :=
  match o with
  | UdpBind i =>
      a ← deref (addrs !! i);
      if bool_decide (port a > 49151) then Done ((EINVAL, None), m) else
      if md_find addrs m a then Done ((EADDRINUSE, None), m)
      else Done ((0, None), UdpModel (i :: md_bound m) (md_queue m))
  | UdpDeliver ip payload =>
      if bool_decide (length payload < 8)%nat then Done ((- EBADMSG, None), m) else
      match md_find addrs m (Sockaddr (ip_dst ip) (be_val (take 2 (drop 2 payload)))) with
      | None => Done ((- ENOTSOCK, None), m)
      | Some i =>
          q ← deref (md_queue m !! i);
          if bool_decide (length q = 3)%nat then Spin else
          let d := (Sockaddr (ip_src ip) (be_val (take 2 payload)), drop 8 payload) in
          Done ((0, None), UdpModel (md_bound m) (<[i := q ++ [d]]> (md_queue m)))
      end
  | UdpRecv i len peek =>
      q ← deref (md_queue m !! i);
      match q with
      | [] => Spin
      | (src, buf) :: q' =>
          Done ((Z.min len (length buf), Some (src, take (Z.to_nat len) buf)),
                UdpModel (md_bound m) (<[i := if peek then q else q']> (md_queue m)))
      end
  end.

Fixpoint md_run (addrs : list sockaddr) (m : udp_model) (ops : list udp_op)
    : outcome (list udp_answer) :=
  match ops with
  | [] => Done []
  | o :: ops => '(a, m) ← md_step addrs m o; l ← md_run addrs m ops; Done (a :: l)
  end.

(** The conditions on a session: an index of the table, a parsed IP header, an
    [unsigned] length, and a packet whose data fit a block of the ring.  The callers
    see to the others; the size of the data nobody checks.  A packet in one frame is
    always small enough, a reassembled one need not be
    ([Shm.ingress_overruns_egress_queue]). *)
Definition udp_op_ok (n : nat) (o : udp_op) : Prop :=
  match o with
  | UdpBind i => (i < n)%nat
  | UdpDeliver ip payload =>
      ip_hdr_ok ip ∧ bytes payload ∧ Z.of_nat (length payload) <= 8 + 4072
  | UdpRecv i len _ => (i < n)%nat ∧ 0 <= len < 2 ^ 32
  end.

(** ** Refinement *)
Section refinement.
Context `{!OrderedIndex rb_head indexes nodes RB_FIND RB_INSERT RB_REMOVE RB_FOREACH_FIND}.
Context (addrs : list sockaddr).

Definition udp_refines (st : udp_state) (m : udp_model) : Prop :=
  udp_linked st (md_bound m) ∧ sock_addr <$> sockets st = addrs ∧
  Forall2 ingress_holds (sockets st) (md_queue m).

Lemma refines_addr st m i :
  udp_refines st m → (i < length addrs)%nat → addrs !! i = Some (sock_addr (sock_at st i)).
Proof.
  intros (_ & <- & _) Hi. rewrite length_fmap in Hi. unfold sock_at.
  destruct (lookup_lt_is_Some_2 _ _ Hi) as [s Hs]. by rewrite list_lookup_fmap, Hs.
Qed.

Lemma refines_length st m : udp_refines st m → length (sockets st) = length addrs.
Proof. intros (_ & <- & _). by rewrite length_fmap. Qed.

Lemma refines_bound st m a : udp_refines st m → bound_to st (md_bound m) a = md_find addrs m a.
Proof.
  intros Hr. unfold bound_to, md_find. pose proof (refines_length st m Hr) as Hn.
  assert (Hb : ∀ i, i ∈ md_bound m → addrs !! i = Some (sock_addr (sock_at st i))).
  { intros i Hi. apply (refines_addr st m); [done|]. rewrite <-Hn.
    by apply (udp_bound _ _ (proj1 Hr)). }
  revert Hb. generalize (md_bound m). intros l Hl. induction l as [|i l IH]; [done|]. simpl.
  rewrite (Hl i) by left. rewrite (bool_decide_ext _ (Some (sock_addr (sock_at st i)) = Some a))
    by naive_solver. rewrite IH; [done|]. intros j Hj. apply Hl. by right.
Qed.

Lemma refines_queue st m i :
  udp_refines st m → (i < length addrs)%nat →
  ∃ q, md_queue m !! i = Some q ∧ ingress_holds (sock_at st i) q.
Proof.
  intros (_ & <- & Hf) Hi. rewrite length_fmap in Hi. unfold sock_at.
  destruct (lookup_lt_is_Some_2 _ _ Hi) as [s Hs]. rewrite Hs.
  destruct (Forall2_lookup_l _ _ _ _ _ Hf Hs) as (q & Hq & Hh). by exists q.
Qed.

(** One socket replaced, together with its queue. *)
Lemma refines_update st m i s q :
  udp_refines st m → ingress_holds s q → sock_addr s = sock_addr (sock_at st i) →
  udp_refines (UdpState (<[i := s]> (sockets st)) (upd_sock_tree_head st))
    (UdpModel (md_bound m) (<[i := q]> (md_queue m))).
Proof.
  intros (Hl & Ha & Hf) Hh Hs. split; [by apply linked_update|split].
  - simpl. rewrite list_fmap_insert, Hs, Ha.
    destruct (decide (i < length (sockets st))%nat) as [Hi|Hi].
    + rewrite list_insert_id; [done|]. subst addrs. rewrite list_lookup_fmap. unfold sock_at.
      destruct (lookup_lt_is_Some_2 _ _ Hi) as [s0 ->]. done.
    + rewrite list_insert_ge; [done|]. subst addrs. rewrite length_fmap. lia.
  - by apply Forall2_insert.
Qed.

Lemma bind_refines st m i :
  udp_refines st m → (i < length addrs)%nat →
  ∃ a st' m', udp_step st (UdpBind i) = Done (a, st') ∧
    md_step addrs m (UdpBind i) = Done (a, m') ∧ udp_refines st' m'.
Proof.
  intros Hr Hi. pose proof Hr as (Hl & Ha & Hf). pose proof (refines_length st m Hr) as Hn.
  set (a := sock_addr (sock_at st i)).
  assert (Hok : sockaddr_ok a) by (apply (udp_addr_ok _ _ Hl); lia).
  cbn [udp_step md_step]. rewrite (refines_addr st m i Hr Hi). cbn [deref]. rewrite bind_done.
  unfold xstack_udp_bind. fold a. change XSTACK_SOCK_PORT_MAX with 49151.
  destruct (bool_decide (port a > 49151)); [rewrite bind_done; eauto 10|].
  rewrite (find_bound st (md_bound m) a Hl Hok), bind_done.
  rewrite <-(refines_bound st m a Hr).
  destruct (bound_to st (md_bound m) a) as [j|] eqn:Hb; [rewrite bind_done; eauto 10|].
  destruct (bind_free st (md_bound m) i Hl ltac:(lia) Hb) as (h & Hins & Hl').
  fold a in Hins. rewrite Hins, !bind_done. eexists _, _, _. split; [done|]. split; [done|].
  split; [done|]. split; [done|]. done.
Qed.

Lemma ntohs_le_val bs : bytes bs → length bs = 2%nat → ntohs (le_val bs) = be_val bs.
Proof. intros Hb Hl. unfold ntohs. rewrite <-Hl. by rewrite le_bytes_le_val. Qed.

Lemma be_val_port bs : bytes bs → length bs = 2%nat → 0 <= be_val bs < 65536.
Proof. intros Hb Hl. pose proof (be_val_range bs Hb) as H. rewrite Hl in H. done. Qed.

(** The header of a datagram in a buffer. *)
Lemma udp_parse payload :
  bytes payload → (8 <= length payload)%nat →
  ∃ net, udp_hdr_load payload = Done net ∧
    udp_sport (udp_ntoh net) = be_val (take 2 payload) ∧
    udp_dport (udp_ntoh net) = be_val (take 2 (drop 2 payload)) ∧
    0 <= udp_sport (udp_ntoh net) < 65536 ∧ 0 <= udp_dport (udp_ntoh net) < 65536.
Proof.
  intros Hb Hl. unfold udp_hdr_load. rewrite bool_decide_true by done. eexists. split; [done|].
  unfold udp_ntoh, field. simpl. rewrite drop_0.
  assert (Hb2 : bytes (take 2 (drop 2 payload))) by by apply Forall_take, Forall_drop.
  assert (Hb1 : bytes (take 2 payload)) by by apply Forall_take.
  assert (Hl2 : length (take 2 (drop 2 payload)) = 2%nat)
    by (rewrite length_take, length_drop; lia).
  assert (Hl1 : length (take 2 payload) = 2%nat) by (rewrite length_take; lia).
  rewrite !ntohs_le_val by done. pose proof (be_val_port _ Hb1 Hl1).
  pose proof (be_val_port _ Hb2 Hl2). auto.
Qed.

(** [udp_input] on the first [n] bytes of a buffer. *)
Lemma udp_input_refines st m ip payload (n : nat) :
  udp_refines st m → ip_hdr_ok ip → bytes payload → (n <= length payload)%nat →
  Z.of_nat n <= 8 + 4072 →
  (∃ r payload' st' m', udp_input st ip payload n = Done (r, payload', st') ∧
    md_step addrs m (UdpDeliver ip (take n payload)) = Done ((r, None), m') ∧ udp_refines st' m' ∧
    r <= 0 ∧ bytes payload' ∧ length payload' = length payload ∧ drop 8 payload' = drop 8 payload) ∨
  udp_input st ip payload n = Spin ∧ md_step addrs m (UdpDeliver ip (take n payload)) = Spin.
Proof.
  intros Hr Hip Hpay Hle Hsz. pose proof Hr as (Hl & Ha & Hf).
  pose proof (refines_length st m Hr) as Hn. cbn [md_step]. unfold udp_input.
  rewrite length_take, (Nat.min_l n) by done.
  rewrite (bool_decide_ext (n < UDP_HDR_SIZE) (n < 8)%nat) by (unfold UDP_HDR_SIZE; lia).
  case_bool_decide as Hlen; [left; eexists _, _, _, _; split_and!; done|].
  destruct (udp_parse payload Hpay ltac:(lia)) as (net & -> & Hsp & Hdp & Rs & Rd).
  rewrite bind_done, mem_write_ok by (unfold udp_hdr_store; simpl; lia). rewrite bind_done, take_0, app_nil_l.
  set (p1 := udp_hdr_store (udp_ntoh net) ++ drop (0 + length (udp_hdr_store (udp_ntoh net))) payload).
  assert (Hd8 : drop 8 p1 = drop 8 payload) by by apply drop_app_exact.
  assert (Hl1 : length p1 = length payload) by (unfold p1; rewrite length_app, length_drop; simpl; lia).
  assert (Hb1 : bytes p1).
  { apply Forall_app_2; [|by apply Forall_drop]. unfold udp_hdr_store.
    repeat apply Forall_app_2; apply le_bytes_bytes. }
  assert (Ht1 : take 2 (take n payload) = take 2 payload) by (rewrite take_take; f_equal; lia).
  assert (Ht2 : take 2 (drop 2 (take n payload)) = take 2 (drop 2 payload)).
  { rewrite skipn_firstn_comm, take_take. f_equal. lia. }
  unfold ip_hdr_ok in Hip. destruct_and!.
  rewrite (find_bound st (md_bound m)) by (done || (split; cbn [inet4_addr port]; lia)). rewrite bind_done.
  rewrite (refines_bound st m _ Hr), Ht1, Ht2, <-Hsp, <-Hdp.
  destruct (md_find addrs m _) as [i|] eqn:Hfi; [|left; eexists _, _, _, _; by split_and!].
  assert (Hi : (i < length addrs)%nat).
  { rewrite <-Hn. apply (udp_bound _ _ Hl). rewrite <-(refines_bound st m _ Hr) in Hfi.
    by apply bound_to_in in Hfi as [? _]. }
  destruct (refines_queue st m i Hr Hi) as (q & Hq & Hh). rewrite Hq. cbn [deref]. rewrite bind_done.
  rewrite mem_read_ok by (rewrite Hl1; unfold UDP_HDR_SIZE; lia). rewrite bind_done.
  assert (Hd : take (Z.to_nat n - UDP_HDR_SIZE) (drop UDP_HDR_SIZE p1) = drop 8 (take n payload)).
  { unfold UDP_HDR_SIZE. rewrite Hd8, Nat2Z.id. by rewrite skipn_firstn_comm. }
  rewrite Hd. clear Hd.
  case_bool_decide as Hfull; [right; by rewrite (dgram_input_full _ _ _ _ Hh Hfull)|left].
  pose proof (ingress_length _ _ Hh) as Hq'. pose proof Hh as ((Hqok & _ & Hal & _) & _).
  pose proof (queue_len_range _ Hqok).
  destruct (dgram_input_accepts (sock_at st i) q
    (Sockaddr (ip_src ip) (udp_sport (udp_ntoh net))) (drop 8 (take n payload)) Hh) as (s & Hs & Hh' & Hsa & _).
  { lia. } { split; cbn [inet4_addr port]; lia. }
  { unfold payload_ok. rewrite length_drop, length_take. lia. }
  rewrite Hs, bind_done. rewrite bool_decide_false by lia.
  eexists _, _, _, _. split; [done|]. split; [done|]. split; [by apply refines_update|]. by split_and!.
Qed.

Lemma deliver_refines st m ip payload :
  udp_refines st m → udp_op_ok (length addrs) (UdpDeliver ip payload) →
  (∃ a st' m', udp_step st (UdpDeliver ip payload) = Done (a, st') ∧
    md_step addrs m (UdpDeliver ip payload) = Done (a, m') ∧ udp_refines st' m') ∨
  udp_step st (UdpDeliver ip payload) = Spin ∧ md_step addrs m (UdpDeliver ip payload) = Spin.
Proof.
  intros Hr (Hip & Hpay & Hsz). cbn [udp_step].
  destruct (udp_input_refines st m ip payload (length payload) Hr Hip Hpay ltac:(lia) Hsz)
    as [(r & p' & st' & m' & -> & Hm & Hr' & _)|[-> Hm]]; rewrite firstn_all in Hm; [left|by right].
  rewrite bind_done. by eexists _, st', m'.
Qed.

Lemma recv_refines st m i len peek :
  udp_refines st m → udp_op_ok (length addrs) (UdpRecv i len peek) →
  (∃ a st' m', udp_step st (UdpRecv i len peek) = Done (a, st') ∧
    md_step addrs m (UdpRecv i len peek) = Done (a, m') ∧ udp_refines st' m') ∨
  udp_step st (UdpRecv i len peek) = Spin ∧ md_step addrs m (UdpRecv i len peek) = Spin.
Proof.
  intros Hr [Hi Hlen]. cbn [udp_step md_step].
  destruct (refines_queue st m i Hr Hi) as (q & Hq & Hh). rewrite Hq. cbn [deref]. rewrite bind_done.
  destruct q as [|[src buf] q].
  { right. by rewrite (recvfrom_empty _ _ _ Hh). }
  left. destruct (recvfrom_head _ _ _ _ _ peek Hh Hlen) as (s & Hs & Hh' & Hsa).
  rewrite Hs, bind_done. eexists _, _, _. split; [done|]. split; [done|].
  by apply refines_update.
Qed.

Lemma run_refines ops st m :
  udp_refines st m → Forall (udp_op_ok (length addrs)) ops → udp_run st ops = md_run addrs m ops.
Proof.
  revert st m. induction ops as [|o ops IH]; intros st m Hr Hops; [done|].
  apply Forall_cons in Hops as [Ho Hops]. cbn [udp_run md_run].
  assert (Hstep : (∃ a st' m', udp_step st o = Done (a, st') ∧ md_step addrs m o = Done (a, m') ∧
      udp_refines st' m') ∨ udp_step st o = Spin ∧ md_step addrs m o = Spin).
  { destruct o as [i|ip payload|i len peek].
    - left. by apply bind_refines.
    - by apply deliver_refines.
    - by apply recv_refines. }
  destruct Hstep as [(a & st' & m' & -> & -> & Hr')|[-> ->]]; [|done].
  rewrite !bind_done. by rewrite (IH st' m' Hr' Hops).
Qed.
End refinement.

(** ** The sockets after [xstack_init], before any is bound *)
Definition init_socks (addrs : list sockaddr) : outcome (list xstack_sock) :=
  mapM (xstack_init_sock XIP_PROTO_UDP) addrs.

Definition udp_init (addrs : list sockaddr) : outcome udp_state :=
  socks ← init_socks addrs; Done (UdpState socks (RB_INITIALIZER (length addrs))).

Lemma init_sock_done proto addr :
  sockaddr_ok addr → ∃ s, xstack_init_sock proto addr = Done s ∧ ingress_holds s [] ∧
    sock_addr s = addr.
Proof.
  intros Ha. destruct (init_sock_holds proto addr Ha) as (s & Hs & Hh). exists s.
  split_and!; [done|done|]. unfold xstack_init_sock in Hs. by apply done_inj in Hs as <-.
Qed.

Lemma init_socks_done addrs :
  Forall sockaddr_ok addrs →
  ∃ socks, init_socks addrs = Done socks ∧ sock_addr <$> socks = addrs ∧
    Forall2 ingress_holds socks (replicate (length addrs) []).
Proof.
  unfold init_socks. induction 1 as [|a addrs Ha _ (socks & Hs & Hm & Hf)].
  { exists []. split_and!; [done|done|constructor]. }
  destruct (init_sock_done XIP_PROTO_UDP a Ha) as (s & Hs1 & Hh & Hsa).
  exists (s :: socks). cbn [mapM]. rewrite Hs1, bind_done, Hs, bind_done. split_and!; [done| |].
  - rewrite fmap_cons. by rewrite Hsa, Hm.
  - simpl. by constructor.
Qed.

Lemma udp_init_refines addrs :
  Forall sockaddr_ok addrs →
  ∃ st, udp_init addrs = Done st ∧
    udp_refines addrs st (UdpModel [] (replicate (length addrs) [])).
Proof.
  intros Ha. destruct (init_socks_done addrs Ha) as (socks & Hs & Hm & Hf). unfold udp_init.
  rewrite Hs, bind_done. eexists. split; [done|]. split; [|by split].
  split; simpl.
  - apply indexes_init.
  - intros i Hi. apply nodes_init. rewrite <-Hm. by rewrite length_fmap.
  - intros i Hi. by apply elem_of_nil in Hi.
  - intros i Hi. unfold sock_at. simpl. destruct (lookup_lt_is_Some_2 _ _ Hi) as [s Hsi].
    rewrite Hsi. simpl. rewrite Forall_lookup in Ha. apply (Ha i). by rewrite <-Hm, list_lookup_fmap, Hsi.
Qed.

(** C3: UDP demultiplexing.  Over any sequence of binds, incoming datagrams and
    receptions on the sockets of the table, the red-black tree of sockets and
    their shared memory behave like a list of bound addresses with one FIFO per
    socket: a bind fails with [EINVAL] for a port above 49151 and with
    [EADDRINUSE] for an address that is taken; a datagram goes, with its source
    address and port, to the queue of exactly the socket bound to its
    destination address and port, it is refused with [-ENOTSOCK] when there is
    none and with [-EBADMSG] when it is shorter than a header.  A datagram for a
    socket with three unread ones, and a reception from an empty queue, wait in the
    code and in the list model alike, which ends the session.  The datagrams have at
    most 4072 bytes of data, 4080 with the UDP header, which every packet that comes
    in one frame has; the code does not check this, and a longer one, which only
    reassembly can make, overruns its block. *)
Theorem udp_refines_demux addrs ops :
  Forall sockaddr_ok addrs → Forall (udp_op_ok (length addrs)) ops →
  (st ← udp_init addrs; udp_run st ops) =
  md_run addrs (UdpModel [] (replicate (length addrs) [])) ops.
Proof.
  intros Ha Hops. destruct (udp_init_refines addrs Ha) as (st & Hst & Hr).
  rewrite Hst, bind_done. by apply run_refines.
Qed.

Definition demo_addrs : list sockaddr :=
  [Sockaddr 167772162 10; Sockaddr 167772162 4000; Sockaddr 167772162 10; Sockaddr 167772162 50000].

Definition demo_hdr : ip_hdr := IpHdr 0x45 0 31 7 0 64 17 0 167772163 167772162.

(** Port 53 to port 4000, and port 53 to port 4001. *)
Definition demo_dgram (lo : Z) : list Z := [0; 53; 15; lo; 0; 11; 0; 0; 104; 105; 33].

Definition demo_session : list udp_op :=
  [UdpBind 0; UdpBind 1; UdpBind 2; UdpBind 3; UdpDeliver demo_hdr (demo_dgram 160);
   UdpDeliver demo_hdr (demo_dgram 161); UdpDeliver demo_hdr [0; 53]; UdpRecv 1 16 false].

Lemma udp_refines_demux_witness :
  (st ← udp_init demo_addrs; udp_run st demo_session) =
    md_run demo_addrs (UdpModel [] (replicate 4 [])) demo_session ∧
  md_run demo_addrs (UdpModel [] (replicate 4 [])) demo_session =
    Done [(0, None); (0, None); (EADDRINUSE, None); (EINVAL, None); (0, None);
          (- ENOTSOCK, None); (- EBADMSG, None);
          (3, Some (Sockaddr 167772163 53, [104; 105; 33]))].
Proof.
  split; [|reflexivity]. apply (udp_refines_demux demo_addrs demo_session).
  - repeat (apply Forall_cons_2 || apply Forall_nil_2); done.
  - repeat (apply Forall_cons_2 || apply Forall_nil_2); simpl;
      try split_and!; try done; try lia; by repeat (apply Forall_cons_2 || apply Forall_nil_2).
Defined.
