(* ===== verification/Tcp.v ===== *)
(** * TCP, [src/tcp.c]

    The connection table, the passive state machine and the input handler,
    which answers in the receive buffer.  The control block keeps the fields
    the program reads or writes; the others stay zero.  [calloc] is taken to
    succeed. *)

From S2P Require Import Prelude Bytes Checksum IpHeader RBTree RBShape RBInsert QueueR Socket.

#[local] Open Scope Z_scope.

(** ** Data *)

(** [struct tcp_hdr], the fields as the host reads them *)
Record tcp_hdr : Type := TcpHdr {
  tcp_sport : Z;
  tcp_dport : Z;
  tcp_seqno : Z;
  tcp_ack_num : Z;
  tcp_flags : Z;
  tcp_win_size : Z;
  tcp_csum : Z;
  tcp_urg_ptr : Z
}.

Definition TCP_HDR_SIZE : nat := 20.

Definition TCP_DOFF_MASK : Z := 0xF000.
Definition TCP_DOFF_OFF : Z := 12.
Definition TCP_ACK : Z := 0x010.
Definition TCP_SYN : Z := 0x002.
Definition TCP_FIN : Z := 0x001.

(** [enum tcp_state] *)
Inductive tcp_state : Type :=
| TCP_CLOSED
| TCP_LISTEN
| TCP_SYN_RCVD
| TCP_SYN_SENT
| TCP_ESTABLISHED
| TCP_FIN_WAIT_1
| TCP_FIN_WAIT_2
| TCP_CLOSE_WAIT
| TCP_CLOSING
| TCP_LAST_ACK
| TCP_TIME_WAIT.

#[export] Instance tcp_state_eq_dec : EqDecision tcp_state.
Proof. solve_decision. Defined.

(** [struct tcp_conn_tcb] *)
Record tcp_conn_tcb : Type := Tcb {
  tcb_local : sockaddr;
  tcb_remote : sockaddr;
  tcb_state : tcp_state;
  recv_next : Z;
  send_next : Z
}.

(** [tcp_conn_map] and the control blocks allocated so far: the control block
    number [i] is the element [i] of the tree. *)
Record tcp_table : Type := TcpTable {
  tcp_conns : list tcp_conn_tcb;
  tcp_conn_map : rb_head
}.

(** ** The packed header in memory *)
Definition tcp_hdr_store (h : tcp_hdr) : list Z :=
  le_bytes 2 (tcp_sport h) ++ le_bytes 2 (tcp_dport h) ++ le_bytes 4 (tcp_seqno h) ++
  le_bytes 4 (tcp_ack_num h) ++ le_bytes 2 (tcp_flags h) ++ le_bytes 2 (tcp_win_size h) ++
  le_bytes 2 (tcp_csum h) ++ le_bytes 2 (tcp_urg_ptr h).

Definition tcp_hdr_load (m : list Z) : outcome tcp_hdr :=
  if bool_decide (TCP_HDR_SIZE <= length m)%nat then
    Done (TcpHdr (field 0 2 m) (field 2 2 m) (field 4 4 m) (field 8 4 m)
            (field 12 2 m) (field 14 2 m) (field 16 2 m) (field 18 2 m))
  else Fault.

Definition tcp_hdr_size (hdr : tcp_hdr) : Z :=
  let doff := Z.shiftr (Z.land (tcp_flags hdr) TCP_DOFF_MASK) TCP_DOFF_OFF in
  if bool_decide (doff < 5) || bool_decide (doff > 15) then - EINVAL else doff * 4.

(** ** Byte order *)

(** The assignments of [tcp_hton], with [net->tcp_checksum = 0]. *)
Definition tcp_hdr_hton (h : tcp_hdr) : tcp_hdr :=
  TcpHdr (htons (tcp_sport h)) (htons (tcp_dport h)) (htonl (tcp_seqno h))
    (htonl (tcp_ack_num h)) (htons (tcp_flags h)) (htons (tcp_win_size h)) 0
    (htons (tcp_urg_ptr h)).

(** [tcp_hton(src, dst, host, net, bsize)] on the buffer that starts at [net] *)
Definition tcp_hton (src dst : sockaddr) (host : tcp_hdr) (net : list Z) (bsize : Z)
    : outcome (list Z) :=
  net ← mem_write 0 (tcp_hdr_store (tcp_hdr_hton host)) net;
  segment ← mem_read 0 (Z.to_nat bsize) net;
  mem_write 16 (le_bytes 2 (tcp_checksum (inet4_addr src) (inet4_addr dst) segment)) net.

Definition tcp_hdr_ntoh (net : tcp_hdr) : tcp_hdr :=
  TcpHdr (ntohs (tcp_sport net)) (ntohs (tcp_dport net)) (ntohl (tcp_seqno net))
    (ntohl (tcp_ack_num net)) (ntohs (tcp_flags net)) (ntohs (tcp_win_size net))
    (tcp_csum net) (ntohs (tcp_urg_ptr net)).

(** ** The connection table *)
Definition tcp_conn_cmp (local remote : sockaddr) (b : tcp_conn_tcb) : Z :=
  memcmp (sockaddr_bytes local) (sockaddr_bytes (tcb_local b)) +
  memcmp (sockaddr_bytes remote) (sockaddr_bytes (tcb_remote b)).

Definition zero_tcb : tcp_conn_tcb :=
  Tcb (Sockaddr 0 0) (Sockaddr 0 0) TCP_CLOSED 0 0.

Definition get_conn (t : tcp_table) (i : nat) : tcp_conn_tcb := default zero_tcb (tcp_conns t !! i).

Definition tcp_find_connection (t : tcp_table) (local remote : sockaddr) : outcome ptr :=
  RB_FIND (fun i => tcp_conn_cmp local remote (get_conn t i)) (tcp_conn_map t).

(** [calloc], the two copies and [RB_INSERT]. *)
Definition tcp_new_connection (t : tcp_table) (local remote : sockaddr) : outcome (nat * tcp_table) :=
  let conn := length (tcp_conns t) in
  let conns := tcp_conns t ++ [Tcb local remote TCP_CLOSED 0 0] in
  let h := RbHead (rbh_root (tcp_conn_map t))
             (<[conn := RbEntry None None None RB_BLACK]> (rb_nodes (tcp_conn_map t))) in
  '(_, h) ← RB_INSERT (fun i => tcp_conn_cmp local remote (get_conn (TcpTable conns h) i)) h conn;
  Done (conn, TcpTable conns h).

Definition set_conn (t : tcp_table) (i : nat) (c : tcp_conn_tcb) : tcp_table :=
  TcpTable (<[i := c]> (tcp_conns t)) (tcp_conn_map t).

(** ** The state machine *)
Definition has (flag : Z) (rs : tcp_hdr) : bool := negb (Z.land (tcp_flags rs) flag =? 0).

(** The fields a reply changes. *)
Definition tcp_reply (rs : tcp_hdr) (flags ack seqno : Z) : tcp_hdr :=
  TcpHdr (tcp_sport rs) (tcp_dport rs) seqno ack flags (tcp_win_size rs) (tcp_csum rs)
    (tcp_urg_ptr rs).

Definition set_state (c : tcp_conn_tcb) (s : tcp_state) : tcp_conn_tcb :=
  Tcb (tcb_local c) (tcb_remote c) s (recv_next c) (send_next c).

Definition set_seq (c : tcp_conn_tcb) (recv send : Z) : tcp_conn_tcb :=
  Tcb (tcb_local c) (tcb_remote c) (tcb_state c) recv send.

Definition tcp_fsm (conn : tcp_conn_tcb) (rs : tcp_hdr) : Z * tcp_hdr * tcp_conn_tcb :=
  match tcb_state conn with
  | TCP_CLOSED => (0, rs, conn)
  | TCP_LISTEN =>
      if has TCP_SYN rs then
        let rs := tcp_reply rs (Z.lor (tcp_flags rs) TCP_ACK) (u32 (tcp_seqno rs + 1)) 0 in
        let conn := set_seq (set_state conn TCP_SYN_RCVD) (tcp_ack_num rs) (u32 (tcp_seqno rs + 1)) in
        (tcp_hdr_size rs, rs, conn)
      else (0, rs, conn)
  | TCP_SYN_RCVD =>
      if has TCP_ACK rs && (tcp_seqno rs =? recv_next conn) && (tcp_ack_num rs =? send_next conn) then
        (0, rs, set_state conn TCP_ESTABLISHED)
      else
        let rs := tcp_reply rs (u16 (Z.land (tcp_flags rs) (Z.lnot TCP_ACK))) (tcp_seqno rs)
                    (send_next conn) in
        let conn := set_seq conn (tcp_ack_num rs) (u32 (tcp_seqno rs + 1)) in
        (tcp_hdr_size rs, rs, conn)
  | TCP_ESTABLISHED =>
      if has TCP_FIN rs then
        let rs := tcp_reply rs (Z.lor (tcp_flags rs) TCP_ACK) (u32 (tcp_seqno rs + 1))
                    (send_next conn) in
        let conn := set_seq (set_state conn TCP_LAST_ACK) (tcp_ack_num rs) (u32 (tcp_seqno rs + 1)) in
        (tcp_hdr_size rs, rs, conn)
      else (0, rs, conn)
  | TCP_FIN_WAIT_1 | TCP_FIN_WAIT_2 | TCP_CLOSE_WAIT | TCP_CLOSING => (0, rs, conn)
  | TCP_LAST_ACK =>
      if has TCP_ACK rs then (0, rs, set_state conn TCP_CLOSED) else (- EINVAL, rs, conn)
  | TCP_TIME_WAIT | TCP_SYN_SENT => (- EINVAL, rs, conn)
  end.

(** ** Input *)

(** The state machine and the fast reply, at the end of [tcp_input]: [tcp] is
    the header at the start of [payload]. *)
Definition tcp_process (t : tcp_table) (i : nat) (local remote : sockaddr) (tcp : tcp_hdr)
    (payload : list Z) : outcome (Z * list Z * tcp_table) :=
  conn ← deref (tcp_conns t !! i);
  let '(retval, tcp, conn) := tcp_fsm conn tcp in
  let t := set_conn t i conn in
  if bool_decide (retval > 0) then
    let tcp := TcpHdr (port local) (port remote) (tcp_seqno tcp) (tcp_ack_num tcp)
                 (tcp_flags tcp) (tcp_win_size tcp) (tcp_csum tcp) (tcp_urg_ptr tcp) in
    payload ← tcp_hton local remote tcp payload retval;
    Done (retval, payload, t)
  else
    payload ← mem_write 0 (tcp_hdr_store tcp) payload;
    Done (retval, payload, t).

(** [payload] is the receive buffer from the TCP header on, which may be
    longer than the [bsize] bytes of the segment.  The result is the return
    value, the buffer and the table. *)
Definition tcp_input (t : tcp_table) (ip : ip_hdr) (payload : list Z) (bsize : Z)
    : outcome (Z * list Z * tcp_table) :=
  if bool_decide (bsize < TCP_HDR_SIZE) then Done (- EBADMSG, payload, t) else
  net ← tcp_hdr_load payload;
  let local := Sockaddr (ip_dst ip) (ntohs (tcp_dport net)) in
  let remote := Sockaddr (ip_src ip) (ntohs (tcp_sport net)) in
  let tcp := tcp_hdr_ntoh net in
  payload ← mem_write 0 (tcp_hdr_store tcp) payload;
  found ← tcp_find_connection t local remote;
  match found with
  | None =>
      if has TCP_SYN tcp then
        '(i, t) ← tcp_new_connection t local remote;
        tcp_process (set_conn t i (set_state (get_conn t i) TCP_LISTEN)) i local remote tcp payload
      else Done (- EINVAL, payload, t)
  | Some i =>
      if has TCP_SYN tcp || bool_decide (tcp_hdr_size tcp < 0) then Done (- EINVAL, payload, t)
      else tcp_process t i local remote tcp payload
  end.

(** ** Layout lemmas *)
Definition tcp_hdr_ok (h : tcp_hdr) : Prop :=
  0 <= tcp_sport h < 65536 ∧ 0 <= tcp_dport h < 65536 ∧ 0 <= tcp_seqno h < 4294967296 ∧
  0 <= tcp_ack_num h < 4294967296 ∧ 0 <= tcp_flags h < 65536 ∧ 0 <= tcp_win_size h < 65536 ∧
  0 <= tcp_csum h < 65536 ∧ 0 <= tcp_urg_ptr h < 65536.

Lemma tcp_hdr_store_length h : length (tcp_hdr_store h) = TCP_HDR_SIZE.
Proof. done. Qed.

Lemma tcp_hdr_store_bytes h : bytes (tcp_hdr_store h).
Proof. unfold tcp_hdr_store. repeat apply Forall_app_2; auto with bytes. Qed.

Lemma tcp_hdr_load_done m :
  bytes m → (TCP_HDR_SIZE <= length m)%nat → ∃ h, tcp_hdr_load m = Done h ∧ tcp_hdr_ok h.
Proof.
  intros Hm Hl. unfold tcp_hdr_load. rewrite bool_decide_true by done. eexists. split; [done|].
  do 20 (destruct m as [|? m]; [simpl in *; unfold TCP_HDR_SIZE in *; lia|]).
  do 20 (apply Forall_cons in Hm as [? Hm]). clear Hm. unfold is_byte in *.
  unfold tcp_hdr_ok, field. simpl. lia.
Qed.

Lemma tcp_hdr_load_store h rest : tcp_hdr_ok h → tcp_hdr_load (tcp_hdr_store h ++ rest) = Done h.
Proof.
  intros Hok. unfold tcp_hdr_load. rewrite bool_decide_true.
  2:{ rewrite length_app, tcp_hdr_store_length. lia. }
  f_equal. destruct h as [a b c d e f g i]. unfold tcp_hdr_ok in Hok. simpl in Hok. destruct_and!.
  unfold field. simpl. f_equal; dlia.
Qed.

(** The header size is between 20 and 60 octets, or negative. *)
Lemma tcp_hdr_size_bound h :
  tcp_hdr_size h = - EINVAL ∨
  (20 <= tcp_hdr_size h <= 60 ∧ Z.even (tcp_hdr_size h) = true).
Proof.
  unfold tcp_hdr_size. case_tests; simpl; auto. right. split; [lia|].
  rewrite Z.even_mul. by rewrite orb_true_r.
Qed.

Definition tcp_pre (h : tcp_hdr) : list Z := take 16 (tcp_hdr_store h).
Definition tcp_post (h : tcp_hdr) : list Z := drop 18 (tcp_hdr_store h).

Lemma tcp_store_split h : tcp_hdr_store h = tcp_pre h ++ le_bytes 2 (tcp_csum h) ++ tcp_post h.
Proof. done. Qed.

Lemma tcp_pre_bytes h : bytes (tcp_pre h).
Proof. apply Forall_take, tcp_hdr_store_bytes. Qed.

Lemma tcp_post_bytes h : bytes (tcp_post h).
Proof. apply Forall_drop, tcp_hdr_store_bytes. Qed.

Definition tcp_set_csum (c : Z) (h : tcp_hdr) : tcp_hdr :=
  TcpHdr (tcp_sport h) (tcp_dport h) (tcp_seqno h) (tcp_ack_num h) (tcp_flags h)
    (tcp_win_size h) c (tcp_urg_ptr h).

Lemma tcp_checksum_range src dst data : 0 <= tcp_checksum src dst data < 65536.
Proof. unfold tcp_checksum, u16. apply Z.mod_pos_bound. lia. Qed.

(** [tcp_hton]: the converted header with a checksum that verifies over the
    segment, and nothing else is changed. *)
Lemma tcp_hton_spec src dst host net n :
  bytes net → (TCP_HDR_SIZE <= n <= length net)%nat →
  ∃ c net', 0 <= c < 65536 ∧ tcp_hton src dst host net n = Done net' ∧
    net' = tcp_hdr_store (tcp_set_csum c (tcp_hdr_hton host)) ++ drop TCP_HDR_SIZE net ∧
    tcp_checksum (inet4_addr src) (inet4_addr dst) (take n net') = 0.
Proof.
  intros Hnet [Hn Hl]. unfold tcp_hton.
  rewrite mem_write_ok by (rewrite tcp_hdr_store_length; lia).
  rewrite bind_done, tcp_hdr_store_length, take_0, app_nil_l, Nat.add_0_l, Nat2Z.id.
  set (h := tcp_hdr_hton host). set (rest := drop TCP_HDR_SIZE net).
  assert (Hrest : length rest = (length net - 20)%nat) by (unfold rest; by rewrite length_drop).
  rewrite mem_read_ok by (rewrite length_app, tcp_hdr_store_length, Hrest; unfold TCP_HDR_SIZE in *; lia).
  rewrite bind_done, drop_0.
  rewrite mem_write_ok by (rewrite length_app, tcp_hdr_store_length; unfold TCP_HDR_SIZE; simpl; lia).
  assert (Hsplit : tcp_hdr_store h ++ rest = tcp_pre h ++ [0; 0] ++ tcp_post h ++ rest) by done.
  set (seg := take n (tcp_hdr_store h ++ rest)).
  assert (Hseg : ∀ x, length x = 2%nat →
    take n (tcp_pre h ++ x ++ tcp_post h ++ rest) =
    tcp_pre h ++ x ++ tcp_post h ++ take (n - 20) rest).
  { intros x Hx. rewrite !take_app. change (length (tcp_pre h)) with 16%nat.
    change (length (tcp_post h)) with 2%nat. rewrite Hx. unfold TCP_HDR_SIZE in Hn.
    rewrite (take_ge (tcp_pre h)) by (change (length (tcp_pre h)) with 16%nat; lia).
    rewrite (take_ge x) by lia.
    rewrite (take_ge (tcp_post h)) by (change (length (tcp_post h)) with 2%nat; lia).
    do 3 f_equal. f_equal. lia. }
  set (c := tcp_checksum (inet4_addr src) (inet4_addr dst) seg).
  exists c. eexists. split; [apply tcp_checksum_range|]. split; [done|]. rewrite Hsplit. split; [done|].
  change (tcp_checksum (inet4_addr src) (inet4_addr dst)
    (take n (tcp_pre h ++ le_bytes 2 c ++ tcp_post h ++ rest)) = 0).
  rewrite Hseg by done. unfold c, seg. rewrite Hsplit, (Hseg [0; 0]) by done.
  apply tcp_checksum_field_verifies; [apply tcp_pre_bytes| |done].
  apply Forall_app_2; [apply tcp_post_bytes|]. by apply Forall_take, Forall_drop.
Qed.

(** ** The connections *)

(** The states of a connection between two segments: the server side only. *)
Definition passive (s : tcp_state) : bool :=
  match s with TCP_SYN_RCVD | TCP_ESTABLISHED | TCP_LAST_ACK | TCP_CLOSED => true | _ => false end.

(** One segment moves a connection along the diagram of the server. *)
Definition tcp_edge (s s' : tcp_state) : bool :=
  bool_decide (s = s') ||
  match s, s' with
  | TCP_SYN_RCVD, TCP_ESTABLISHED
  | TCP_ESTABLISHED, TCP_LAST_ACK
  | TCP_LAST_ACK, TCP_CLOSED => true
  | _, _ => false
  end.

Definition same_peers (c c' : tcp_conn_tcb) : Prop :=
  tcb_local c' = tcb_local c ∧ tcb_remote c' = tcb_remote c.

Lemma fsm_edge c rs r rs' c' :
  tcp_fsm c rs = (r, rs', c') → passive (tcb_state c) = true →
  tcp_edge (tcb_state c) (tcb_state c') = true ∧ same_peers c c'.
Proof.
  unfold tcp_fsm. intros Hf Hp.
  destruct (tcb_state c) eqn:Hs; try discriminate Hp;
    repeat match type of Hf with context [if ?b then _ else _] => destruct b end;
    injection Hf as <- <- <-; simpl; rewrite ?Hs; done.
Qed.

Lemma fsm_listen c rs r rs' c' :
  tcp_fsm c rs = (r, rs', c') → tcb_state c = TCP_LISTEN → has TCP_SYN rs = true →
  tcb_state c' = TCP_SYN_RCVD ∧ same_peers c c'.
Proof. unfold tcp_fsm. intros Hf Hs Hh. rewrite Hs, Hh in Hf. by injection Hf as <- <- <-. Qed.

Lemma fsm_retval c rs r rs' c' :
  tcp_fsm c rs = (r, rs', c') → r = 0 ∨ r = - EINVAL ∨ r = tcp_hdr_size rs'.
Proof.
  unfold tcp_fsm. intros Hf. destruct (tcb_state c);
    repeat match type of Hf with context [if ?b then _ else _] => destruct b end;
    injection Hf as <- <- <-; auto.
Qed.

Lemma edge_passive s s' : passive s = true → tcp_edge s s' = true → passive s' = true.
Proof. by destruct s, s'. Qed.

(** The table: its tree is a red-black tree over allocated connections. *)
Record tcp_ok (t : tcp_table) : Prop := TcpOk {
  tcp_ok_tree : ∃ order, valid (tcp_conn_map t) order;
  tcp_ok_nodes i : i ∈ dom (rb_nodes (tcp_conn_map t)) ↔ (i < length (tcp_conns t))%nat;
  tcp_ok_passive i c : tcp_conns t !! i = Some c → passive (tcb_state c) = true
}.

(** What one segment may do to the table. *)
Definition tcp_evolves (t t' : tcp_table) : Prop :=
  (∀ i c, tcp_conns t !! i = Some c →
     ∃ c', tcp_conns t' !! i = Some c' ∧ same_peers c c' ∧
       tcp_edge (tcb_state c) (tcb_state c') = true) ∧
  (∀ i c', tcp_conns t' !! i = Some c' →
     (i < length (tcp_conns t))%nat ∨
     (i = length (tcp_conns t) ∧ tcb_state c' = TCP_SYN_RCVD)).

Lemma tcp_edge_refl s : tcp_edge s s = true.
Proof. unfold tcp_edge. by rewrite bool_decide_true. Qed.

Lemma tcp_evolves_refl t : tcp_evolves t t.
Proof.
  split.
  - intros i c Hi. exists c. split; [done|]. split; [done|apply tcp_edge_refl].
  - intros i c Hi. left. by eapply lookup_lt_Some.
Qed.

Lemma tcp_init_ok : tcp_ok (TcpTable [] (RbHead None ∅)).
Proof.
  split; simpl; [|intros i; rewrite dom_empty_L; set_solver by lia|intros i c; by rewrite lookup_nil].
  exists [], E, 0%nat. split_and!; [|constructor|done]. split_and!; [done|done|constructor].
Qed.

(** Adding a connection: a fresh element, linked when no other compares equal. *)
Lemma new_connection_spec t local remote :
  tcp_ok t →
  ∃ h, tcp_new_connection t local remote =
      Done (length (tcp_conns t), TcpTable (tcp_conns t ++ [Tcb local remote TCP_CLOSED 0 0]) h) ∧
    (∃ order, valid h order) ∧
    (∀ i, i ∈ dom (rb_nodes h) ↔ (i < S (length (tcp_conns t)))%nat).
Proof.
  intros [[order Hv] Hn _]. unfold tcp_new_connection.
  set (conn := length (tcp_conns t)). set (h0 := RbHead _ _).
  assert (Hfresh : conn ∉ order).
  { intros Hi. apply (valid_in_dom _ _ _ Hv), Hn in Hi. unfold conn in Hi. lia. }
  assert (Hv0 : valid h0 order) by by apply valid_unlinked.
  assert (Hd0 : ∀ i, i ∈ dom (rb_nodes h0) ↔ (i < S conn)%nat).
  { intros i. simpl. rewrite dom_insert_L, elem_of_union, elem_of_singleton, Hn. unfold conn. lia. }
  edestruct (insert_any h0 order) as [(i & Hi & Hc & ->)|(h' & l1 & l2 & -> & -> & Hv' & Hd)];
    [done|apply Hd0; lia|done|..]; rewrite bind_done.
  - exists h0. eauto.
  - exists h'. split; [done|]. split; [eauto|]. by rewrite Hd.
Qed.

Lemma set_conn_ok t i c :
  tcp_ok t → passive (tcb_state c) = true → tcp_ok (set_conn t i c).
Proof.
  intros [Ht Hn Hp] Hc. split; simpl; [done|by rewrite length_insert|].
  intros j c' [(<- & <- & _)|[_ Hj]]%list_lookup_insert_Some; [done|by eapply Hp].
Qed.

Lemma set_conn_evolves t i c c' :
  tcp_conns t !! i = Some c → same_peers c c' → tcp_edge (tcb_state c) (tcb_state c') = true →
  tcp_evolves t (set_conn t i c').
Proof.
  intros Hi Hpeers Hedge. split; simpl.
  - intros j cj Hj. destruct (decide (i = j)) as [<-|Hij].
    + rewrite list_lookup_insert_eq by (by eapply lookup_lt_Some). exists c'. by simplify_eq.
    + rewrite list_lookup_insert_ne by done. exists cj. split; [done|]. split; [done|apply tcp_edge_refl].
  - intros j cj Hj. left. apply lookup_lt_Some in Hj. by rewrite length_insert in Hj.
Qed.

(** What [tcp_process] leaves behind: the connection after the state machine,
    and in the buffer either a reply whose checksum verifies, or the header. *)
Lemma tcp_process_spec t i c local remote tcp payload :
  tcp_conns t !! i = Some c → bytes payload → (60 <= length payload)%nat →
  ∃ r rs' c' p', tcp_fsm c tcp = (r, rs', c') ∧
    tcp_process t i local remote tcp payload = Done (r, p', set_conn t i c') ∧
    length p' = length payload ∧
    (0 < r → 20 <= r <= 60 ∧
       tcp_checksum (inet4_addr local) (inet4_addr remote) (take (Z.to_nat r) p') = 0 ∧
       ∃ csum, 0 <= csum < 65536 ∧ p' = tcp_hdr_store (tcp_set_csum csum (tcp_hdr_hton
           (TcpHdr (port local) (port remote) (tcp_seqno rs') (tcp_ack_num rs') (tcp_flags rs')
              (tcp_win_size rs') (tcp_csum rs') (tcp_urg_ptr rs')))) ++ drop TCP_HDR_SIZE payload).
Proof.
  intros Hi Hp Hl. unfold tcp_process. rewrite Hi. simpl deref. rewrite bind_done.
  destruct (tcp_fsm c tcp) as [[r rs'] c'] eqn:Hf. exists r, rs', c'.
  case_bool_decide as Hr.
  - assert (Hb : 20 <= r <= 60).
    { destruct (fsm_retval _ _ _ _ _ Hf) as [->|[->|Hr']]; [done|done|].
      destruct (tcp_hdr_size_bound rs') as [Hs|[Hs _]]; rewrite <-Hr' in Hs; [by rewrite Hs in Hr|done]. }
    set (h := TcpHdr _ _ _ _ _ _ _ _).
    destruct (tcp_hton_spec local remote h payload (Z.to_nat r)) as (csum & p' & Hc & He & Hp' & Hsum);
      [done|unfold TCP_HDR_SIZE; lia|].
    rewrite Z2Nat.id in He by lia. rewrite He, bind_done. exists p'. split_and!; [done|done| |].
    + rewrite Hp', length_app, tcp_hdr_store_length, length_drop. unfold TCP_HDR_SIZE. lia.
    + intros _. split_and!; [lia|lia|done|]. by exists csum.
  - rewrite mem_write_ok by (rewrite tcp_hdr_store_length; unfold TCP_HDR_SIZE; lia).
    rewrite bind_done. eexists. split_and!; [done|done| |intros ?; lia].
    rewrite !length_app, length_take, tcp_hdr_store_length, length_drop. unfold TCP_HDR_SIZE. lia.
Qed.

(** The first part of [tcp_input]: the header is converted in place. *)
Lemma tcp_input_unfold t ip payload bsize :
  TCP_HDR_SIZE <= bsize <= length payload → bytes payload →
  ∃ net p1, tcp_hdr_load payload = Done net ∧ tcp_hdr_ok net ∧
    p1 = tcp_hdr_store (tcp_hdr_ntoh net) ++ drop TCP_HDR_SIZE payload ∧
    bytes p1 ∧ length p1 = length payload ∧
    tcp_input t ip payload bsize =
      let local := Sockaddr (ip_dst ip) (ntohs (tcp_dport net)) in
      let remote := Sockaddr (ip_src ip) (ntohs (tcp_sport net)) in
      let tcp := tcp_hdr_ntoh net in
      found ← tcp_find_connection t local remote;
      match found with
      | None =>
          if has TCP_SYN tcp then
            '(i, t) ← tcp_new_connection t local remote;
            tcp_process (set_conn t i (set_state (get_conn t i) TCP_LISTEN)) i local remote tcp p1
          else Done (- EINVAL, p1, t)
      | Some i =>
          if has TCP_SYN tcp || bool_decide (tcp_hdr_size tcp < 0) then Done (- EINVAL, p1, t)
          else tcp_process t i local remote tcp p1
      end.
Proof.
  intros Hb Hp. destruct (tcp_hdr_load_done payload Hp) as (net & Hnet & Hok); [lia|].
  exists net. eexists. split_and!; [done|done|done| | |].
  - apply Forall_app_2; [apply tcp_hdr_store_bytes|by apply Forall_drop].
  - rewrite length_app, tcp_hdr_store_length, length_drop. lia.
  - unfold tcp_input. rewrite bool_decide_false by lia. rewrite Hnet, bind_done.
    rewrite mem_write_ok by (rewrite tcp_hdr_store_length; lia). done.
Qed.

(** A reply: a segment from the addressed port to the sender that verifies. *)
Definition tcp_reply_ok (ip : ip_hdr) (payload p' : list Z) (r : Z) : Prop :=
  20 <= r <= 60 ∧
  tcp_checksum (ip_dst ip) (ip_src ip) (take (Z.to_nat r) p') = 0 ∧
  ∃ net reply, tcp_hdr_load payload = Done net ∧ tcp_hdr_load p' = Done reply ∧
    tcp_sport reply = tcp_dport net ∧ tcp_dport reply = tcp_sport net.

Lemma tcp_hton_ok c h : 0 <= c < 65536 → tcp_hdr_ok (tcp_set_csum c (tcp_hdr_hton h)).
Proof.
  intros Hc. unfold tcp_hdr_ok. simpl.
  split_and!; apply htons_range || apply htonl_range || lia.
Qed.

Lemma tcp_process_reply t i c local remote net ip payload p1 :
  tcp_conns t !! i = Some c → bytes p1 → (60 <= length p1)%nat →
  tcp_hdr_load payload = Done net → tcp_hdr_ok net →
  local = Sockaddr (ip_dst ip) (ntohs (tcp_dport net)) →
  remote = Sockaddr (ip_src ip) (ntohs (tcp_sport net)) →
  ∃ r rs' c' p', tcp_fsm c (tcp_hdr_ntoh net) = (r, rs', c') ∧
    tcp_process t i local remote (tcp_hdr_ntoh net) p1 = Done (r, p', set_conn t i c') ∧
    length p' = length p1 ∧ (0 < r → tcp_reply_ok ip payload p' r).
Proof.
  intros Hi Hp Hl Hnet Hok -> ->.
  destruct (tcp_process_spec t i c (Sockaddr (ip_dst ip) (ntohs (tcp_dport net)))
    (Sockaddr (ip_src ip) (ntohs (tcp_sport net))) (tcp_hdr_ntoh net) p1 Hi Hp Hl)
    as (r & rs' & c' & p' & Hf & He & Hlen & Hr).
  exists r, rs', c', p'. split_and!; [done..|]. intros Hpos.
  destruct (Hr Hpos) as (Hb & Hsum & csum & Hc & ->). split_and!; [lia|lia|done|].
  eexists net, _. split_and!; [done|by apply tcp_hdr_load_store, tcp_hton_ok|..];
    simpl; apply (be_swap_involutive 2); apply Hok.
Qed.

(** The error of an unbound port is not one of the results. *)
Lemma tcp_fsm_result c rs : (tcp_fsm c rs).1.1 ≠ - ENOTSOCK.
Proof.
  assert (Hs : ∀ h, tcp_hdr_size h ≠ - ENOTSOCK).
  { intros h. unfold tcp_hdr_size. destruct (bool_decide (_ < 5)) eqn:E1; [done|].
    destruct (bool_decide (_ > 15)); [done|]. apply bool_decide_eq_false in E1. unfold ENOTSOCK. cbn [orb]. lia. }
  unfold tcp_fsm. destruct (tcb_state c); repeat case_match; simpl; try apply Hs; done.
Qed.

Lemma tcp_input_result t ip payload bsize r p' t' :
  tcp_input t ip payload bsize = Done (r, p', t') → r ≠ - ENOTSOCK.
Proof.
  assert (Hp : ∀ t i l rm h p, tcp_process t i l rm h p = Done (r, p', t') → r ≠ - ENOTSOCK).
  { intros t0 i l rm h p. unfold tcp_process. intros Hx. inv_done.
    pose proof (tcp_fsm_result a h) as Hf. destruct (tcp_fsm a h) as [[r0 h0] c0]. simpl in Hf.
    case_match; inv_done; by simplify_eq. }
  unfold tcp_input. case_bool_decide; [intros Hx; inv_done; by simplify_eq|]. intros Hx. inv_done.
  destruct a1 as [i|].
  - case_match; [inv_done; by simplify_eq|]. by eapply Hp.
  - case_match; [|inv_done; by simplify_eq]. inv_done. destruct a1 as [i t1]. by eapply Hp.
Qed.

Lemma tcp_input_spec t ip payload bsize :
  tcp_ok t → 0 <= bsize <= length payload → (60 <= length payload)%nat → bytes payload →
  ∃ r p' t', tcp_input t ip payload bsize = Done (r, p', t') ∧ tcp_ok t' ∧ tcp_evolves t t' ∧
    length p' = length payload ∧ (0 < r → tcp_reply_ok ip payload p' r).
Proof.
  intros Hok Hb Hl Hp. destruct (decide (bsize < TCP_HDR_SIZE)) as [Hs|Hs].
  { unfold tcp_input. rewrite bool_decide_true by done. eexists _, _, _. split_and!; [done|done| |done|done].
    apply tcp_evolves_refl. }
  destruct (tcp_input_unfold t ip payload bsize) as (net & p1 & Hnet & Hnok & Hp1 & Hb1 & Hl1 & ->); [lia|done|].
  cbv zeta. pose proof Hok as [[order Hv] Hn Hpass].
  unfold tcp_find_connection.
  edestruct (find_any (tcp_conn_map t) order) as [(i & Hi & _ & ->)| ->]; [done|rewrite bind_done..].
  - destruct (has TCP_SYN (tcp_hdr_ntoh net) || _).
    { eexists _, _, _. split_and!; [done|done|apply tcp_evolves_refl|done|done]. }
    apply (valid_in_dom _ _ _ Hv), Hn, lookup_lt_is_Some in Hi as [c Hi].
    destruct (tcp_process_reply t i c _ _ net ip payload p1 Hi Hb1 ltac:(lia) Hnet Hnok eq_refl eq_refl)
      as (r & rs' & c' & p' & Hf & -> & Hlen & Hr).
    destruct (fsm_edge _ _ _ _ _ Hf (Hpass _ _ Hi)) as [Hedge Hpeers].
    exists r, p', (set_conn t i c'). split_and!; [done| |by eapply set_conn_evolves|lia|done].
    apply set_conn_ok; [done|]. eapply edge_passive; [by eapply Hpass|done].
  - destruct (has TCP_SYN (tcp_hdr_ntoh net)) eqn:Hsyn.
    2:{ eexists _, _, _. split_and!; [done|done|apply tcp_evolves_refl|done|done]. }
    edestruct (new_connection_spec t) as (h & -> & Hvh & Hdh); [done|]. rewrite bind_done.
    set (n := length (tcp_conns t)). set (t1 := TcpTable _ h).
    edestruct (tcp_process_reply (set_conn t1 n (set_state (get_conn t1 n) TCP_LISTEN)) n)
      as (r & rs' & c' & p' & Hf & -> & Hlen & Hr);
      [|done|lia|done|done|done|done|].
    { simpl. apply list_lookup_insert_eq. rewrite length_app. simpl. unfold n. lia. }
    destruct (fsm_listen _ _ _ _ _ Hf) as [Hst _]; [done|done|].
    eexists r, p', _. split_and!; [done| | |lia|done].
    + split; simpl; [done|by rewrite !length_insert, length_app, Nat.add_1_r|].
      intros j cj. rewrite list_insert_insert_eq.
      intros [(<- & <- & _)|[Hne Hj]]%list_lookup_insert_Some; [by rewrite Hst|].
      apply lookup_app_Some in Hj as [Hj|[Hge Hj]]; [by eapply Hpass|].
      apply list_lookup_singleton_Some in Hj as [Hj _]. unfold n in Hne. lia.
    + split; simpl; rewrite list_insert_insert_eq.
      * intros j cj Hj. exists cj. split; [|split; [done|apply tcp_edge_refl]].
        apply lookup_lt_Some in Hj as Hlt.
        rewrite list_lookup_insert_ne by (unfold n; lia). by rewrite lookup_app_l.
      * intros j cj [(<- & <- & _)|[Hne Hj]]%list_lookup_insert_Some; [by right|].
        left. apply lookup_lt_Some in Hj. rewrite length_app in Hj. simpl in Hj. unfold n in Hne. lia.
Qed.

(** ** Passive open and close *)
Lemma ntohs_range x : 0 <= ntohs x < 65536.
Proof. apply htons_range. Qed.

Lemma memcmp_refl l : memcmp l l = 0.
Proof. induction l as [|x l IH]; simpl; [done|]. by rewrite bool_decide_true. Qed.

Lemma tcp_ntoh_hton c h : tcp_hdr_ok h → tcp_hdr_ntoh (tcp_set_csum c (tcp_hdr_hton h)) = tcp_set_csum c h.
Proof.
  intros Hok. unfold tcp_hdr_ok in Hok. destruct_and!. unfold tcp_hdr_ntoh, tcp_set_csum. simpl.
  by rewrite !ntohs_htons, !ntohl_htonl.
Qed.

Lemma tcp_ntoh_ok h : tcp_hdr_ok h → tcp_hdr_ok (tcp_hdr_ntoh h).
Proof.
  intros Hok. unfold tcp_hdr_ok in *. simpl. destruct_and!.
  split_and!; apply htons_range || apply htonl_range || lia.
Qed.

Lemma lor_ack_range f : 0 <= f < 65536 → 0 <= Z.lor f TCP_ACK < 65536.
Proof.
  intros Hf. assert (0 <= Z.lor f TCP_ACK) by (apply Z.lor_nonneg; unfold TCP_ACK; lia).
  split; [done|]. change 65536 with (2 ^ 16). destruct (decide (Z.lor f TCP_ACK = 0)); [lia|].
  apply Z.log2_lt_pow2; [lia|]. rewrite Z.log2_lor by (unfold TCP_ACK; lia).
  apply Z.max_lub_lt; [|done]. destruct (decide (f = 0)) as [->|]; [done|].
  apply Z.log2_lt_pow2; lia.
Qed.

Lemma tcp_hdr_size_ack h a s : tcp_hdr_size (tcp_reply h (Z.lor (tcp_flags h) TCP_ACK) a s) = tcp_hdr_size h.
Proof. unfold tcp_hdr_size. simpl. by rewrite Z.land_lor_distr_l, Z.lor_0_r. Qed.

(** The buffer [p] holds a segment with the host order header [h]. *)
Definition segment (p : list Z) (bsize : Z) (h : tcp_hdr) : Prop :=
  bytes p ∧ (60 <= length p)%nat ∧ TCP_HDR_SIZE <= bsize <= length p ∧
  0 < tcp_hdr_size h ∧ ∃ net, tcp_hdr_load p = Done net ∧ h = tcp_hdr_ntoh net.

(** The table with the single connection [c]. *)
Definition single (c : tcp_conn_tcb) : tcp_table :=
  TcpTable [c] (RbHead (Some 0%nat) (<[0%nat := RbEntry None None None RB_BLACK]> ∅)).

Lemma tcp_conn_cmp_refl c : tcp_conn_cmp (tcb_local c) (tcb_remote c) c = 0.
Proof. unfold tcp_conn_cmp. by rewrite !memcmp_refl. Qed.

Lemma find_single c : tcp_find_connection (single c) (tcb_local c) (tcb_remote c) = Done (Some 0%nat).
Proof.
  unfold tcp_find_connection, RB_FIND.
  change (fuel_of (tcp_conn_map (single c))) with 2%nat.
  cbn [descend tcp_conn_map single rbh_root]. change (get_conn (single c) 0) with c.
  by rewrite tcp_conn_cmp_refl.
Qed.

Lemma new_single local remote :
  tcp_new_connection (TcpTable [] (RbHead None ∅)) local remote =
  Done (0%nat, single (Tcb local remote TCP_CLOSED 0 0)).
Proof. reflexivity. Qed.

(** A segment for the only connection of the table. *)
Lemma input_single ip p bsize h c :
  segment p bsize h → tcb_local c = Sockaddr (ip_dst ip) (tcp_dport h) →
  tcb_remote c = Sockaddr (ip_src ip) (tcp_sport h) → has TCP_SYN h = false →
  ∃ r rs' c' p', tcp_fsm c h = (r, rs', c') ∧
    tcp_input (single c) ip p bsize = Done (r, p', single c') ∧
    (0 < r → tcp_hdr_ok rs' → ∃ csum net, tcp_hdr_load p' = Done net ∧
      tcp_hdr_ntoh net = TcpHdr (tcp_dport h) (tcp_sport h) (tcp_seqno rs') (tcp_ack_num rs')
        (tcp_flags rs') (tcp_win_size rs') csum (tcp_urg_ptr rs')).
Proof.
  intros (Hp & Hl & Hb & Hsize & net & Hnet & ->) Hlc Hrc Hsyn.
  destruct (tcp_input_unfold (single c) ip p bsize Hb Hp) as (net' & p1 & Hnet' & Hok & -> & Hb1 & Hl1 & ->).
  rewrite Hnet in Hnet'. apply done_inj in Hnet' as <-.
  change (ntohs (tcp_dport net)) with (tcp_dport (tcp_hdr_ntoh net)).
  change (ntohs (tcp_sport net)) with (tcp_sport (tcp_hdr_ntoh net)). cbv zeta.
  rewrite <-Hlc, <-Hrc, find_single, bind_done, Hsyn, bool_decide_false by lia. cbn [orb].
  destruct (tcp_process_spec (single c) 0 c (tcb_local c) (tcb_remote c) (tcp_hdr_ntoh net)
    (tcp_hdr_store (tcp_hdr_ntoh net) ++ drop TCP_HDR_SIZE p)) as (r & rs' & c' & p' & Hf & He & _ & Hr);
    [done|done|lia|].
  exists r, rs', c', p'. split_and!; [done|exact He|]. intros Hpos Hrs.
  destruct (Hr Hpos) as (_ & _ & csum & Hc & ->). exists csum. eexists.
  split; [by apply tcp_hdr_load_store, tcp_hton_ok|]. rewrite Hlc, Hrc. simpl port.
  rewrite tcp_ntoh_hton; [done|]. unfold tcp_hdr_ok in *. simpl. destruct_and!.
  pose proof (ntohs_range (tcp_dport net)). pose proof (ntohs_range (tcp_sport net)). lia.
Qed.

(** The first segment. *)
Lemma input_first ip p bsize h :
  segment p bsize h → has TCP_SYN h = true →
  let c0 := Tcb (Sockaddr (ip_dst ip) (tcp_dport h)) (Sockaddr (ip_src ip) (tcp_sport h)) TCP_LISTEN 0 0 in
  ∃ r rs' c' p', tcp_fsm c0 h = (r, rs', c') ∧
    tcp_input (TcpTable [] (RbHead None ∅)) ip p bsize = Done (r, p', single c') ∧
    (0 < r → tcp_hdr_ok rs' → ∃ csum net, tcp_hdr_load p' = Done net ∧
      tcp_hdr_ntoh net = TcpHdr (tcp_dport h) (tcp_sport h) (tcp_seqno rs') (tcp_ack_num rs')
        (tcp_flags rs') (tcp_win_size rs') csum (tcp_urg_ptr rs')).
Proof.
  intros (Hp & Hl & Hb & Hsize & net & Hnet & ->) Hsyn c0.
  destruct (tcp_input_unfold (TcpTable [] (RbHead None ∅)) ip p bsize Hb Hp)
    as (net' & p1 & Hnet' & Hok & -> & Hb1 & Hl1 & ->).
  rewrite Hnet in Hnet'. apply done_inj in Hnet' as <-.
  change (ntohs (tcp_dport net)) with (tcp_dport (tcp_hdr_ntoh net)).
  change (ntohs (tcp_sport net)) with (tcp_sport (tcp_hdr_ntoh net)). cbv zeta.
  assert (Hfind : ∀ l r, tcp_find_connection (TcpTable [] (RbHead None ∅)) l r = Done None) by done.
  rewrite Hfind, bind_done, Hsyn, new_single, bind_done.
  destruct (tcp_process_spec (single c0) 0 c0 (tcb_local c0) (tcb_remote c0) (tcp_hdr_ntoh net)
    (tcp_hdr_store (tcp_hdr_ntoh net) ++ drop TCP_HDR_SIZE p)) as (r & rs' & c' & p' & Hf & He & _ & Hr);
    [done|done|lia|].
  exists r, rs', c', p'. split_and!; [done|exact He|]. intros Hpos Hrs.
  destruct (Hr Hpos) as (_ & _ & csum & Hc & ->). exists csum. eexists.
  split; [by apply tcp_hdr_load_store, tcp_hton_ok|]. simpl port.
  rewrite tcp_ntoh_hton; [done|]. unfold tcp_hdr_ok in *. simpl. destruct_and!.
  pose proof (ntohs_range (tcp_dport net)). pose proof (ntohs_range (tcp_sport net)). lia.
Qed.

Lemma segment_ok p bsize h : segment p bsize h → tcp_hdr_ok h.
Proof.
  intros (Hp & Hl & Hb & _ & net & Hnet & ->). apply tcp_ntoh_ok.
  destruct (tcp_hdr_load_done p Hp) as (net' & Hnet' & Hok); [lia|]. congruence.
Qed.

Lemma u32_range x : 0 <= u32 x < 4294967296.
Proof. unfold u32. apply Z.mod_pos_bound. lia. Qed.

Lemma tcp_reply_ok_hdr h a s :
  tcp_hdr_ok h → 0 <= a < 4294967296 → 0 <= s < 4294967296 →
  tcp_hdr_ok (tcp_reply h (Z.lor (tcp_flags h) TCP_ACK) a s).
Proof.
  intros Hok Ha Hs. unfold tcp_hdr_ok in *. simpl.
  pose proof (lor_ack_range (tcp_flags h)). lia.
Qed.

(** The reply in the buffer [q] to the segment [h]. *)
Definition replies (q : list Z) (h : tcp_hdr) (seqno ack flags : Z) : Prop :=
  ∃ net, tcp_hdr_load q = Done net ∧
    tcp_sport (tcp_hdr_ntoh net) = tcp_dport h ∧ tcp_dport (tcp_hdr_ntoh net) = tcp_sport h ∧
    tcp_seqno (tcp_hdr_ntoh net) = seqno ∧ tcp_ack_num (tcp_hdr_ntoh net) = ack ∧
    tcp_flags (tcp_hdr_ntoh net) = flags.

(** The segments of a client that connects and closes, on one port pair. *)
Record client (h1 h2 h3 h4 : tcp_hdr) : Prop := Client {
  client_ports : Forall (fun h => tcp_sport h = tcp_sport h1 ∧ tcp_dport h = tcp_dport h1) [h2; h3; h4];
  client_syn : has TCP_SYN h1 = true ∧ Forall (fun h => has TCP_SYN h = false) [h2; h3; h4];
  client_ack : has TCP_ACK h2 = true ∧ tcp_seqno h2 = u32 (tcp_seqno h1 + 1) ∧ tcp_ack_num h2 = 1;
  client_fin : has TCP_FIN h3 = true;
  client_last : has TCP_ACK h4 = true
}.

(** ** Properties *)

(** The tables that sequences of segments lead to. *)
Inductive tcp_reachable : tcp_table → Prop :=
| tcp_reach_init : tcp_reachable (TcpTable [] (RbHead None ∅))
| tcp_reach_step t ip payload bsize r p' t' :
    tcp_reachable t → 0 <= bsize <= length payload → (60 <= length payload)%nat → bytes payload →
    tcp_input t ip payload bsize = Done (r, p', t') → tcp_reachable t'.

Lemma tcp_reachable_ok t : tcp_reachable t → tcp_ok t.
Proof.
  induction 1 as [|t ip payload bsize r p' t' _ IH Hb Hl Hp He]; [apply tcp_init_ok|].
  destruct (tcp_input_spec t ip payload bsize IH Hb Hl Hp) as (r1 & p1 & t1 & He1 & Hok & _).
  congruence.
Qed.

(** C23: in every table that segments can lead to, each connection is in one of
    the four states of the server side; any further segment, valid or not, in
    any buffer that can hold a maximal header, is processed without an invalid
    access and without looping, moves connections only along SYN_RCVD,
    ESTABLISHED, LAST_ACK, CLOSED, changes no address, and adds at most one
    connection, in SYN_RCVD. *)
Theorem tcp_server_diagram t ip payload bsize :
  tcp_reachable t → 0 <= bsize <= length payload → (60 <= length payload)%nat → bytes payload →
  (∀ i c, tcp_conns t !! i = Some c → passive (tcb_state c) = true) ∧
  ∃ r p' t', tcp_input t ip payload bsize = Done (r, p', t') ∧ tcp_reachable t' ∧
    tcp_evolves t t' ∧ (length (tcp_conns t') <= S (length (tcp_conns t)))%nat.
Proof.
  intros Hr Hb Hl Hp. pose proof (tcp_reachable_ok t Hr) as Hok. split; [apply Hok|].
  destruct (tcp_input_spec t ip payload bsize Hok Hb Hl Hp) as (r & p' & t' & He & _ & Hev & _).
  exists r, p', t'. split_and!; [done|by eapply tcp_reach_step|done|].
  destruct (decide (length (tcp_conns t') = 0%nat)) as [|Hne]; [lia|].
  assert (length (tcp_conns t') - 1 < length (tcp_conns t'))%nat as [c' Hc']%lookup_lt_is_Some by lia.
  destruct (proj2 Hev _ _ Hc') as [?|[? _]]; lia.
Qed.

(** A SYN from 10.0.0.1:40000 to 10.0.0.2:80 with sequence number 100. *)
Definition sample_syn : list Z :=
  [156; 64; 0; 80; 0; 0; 0; 100; 0; 0; 0; 0; 80; 2; 16; 0; 0; 0; 0; 0] ++ repeat 0 40.

Definition sample_ip : ip_hdr := IpHdr 0x45 0 40 1 0 64 6 0 0x0A000001 0x0A000002.

Lemma tcp_server_diagram_witness :
  (∀ i c, tcp_conns (TcpTable [] (RbHead None ∅)) !! i = Some c → passive (tcb_state c) = true) ∧
  ∃ r p' t', tcp_input (TcpTable [] (RbHead None ∅)) sample_ip sample_syn 20 = Done (r, p', t') ∧
    tcp_reachable t' ∧ tcp_evolves (TcpTable [] (RbHead None ∅)) t' ∧
    (length (tcp_conns t') <= 1)%nat.
Proof.
  apply (tcp_server_diagram (TcpTable [] (RbHead None ∅)) sample_ip sample_syn 20).
  - apply tcp_reach_init.
  - change (length sample_syn) with 60%nat. lia.
  - vm_compute. lia.
  - apply (bool_decide_unpack _). vm_compute. done.
Defined.

(** Whenever [tcp_input] asks for a fast reply, the reply is a header of 20
    to 60 octets from the addressed port to the sender's port, and its
    checksum verifies over the pseudo header of the reply. *)
Theorem tcp_reply_verifies t ip payload bsize :
  tcp_reachable t → 0 <= bsize <= length payload → (60 <= length payload)%nat → bytes payload →
  ∃ r p' t', tcp_input t ip payload bsize = Done (r, p', t') ∧
    length p' = length payload ∧ (0 < r → tcp_reply_ok ip payload p' r).
Proof.
  intros Hr Hb Hl Hp.
  destruct (tcp_input_spec t ip payload bsize (tcp_reachable_ok t Hr) Hb Hl Hp)
    as (r & p' & t' & He & _ & _ & Hlen & Hrep). eauto 10.
Qed.

Lemma tcp_reply_verifies_witness :
  ∃ r p' t', tcp_input (TcpTable [] (RbHead None ∅)) sample_ip sample_syn 20 = Done (r, p', t') ∧
    length p' = length sample_syn ∧ (0 < r → tcp_reply_ok sample_ip sample_syn p' r).
Proof.
  apply (tcp_reply_verifies (TcpTable [] (RbHead None ∅)) sample_ip sample_syn 20).
  - apply tcp_reach_init.
  - change (length sample_syn) with 60%nat. lia.
  - vm_compute. lia.
  - apply (bool_decide_unpack _). vm_compute. done.
Defined.

(** A client that sends SYN, the acknowledgement of the SYN, a FIN and the
    last acknowledgement gets a SYN-ACK for its sequence number and a FIN-ACK
    for its FIN, in segments that carry the right numbers and ports, and the
    connection goes through SYN_RCVD, ESTABLISHED and LAST_ACK to CLOSED. *)
Theorem tcp_passive_connection ip p1 b1 h1 p2 b2 h2 p3 b3 h3 p4 b4 h4 :
  segment p1 b1 h1 → segment p2 b2 h2 → segment p3 b3 h3 → segment p4 b4 h4 →
  client h1 h2 h3 h4 →
  ∃ q1 q2 q3 q4 c1 c2 c3 c4,
    tcp_input (TcpTable [] (RbHead None ∅)) ip p1 b1 = Done (tcp_hdr_size h1, q1, single c1) ∧
    tcb_state c1 = TCP_SYN_RCVD ∧
    replies q1 h1 0 (u32 (tcp_seqno h1 + 1)) (Z.lor (tcp_flags h1) TCP_ACK) ∧
    tcp_input (single c1) ip p2 b2 = Done (0, q2, single c2) ∧ tcb_state c2 = TCP_ESTABLISHED ∧
    tcp_input (single c2) ip p3 b3 = Done (tcp_hdr_size h3, q3, single c3) ∧
    tcb_state c3 = TCP_LAST_ACK ∧
    replies q3 h3 1 (u32 (tcp_seqno h3 + 1)) (Z.lor (tcp_flags h3) TCP_ACK) ∧
    tcp_input (single c3) ip p4 b4 = Done (0, q4, single c4) ∧ tcb_state c4 = TCP_CLOSED.
Proof.
  intros S1 S2 S3 S4 [Hports [Hsyn1 Hsyn] (Hack2 & Hseq2 & Hnum2) Hfin Hlast].
  rewrite !Forall_cons in Hports, Hsyn.
  destruct Hports as ([Hs2 Hd2] & [Hs3 Hd3] & [Hs4 Hd4] & _), Hsyn as (Hn2 & Hn3 & Hn4 & _).
  (* SYN *)
  destruct (input_first ip p1 b1 h1 S1 Hsyn1) as (r & rs & c1 & q1 & Hf & He1 & Hrep1).
  unfold tcp_fsm in Hf. cbn [tcb_state] in Hf. rewrite Hsyn1 in Hf. injection Hf as <- <- <-.
  cbn [tcp_reply tcp_flags tcp_seqno tcp_ack_num tcp_win_size tcp_urg_ptr] in *.
  rewrite tcp_hdr_size_ack in *. pose proof S1 as (_ & _ & _ & Hpos1 & _).
  destruct (Hrep1 Hpos1) as (cs1 & n1 & Hn1 & Hr1).
  { apply tcp_reply_ok_hdr; [by eapply segment_ok|apply u32_range|lia]. }
  set (c1 := set_seq _ _ _) in *.
  (* ACK *)
  destruct (input_single ip p2 b2 h2 c1 S2) as (r & rs & c2 & q2 & Hf & He2 & _);
    [by rewrite Hd2|by rewrite Hs2|done|].
  unfold tcp_fsm in Hf. cbn [tcb_state c1 set_seq set_state send_next recv_next] in Hf.
  change (u32 (0 + 1)) with 1 in Hf. rewrite Hack2, Hseq2, Hnum2, !Z.eqb_refl in Hf.
  cbn [andb] in Hf. injection Hf as <- <- <-.
  set (c2 := set_state c1 TCP_ESTABLISHED) in *.
  (* FIN *)
  destruct (input_single ip p3 b3 h3 c2 S3) as (r & rs & c3 & q3 & Hf & He3 & Hrep3);
    [by rewrite Hd3|by rewrite Hs3|done|].
  unfold tcp_fsm in Hf. cbn [tcb_state c2 c1 set_seq set_state send_next recv_next] in Hf.
  rewrite Hfin in Hf. injection Hf as <- <- Hc3.
  cbn [tcp_reply tcp_flags tcp_seqno tcp_ack_num tcp_win_size tcp_urg_ptr] in *.
  rewrite tcp_hdr_size_ack in *. pose proof S3 as (_ & _ & _ & Hpos3 & _).
  destruct (Hrep3 Hpos3) as (cs3 & n3 & Hn3' & Hr3).
  { apply tcp_reply_ok_hdr; [by eapply segment_ok|apply u32_range|apply u32_range]. }
  assert (Hst3 : tcb_state c3 = TCP_LAST_ACK) by by rewrite <-Hc3.
  (* last ACK *)
  destruct (input_single ip p4 b4 h4 c3 S4) as (r & rs & c4 & q4 & Hf & He4 & _);
    [by rewrite <-Hc3, Hd4|by rewrite <-Hc3, Hs4|done|].
  unfold tcp_fsm in Hf. rewrite Hst3, Hlast in Hf. injection Hf as <- <- <-.
  exists q1, q2, q3, q4, c1, c2, c3, (set_state c3 TCP_CLOSED).
  split_and!; [done|done| |done|done|done|done| |done|done].
  - exists n1. by rewrite Hr1.
  - exists n3. by rewrite Hr3.
Qed.

(** A segment with the host order header [h] and no payload, in a buffer. *)
Definition make_segment (h : tcp_hdr) : list Z :=
  tcp_hdr_store (tcp_hdr_hton h) ++ repeat 0 40.

Definition client_hdr (flags seqno ack : Z) : tcp_hdr :=
  TcpHdr 40000 80 seqno ack (Z.lor 0x5000 flags) 4096 0 0.

Definition h_syn : tcp_hdr := client_hdr TCP_SYN 100 0.
Definition h_ack : tcp_hdr := client_hdr TCP_ACK 101 1.
Definition h_fin : tcp_hdr := client_hdr (Z.lor TCP_FIN TCP_ACK) 101 1.
Definition h_last : tcp_hdr := client_hdr TCP_ACK 102 2.

Definition segment_check (h : tcp_hdr) : bool :=
  bool_decide (bytes (make_segment h)) && (0 <? tcp_hdr_size h) &&
  match tcp_hdr_load (make_segment h) with
  | Done net => bool_decide (tcp_sport (tcp_hdr_ntoh net) = tcp_sport h ∧
      tcp_dport (tcp_hdr_ntoh net) = tcp_dport h ∧ tcp_seqno (tcp_hdr_ntoh net) = tcp_seqno h ∧
      tcp_ack_num (tcp_hdr_ntoh net) = tcp_ack_num h ∧ tcp_flags (tcp_hdr_ntoh net) = tcp_flags h ∧
      tcp_win_size (tcp_hdr_ntoh net) = tcp_win_size h ∧ tcp_csum (tcp_hdr_ntoh net) = tcp_csum h ∧
      tcp_urg_ptr (tcp_hdr_ntoh net) = tcp_urg_ptr h)
  | _ => false
  end.

Lemma segment_check_ok h : segment_check h = true → segment (make_segment h) 20 h.
Proof.
  unfold segment_check. intros [[Hb%bool_decide_eq_true Hs%Z.ltb_lt]%andb_true_iff Hl]%andb_true_iff.
  assert (Hlen : length (make_segment h) = 60%nat) by done.
  split_and!; [done|by rewrite Hlen|done|by rewrite Hlen|done|].
  destruct (tcp_hdr_load (make_segment h)) as [net| |]; [|done..]. exists net. split; [done|].
  apply bool_decide_eq_true in Hl. destruct h, (tcp_hdr_ntoh net). simpl in Hl. by destruct_and!; subst.
Qed.

Lemma tcp_passive_connection_witness :
  ∃ q1 q2 q3 q4 c1 c2 c3 c4,
    tcp_input (TcpTable [] (RbHead None ∅)) sample_ip (make_segment h_syn) 20 =
      Done (tcp_hdr_size h_syn, q1, single c1) ∧
    tcb_state c1 = TCP_SYN_RCVD ∧
    replies q1 h_syn 0 (u32 (tcp_seqno h_syn + 1)) (Z.lor (tcp_flags h_syn) TCP_ACK) ∧
    tcp_input (single c1) sample_ip (make_segment h_ack) 20 = Done (0, q2, single c2) ∧
    tcb_state c2 = TCP_ESTABLISHED ∧
    tcp_input (single c2) sample_ip (make_segment h_fin) 20 =
      Done (tcp_hdr_size h_fin, q3, single c3) ∧
    tcb_state c3 = TCP_LAST_ACK ∧
    replies q3 h_fin 1 (u32 (tcp_seqno h_fin + 1)) (Z.lor (tcp_flags h_fin) TCP_ACK) ∧
    tcp_input (single c3) sample_ip (make_segment h_last) 20 = Done (0, q4, single c4) ∧
    tcb_state c4 = TCP_CLOSED.
Proof.
  apply (tcp_passive_connection sample_ip (make_segment h_syn) 20 h_syn (make_segment h_ack) 20 h_ack
    (make_segment h_fin) 20 h_fin (make_segment h_last) 20 h_last).
  - apply segment_check_ok. vm_compute. done.
  - apply segment_check_ok. vm_compute. done.
  - apply segment_check_ok. vm_compute. done.
  - apply segment_check_ok. vm_compute. done.
  - split; [by repeat constructor|split; [done|by repeat constructor]|done|done|done].
Defined.

(** ** Where the table is not a table *)
Fixpoint tcp_run (t : tcp_table) (segs : list tcp_hdr) : outcome (list Z * tcp_table) :=
  match segs with
  | [] => Done ([], t)
  | h :: segs =>
      '(r, _, t) ← tcp_input t sample_ip (make_segment h) 20;
      '(rs, t) ← tcp_run t segs;
      Done (r :: rs, t)
  end.

(** [tcp_conn_cmp] adds two [memcmp] results, so two different connections can
    compare equal: the second SYN, to the next local port from the previous
    remote port, is taken for a segment of the first connection and refused. *)
Lemma tcp_connections_confused :
  fst <$> tcp_run (TcpTable [] (RbHead None ∅))
    [h_syn; TcpHdr 39999 81 500 0 0x5002 4096 0 0] = Done [20; - EINVAL].
Proof. by vm_compute. Qed.

(** A closed connection stays in the table: its port pair is refused for good. *)
Lemma tcp_closed_port_refused :
  fst <$> tcp_run (TcpTable [] (RbHead None ∅)) [h_syn; h_ack; h_fin; h_last; h_syn] =
  Done [20; 0; 20; 0; - EINVAL].
Proof. by vm_compute. Qed.

(** A SYN with a bad data offset creates a connection that waits for an
    acknowledgement although nothing was sent. *)
Lemma tcp_bad_offset_opens :
  (λ '(rs, t), (rs, tcb_state <$> tcp_conns t)) <$> tcp_run (TcpTable [] (RbHead None ∅))
    [TcpHdr 40000 80 100 0 0x4002 4096 0 0] = Done ([- EINVAL], [TCP_SYN_RCVD]).
Proof. by vm_compute. Qed.
