(* ===== verification/Icmp.v ===== *)
(** * ICMP, [src/icmp.c]

    Echo replies are made in the receive buffer; the destination unreachable
    message is built over the offending packet, which is addressed here as the
    buffer [m] from its IP header on and the offset [off] of its payload. *)

From S2P Require Import Prelude Bytes Checksum IpHeader.

#[local] Open Scope Z_scope.

(** ** Data *)

(** [struct icmp] *)
Record icmp : Type := Icmp {
  icmp_type : Z;
  icmp_code : Z;
  icmp_csum : Z;
  icmp_rest : Z
}.

Definition ICMP_SIZE : nat := 8.

(** [struct icmp_destunreac]: the ICMP header, the old IP header at offset 8
    and 8 bytes of data at offset 28. *)
Definition OLD_IP_HDR : nat := 8.
Definition DESTUNREAC_DATA : nat := 28.
Definition DESTUNREAC_SIZE : Z := 36.

Definition ICMP_TYPE_ECHO_REPLY : Z := 0.
Definition ICMP_TYPE_DESTUNREAC : Z := 3.
Definition ICMP_TYPE_ECHO_REQUEST : Z := 8.
Definition ICMP_CODE_HOSTUNREAC : Z := 1.
Definition ICMP_CODE_PROTOUNREAC : Z := 2.
Definition ICMP_CODE_PORTUNREAC : Z := 3.

Definition icmp_store (h : icmp) : list Z :=
  le_bytes 1 (icmp_type h) ++ le_bytes 1 (icmp_code h) ++ le_bytes 2 (icmp_csum h) ++
  le_bytes 4 (icmp_rest h).

Definition icmp_load (m : list Z) : outcome icmp :=
  if bool_decide (ICMP_SIZE <= length m)%nat then
    Done (Icmp (field 0 1 m) (field 1 1 m) (field 2 2 m) (field 4 4 m))
  else Fault.

(** [icmp_hton] and [icmp_ntoh] copy three fields; the third is not swapped
    because [ip_checksum] works on the bytes in memory. *)
Definition icmp_ntoh (net : icmp) : icmp := Icmp (icmp_type net) (icmp_code net) (icmp_csum net) 0.

(** ** Echo *)
Definition icmp_input (payload : list Z) (bsize : Z) : outcome (Z * list Z) :=
  if bool_decide (bsize < ICMP_SIZE) then Done (- EBADMSG, payload) else
  net_msg ← icmp_load payload;
  let hdr := icmp_ntoh net_msg in
  if bool_decide (icmp_type hdr = ICMP_TYPE_ECHO_REQUEST) then
    payload ← mem_write 0 (le_bytes 1 ICMP_TYPE_ECHO_REPLY) payload;
    payload ← mem_write 2 (le_bytes 2 0) payload;
    message ← mem_read 0 (Z.to_nat bsize) payload;
    payload ← mem_write 2 (le_bytes 2 (ip_checksum message)) payload;
    Done (bsize, payload)
  else Done (- ENOMSG, payload).

(** ** Destination unreachable *)

(** [ip_hton(host, net)] with [net] at the offset [off] of a larger buffer. *)
Definition ip_hton_at (off : nat) (host : ip_hdr) (m : list Z) : outcome (list Z) :=
  net ← ip_hton host (drop off m);
  Done (take off m ++ net).

Definition icmp_generate_dest_unreachable (m : list Z) (off : nat) (code bsize : Z)
    : outcome (Z * list Z) :=
  let bsize := Z.min 8 bsize in
  let msg_size := DESTUNREAC_SIZE + bsize in
  data ← mem_read off (Z.to_nat bsize) m;
  m ← mem_write (off + DESTUNREAC_DATA) data m;
  m ← mem_write off (icmp_store (Icmp ICMP_TYPE_DESTUNREAC code 0 0)) m;
  msg ← mem_read off (Z.to_nat msg_size) m;
  m ← mem_write (off + 2) (le_bytes 2 (ip_checksum msg)) m;
  hdr ← ip_hdr_load m;
  m ← ip_hton_at (off + OLD_IP_HDR) hdr m;
  hdr ← ip_hdr_load m;
  m ← mem_write 0 (ip_hdr_store (IpHdr IP_VHL_DEFAULT IP_TOS_DEFAULT (ip_len hdr) (ip_id hdr)
        (ip_foff hdr) (ip_ttl hdr) IP_PROTO_ICMP (ip_csum hdr) (ip_src hdr) (ip_dst hdr))) m;
  '(n, m) ← ip_reply_header m msg_size;
  Done (msg_size + n, m).

(** ** Echo replies *)

(** The bytes of an echo reply to the message [payload] of [n] bytes. *)
Definition echo_reply (payload : list Z) (n : nat) (c : Z) : list Z :=
  [ICMP_TYPE_ECHO_REPLY] ++ take 1 (drop 1 payload) ++ le_bytes 2 c ++ drop 4 payload.

Lemma echo_reply_length payload n c :
  (4 <= length payload)%nat → length (echo_reply payload n c) = length payload.
Proof. intros Hl. do 4 (destruct payload as [|? payload]; [simpl in Hl; lia|]). done. Qed.

Lemma take_echo payload n c :
  (8 <= n <= length payload)%nat →
  take n (echo_reply payload n c) =
  ([0] ++ take 1 (drop 1 payload)) ++ le_bytes 2 c ++ take (n - 4) (drop 4 payload).
Proof.
  intros Hn. do 4 (destruct payload as [|? payload]; [simpl in Hn; lia|]).
  unfold echo_reply, ICMP_TYPE_ECHO_REPLY. cbn [drop take app le_bytes].
  do 4 (destruct n as [|n]; [lia|]). cbn [take]. do 4 f_equal. f_equal. lia.
Qed.

Lemma icmp_echo_spec payload n rest :
  bytes payload → (8 <= n <= length payload)%nat → payload = 8 :: rest →
  ∃ c, icmp_input payload n = Done (Z.of_nat n, echo_reply payload n c) ∧
    ip_checksum (take n (echo_reply payload n c)) = 0.
Proof.
  intros Hp Hn Hty. unfold icmp_input.
  rewrite bool_decide_false by (unfold ICMP_SIZE; lia).
  unfold icmp_load. rewrite bool_decide_true by (unfold ICMP_SIZE; lia). rewrite bind_done.
  assert (Ht : icmp_type (icmp_ntoh (Icmp (field 0 1 payload) (field 1 1 payload)
    (field 2 2 payload) (field 4 4 payload))) = 8) by by rewrite Hty.
  rewrite Ht, bool_decide_true by done. clear Ht.
  rewrite mem_write_ok by (simpl; lia). rewrite bind_done.
  assert (H1 : take 0 payload ++ le_bytes 1 ICMP_TYPE_ECHO_REPLY ++
    drop (0 + length (le_bytes 1 ICMP_TYPE_ECHO_REPLY)) payload = 0 :: drop 1 payload) by done.
  rewrite H1. clear H1.
  assert (Hl : ∀ x : list Z, length x = 2%nat →
    mem_write 2 x (0 :: drop 1 payload) =
    Done ([0] ++ take 1 (drop 1 payload) ++ x ++ drop 4 payload)).
  { intros x Hx. rewrite mem_write_ok by (simpl; rewrite length_drop; lia). rewrite Hx. f_equal.
    do 4 (destruct payload as [|? payload]; [simpl in Hn; lia|]). done. }
  rewrite Hl by done. rewrite bind_done.
  change ([0] ++ take 1 (drop 1 payload) ++ le_bytes 2 0 ++ drop 4 payload)
    with (echo_reply payload n 0).
  assert (Hlen : ∀ c, length (echo_reply payload n c) = length payload)
    by (intros c; apply echo_reply_length; lia).
  rewrite mem_read_ok by (rewrite Hlen; lia). rewrite bind_done, drop_0, Nat2Z.id.
  set (c := ip_checksum (take n (echo_reply payload n 0))). exists c.
  assert (Hw : mem_write 2 (le_bytes 2 c) (echo_reply payload n 0) = Done (echo_reply payload n c)).
  { rewrite mem_write_ok by (rewrite Hlen, le_bytes_length; lia). f_equal.
    do 4 (destruct payload as [|? payload]; [simpl in Hn; lia|]). done. }
  rewrite Hw, bind_done. split; [done|].
  rewrite take_echo by done. unfold c. rewrite take_echo by done.
  apply checksum_field_verifies.
  - apply Forall_app_2; [by repeat constructor|]. by apply Forall_take, Forall_drop.
  - by apply Forall_take, Forall_drop.
  - do 2 (destruct payload as [|? payload]; [simpl in Hn; lia|]). done.
Qed.

(** ** Destination unreachable *)

Definition unreachable_hdr (h : ip_hdr) : ip_hdr :=
  IpHdr IP_VHL_DEFAULT IP_TOS_DEFAULT (ip_len h) (ip_id h) (ip_foff h) (ip_ttl h) IP_PROTO_ICMP
    (ip_csum h) (ip_src h) (ip_dst h).

(** The four writes at the start of the message: data, ICMP header, checksum. *)
Lemma unreachable_body s p code (k : nat) :
  length s = 20%nat → (k <= 8)%nat → (44 <= length p)%nat →
  ∃ c d x rest, d = take k p ∧ rest = drop (28 + k) p ∧ length x = 20%nat ∧
    x = drop 8 (take 28 p) ∧
    ∀ B (K : list Z → outcome B),
    (data ← mem_read 20 k (s ++ p);
     m ← mem_write (20 + DESTUNREAC_DATA) data (s ++ p);
     m ← mem_write 20 (icmp_store (Icmp ICMP_TYPE_DESTUNREAC code 0 0)) m;
     msg ← mem_read 20 (Z.to_nat (DESTUNREAC_SIZE + k)) m;
     m ← mem_write (20 + 2) (le_bytes 2 (ip_checksum msg)) m;
     K m) =
    K (s ++ icmp_store (Icmp 3 code c 0) ++ x ++ d ++ rest).
Proof.
  intros Hs Hk Hl. set (d := take k p). set (rest := drop (28 + k) p). set (x := drop 8 (take 28 p)).
  assert (Hd : length d = k) by (unfold d; rewrite length_take; lia).
  assert (Hx : length x = 20%nat) by (unfold x; rewrite length_drop, length_take; lia).
  assert (H1 : mem_read 20 k (s ++ p) = Done d).
  { rewrite <-(take_drop k p) at 1. by apply mem_read_mid. }
  assert (H2 : mem_write (20 + DESTUNREAC_DATA) d (s ++ p) = Done (s ++ take 8 p ++ x ++ d ++ rest)).
  { assert (s ++ p = (s ++ take 28 p) ++ take k (drop 28 p) ++ rest) as ->.
    { unfold rest. by rewrite <-drop_drop, <-app_assoc, take_drop, take_drop. }
    rewrite mem_write_mid; [|by rewrite length_app, Hs, length_take, Nat.min_l by lia|].
    2:{ rewrite length_take, length_drop, Hd. lia. }
    unfold x. rewrite <-(take_drop 8 (take 28 p)) at 1. rewrite take_take, <-!app_assoc. done. }
  assert (H3 : mem_write 20 (icmp_store (Icmp ICMP_TYPE_DESTUNREAC code 0 0)) (s ++ take 8 p ++ x ++ d ++ rest)
    = Done (s ++ icmp_store (Icmp ICMP_TYPE_DESTUNREAC code 0 0) ++ x ++ d ++ rest)).
  { apply mem_write_mid; [done|]. rewrite length_take. change (length (icmp_store _)) with 8%nat. lia. }
  assert (Hlen : length (s ++ icmp_store (Icmp ICMP_TYPE_DESTUNREAC code 0 0) ++ x ++ d ++ rest) =
    (20 + length p)%nat).
  { rewrite !length_app, Hs, Hd, Hx. unfold rest. rewrite length_drop.
    change (length (icmp_store _)) with 8%nat. lia. }
  assert (H4 : ∃ msg, mem_read 20 (Z.to_nat (DESTUNREAC_SIZE + k))
    (s ++ icmp_store (Icmp ICMP_TYPE_DESTUNREAC code 0 0) ++ x ++ d ++ rest) = Done msg).
  { eexists. apply mem_read_ok. rewrite Hlen. unfold DESTUNREAC_SIZE. lia. }
  destruct H4 as [msg H4]. set (c := ip_checksum msg).
  assert (H5 : mem_write (20 + 2) (le_bytes 2 c)
    (s ++ icmp_store (Icmp ICMP_TYPE_DESTUNREAC code 0 0) ++ x ++ d ++ rest) =
    Done (s ++ icmp_store (Icmp 3 code c 0) ++ x ++ d ++ rest)).
  { change (s ++ icmp_store (Icmp ICMP_TYPE_DESTUNREAC code 0 0) ++ x ++ d ++ rest)
      with (s ++ (le_bytes 1 3 ++ le_bytes 1 code) ++ [0; 0] ++ le_bytes 4 0 ++ x ++ d ++ rest).
    rewrite (app_assoc s). rewrite mem_write_mid; [by rewrite <-app_assoc| |done].
    rewrite length_app, Hs. done. }
  exists c, d, x, rest. split_and!; try done. intros B K.
  rewrite H1, bind_done, H2, bind_done, H3, bind_done, H4, bind_done. fold c. by rewrite H5, bind_done.
Qed.

(** The message over a packet without options: the pieces of the buffer after
    the call. *)
Lemma icmp_unreachable_done h p code (k : nat) :
  ip_hdr_ok h → bytes p → ip_hdr_hlen h = 20 → (k <= 8)%nat → (44 <= length p)%nat →
  ∃ c c' c'',
    let r := hdr_hton (reply_hdr (unreachable_hdr h) (56 + k)) in
    icmp_generate_dest_unreachable (ip_hdr_store h ++ p) 20 code k =
      Done (92 + 2 * k, ip_hdr_store (set_csum c'' r) ++ icmp_store (Icmp 3 code c 0) ++
        ip_hdr_store (set_csum c' (hdr_hton h)) ++ take k p ++ drop (28 + k) p) ∧
    ip_checksum (ip_hdr_store (set_csum c' (hdr_hton h))) = 0 ∧
    ip_checksum (ip_hdr_store (set_csum c'' r)) = 0.
Proof.
  intros Hok Hp Hh Hk Hl. unfold icmp_generate_dest_unreachable.
  replace (Z.min 8 k) with (k : Z) by lia. rewrite Nat2Z.id.
  destruct (unreachable_body (ip_hdr_store h) p code k) as (c & d & x & rest & -> & -> & Hx & Hxe & Hbody);
    [done|done|done|].
  assert (Hbx : bytes x) by (subst x; by apply Forall_drop, Forall_take).
  set (d := take k p) in *. set (rest := drop (28 + k) p) in *.
  assert (Hbr : bytes (d ++ rest)) by (apply Forall_app_2; [by apply Forall_take|by apply Forall_drop]).
  assert (Hload : ∀ c, ip_hdr_load (ip_hdr_store h ++ icmp_store (Icmp 3 code c 0) ++ x ++ d ++ rest) = Done h).
  { intros c0. by apply ip_hdr_load_store. }
  destruct (ip_hton_plain h (x ++ d ++ rest)) as (c' & Hc' & Hton & Hz');
    [by apply Forall_app_2|done|rewrite length_app; lia|].
  rewrite drop_app_exact in Hton by done.
  set (old := ip_hdr_store (set_csum c' (hdr_hton h))) in *.
  set (r := reply_hdr (unreachable_hdr h) (56 + k)).
  set (tail := icmp_store (Icmp 3 code c 0) ++ old ++ d ++ rest).
  destruct (ip_hton_plain r (ip_hdr_store (unreachable_hdr h) ++ tail)) as (c'' & Hc'' & Hton' & Hz'').
  { apply Forall_app_2; [apply ip_hdr_store_bytes|]. unfold tail, old, icmp_store.
    repeat apply Forall_app_2; auto with bytes; by apply Forall_take || by apply Forall_drop. }
  { done. }
  { rewrite length_app. change (length (ip_hdr_store (unreachable_hdr h))) with 20%nat. lia. }
  exists c, c', c''. cbv zeta. split; [|done].
  rewrite Hbody, Hload, bind_done. unfold ip_hton_at.
  assert (Hsp : ip_hdr_store h ++ icmp_store (Icmp 3 code c 0) ++ x ++ d ++ rest =
    (ip_hdr_store h ++ icmp_store (Icmp 3 code c 0)) ++ x ++ d ++ rest) by by rewrite <-app_assoc.
  rewrite Hsp, drop_app_exact, take_app_exact by done. rewrite Hton, !bind_done.
  rewrite <-app_assoc. fold tail.
  rewrite ip_hdr_load_store, bind_done by done. fold (unreachable_hdr h).
  rewrite mem_write_hdr, bind_done by (rewrite length_app; change (length (ip_hdr_store h)) with 20%nat;
    unfold IP_HDR_SIZE; lia).
  assert (Hd : drop IP_HDR_SIZE (ip_hdr_store h ++ tail) = tail) by by apply drop_app_exact.
  rewrite Hd, (ip_reply_header_done _ (unreachable_hdr h)).
  2:{ apply ip_hdr_load_store. unfold ip_hdr_ok in *. simpl. destruct_and!. split_and!; done || lia. }
  2:{ rewrite length_app. change (length (ip_hdr_store (unreachable_hdr h))) with 20%nat.
      change (ip_hdr_hlen (unreachable_hdr h)) with 20. lia. }
  change (ip_hdr_hlen (unreachable_hdr h)) with 20. unfold DESTUNREAC_SIZE.
  replace (u64 (36 + k + 20)) with (56 + k) by (unfold u64; rewrite Z.mod_small; lia).
  fold r. rewrite Hton', !bind_done, drop_app_exact by done. do 2 f_equal. lia.
Qed.

(** ** Properties *)

(** [icmp_input] on every branch: a message shorter than the ICMP header is
    refused with [EBADMSG], a message that is no echo request with [ENOMSG],
    both without changing the buffer; an echo request of [n] bytes becomes an
    echo reply of [n] bytes that differs from it in the type and the checksum
    only, and whose checksum verifies. *)
Theorem icmp_input_correct payload (n : nat) :
  bytes payload → (n <= length payload)%nat →
  ((n < 8)%nat → icmp_input payload n = Done (- EBADMSG, payload)) ∧
  ((8 <= n)%nat → head payload ≠ Some 8 → icmp_input payload n = Done (- ENOMSG, payload)) ∧
  ((8 <= n)%nat → head payload = Some 8 →
   ∃ c, icmp_input payload n = Done (Z.of_nat n, echo_reply payload n c) ∧
     ip_checksum (take n (echo_reply payload n c)) = 0).
Proof.
  intros Hp Hn. split_and!.
  - intros Hs. unfold icmp_input. rewrite bool_decide_true by (unfold ICMP_SIZE; lia). done.
  - intros Hs Hty. destruct payload as [|ty rest]; [simpl in Hn; lia|].
    apply Forall_cons in Hp as Hp'. destruct Hp' as [Hb _]. unfold is_byte in Hb.
    unfold icmp_input. rewrite bool_decide_false by (unfold ICMP_SIZE; lia).
    unfold icmp_load. rewrite bool_decide_true by (unfold ICMP_SIZE; lia). rewrite bind_done.
    rewrite bool_decide_false; [done|]. unfold ICMP_TYPE_ECHO_REQUEST, field. simpl.
    intros Heq. apply Hty. simpl. f_equal. lia.
  - intros Hs Hty. destruct payload as [|ty rest]; [done|]. injection Hty as ->.
    by eapply icmp_echo_spec.
Qed.

Definition sample_echo : list Z := [8; 0; 0xf7; 0xfd; 0; 1; 0; 1; 42].

Lemma icmp_input_correct_witness :
  ((9 < 8)%nat → icmp_input sample_echo 9%nat = Done (- EBADMSG, sample_echo)) ∧
  ((8 <= 9)%nat → head sample_echo ≠ Some 8 → icmp_input sample_echo 9%nat = Done (- ENOMSG, sample_echo)) ∧
  ((8 <= 9)%nat → head sample_echo = Some 8 →
   ∃ c, icmp_input sample_echo 9%nat = Done (9, echo_reply sample_echo 9 c) ∧
     ip_checksum (take 9 (echo_reply sample_echo 9 c)) = 0).
Proof.
  apply (icmp_input_correct sample_echo 9).
  - apply (bool_decide_unpack _). vm_compute. done.
  - simpl. lia.
Defined.

(** Over a packet without options, [icmp_generate_dest_unreachable] leaves
    a packet back to the sender (addresses exchanged, total length 56 plus the
    quoted bytes, header checksum verifying) that carries the type, the code,
    the offending header in network order (verifying as well) and the first
    bytes of the offending payload, and keeps the rest of the buffer; the
    return value counts the message twice. *)
Theorem icmp_unreachable_layout h p code (k : nat) :
  ip_hdr_ok h → bytes p → ip_hdr_hlen h = 20 → (k <= 8)%nat → (44 <= length p)%nat →
  ∃ c c' c'',
    let r := hdr_hton (reply_hdr (unreachable_hdr h) (56 + k)) in
    icmp_generate_dest_unreachable (ip_hdr_store h ++ p) 20 code k =
      Done (92 + 2 * k, ip_hdr_store (set_csum c'' r) ++ icmp_store (Icmp 3 code c 0) ++
        ip_hdr_store (set_csum c' (hdr_hton h)) ++ take k p ++ drop (28 + k) p) ∧
    ip_checksum (ip_hdr_store (set_csum c' (hdr_hton h))) = 0 ∧
    ip_checksum (ip_hdr_store (set_csum c'' r)) = 0.
Proof. apply icmp_unreachable_done. Qed.

Definition sample_payload : list Z := [1; 2; 3; 4; 5; 6; 7; 8; 9] ++ repeat 0 35.

Lemma icmp_unreachable_layout_witness :
  ∃ c c' c'',
    let r := hdr_hton (reply_hdr (unreachable_hdr sample_hdr) 64) in
    icmp_generate_dest_unreachable (ip_hdr_store sample_hdr ++ sample_payload) 20 3 8%nat =
      Done (108, ip_hdr_store (set_csum c'' r) ++ icmp_store (Icmp 3 3 c 0) ++
        ip_hdr_store (set_csum c' (hdr_hton sample_hdr)) ++ take 8 sample_payload ++
        drop 36 sample_payload) ∧
    ip_checksum (ip_hdr_store (set_csum c' (hdr_hton sample_hdr))) = 0 ∧
    ip_checksum (ip_hdr_store (set_csum c'' r)) = 0.
Proof.
  apply (icmp_unreachable_layout sample_hdr sample_payload 3 8).
  - apply sample_hdr_ok.
  - apply (bool_decide_unpack _). vm_compute. done.
  - done.
  - lia.
  - vm_compute. lia.
Defined.

(** The checksum of the message is computed before the old header is written,
    over the payload bytes that it replaces: it does not verify over the message
    that is sent, unless those bytes happen to sum to zero. *)
Lemma icmp_unreachable_checksum_stale :
  (λ '(_, m), bool_decide (ip_checksum (take 44 (drop 20 m)) = 0)) <$>
    icmp_generate_dest_unreachable (ip_hdr_store sample_hdr ++ sample_payload) 20 3 8 = Done false.
Proof. by vm_compute. Qed.
