(* ===== verification/IpDefer.v ===== *)
(** * Deferred transmissions, the ring of [src/ip_defer.c]

    Packets that wait for an ARP reply.  The ring is a static array with a read
    and a write index; its arithmetic is that of the queue of [QueueR].  The
    handler that sends the deferred packets calls [ip_send] and is in
    [Output]. *)

From S2P Require Import Prelude Bytes QueueR.

#[local] Open Scope Z_scope.

(** ** Data *)
Definition XSTACK_IP_DEFER_MAX : Z := 20.

(** The buffer of a slot has [ETHER_ALEN] bytes. *)
Definition DEFER_BUF : Z := 6.

(** [struct ip_defer] *)
Record ip_defer : Type := IpDefer {
  tries : Z;
  dst : Z;
  proto : Z;
  buf_size : Z;
  buf : list Z
}.

Record defer_state : Type := DeferState {
  defer_inhibit : bool;
  ip_defer_queue : list ip_defer;
  q_rd : Z;
  q_wr : Z
}.

Definition zero_slot : ip_defer := IpDefer 0 0 0 0 (repeat 0 6).

(** Zero-initialised static storage. *)
Definition defer_init : defer_state :=
  DeferState false (repeat zero_slot (Z.to_nat XSTACK_IP_DEFER_MAX)) 0 0.

Definition set_slot (st : defer_state) (i : Z) (s : ip_defer) : defer_state :=
  DeferState (defer_inhibit st) (<[Z.to_nat i := s]> (ip_defer_queue st)) (q_rd st) (q_wr st).

Definition set_inhibit (b : bool) (st : defer_state) : defer_state :=
  DeferState b (ip_defer_queue st) (q_rd st) (q_wr st).

(** ** Operations *)

(** [ip_defer_push(dst, proto, buf, bsize)] with the memory [mem] at [buf]. *)
Definition ip_defer_push (st : defer_state) (a p : Z) (mem : list Z) (bsize : Z)
    : outcome (Z * defer_state) :=
  let next := u64 (q_wr st + 1) mod XSTACK_IP_DEFER_MAX in
  if defer_inhibit st then Done (- EALREADY, st) else
  if bool_decide (next = q_rd st) then Done (- ENOBUFS, st) else
  slot ← deref (ip_defer_queue st !! Z.to_nat (q_wr st));
  if bool_decide (bsize > DEFER_BUF) then Done (- EMSGSIZE, st) else
  data ← mem_read 0 (Z.to_nat bsize) mem;
  bytes ← mem_write 0 data (buf slot);
  let st := set_slot st (q_wr st) (IpDefer 0 a p (buf_size slot) bytes) in
  Done (0, DeferState (defer_inhibit st) (ip_defer_queue st) (q_rd st) next).

(** The index of the oldest slot, which the caller accesses in place. *)
Definition ip_defer_peek (st : defer_state) : option Z :=
  if bool_decide (q_rd st = q_wr st) then None else Some (q_rd st).

Definition ip_defer_drop (st : defer_state) : defer_state :=
  if bool_decide (q_rd st = q_wr st) then st
  else DeferState (defer_inhibit st) (ip_defer_queue st)
         (u64 (q_rd st + 1) mod XSTACK_IP_DEFER_MAX) (q_wr st).

(** ** The ring as a queue of [QueueR] *)
Definition ring (st : defer_state) : queue_cb :=
  QueueCb 1 XSTACK_IP_DEFER_MAX (q_wr st) (q_rd st).

(** What a waiting packet is: destination, protocol, data. *)
Definition packet : Type := Z * Z * list Z.

Definition slot_holds (s : ip_defer) (p : packet) : Prop :=
  dst s = p.1.1 ∧ proto s = p.1.2 ∧ take (length p.2) (buf s) = p.2 ∧ tries s = 0.

Definition defer_holds (st : defer_state) (ps : list packet) : Prop :=
  queue_ok (ring st) ∧ length (ip_defer_queue st) = 20%nat ∧
  Forall (fun s => length (buf s) = 6%nat) (ip_defer_queue st) ∧
  Forall2 (fun k p => ∃ s, ip_defer_queue st !! Z.to_nat k = Some s ∧ slot_holds s p)
    (occupied (ring st)) ps.

Lemma ring_next st x :
  next_index (ring st) x = Done (u64 (x + 1) mod XSTACK_IP_DEFER_MAX).
Proof. done. Qed.

Lemma defer_holds_length st ps : defer_holds st ps → queue_len (ring st) = length ps.
Proof.
  intros (Hok & _ & _ & Hf). apply Forall2_length in Hf. rewrite <-Hf.
  symmetry. by apply occupied_length.
Qed.

Lemma defer_init_holds : defer_holds defer_init [].
Proof.
  assert (Hok : queue_ok (ring defer_init)) by done. split; [done|].
  rewrite (proj2 (occupied_nil_iff _ Hok)) by done. split_and!; [done| |done].
  repeat (apply Forall_cons_2 || apply Forall_nil_2); done.
Qed.

Lemma Forall2_impl_in {A B} (P Q : A → B → Prop) l k :
  Forall2 P l k → (∀ x y, x ∈ l → P x y → Q x y) → Forall2 Q l k.
Proof.
  induction 1 as [|x y l k Hxy _ IH]; intros HPQ; constructor.
  - apply HPQ; [left|done].
  - apply IH. intros. apply HPQ; [by right|done].
Qed.

(** The outcome of a push on [ps] waiting packets. *)
Definition push_result (inhibit : bool) (ps : list packet) (data : list Z) : Z :=
  if inhibit then - EALREADY
  else if bool_decide (length ps = 19%nat) then - ENOBUFS
  else if bool_decide (6 < length data)%nat then - EMSGSIZE else 0.

Lemma push_spec st ps a p data :
  defer_holds st ps →
  ∃ st', let r := push_result (defer_inhibit st) ps data in
    ip_defer_push st a p data (length data) = Done (r, st') ∧ defer_inhibit st' = defer_inhibit st ∧
    defer_holds st' (if bool_decide (r = 0) then ps ++ [(a, p, data)] else ps).
Proof.
  intros Hh. pose proof (defer_holds_length st ps Hh) as Hlen. pose proof Hh as (Hok & Hl & Hb & Hf).
  unfold push_result, ip_defer_push. destruct (defer_inhibit st) eqn:Hi; [by exists st|].
  destruct (commit_ok _ Hok) as (w & _ & Hn & Hok'). simpl in Hn.
  pose proof (full_iff _ _ Hok Hn) as Hfull. simpl in Hfull. rewrite ring_next in Hn.
  apply done_inj in Hn. rewrite Hn. rewrite Hlen in Hfull.
  case_bool_decide as Hr.
  { rewrite (bool_decide_true (length ps = 19%nat)) by (apply Hfull in Hr; unfold XSTACK_IP_DEFER_MAX in Hr; lia).
    by exists st. }
  assert (Hnf : length ps ≠ 19%nat).
  { intros E. apply Hr. apply (proj2 Hfull). rewrite E. done. }
  rewrite (bool_decide_false (length ps = 19%nat)) by done.
  assert (Hm : 0 <= q_wr st < 20) by (unfold queue_ok in Hok; destruct_and!; done).
  destruct (lookup_lt_is_Some_2 (ip_defer_queue st) (Z.to_nat (q_wr st)) ltac:(lia)) as [s Hs].
  rewrite Hs. cbn [deref]. rewrite bind_done.
  rewrite (bool_decide_ext (length data > DEFER_BUF) (6 < length data)%nat) by (unfold DEFER_BUF; lia).
  case_bool_decide as Hd; [by exists st|]. rewrite Nat2Z.id, mem_read_ok, bind_done, drop_0, firstn_all by lia.
  assert (Hsb : length (buf s) = 6%nat) by (rewrite Forall_lookup in Hb; by apply (Hb (Z.to_nat (q_wr st)))).
  rewrite mem_write_ok by lia. rewrite bind_done, take_0, app_nil_l. eexists. split; [done|]. split; [done|].
  assert (Hocc := occupied_commit (ring st) w Hok). rewrite ring_next in Hocc.
  split_and!; simpl.
  - done.
  - by rewrite length_insert.
  - apply Forall_insert; [done|]. simpl. rewrite length_app, length_drop. lia.
  - change (ring _) with (set_m_write w (ring st)). rewrite Hocc; [|by f_equal|done].
    apply Forall2_app.
    + apply (Forall2_impl_in _ _ _ _ Hf). intros k d Hk (s' & Hs' & Hh').
      exists s'. split; [|done]. rewrite list_lookup_insert_ne; [done|].
      pose proof (occupied_range _ _ Hok Hk). pose proof (write_slot_free _ Hok) as Hfree.
      simpl in Hfree. intros E. assert (k = q_wr st) by lia. by subst.
    + constructor; [|constructor]. eexists. split; [apply list_lookup_insert_eq; simpl; lia|].
      split_and!; [done|done| |done]. simpl. by apply take_app_exact.
Qed.

Lemma peek_spec st ps :
  defer_holds st ps →
  match ps with
  | [] => ip_defer_peek st = None
  | p :: _ => ∃ s, ip_defer_peek st = Some (q_rd st) ∧
      ip_defer_queue st !! Z.to_nat (q_rd st) = Some s ∧ slot_holds s p
  end.
Proof.
  intros (Hok & Hl & Hb & Hf). unfold ip_defer_peek. case_bool_decide as He.
  - rewrite (proj2 (occupied_nil_iff _ Hok)) in Hf by done. by inversion Hf.
  - rewrite (occupied_advance (ring st) _ Hok eq_refl) in Hf by done.
    inversion Hf as [|? ? ? ? (s & Hs & Hh)]. subst. by exists s.
Qed.

Lemma drop_spec st ps :
  defer_holds st ps →
  defer_holds (ip_defer_drop st) (tail ps) ∧ defer_inhibit (ip_defer_drop st) = defer_inhibit st.
Proof.
  intros Hh. pose proof Hh as (Hok & Hl & Hb & Hf). unfold ip_defer_drop. case_bool_decide as He.
  - pose proof Hf as Hf'. rewrite (proj2 (occupied_nil_iff _ Hok)) in Hf' by done.
    inversion Hf'. by subst.
  - rewrite (occupied_advance (ring st) _ Hok eq_refl) in Hf by done.
    inversion Hf as [|? ? ? ? _ Hf']. subst. split; [|done]. split; [|done].
    apply (read_ok (ring st) _ Hok eq_refl).
Qed.

(** ** Sessions *)
Inductive defer_op : Type :=
| DPush (a p : Z) (data : list Z)
| DPeek
| DDrop.

Inductive defer_answer : Type :=
| APush (r : Z)
| APeek (o : option ip_defer)
| ADrop.

Definition defer_step (st : defer_state) (o : defer_op) : outcome (defer_answer * defer_state) :=
  match o with
  | DPush a p data => '(r, st) ← ip_defer_push st a p data (length data); Done (APush r, st)
  | DPeek =>
      match ip_defer_peek st with
      | None => Done (APeek None, st)
      | Some i => s ← deref (ip_defer_queue st !! Z.to_nat i); Done (APeek (Some s), st)
      end
  | DDrop => Done (ADrop, ip_defer_drop st)
  end.

Fixpoint defer_run (st : defer_state) (ops : list defer_op) : outcome (list defer_answer) :=
  match ops with
  | [] => Done []
  | o :: ops => '(a, st) ← defer_step st o; l ← defer_run st ops; Done (a :: l)
  end.

(** The promise: a FIFO of at most 19 packets of at most 6 bytes. *)
Definition fifo_step (ps : list packet) (o : defer_op) : list packet :=
  match o with
  | DPush a p data => if bool_decide (push_result false ps data = 0) then ps ++ [(a, p, data)] else ps
  | DPeek => ps
  | DDrop => tail ps
  end.

Definition fifo_answer (ps : list packet) (o : defer_op) (a : defer_answer) : Prop :=
  match o, a with
  | DPush _ _ data, APush r => r = push_result false ps data
  | DPeek, APeek None => ps = []
  | DPeek, APeek (Some s) => ∃ p, head ps = Some p ∧ slot_holds s p
  | DDrop, ADrop => True
  | _, _ => False
  end.

Fixpoint fifo_answers (ps : list packet) (ops : list defer_op) (l : list defer_answer) : Prop :=
  match ops, l with
  | [], [] => True
  | o :: ops, a :: l => fifo_answer ps o a ∧ fifo_answers (fifo_step ps o) ops l
  | _, _ => False
  end.

Lemma defer_step_spec st ps o :
  defer_holds st ps → defer_inhibit st = false →
  ∃ a st', defer_step st o = Done (a, st') ∧ fifo_answer ps o a ∧
    defer_holds st' (fifo_step ps o) ∧ defer_inhibit st' = false.
Proof.
  intros Hh Hi. destruct o as [a p data| |]; cbn [defer_step fifo_answer fifo_step].
  - destruct (push_spec st ps a p data Hh) as (st' & Hp & Hi' & Hh'). rewrite Hi in *.
    rewrite Hp, bind_done. by eexists _, _.
  - pose proof (peek_spec st ps Hh) as Hp. destruct ps as [|p ps].
    + rewrite Hp. by eexists _, _.
    + destruct Hp as (s & -> & Hs & Hsh). rewrite Hs. cbn [deref]. rewrite bind_done.
      eexists _, _. split; [done|]. split; [by exists p|done].
  - destruct (drop_spec st ps Hh) as [Hd Hi']. eexists _, _. split; [done|]. by rewrite Hi'.
Qed.

Lemma defer_run_spec ops st ps :
  defer_holds st ps → defer_inhibit st = false →
  ∃ l, defer_run st ops = Done l ∧ fifo_answers ps ops l.
Proof.
  revert st ps. induction ops as [|o ops IH]; intros st ps Hh Hi; [by exists []|].
  destruct (defer_step_spec st ps o Hh Hi) as (a & st' & Hs & Ha & Hh' & Hi').
  destruct (IH st' _ Hh' Hi') as (l & Hl & Hal). exists (a :: l). cbn [defer_run].
  by rewrite Hs, bind_done, Hl.
Qed.

(** The ring of deferred packets is a FIFO: as long as the handler has not
    run, every sequence of pushes, peeks and drops returns, a push is refused
    exactly when 19 packets wait ([-ENOBUFS]) or the data do not fit the slot
    ([-EMSGSIZE]), and a peek sees the destination, the protocol and the data
    of the oldest packet that was not dropped. *)
Theorem defer_refines_fifo ops :
  ∃ l, defer_run defer_init ops = Done l ∧ fifo_answers [] ops l.
Proof. apply defer_run_spec; [apply defer_init_holds|done]. Qed.

(** No push records the size of its data, so the handler sends 0 bytes. *)
Lemma defer_size_lost st a p mem bsize st' :
  Forall (fun s => buf_size s = 0) (ip_defer_queue st) →
  ip_defer_push st a p mem bsize = Done (0, st') →
  Forall (fun s => buf_size s = 0) (ip_defer_queue st').
Proof.
  intros Hz. unfold ip_defer_push. destruct (defer_inhibit st); [done|].
  case_tests; intros H; inv_done; simplify_eq. simpl.
  apply Forall_insert; [done|]. simpl. rewrite Forall_lookup in Hz. by eapply Hz.
Qed.
