(* ===== verification/Ether.v ===== *)
(** * Ethernet frames, [src/linux/linux_ether.c] and [src/ether.c]

    How [ether_send] lays a frame out and how [ether_receive] takes one apart;
    what the kernel does with the frames is in the [Kernel] interface of
    [World]. *)

From S2P Require Import Prelude Bytes EtherFcs.

#[local] Open Scope Z_scope.

(** ** Constants and data *)
Definition ETHER_ALEN : nat := 6.
Definition ETHER_HEADER_LEN : Z := 14.
Definition ETHER_DATA_LEN : Z := 1500.
Definition ETHER_FCS_LEN : Z := 4.
Definition ETHER_MINLEN : Z := 60.
Definition ETHER_MAXLEN : Z := 1514.

Definition ETHER_PROTO_IPV4 : Z := 0x0800.
Definition ETHER_PROTO_ARP : Z := 0x0806.

Definition mac_broadcast_addr : list Z := repeat 0xff 6.

(** [struct ether_hdr], the protocol in host order *)
Record ether_hdr : Type := EtherHdr {
  h_dst : list Z;
  h_src : list Z;
  h_proto : Z
}.

Definition mac_ok (m : list Z) : Prop := bytes m ∧ length m = ETHER_ALEN.

(** [max] of [xstack_util.h] works on [unsigned int]. *)
Definition umax (a b : Z) : Z := Z.max (u32 a) (u32 b).
Definition umin (a b : Z) : Z := Z.min (u32 a) (u32 b).

(** ** Sending *)
Definition frame_size (bsize : Z) : Z :=
  ETHER_HEADER_LEN + umax bsize (ETHER_MINLEN - ETHER_FCS_LEN) + ETHER_FCS_LEN.

(** The frame before its checksum: header, data and the cleared rest. *)
Definition frame_body (src dst : list Z) (proto : Z) (buf : list Z) : list Z :=
  dst ++ src ++ le_bytes 2 (htons proto) ++ buf ++
  repeat 0 (Z.to_nat (frame_size (length buf) - ETHER_HEADER_LEN - length buf - ETHER_FCS_LEN)).

(** The frame [ether_send] hands to [sendto]. *)
Definition ether_frame (src dst : list Z) (proto : Z) (buf : list Z) : list Z :=
  let body := frame_body src dst proto buf in body ++ le_bytes 4 (ether_fcs body).

(** The check that makes [ether_send] fail with [-EMSGSIZE]. *)
Definition frame_too_big (bsize : Z) : bool :=
  bool_decide (frame_size bsize > ETHER_MAXLEN + ETHER_FCS_LEN).

Definition ether_build (src dst : list Z) (proto : Z) (buf : list Z) : option (list Z) :=
  if frame_too_big (length buf) then None else Some (ether_frame src dst proto buf).

(** ** Receiving *)

(** What [recvfrom] leaves in the frame buffer of [ETHER_MAXLEN] bytes. *)
Definition rx_truncate (wire : list Z) : list Z := take (Z.to_nat ETHER_MAXLEN) wire.

(** The header and the data of the received [frame]: the return value, the
    header, and [buf] with the data copied to its start. *)
Definition ether_parse (frame buf : list Z) : outcome (Z * ether_hdr * list Z) :=
  dst ← mem_read 0 ETHER_ALEN frame;
  src ← mem_read 6 ETHER_ALEN frame;
  proto ← mem_read 12 2 frame;
  let retval := length frame - ETHER_HEADER_LEN in
  data ← mem_read 14 (Z.to_nat (umin retval (length buf))) frame;
  buf ← mem_write 0 data buf;
  Done (retval, EtherHdr dst src (ntohs (le_val proto)), buf).

(** ** Lemmas *)
Lemma frame_size_plain n :
  0 <= n < 2 ^ 32 → frame_size n = 14 + Z.max n 56 + 4.
Proof. intros Hn. unfold frame_size, umax, u32. rewrite !Z.mod_small; done. Qed.

Lemma frame_body_length src dst proto buf :
  mac_ok src → mac_ok dst → Z.of_nat (length buf) < 2 ^ 32 →
  Z.of_nat (length (frame_body src dst proto buf)) = 14 + Z.max (length buf) 56.
Proof.
  intros [_ Hs] [_ Hd] Hb. unfold frame_body. rewrite !length_app, repeat_length, Hs, Hd.
  rewrite frame_size_plain by lia. unfold ETHER_ALEN, ETHER_HEADER_LEN, ETHER_FCS_LEN.
  rewrite le_bytes_length. lia.
Qed.

Lemma frame_body_bytes src dst proto buf :
  mac_ok src → mac_ok dst → bytes buf → bytes (frame_body src dst proto buf).
Proof.
  intros [Hs _] [Hd _] Hb. unfold frame_body. repeat apply Forall_app_2; auto with bytes.
  apply Forall_forall. intros x Hx. apply list_elem_of_In, repeat_spec in Hx as ->. done.
Qed.

Lemma frame_too_big_iff n : 0 <= n < 2 ^ 32 → frame_too_big n = bool_decide (1500 < n).
Proof.
  intros Hn. unfold frame_too_big. apply bool_decide_ext.
  rewrite frame_size_plain by done. unfold ETHER_MAXLEN, ETHER_FCS_LEN. lia.
Qed.

Lemma ether_build_some src dst proto buf :
  Z.of_nat (length buf) <= 1500 → ether_build src dst proto buf = Some (ether_frame src dst proto buf).
Proof.
  intros Hb. unfold ether_build. rewrite frame_too_big_iff by lia. by rewrite bool_decide_false by lia.
Qed.

Lemma ether_build_none src dst proto buf :
  1500 < Z.of_nat (length buf) < 2 ^ 32 → ether_build src dst proto buf = None.
Proof.
  intros Hb. unfold ether_build. rewrite frame_too_big_iff by lia. by rewrite bool_decide_true by lia.
Qed.

Lemma ntohs_le_bytes_htons p : 0 <= p < 65536 → ntohs (le_val (le_bytes 2 (htons p))) = p.
Proof.
  intros Hp. rewrite le_val_le_bytes, Z.mod_small by apply htons_range. by apply ntohs_htons.
Qed.

Lemma ether_frame_length src dst proto buf :
  mac_ok src → mac_ok dst → Z.of_nat (length buf) < 2 ^ 32 →
  Z.of_nat (length (ether_frame src dst proto buf)) = 18 + Z.max (length buf) 56.
Proof.
  intros Hs Hd Hb. unfold ether_frame. rewrite length_app, le_bytes_length.
  pose proof (frame_body_length src dst proto buf Hs Hd Hb). lia.
Qed.

(** The frame as header, data and a trailer of padding and FCS. *)
Lemma ether_frame_parts src dst proto buf :
  ∃ trailer, ether_frame src dst proto buf = dst ++ src ++ le_bytes 2 (htons proto) ++ buf ++ trailer.
Proof.
  unfold ether_frame. generalize (ether_fcs (frame_body src dst proto buf)). intros fcs.
  unfold frame_body. eexists. by rewrite <-!app_assoc.
Qed.

Lemma rx_truncate_parts src dst proto buf trailer :
  mac_ok src → mac_ok dst → Z.of_nat (length buf) <= 1500 →
  ∃ trailer', rx_truncate (dst ++ src ++ le_bytes 2 (htons proto) ++ buf ++ trailer) =
    dst ++ src ++ le_bytes 2 (htons proto) ++ buf ++ trailer'.
Proof.
  intros [_ Hs] [_ Hd] Hb. set (hdr := dst ++ src ++ le_bytes 2 (htons proto)).
  exists (take (Z.to_nat ETHER_MAXLEN - 14 - length buf) trailer).
  assert (Hh : length hdr = 14%nat) by (unfold hdr; rewrite !length_app, le_bytes_length, Hs, Hd; done).
  assert (E : ∀ t, dst ++ src ++ le_bytes 2 (htons proto) ++ buf ++ t = hdr ++ buf ++ t)
    by (intros t; unfold hdr; by rewrite <-!app_assoc).
  rewrite !E. unfold rx_truncate, ETHER_MAXLEN. rewrite take_app, Hh, take_ge by lia. f_equal.
  rewrite take_app, take_ge by lia. done.
Qed.

(** Parsing a frame given by its parts. *)
Lemma ether_parse_parts dst src proto data buf :
  mac_ok src → mac_ok dst → 0 <= proto < 65536 →
  Z.of_nat (length data) < 2 ^ 32 → (length data <= length buf)%nat → Z.of_nat (length buf) < 2 ^ 32 →
  ether_parse (dst ++ src ++ le_bytes 2 (htons proto) ++ data) buf =
    Done (Z.of_nat (length data), EtherHdr dst src proto, data ++ drop (length data) buf).
Proof.
  intros [_ Hs] [_ Hd] Hp Hl Hbuf Hbuf2. unfold ether_parse, ETHER_ALEN.
  assert (Hdst : mem_read 0 6 (dst ++ src ++ le_bytes 2 (htons proto) ++ data) = Done dst)
    by by apply (mem_read_mid 0 6 []).
  rewrite Hdst, bind_done. rewrite (mem_read_mid 6 6 dst src) by done. rewrite bind_done.
  rewrite (app_assoc dst src).
  rewrite (mem_read_mid 12 2 (dst ++ src)) by (done || by rewrite length_app, Hs, Hd).
  rewrite bind_done.
  assert (Hlen : length ((dst ++ src) ++ le_bytes 2 (htons proto) ++ data) - ETHER_HEADER_LEN
    = Z.of_nat (length data)).
  { rewrite !length_app, Hs, Hd, le_bytes_length. unfold ETHER_HEADER_LEN, ETHER_ALEN. lia. }
  rewrite Hlen. assert (Hmin : umin (length data) (length buf) = length data).
  { unfold umin, u32. rewrite !Z.mod_small by lia. lia. }
  rewrite Hmin, Nat2Z.id, (app_assoc (dst ++ src)).
  assert (Hrd : mem_read 14 (length data) (((dst ++ src) ++ le_bytes 2 (htons proto)) ++ data) = Done data).
  { rewrite <-(app_nil_r data) at 2. apply mem_read_mid; [|done].
    by rewrite !length_app, Hs, Hd, le_bytes_length. }
  rewrite Hrd.
  rewrite bind_done, mem_write_ok by lia. by rewrite bind_done, ntohs_le_bytes_htons.
Qed.

(** ** Properties *)

(** [ether_send] builds a standard Ethernet II frame: for data of at most
    1500 bytes the frame is the destination, the source, the type in network
    order, the data, zero padding up to the minimum and the IEEE 802.3 FCS of
    all that, least significant byte first, between 74 and 1518 bytes long;
    larger data are refused. *)
Theorem ether_send_frames src dst proto buf :
  mac_ok src → mac_ok dst → Z.of_nat (length buf) < 2 ^ 32 →
  match ether_build src dst proto buf with
  | Some frame =>
      ∃ pad, let body := dst ++ src ++ rev (le_bytes 2 proto) ++ buf ++ repeat 0 pad in
      frame = body ++ le_bytes 4 (crc32 body) ∧
      Z.of_nat (length frame) = 18 + Z.max (length buf) 56 ∧
      74 <= Z.of_nat (length frame) <= 1518 ∧ length buf <= 1500
  | None => 1500 < length buf
  end.
Proof.
  intros Hs Hd Hb. destruct (decide (Z.of_nat (length buf) <= 1500)) as [Hle|Hgt].
  - rewrite ether_build_some by done.
    eexists. cbv zeta. pose proof (ether_frame_length src dst proto buf Hs Hd Hb) as Hlen.
    split; [|split; [exact Hlen|lia]].
    unfold ether_frame, frame_body. by rewrite ether_fcs_is_crc32, le_bytes_htons.
  - rewrite ether_build_none by lia. lia.
Qed.

Definition mac_a : list Z := [2; 0; 0; 0; 0; 1].
Definition mac_b : list Z := [2; 0; 0; 0; 0; 2].

Lemma mac_a_ok : mac_ok mac_a.
Proof. split; [|done]. repeat (apply Forall_cons_2 || apply Forall_nil_2); done. Defined.

Lemma mac_b_ok : mac_ok mac_b.
Proof. split; [|done]. repeat (apply Forall_cons_2 || apply Forall_nil_2); done. Defined.

Lemma ether_send_frames_witness :
  match ether_build mac_a mac_b ETHER_PROTO_IPV4 [1; 2; 3] with
  | Some frame =>
      ∃ pad, let body := mac_b ++ mac_a ++ [8; 0] ++ [1; 2; 3] ++ repeat 0 pad in
      frame = body ++ le_bytes 4 (crc32 body) ∧
      Z.of_nat (length frame) = 74 ∧ 74 <= Z.of_nat (length frame) <= 1518 ∧ 3 <= 1500
  | None => 1500 < 3
  end.
Proof.
  apply (ether_send_frames mac_a mac_b ETHER_PROTO_IPV4 [1; 2; 3]);
    [apply mac_a_ok|apply mac_b_ok|reflexivity].
Defined.

(** The link carries data unchanged: what [ether_send] puts on the wire,
    [ether_receive] (whose buffers cut the frame at 1514 bytes) takes apart into
    the same addresses and type and into a payload that starts with the bytes
    sent, followed by padding and what is left of the FCS. *)
Theorem ether_link_roundtrip src dst proto data frame buf :
  mac_ok src → mac_ok dst → 0 <= proto < 65536 →
  ether_build src dst proto data = Some frame → Z.of_nat (length data) < 2 ^ 32 →
  Z.of_nat (length buf) = ETHER_MAXLEN →
  ∃ n trailer, ether_parse (rx_truncate frame) buf =
      Done (n, EtherHdr dst src proto, data ++ trailer) ∧
    n = Z.min (Z.max (length data) 56 + 4) 1500 ∧
    Z.of_nat (length (data ++ trailer)) = ETHER_MAXLEN.
Proof.
  intros Hs Hd Hp Hf Hl Hbuf. unfold ETHER_MAXLEN in *.
  destruct (decide (Z.of_nat (length data) <= 1500)) as [Hle|Hgt];
    [|rewrite ether_build_none in Hf; [done|lia]].
  rewrite ether_build_some in Hf by done. injection Hf as <-.
  pose proof (ether_frame_length src dst proto data Hs Hd Hl) as Hlen.
  destruct (ether_frame_parts src dst proto data) as [tr Htr]. rewrite Htr in *.
  destruct (rx_truncate_parts src dst proto data tr Hs Hd Hle) as [tr' Htr'].
  assert (Hn : Z.of_nat (length (data ++ tr')) = Z.min (Z.max (length data) 56 + 4) 1500).
  { apply (f_equal (fun l => Z.of_nat (length l))) in Htr'. unfold rx_truncate, ETHER_MAXLEN in Htr'.
    rewrite length_take in Htr'. rewrite !length_app, !le_bytes_length in Htr'.
    rewrite !length_app, le_bytes_length in Hlen.
    destruct Hs as [_ Hs], Hd as [_ Hd]. unfold ETHER_ALEN in *. rewrite length_app. lia. }
  rewrite Htr'. rewrite ether_parse_parts by (done || lia). rewrite Hn, <-app_assoc.
  eexists _, _. split; [done|]. split; [done|].
  rewrite app_assoc, length_app, length_drop. lia.
Qed.

Lemma ether_link_roundtrip_witness :
  ∃ n trailer, ether_parse (rx_truncate (ether_frame mac_a mac_b ETHER_PROTO_ARP [1; 2; 3]))
      (repeat 0 (Z.to_nat 1514)) = Done (n, EtherHdr mac_b mac_a ETHER_PROTO_ARP, [1; 2; 3] ++ trailer) ∧
    n = 60 ∧ Z.of_nat (length ([1; 2; 3] ++ trailer)) = ETHER_MAXLEN.
Proof.
  apply (ether_link_roundtrip mac_a mac_b ETHER_PROTO_ARP [1; 2; 3] _ _);
    [apply mac_a_ok|apply mac_b_ok|done|reflexivity|reflexivity|reflexivity].
Defined.
