(* ===== verification/Arp.v ===== *)
(** * ARP, [src/arp.c]: the cache and the messages

    The cache is a static array whose entries are linked into a red-black tree
    by IP address.  Sending requests and handling incoming messages need the
    routing table and the link and are in [Output] and [Input]. *)

From S2P Require Import Prelude Bytes IpHeader RBTree RBIndex RBMap Rib Ether.

#[local] Open Scope Z_scope.

(** ** The cache *)
Definition XSTACK_ARP_CACHE_SIZE : nat := 50.
Definition ARP_CACHE_AGE_MAX : Z := 20 * 60 * 60.

(** [enum arp_cache_entry_type]; the age of a dynamic entry counts from 0. *)
Definition ARP_CACHE_FREE : Z := -2.
Definition ARP_CACHE_STATIC : Z := -1.
Definition ARP_CACHE_DYN : Z := 0.

(** [struct arp_cache_entry] *)
Record arp_cache_entry : Type := ArpEntry {
  ae_ip_addr : Z;
  ae_haddr : list Z;
  ae_age : Z
}.

Record arp_state : Type := ArpState {
  arp_cache : list arp_cache_entry;
  arp_cache_head : rb_head
}.

(** Zero-initialised static storage. *)
Definition zero_arp : arp_cache_entry := ArpEntry 0 (repeat 0 6) 0.

Definition arp_init : arp_state :=
  ArpState (repeat zero_arp XSTACK_ARP_CACHE_SIZE) (RB_INITIALIZER XSTACK_ARP_CACHE_SIZE).

Definition arp_entry (st : arp_state) (i : nat) : arp_cache_entry :=
  default zero_arp (arp_cache st !! i).

(** [return a->ip_addr - b->ip_addr] *)
Definition arp_cache_cmp (a b : Z) : Z := s32 (u32 (a - b)).

(** The loop of [arp_cache_insert] over the entries [l] from index [i] on:
    [entry] is the candidate with its age. *)
Fixpoint arp_scan (ip_addr : Z) (l : list arp_cache_entry) (i : nat) (entry : option (nat * Z))
    : option (nat * Z) :=
  match l with
  | [] => entry
  | it :: l =>
      let entry :=
        if bool_decide (ae_age it = ARP_CACHE_FREE) then Some (i, ae_age it)
        else
          match entry with
          | Some (_, age) => if bool_decide (age > ae_age it) then Some (i, ae_age it) else entry
          | None => if bool_decide (ae_age it >= 0) then Some (i, ae_age it) else entry
          end in
      if bool_decide (ae_ip_addr it = ip_addr) then Some (i, ae_age it)
      else arp_scan ip_addr l (S i) entry
  end.

Definition arp_cache_insert (st : arp_state) (ip_addr : Z) (haddr : list Z) (type : Z)
    : outcome (status * arp_state) :=
  if bool_decide (ip_addr = 0) then Done (OK, st) else
  match arp_scan ip_addr (arp_cache st) 0 None with
  | None => Done (FAIL ENOMEM, st)
  | Some (entry, age) =>
      h ← (if bool_decide (age >= 0) then RB_REMOVE (arp_cache_head st) (Some entry)
           else Done (arp_cache_head st));
      let cache := <[entry := ArpEntry ip_addr haddr type]> (arp_cache st) in
      let st := ArpState cache h in
      '(_, h) ← RB_INSERT (fun i => arp_cache_cmp ip_addr (ae_ip_addr (arp_entry st i))) h entry;
      Done (OK, ArpState cache h)
  end.

Definition arp_cache_get_entry (st : arp_state) (ip_addr : Z) : outcome ptr :=
  RB_FIND (fun i => arp_cache_cmp ip_addr (ae_ip_addr (arp_entry st i))) (arp_cache_head st).

Definition set_age (age : Z) (e : arp_cache_entry) : arp_cache_entry :=
  ArpEntry (ae_ip_addr e) (ae_haddr e) age.

(** [RB_REMOVE] dereferences the entry before it is compared with NULL. *)
Definition arp_cache_remove (st : arp_state) (ip_addr : Z) : outcome arp_state :=
  entry ← arp_cache_get_entry st ip_addr;
  h ← RB_REMOVE (arp_cache_head st) entry;
  match entry with
  | Some i => Done (ArpState (alter (set_age ARP_CACHE_FREE) i (arp_cache st)) h)
  | None => Done (ArpState (arp_cache st) h)
  end.

(** The lookup of [arp_cache_get_haddr]: the address of an entry whose age is
    not negative. *)
Definition arp_lookup (st : arp_state) (ip_addr : Z) : outcome (option (list Z)) :=
  entry ← arp_cache_get_entry st ip_addr;
  match entry with
  | None => Done None
  | Some i =>
      e ← deref (arp_cache st !! i);
      Done (if bool_decide (ae_age e >= 0) then Some (ae_haddr e) else None)
  end.

Definition age_step (delta_time : Z) (e : arp_cache_entry) : arp_cache_entry :=
  if bool_decide (ae_age e > ARP_CACHE_AGE_MAX) then set_age ARP_CACHE_FREE e
  else if bool_decide (ae_age e >= 0) then set_age (ae_age e + delta_time) e
  else e.

Definition arp_cache_update (st : arp_state) (delta_time : Z) : arp_state :=
  ArpState (age_step delta_time <$> arp_cache st) (arp_cache_head st).

(** ** Messages *)
Definition ARP_HTYPE_ETHER : Z := 1.
Definition ARP_OPER_REQUEST : Z := 1.
Definition ARP_OPER_REPLY : Z := 2.

(** [struct arp_ip] *)
Record arp_ip : Type := ArpIp {
  arp_htype : Z;
  arp_ptype : Z;
  arp_hlen : Z;
  arp_plen : Z;
  arp_oper : Z;
  arp_sha : list Z;
  arp_spa : Z;
  arp_tha : list Z;
  arp_tpa : Z
}.

Definition ARP_IP_SIZE : nat := 28.

(** The packed structure in memory. *)
Definition arp_store (m : arp_ip) : list Z :=
  le_bytes 2 (arp_htype m) ++ le_bytes 2 (arp_ptype m) ++ le_bytes 1 (arp_hlen m) ++
  le_bytes 1 (arp_plen m) ++ le_bytes 2 (arp_oper m) ++ arp_sha m ++ le_bytes 4 (arp_spa m) ++
  arp_tha m ++ le_bytes 4 (arp_tpa m).

Definition arp_load (m : list Z) : outcome arp_ip :=
  if bool_decide (ARP_IP_SIZE <= length m)%nat then
    Done {| arp_htype := field 0 2 m; arp_ptype := field 2 2 m; arp_hlen := field 4 1 m;
            arp_plen := field 5 1 m; arp_oper := field 6 2 m; arp_sha := take 6 (drop 8 m);
            arp_spa := field 14 4 m; arp_tha := take 6 (drop 18 m); arp_tpa := field 24 4 m |}
  else Fault.

Definition arp_hton (host : arp_ip) : arp_ip :=
  {| arp_htype := htons (arp_htype host); arp_ptype := htons (arp_ptype host);
     arp_hlen := arp_hlen host; arp_plen := arp_plen host; arp_oper := htons (arp_oper host);
     arp_sha := arp_sha host; arp_spa := ntohl (arp_spa host); arp_tha := arp_tha host;
     arp_tpa := ntohl (arp_tpa host) |}.

Definition arp_ntoh (net : arp_ip) : arp_ip :=
  {| arp_htype := htons (arp_htype net); arp_ptype := htons (arp_ptype net);
     arp_hlen := arp_hlen net; arp_plen := arp_plen net; arp_oper := htons (arp_oper net);
     arp_sha := arp_sha net; arp_spa := ntohl (arp_spa net); arp_tha := arp_tha net;
     arp_tpa := ntohl (arp_tpa net) |}.

(** The message of [arp_request], and of [arp_gratuitous] where [tpa] is [spa]. *)
Definition arp_request_msg (sha : list Z) (spa tpa : Z) : list Z :=
  arp_store (arp_hton (ArpIp ARP_HTYPE_ETHER ETHER_PROTO_IPV4 ETHER_ALEN 4 ARP_OPER_REQUEST
    sha spa (repeat 0 6) tpa)).

(** The reply [arp_input] writes over a request [arp_net], given the parsed
    request, the address of the interface and its hardware address. *)
Definition arp_make_reply (arp : arp_ip) (mac : list Z) (iface : Z) (arp_net : list Z)
    : outcome (list Z) :=
  net ← arp_load arp_net;
  mem_write 0 (arp_store (ArpIp (arp_htype net) (arp_ptype net) (arp_hlen net) (arp_plen net)
    (htons ARP_OPER_REPLY) mac (htonl iface) (arp_sha arp) (arp_spa net))) arp_net.

(** ** The tree of a cache that was never full *)

(** Every element is unlinked, or the root of a tree of one element. *)
Definition arp_nodes : gmap nat rb_entry := rb_nodes (RB_INITIALIZER XSTACK_ARP_CACHE_SIZE).

Definition flat (r : ptr) : rb_head := RbHead r arp_nodes.

Lemma arp_init_flat : arp_cache_head arp_init = flat None.
Proof. reflexivity. Qed.

Lemma arp_init_cache : arp_cache arp_init = zero_arp :: repeat zero_arp 49.
Proof. reflexivity. Qed.

Lemma flat_node e : (e < XSTACK_ARP_CACHE_SIZE)%nat → arp_nodes !! e = Some zero_entry.
Proof.
  intros He. unfold arp_nodes, RB_INITIALIZER. cbn [rb_nodes]. apply elem_of_list_to_map_1.
  - rewrite <-list_fmap_compose, (list_fmap_ext _ id), list_fmap_id by done. apply NoDup_seq.
  - apply list_elem_of_fmap. exists e. split; [done|]. apply elem_of_seq. lia.
Qed.

Lemma flat_fuel r : ∃ n, fuel_of (flat r) = S (S n).
Proof. eexists. vm_compute. reflexivity. Qed.

#[local] Opaque arp_nodes arp_init.

Lemma flat_remove r e : (e < XSTACK_ARP_CACHE_SIZE)%nat →
  RB_REMOVE (flat r) (Some e) = Done (flat None).
Proof. intros He. apply (remove_unlinked (flat r) e). by apply flat_node. Qed.

Lemma flat_find cmp r : (∀ e, r = Some e → (e < XSTACK_ARP_CACHE_SIZE)%nat) →
  RB_FIND cmp (flat r) =
  Done (match r with Some e => if bool_decide (cmp e = 0) then Some e else None | None => None end).
Proof.
  intros Hr. destruct r as [e|].
  - apply single_find. by apply flat_node, Hr.
  - unfold RB_FIND. destruct (flat_fuel None) as [n ->]. done.
Qed.

Lemma flat_insert cmp e : (e < XSTACK_ARP_CACHE_SIZE)%nat →
  RB_INSERT cmp (flat None) e = Done (None, flat (Some e)).
Proof.
  intros He. unfold RB_INSERT. destruct (flat_fuel None) as [n Hn]. rewrite Hn.
  cbn [descend]. change (rbh_root (flat None)) with (@None nat). cbv iota. rewrite bind_done.
  unfold RB_SET, update. cbn [deref]. rewrite bind_done. simpl rb_nodes. rewrite flat_node by done.
  cbn [deref]. rewrite !bind_done. unfold RB_INSERT_COLOR.
  match goal with |- context [fuel_of ?h] => set (h1 := h) end.
  assert (He1 : entry h1 (Some e) = Done (RbEntry None None None RB_RED)).
  { unfold entry, h1. simpl. by rewrite lookup_insert_eq. }
  unfold fuel_of. cbn [RB_INSERT_COLOR_loop]. unfold RB_PARENT. rewrite He1. simpl.
  unfold set_color, update. simpl. rewrite lookup_insert_eq. simpl. do 2 f_equal.
  unfold flat. rewrite insert_insert_eq. unfold put_color. simpl. f_equal.
  apply insert_id. by apply flat_node.
Qed.

(** ** Sessions of the cache after [ip_config] *)
Inductive arp_op : Type :=
| ArpLearn (ip_addr : Z) (haddr : list Z)
| ArpLookup (ip_addr : Z)
| ArpTick (delta_time : Z).

(** The conditions on a session.  The code does not see to them: [arp_input] and
    [ip_input] insert whatever address a sender claims. *)
Definition arp_op_ok (own : Z) (o : arp_op) : Prop :=
  match o with
  | ArpLearn ip _ => 0 <= ip < 2 ^ 32 ∧ ip ≠ own
  | ArpLookup ip => 0 <= ip < 2 ^ 32
  | ArpTick d => 0 <= d
  end.

Definition tick_of (o : arp_op) : Z := match o with ArpTick d => d | _ => 0 end.

Fixpoint ticks (ops : list arp_op) : Z :=
  match ops with [] => 0 | o :: ops => tick_of o + ticks ops end.

Definition arp_step (st : arp_state) (o : arp_op) : outcome (option (list Z) * arp_state) :=
  match o with
  | ArpLearn ip haddr =>
      '(_, st) ← arp_cache_insert st ip haddr ARP_CACHE_DYN; Done (None, st)
  | ArpLookup ip => r ← arp_lookup st ip; Done (r, st)
  | ArpTick d => Done (None, arp_cache_update st d)
  end.

Fixpoint arp_run (st : arp_state) (ops : list arp_op) : outcome (list (option (list Z))) :=
  match ops with
  | [] => Done []
  | o :: ops => '(a, st) ← arp_step st o; l ← arp_run st ops; Done (a :: l)
  end.

(** The abstract cache: the last host learned. *)
Definition last_step (last : option (Z * list Z)) (o : arp_op)
    : option (list Z) * option (Z * list Z) :=
  match o with
  | ArpLearn ip haddr => (None, if bool_decide (ip = 0) then last else Some (ip, haddr))
  | ArpLookup ip =>
      (match last with
       | Some (ip', haddr) => if bool_decide (ip = ip') then Some haddr else None
       | None => None
       end, last)
  | ArpTick _ => (None, last)
  end.

Fixpoint last_run (last : option (Z * list Z)) (ops : list arp_op) : list (option (list Z)) :=
  match ops with
  | [] => []
  | o :: ops => let '(a, last) := last_step last o in a :: last_run last ops
  end.

(** Entry 0 is the static one of [ip_config], the others count up; the tree
    holds at most the entry of the last host. *)
Definition arp_holds (own : Z) (mac : list Z) (elapsed : Z) (st : arp_state) (last : option (Z * list Z)) : Prop :=
  ∃ e0 rest r, arp_cache st = e0 :: rest ∧ arp_cache_head st = flat (Some r) ∧
    length rest = 49%nat ∧ e0 = ArpEntry own mac ARP_CACHE_STATIC ∧
    Forall (fun e => 0 <= ae_age e <= elapsed) rest ∧
    match last with
    | None => r = 0%nat
    | Some (ip, haddr) => 0 <= ip < 2 ^ 32 ∧ ∃ age, arp_cache st !! r = Some (ArpEntry ip haddr age) ∧ 0 <= age
    end.

Lemma static_entry e0 own mac : e0 = ArpEntry own mac ARP_CACHE_STATIC → ae_ip_addr e0 = own ∧ ae_age e0 = -1.
Proof. by intros ->. Qed.

Lemma cmp_zero x y : 0 <= x < 2 ^ 32 → 0 <= y < 2 ^ 32 → arp_cache_cmp x y = 0 ↔ x = y.
Proof. intros Hx Hy. unfold arp_cache_cmp, s32, u32. case_tests; dlia. Qed.

(** Among entries that count, the scan finds one of them. *)
Lemma scan_dyn ip lo l i entry :
  Forall (fun e => 0 <= ae_age e) l → (l ≠ [] ∨ entry ≠ None) → (lo <= i)%nat →
  (∀ e a, entry = Some (e, a) → (lo <= e < i)%nat ∧ 0 <= a) →
  ∃ e a, arp_scan ip l i entry = Some (e, a) ∧ (lo <= e < i + length l)%nat ∧ 0 <= a.
Proof.
  intros Hl. revert i entry. induction Hl as [|it l Hit Hl IH]; intros i entry Hne Hlo He.
  { destruct entry as [[e a]|]; [|by destruct Hne]. destruct (He e a eq_refl).
    exists e, a. split; [done|]. simpl. lia. }
  simpl in Hit. cbn [arp_scan]. unfold ARP_CACHE_FREE. rewrite (bool_decide_false (ae_age it = -2)) by lia.
  set (entry' := match entry with Some (_, age) => _ | None => _ end).
  assert (He' : ∃ e a, entry' = Some (e, a) ∧ (lo <= e < S i)%nat ∧ 0 <= a).
  { unfold entry'. destruct entry as [[e a]|].
    - destruct (He e a eq_refl). case_tests; eexists _, _; (split; [done|lia]).
    - rewrite bool_decide_true by lia. eexists _, _. split; [done|lia]. }
  destruct He' as (e & a & -> & Hea & Ha). case_bool_decide as Hip.
  { exists i, (ae_age it). split; [done|]. simpl. lia. }
  destruct (IH (S i) (Some (e, a))) as (e' & a' & Hs & Hb & Ha'); [by right|lia| |].
  { intros ? ? [= <- <-]. done. }
  exists e', a'. split; [done|]. simpl. lia.
Qed.

Lemma learn_spec own mac elapsed st last ip haddr :
  arp_holds own mac elapsed st last → 0 <= elapsed → 0 <= ip < 2 ^ 32 → ip ≠ own →
  ∃ st', arp_cache_insert st ip haddr ARP_CACHE_DYN = Done (OK, st') ∧
    arp_holds own mac elapsed st' (if bool_decide (ip = 0) then last else Some (ip, haddr)).
Proof.
  intros Hh Hel Hip Hown. unfold arp_cache_insert. case_bool_decide as Hz; [by exists st|].
  destruct Hh as (e0 & rest & r & Hc & Hr & Hl & He0 & Hrest & _).
  destruct (static_entry _ _ _ He0) as [Ho Ha]. rewrite Hc, Hr.
  cbn [arp_scan]. rewrite Ha. rewrite (bool_decide_false (-1 = _)) by done.
  rewrite (bool_decide_false (-1 >= 0)) by lia. rewrite (bool_decide_false (ae_ip_addr e0 = ip)) by congruence.
  destruct (scan_dyn ip 1 rest 1 None) as (e & a & -> & He & Hage).
  { eapply Forall_impl; [exact Hrest|]. simpl. lia. } { left. by destruct rest. } { lia. } { done. }
  rewrite bool_decide_true by lia.
  assert (Hlt : (e < XSTACK_ARP_CACHE_SIZE)%nat) by (unfold XSTACK_ARP_CACHE_SIZE; lia).
  rewrite flat_remove by done. rewrite bind_done, flat_insert by done. rewrite bind_done.
  eexists. split; [done|]. destruct e as [|e]; [lia|].
  exists e0, (<[e := ArpEntry ip haddr ARP_CACHE_DYN]> rest), (S e). split_and!; try done.
  - by rewrite length_insert.
  - apply Forall_insert; [done|]. simpl. unfold ARP_CACHE_DYN. lia.
  - lia.
  - lia.
  - exists ARP_CACHE_DYN. split; [|done]. simpl. apply list_lookup_insert_eq. lia.
Qed.

Lemma lookup_spec own mac elapsed st last ip :
  arp_holds own mac elapsed st last → 0 <= ip < 2 ^ 32 →
  arp_lookup st ip = Done (last_step last (ArpLookup ip)).1.
Proof.
  intros (e0 & rest & r & Hc & Hr & Hl & He0 & Hrest & Hlast) Hip.
  destruct (static_entry _ _ _ He0) as [Ho Ha].
  unfold arp_lookup, arp_cache_get_entry. rewrite Hr. rewrite flat_find.
  2:{ intros e [= <-]. unfold XSTACK_ARP_CACHE_SIZE. destruct last as [[ip' haddr]|]; [|lia].
      destruct Hlast as (_ & age & Hlk & _). apply lookup_lt_Some in Hlk.
      rewrite Hc in Hlk. simpl in Hlk. lia. }
  rewrite bind_done. cbn [last_step fst]. destruct last as [[ip' haddr]|].
  - destruct Hlast as (Hip' & age & Hlk & Hage). unfold arp_entry. rewrite Hlk. simpl.
    rewrite (bool_decide_ext _ _ (cmp_zero ip ip' Hip Hip')). case_bool_decide; [|done].
    rewrite Hlk. simpl. by rewrite bool_decide_true by lia.
  - subst r. case_bool_decide; [|done]. rewrite Hc. simpl. rewrite Ha. done.
Qed.

Lemma tick_spec own mac elapsed st last d :
  arp_holds own mac elapsed st last → 0 <= elapsed <= ARP_CACHE_AGE_MAX → 0 <= d →
  arp_holds own mac (elapsed + d) (arp_cache_update st d) last.
Proof.
  intros (e0 & rest & r & Hc & Hr & Hl & He0 & Hrest & Hlast) Hel Hd.
  destruct (static_entry _ _ _ He0) as [Ho Ha].
  unfold arp_holds, arp_cache_update. simpl. rewrite Hc in *. unfold ARP_CACHE_AGE_MAX in *.
  assert (Hst : age_step d e0 = e0) by (unfold age_step; rewrite Ha; done).
  assert (Hstep : ∀ e, 0 <= ae_age e <= elapsed → age_step d e = set_age (ae_age e + d) e).
  { intros e He. unfold age_step, ARP_CACHE_AGE_MAX. rewrite bool_decide_false by lia.
    by rewrite bool_decide_true by lia. }
  exists e0, (age_step d <$> rest), r. rewrite fmap_cons, Hst. split_and!; try done.
  - by rewrite length_fmap.
  - apply Forall_fmap. eapply Forall_impl; [exact Hrest|]. simpl. intros e He. unfold compose.
    rewrite Hstep by done. simpl. lia.
  - destruct last as [[ip haddr]|]; [|done]. destruct Hlast as (Hip & age & Hlk & Hage).
    split; [done|]. destruct r as [|r]; simpl in *.
    + injection Hlk as ->. simpl in Ha. lia.
    + assert (Hin := Hlk). rewrite list_lookup_fmap, Hlk. simpl.
      rewrite Forall_lookup in Hrest. apply Hrest in Hin. rewrite Hstep by done.
      exists (age + d). split; [done|lia].
Qed.

Lemma arp_run_spec own mac elapsed st last ops :
  arp_holds own mac elapsed st last → 0 <= elapsed → Forall (arp_op_ok own) ops →
  elapsed + ticks ops <= ARP_CACHE_AGE_MAX → arp_run st ops = Done (last_run last ops).
Proof.
  revert elapsed st last. induction ops as [|o ops IH]; intros elapsed st last Hh Hel Hops Ht; [done|].
  apply Forall_cons in Hops as [Ho Hops]. cbn [ticks] in Ht.
  assert (Htn : 0 <= ticks ops).
  { clear -Hops. induction Hops as [|o ops Ho _ IH]; simpl; [lia|].
    destruct o; unfold arp_op_ok in Ho; simpl; lia. }
  cbn [arp_run last_run]. destruct o as [ip haddr|ip|d]; cbn [arp_step last_step tick_of] in *.
  - destruct Ho as [Hip Hne].
    destruct (learn_spec own mac elapsed st last ip haddr Hh Hel Hip Hne) as (st' & -> & Hh').
    rewrite !bind_done. by rewrite (IH elapsed st' _ Hh' Hel Hops Ht).
  - rewrite (lookup_spec own mac elapsed st last ip Hh Ho), !bind_done.
    by rewrite (IH elapsed st _ Hh Hel Hops Ht).
  - simpl in Ho. rewrite bind_done.
    by rewrite (IH (elapsed + d) _ _ (tick_spec _ _ _ _ _ _ Hh ltac:(lia) Ho) ltac:(lia) Hops ltac:(lia)).
Qed.

Lemma scan_zero own n i k :
  own ≠ 0 → arp_scan own (repeat zero_arp n) i (Some (k, 0)) = Some (k, 0).
Proof.
  intros Hown. revert i. induction n as [|n IH]; intros i; [done|]. cbn [repeat arp_scan].
  change (ae_age zero_arp) with 0. change (ae_ip_addr zero_arp) with 0.
  rewrite !bool_decide_false by (done || unfold ARP_CACHE_FREE; lia). apply IH.
Qed.

Lemma scan_fresh own l :
  own ≠ 0 → arp_scan own (zero_arp :: l) 0 None = arp_scan own l 1 (Some (0%nat, 0)).
Proof. intros Hown. cbn [arp_scan]. by rewrite (bool_decide_false (ae_ip_addr zero_arp = own)) by done. Qed.

(** The static entry of [ip_config] takes entry 0. *)
Lemma config_zero st0 own mac :
  arp_cache st0 = zero_arp :: repeat zero_arp 49 → arp_cache_head st0 = flat None →
  0 < own < 2 ^ 32 →
  ∃ st, arp_cache_insert st0 own mac ARP_CACHE_STATIC = Done (OK, st) ∧
    arp_holds own mac 0 st None ∧ arp_cache st = ArpEntry own mac ARP_CACHE_STATIC :: repeat zero_arp 49.
Proof.
  intros Hc Hh Hown. unfold arp_cache_insert. rewrite bool_decide_false by lia.
  rewrite Hc, Hh, scan_fresh, scan_zero by lia.
  rewrite bool_decide_true by done. rewrite flat_remove by (unfold XSTACK_ARP_CACHE_SIZE; lia).
  rewrite bind_done, flat_insert by (unfold XSTACK_ARP_CACHE_SIZE; lia). rewrite bind_done.
  eexists. split; [done|]. split; [|done]. eexists _, (repeat zero_arp 49), 0%nat. split_and!; try done.
  apply Forall_forall. intros e He. apply list_elem_of_In, repeat_spec in He as ->. done.
Qed.

Lemma config_holds own mac :
  0 < own < 2 ^ 32 →
  ∃ st, arp_cache_insert arp_init own mac ARP_CACHE_STATIC = Done (OK, st) ∧
    arp_holds own mac 0 st None ∧ arp_cache st = ArpEntry own mac ARP_CACHE_STATIC :: repeat zero_arp 49.
Proof. apply config_zero; [apply arp_init_cache|apply arp_init_flat]. Qed.

Lemma remove_absent_faults st ip :
  arp_cache_get_entry st ip = Done None → arp_cache_remove st ip = Fault.
Proof. intros H. unfold arp_cache_remove. by rewrite H, bind_done. Qed.

(** C28: The ARP cache after [ip_config].  Whatever sequence of dynamic insertions of
    other addresses than the own one, of lookups and of ticks is run, with ticks of at
    most twenty hours in all, no operation fails or loops, and a lookup returns the
    hardware address of the host learned last and nothing else: because the static
    array starts as 49 linked-looking dynamic entries, every insertion first unlinks
    what was in the tree.  The first tick of a running stack is the uptime of the
    host.  Neither bound is checked by the code: an insertion of the own address takes
    over the static entry ([own_address_taken]), and behind twenty hours hosts get
    lost ([expired_hosts_lost]). *)
Theorem arp_cache_remembers_last own mac ops :
  0 < own < 2 ^ 32 → Forall (arp_op_ok own) ops → ticks ops <= ARP_CACHE_AGE_MAX →
  ('(_, st) ← arp_cache_insert arp_init own mac ARP_CACHE_STATIC; arp_run st ops) =
  Done (last_run None ops).
Proof.
  intros Hown Hops Ht. destruct (config_holds own mac Hown) as (st & -> & Hh & _).
  rewrite bind_done. by apply (arp_run_spec own mac 0).
Qed.

Definition arp_demo : list arp_op :=
  [ArpLookup 0x0A000003; ArpLearn 0x0A000003 mac_a; ArpTick 10; ArpLookup 0x0A000003;
   ArpLearn 0x0A000004 mac_b; ArpLookup 0x0A000004; ArpLookup 0x0A000003].

Lemma arp_cache_remembers_last_witness :
  ('(_, st) ← arp_cache_insert arp_init 0x0A000002 mac_a ARP_CACHE_STATIC; arp_run st arp_demo) =
    Done (last_run None arp_demo) ∧
  last_run None arp_demo = [None; None; None; Some mac_a; None; Some mac_b; None].
Proof.
  split; [|reflexivity]. apply (arp_cache_remembers_last 0x0A000002 mac_a arp_demo).
  - done.
  - repeat (apply Forall_cons_2 || apply Forall_nil_2); unfold arp_op_ok; lia.
  - done.
Defined.

(** *** Outside of the bounds *)

(** [ip_config] and a session of a stack with the address 10.0.0.2. *)
Definition arp_session (ops : list arp_op) : outcome (list (option (list Z))) :=
  '(_, st) ← arp_cache_insert arp_init 0x0A000002 mac_a ARP_CACHE_STATIC; arp_run st ops.

(** A sender that claims the own address replaces the static entry by a dynamic one,
    which is used from then on. *)
Lemma own_address_taken :
  arp_session [ArpLookup 0x0A000002; ArpLearn 0x0A000003 mac_a; ArpLearn 0x0A000002 mac_b;
               ArpLookup 0x0A000002; ArpLookup 0x0A000003] =
  Done [None; None; None; Some mac_b; Some mac_a].
Proof. by vm_compute. Qed.

(** On a host that is up for 80000 seconds, three hosts are learned and expire, with
    their entries still in the tree.  The next host gets one of these entries, which
    is linked a second time, and when one more is learned it is lost. *)
Lemma expired_hosts_lost :
  arp_session ([ArpTick 80000; ArpTick 10; ArpLearn 0x0A000005 mac_a; ArpLearn 0x0A000004 mac_a;
                ArpLearn 0x0A000006 mac_a; ArpTick 80000; ArpTick 10] ++
               [ArpLearn 0x0A000007 mac_b; ArpLearn 0x0A000008 mac_b; ArpLookup 0x0A000007; ArpLookup 0x0A000008]) =
  Done (repeat None 9 ++ [None; Some mac_b]).
Proof. by vm_compute. Qed.

(** ** Messages *)
Definition arp_ok (m : arp_ip) : Prop :=
  0 <= arp_htype m < 65536 ∧ 0 <= arp_ptype m < 65536 ∧ 0 <= arp_hlen m < 256 ∧
  0 <= arp_plen m < 256 ∧ 0 <= arp_oper m < 65536 ∧ length (arp_sha m) = 6%nat ∧
  0 <= arp_spa m < 4294967296 ∧ length (arp_tha m) = 6%nat ∧ 0 <= arp_tpa m < 4294967296.

Lemma field_mid off n a b c :
  length a = off → length b = n → field off n (a ++ b ++ c) = le_val b.
Proof. intros Ha Hb. unfold field. by rewrite drop_app_exact, take_app_exact. Qed.

Lemma le_val_word n z : 0 <= z < 2 ^ (8 * Z.of_nat n) → le_val (le_bytes n z) = z.
Proof. intros Hz. rewrite le_val_le_bytes. by apply Z.mod_small. Qed.

Lemma arp_load_store m rest : arp_ok m → arp_load (arp_store m ++ rest) = Done m.
Proof.
  destruct m as [ht pt hl pl op sha spa tha tpa]. unfold arp_ok. simpl. intros Hok. destruct_and!.
  do 6 (destruct sha as [|? sha]; [done|]). destruct sha; [|done].
  do 6 (destruct tha as [|? tha]; [done|]). destruct tha; [|done].
  unfold arp_load. rewrite bool_decide_true by (simpl; unfold ARP_IP_SIZE; lia).
  f_equal. unfold field. simpl. f_equal; dlia.
Qed.

Lemma arp_hton_ok m : arp_ok m → arp_ok (arp_hton m).
Proof.
  unfold arp_ok. simpl. intros Hok. destruct_and!.
  pose proof (htons_range (arp_htype m)). pose proof (htons_range (arp_ptype m)).
  pose proof (htons_range (arp_oper m)). pose proof (htonl_range (arp_spa m)).
  pose proof (htonl_range (arp_tpa m)). rewrite !(ntohl_as_htonl (arp_spa m)), !(ntohl_as_htonl (arp_tpa m)). split_and!; lia.
Qed.

Lemma arp_ntoh_hton m : arp_ok m → arp_ntoh (arp_hton m) = m.
Proof.
  destruct m as [ht pt hl pl op sha spa tha tpa]. unfold arp_ok, arp_ntoh, arp_hton. simpl.
  intros Hok. destruct_and!. rewrite !(ntohl_as_htonl spa), !(ntohl_as_htonl tpa), !ntohl_htonl by done.
  rewrite <-(ntohs_as_htons (htons ht)), <-(ntohs_as_htons (htons pt)), <-(ntohs_as_htons (htons op)).
  by rewrite !ntohs_htons.
Qed.

Lemma arp_store_length m : length (arp_sha m) = 6%nat → length (arp_tha m) = 6%nat →
  length (arp_store m) = 28%nat.
Proof. intros Hs Ht. unfold arp_store. by rewrite !length_app, !le_bytes_length, Hs, Ht. Qed.

(** The reply to a message in a packet buffer. *)
Definition reply_to (req : arp_ip) (mac : list Z) (iface : Z) : arp_ip :=
  ArpIp (arp_htype req) (arp_ptype req) (arp_hlen req) (arp_plen req) ARP_OPER_REPLY mac iface
    (arp_sha req) (arp_spa req).

Lemma make_reply_done req mac iface rest :
  arp_ok req → length mac = 6%nat → 0 <= iface < 4294967296 →
  arp_make_reply req mac iface (arp_store (arp_hton req) ++ rest) =
    Done (arp_store (arp_hton (reply_to req mac iface)) ++ rest).
Proof.
  intros Hok Hm Hi. unfold arp_make_reply. rewrite arp_load_store by by apply arp_hton_ok.
  pose proof Hok as Hok'. unfold arp_ok in Hok'. destruct_and!.
  rewrite bind_done. apply (mem_write_mid 0 []); [done|]. by rewrite !arp_store_length.
Qed.

Lemma reply_to_ok req mac iface :
  arp_ok req → length mac = 6%nat → 0 <= iface < 4294967296 → arp_ok (reply_to req mac iface).
Proof. unfold arp_ok. simpl. unfold ARP_OPER_REPLY. intros. destruct_and!. split_and!; lia. Qed.

(** An ARP exchange resolves the address: the message of [arp_request]
    parses, at the host that owns the target address, to an Ethernet/IPv4
    request with the sender's addresses, and the reply that [arp_input] writes
    over it parses, back at the requester, to a reply that binds the requested
    address to the hardware address of its owner; what follows the message in
    the packet buffer (the padding of the frame) is left alone. *)
Theorem arp_exchange_resolves sha spa tpa mac padding :
  length sha = 6%nat → length mac = 6%nat →
  0 <= spa < 4294967296 → 0 <= tpa < 4294967296 →
  ∃ net req reply net' , arp_load (arp_request_msg sha spa tpa ++ padding) = Done net ∧
    req = arp_ntoh net ∧
    arp_make_reply req mac tpa (arp_request_msg sha spa tpa ++ padding) = Done (reply ++ padding) ∧
    arp_load reply = Done net' ∧
    req = ArpIp ARP_HTYPE_ETHER ETHER_PROTO_IPV4 6 4 ARP_OPER_REQUEST sha spa (repeat 0 6) tpa ∧
    arp_ntoh net' = ArpIp ARP_HTYPE_ETHER ETHER_PROTO_IPV4 6 4 ARP_OPER_REPLY mac tpa sha spa.
Proof.
  intros Hs Hm Hspa Htpa. unfold arp_request_msg.
  set (req := ArpIp _ _ _ _ ARP_OPER_REQUEST sha spa _ tpa).
  assert (Hok : arp_ok req) by (unfold arp_ok; simpl; unfold ARP_HTYPE_ETHER, ETHER_PROTO_IPV4, ARP_OPER_REQUEST, ETHER_ALEN; split_and!; try lia; done).
  pose proof (reply_to_ok req mac tpa Hok Hm Htpa) as Hrok.
  exists (arp_hton req), req, (arp_store (arp_hton (reply_to req mac tpa))), (arp_hton (reply_to req mac tpa)).
  split_and!.
  - by apply arp_load_store, arp_hton_ok.
  - by rewrite arp_ntoh_hton.
  - by apply make_reply_done.
  - rewrite <-(app_nil_r (arp_store _)). by apply arp_load_store, arp_hton_ok.
  - done.
  - by rewrite arp_ntoh_hton.
Qed.

Lemma arp_exchange_resolves_witness :
  ∃ net req reply net', arp_load (arp_request_msg mac_a 0x0A000002 0x0A000003 ++ [0; 0]) = Done net ∧
    req = arp_ntoh net ∧
    arp_make_reply req mac_b 0x0A000003 (arp_request_msg mac_a 0x0A000002 0x0A000003 ++ [0; 0])
      = Done (reply ++ [0; 0]) ∧
    arp_load reply = Done net' ∧
    req = ArpIp ARP_HTYPE_ETHER ETHER_PROTO_IPV4 6 4 ARP_OPER_REQUEST mac_a 0x0A000002 (repeat 0 6)
            0x0A000003 ∧
    arp_ntoh net' = ArpIp ARP_HTYPE_ETHER ETHER_PROTO_IPV4 6 4 ARP_OPER_REPLY mac_b 0x0A000003
            mac_a 0x0A000002.
Proof.
  apply (arp_exchange_resolves mac_a 0x0A000002 0x0A000003 mac_b [0; 0]); done.
Defined.
