(* ===== verification/Fragment.v ===== *)
(** * Reassembly buffers, [src/ip_fragment.c]

    The four static packet buffers, their tree and the bit map of the eight
    byte blocks received.  [ip_fragment_input] calls [ip_input] and [ip_send]
    when a packet is complete; the part before that is [frag_receive], the rest
    is in [Input]. *)

From S2P Require Import Prelude Bytes IpHeader RBTree RBIndex.

#[local] Open Scope Z_scope.

(** ** Data *)
Definition FRAG_MAX : Z := 8192.
Definition FRAG_MAP_SIZE : Z := FRAG_MAX / 32.
Definition XSTACK_IP_FRAGMENT_TLB : Z := 15.

(** The index and the bit of a block in [uint32_t fragmap[FRAG_MAP_SIZE]]. *)
Definition FRAG_MAP_AI (i : Z) : Z := Z.shiftr i 5.
Definition FRAG_MAP_BI (i : Z) : Z := Z.land i 0x1f.

Record packet_buf : Type := PacketBuf {
  reserved : bool;
  timer : Z;
  fragmap : list Z;
  pb_ip_hdr : ip_hdr;
  pb_payload : list Z
}.

Record frag_state : Type := FragState {
  packet_buffer : list packet_buf;
  packet_buffer_head : rb_head
}.

Definition zero_hdr : ip_hdr := IpHdr 0 0 0 0 0 0 0 0 0 0.

Definition zero_buf : packet_buf :=
  PacketBuf false 0 (repeat 0 (Z.to_nat FRAG_MAP_SIZE)) zero_hdr (repeat 0 (Z.to_nat IP_MAX_BYTES)).

Definition PACKET_BUFFERS : nat := 4.

Definition frag_init : frag_state :=
  FragState (repeat zero_buf PACKET_BUFFERS) (RB_INITIALIZER PACKET_BUFFERS).

Definition buf_at (st : frag_state) (i : nat) : packet_buf := default zero_buf (packet_buffer st !! i).

Definition set_buf (st : frag_state) (i : nat) (p : packet_buf) : frag_state :=
  FragState (<[i := p]> (packet_buffer st)) (packet_buffer_head st).

(** [struct bufid] in memory, with its padding byte. *)
Definition bufid (h : ip_hdr) : list Z :=
  le_bytes 4 (ip_src h) ++ le_bytes 4 (ip_dst h) ++ le_bytes 1 (ip_proto h) ++ [0] ++
  le_bytes 2 (ip_id h).

Definition packet_buf_cmp (a b : ip_hdr) : Z := memcmp (bufid a) (bufid b).

(** ** The bit map *)

(** [memset(map->fragmap, 0, FRAG_MAP_SIZE)] counts bytes: 64 words. *)
Definition fragmap_init (map : list Z) : list Z :=
  repeat 0 (Z.to_nat (FRAG_MAP_SIZE / 4)) ++ drop (Z.to_nat (FRAG_MAP_SIZE / 4)) map.

Definition fragmap_update (f : Z → Z) (map : list Z) (i : Z) : outcome (list Z) :=
  w ← deref (map !! Z.to_nat (FRAG_MAP_AI i));
  Done (<[Z.to_nat (FRAG_MAP_AI i) := u32 (f w)]> map).

Definition fragmap_set (map : list Z) (i : Z) : outcome (list Z) :=
  fragmap_update (fun w => Z.lor w (Z.shiftl 1 (FRAG_MAP_BI i))) map i.

Definition fragmap_clear (map : list Z) (i : Z) : outcome (list Z) :=
  fragmap_update (fun w => Z.land w (Z.lnot (Z.shiftl 1 (FRAG_MAP_BI i)))) map i.

Definition fragmap_tst (map : list Z) (i : Z) : outcome bool :=
  w ← deref (map !! Z.to_nat (FRAG_MAP_AI i));
  Done (negb (Z.land w (Z.shiftl 1 (FRAG_MAP_BI i)) =? 0)).

(** [for (i = from; i < from + n; i++) fragmap_set(map, i)] *)
Fixpoint fragmap_set_range (map : list Z) (from : Z) (n : nat) : outcome (list Z) :=
  match n with
  | O => Done map
  | S n => map ← fragmap_set map from; fragmap_set_range map (from + 1) n
  end.

(** [for (i = from; i < from + n; i++) t |= !fragmap_tst(map, i)], negated. *)
Fixpoint fragmap_full (map : list Z) (from : Z) (n : nat) : outcome bool :=
  match n with
  | O => Done true
  | S n => b ← fragmap_tst map from; r ← fragmap_full map (from + 1) n; Done (b && r)
  end.

(** ** Buffers *)
Definition with_reserved (b : bool) (p : packet_buf) : packet_buf :=
  PacketBuf b (timer p) (fragmap p) (pb_ip_hdr p) (pb_payload p).

Definition release_packet_buffer (st : frag_state) (i : nat) : outcome frag_state :=
  h ← RB_REMOVE (packet_buffer_head st) (Some i);
  Done (FragState (<[i := with_reserved false (buf_at st i)]> (packet_buffer st)) h).

Definition find_packet_buffer (st : frag_state) (hdr : ip_hdr) : outcome ptr :=
  RB_FIND (fun i => packet_buf_cmp hdr (pb_ip_hdr (buf_at st i))) (packet_buffer_head st).

(** [p->ip_hdr = *hdr] with length and offset cleared. *)
Definition blank_len (h : ip_hdr) : ip_hdr :=
  IpHdr (ip_vhl h) (ip_tos h) 0 (ip_id h) 0 (ip_ttl h) (ip_proto h) (ip_csum h) (ip_src h) (ip_dst h).

Definition with_len (n : Z) (h : ip_hdr) : ip_hdr :=
  IpHdr (ip_vhl h) (ip_tos h) n (ip_id h) (ip_foff h) (ip_ttl h) (ip_proto h) (ip_csum h)
    (ip_src h) (ip_dst h).

Definition claim_buf (p : packet_buf) (hdr : ip_hdr) : packet_buf :=
  PacketBuf true XSTACK_IP_FRAGMENT_TLB (fragmap_init (fragmap p)) (blank_len hdr) (pb_payload p).

(** The first buffer that is not reserved. *)
Fixpoint first_free (l : list packet_buf) (i : nat) : option nat :=
  match l with
  | [] => None
  | p :: l => if reserved p then first_free l (S i) else Some i
  end.

Definition get_packet_buffer (st : frag_state) (hdr : ip_hdr) : outcome (option nat * frag_state) :=
  p ← find_packet_buffer st hdr;
  match p with
  | Some i => Done (Some i, st)
  | None =>
      match first_free (packet_buffer st) 0 with
      | None => Done (None, st)
      | Some i =>
          let st := set_buf st i (claim_buf (buf_at st i) hdr) in
          '(res, h) ← RB_INSERT (fun j => packet_buf_cmp (blank_len hdr) (pb_ip_hdr (buf_at st j)))
                        (packet_buffer_head st) i;
          let st := FragState (packet_buffer st) h in
          match res with
          | Some _ => st ← release_packet_buffer st i; Done (None, st)
          | None => Done (Some i, st)
          end
      end
  end.

(** ** [ip_fragment_input] up to the complete packet *)

(** One fragment into its buffer: the data, the bit map, the header. *)
Definition buf_store (p : packet_buf) (ip : ip_hdr) (rx_packet : list Z) : outcome packet_buf :=
  let off := Z.shiftl (Z.land (ip_foff ip) 0x1fff) 3 in
  let len := u64 (ip_len ip - ip_hdr_hlen ip) in
  data ← mem_read 0 (Z.to_nat len) rx_packet;
  payload ← mem_write (Z.to_nat off) data (pb_payload p);
  map ← fragmap_set_range (fragmap p) (Z.shiftr off 3) (Z.to_nat (Z.shiftr (len + 7) 3));
  let hdr :=
    if bool_decide (off = 0) then blank_len ip
    else if Z.land (ip_foff ip) IP_FLAGS_MF =? 0 then with_len (u16 (len + off)) (pb_ip_hdr p)
    else pb_ip_hdr p in
  Done (PacketBuf (reserved p) (timer p) map hdr payload).

(** The test for a complete packet. *)
Definition buf_complete (p : packet_buf) : outcome bool :=
  let n := ip_len (pb_ip_hdr p) in
  if bool_decide (n = 0) then Done false
  else fragmap_full (fragmap p) 0 (Z.to_nat (Z.shiftr (n + 7) 3)).

(** The error of an early return, or the buffer and whether it is complete. *)
Definition frag_receive (st : frag_state) (ip : ip_hdr) (rx_packet : list Z)
    : outcome ((Z + nat * bool) * frag_state) :=
  let off := Z.shiftl (Z.land (ip_foff ip) 0x1fff) 3 in
  if bool_decide (off > IP_MAX_BYTES) then Done (inl (- EMSGSIZE), st) else
  '(p, st) ← get_packet_buffer st ip;
  match p with
  | None => Done (inl (- ENOBUFS), st)
  | Some i =>
      b ← buf_store (buf_at st i) ip rx_packet;
      complete ← buf_complete b;
      Done (inr (i, complete), set_buf st i b)
  end.

(** [ip_fragment_timer], which no periodic task calls. *)
Fixpoint ip_fragment_timer (st : frag_state) (delta_time : Z) (i n : nat) : outcome frag_state :=
  match n with
  | O => Done st
  | S n =>
      let p := buf_at st i in
      if reserved p then
        let t := timer p - delta_time in
        let st := set_buf st i (PacketBuf true t (fragmap p) (pb_ip_hdr p) (pb_payload p)) in
        st ← (if bool_decide (t <= 0) then release_packet_buffer st i else Done st);
        ip_fragment_timer st delta_time (S i) n
      else ip_fragment_timer st delta_time (S i) n
  end.

(** ** The bit map as a set of blocks *)
Definition bit (map : list Z) (i : Z) : bool :=
  Z.testbit (default 0 (map !! Z.to_nat (FRAG_MAP_AI i))) (FRAG_MAP_BI i).

Definition map_ok (map : list Z) : Prop :=
  length map = 256%nat ∧ Forall (fun w => 0 <= w < 2 ^ 32) map.

Lemma map_index i : 0 <= i < 8192 →
  0 <= FRAG_MAP_AI i < 256 ∧ 0 <= FRAG_MAP_BI i < 32 ∧ i = 32 * FRAG_MAP_AI i + FRAG_MAP_BI i.
Proof.
  intros Hi. unfold FRAG_MAP_AI, FRAG_MAP_BI. rewrite Z.shiftr_div_pow2 by lia.
  change 0x1f with (Z.ones 5). rewrite Z.land_ones by lia. dlia.
Qed.

Lemma map_word map i : map_ok map → 0 <= i < 8192 →
  ∃ w, map !! Z.to_nat (FRAG_MAP_AI i) = Some w ∧ 0 <= w < 2 ^ 32.
Proof.
  intros [Hl Hw] Hi. pose proof (map_index i Hi) as (Ha & _ & _).
  destruct (lookup_lt_is_Some_2 map (Z.to_nat (FRAG_MAP_AI i)) ltac:(lia)) as [w Hlk].
  exists w. split; [done|]. rewrite Forall_lookup in Hw. by eapply Hw.
Qed.

Lemma fragmap_tst_spec map i : map_ok map → 0 <= i < 8192 → fragmap_tst map i = Done (bit map i).
Proof.
  intros Hm Hi. destruct (map_word map i Hm Hi) as (w & Hw & _).
  pose proof (map_index i Hi) as (_ & Hb & _).
  unfold fragmap_tst, bit. rewrite Hw. simpl. f_equal. rewrite Z.shiftl_1_l.
  destruct (Z.testbit w (FRAG_MAP_BI i)) eqn:Ht.
  - apply negb_true_iff, Z.eqb_neq. intros H0. apply (f_equal (fun x => Z.testbit x (FRAG_MAP_BI i))) in H0.
    by rewrite Z.land_spec, Ht, Z.pow2_bits_true, Z.testbit_0_l in H0 by lia.
  - apply negb_false_iff, Z.eqb_eq. apply Z.bits_inj'. intros n Hn.
    rewrite Z.land_spec, Z.testbit_0_l. destruct (decide (n = FRAG_MAP_BI i)) as [->|Hne].
    + by rewrite Ht.
    + by rewrite Z.pow2_bits_false, andb_false_r by lia.
Qed.

Lemma word_lor_bit w b : 0 <= w < 2 ^ 32 → 0 <= b < 32 → 0 <= Z.lor w (2 ^ b) < 2 ^ 32.
Proof.
  intros Hw Hb. assert (Hp : 0 < 2 ^ b) by (apply Z.pow_pos_nonneg; lia).
  split; [apply Z.lor_nonneg; lia|].
  destruct (decide (Z.lor w (2 ^ b) = 0)) as [->|Hne]; [done|].
  apply Z.log2_lt_pow2; [pose proof (proj2 (Z.lor_nonneg w (2 ^ b)) ltac:(lia)); lia|].
  rewrite Z.log2_lor, Z.log2_pow2 by lia. apply Z.max_lub_lt; [|lia].
  destruct (decide (w = 0)) as [->|Hw0]; [done|]. apply Z.log2_lt_pow2; lia.
Qed.

Lemma fragmap_set_spec map i :
  map_ok map → 0 <= i < 8192 →
  ∃ map', fragmap_set map i = Done map' ∧ map_ok map' ∧
    ∀ j, 0 <= j < 8192 → bit map' j = bit map j || bool_decide (j = i).
Proof.
  intros Hm Hi. destruct (map_word map i Hm Hi) as (w & Hw & Hr). pose proof Hm as [Hl Hf].
  pose proof (map_index i Hi) as (Ha & Hb & He).
  unfold fragmap_set, fragmap_update. rewrite Hw. cbn [deref]. rewrite bind_done, Z.shiftl_1_l.
  pose proof (word_lor_bit w _ Hr Hb) as Hr'. unfold u32. rewrite Z.mod_small by done.
  eexists. split; [done|]. split.
  - split; [by rewrite length_insert|]. by apply Forall_insert.
  - intros j Hj. pose proof (map_index j Hj) as (Ha' & Hb' & He'). unfold bit.
    destruct (decide (FRAG_MAP_AI j = FRAG_MAP_AI i)) as [E|E].
    + rewrite E, list_lookup_insert_eq, Hw by lia. simpl.
      rewrite Z.lor_spec. f_equal. rewrite Z.pow2_bits_eqb by lia.
      case_bool_decide as Hji; [subst; by rewrite Z.eqb_refl|]. apply Z.eqb_neq. lia.
    + rewrite list_lookup_insert_ne by lia. rewrite (bool_decide_false (j = i)) by congruence.
      by rewrite orb_false_r.
Qed.

Lemma fragmap_set_range_spec map from n :
  map_ok map → 0 <= from → from + Z.of_nat n <= 8192 →
  ∃ map', fragmap_set_range map from n = Done map' ∧ map_ok map' ∧
    ∀ j, 0 <= j < 8192 → bit map' j = bit map j || bool_decide (from <= j < from + n).
Proof.
  revert map from. induction n as [|n IH]; intros map from Hm Hfrom Hn; cbn [fragmap_set_range].
  { exists map. split; [done|]. split; [done|]. intros j _.
    rewrite bool_decide_false by lia. by rewrite orb_false_r. }
  destruct (fragmap_set_spec map from Hm ltac:(lia)) as (map1 & -> & Hm1 & Hb1).
  rewrite bind_done. destruct (IH map1 (from + 1) Hm1 ltac:(lia) ltac:(lia)) as (map2 & -> & Hm2 & Hb2).
  exists map2. split; [done|]. split; [done|]. intros j Hj. rewrite Hb2, Hb1 by done.
  rewrite <-orb_assoc. f_equal. case_tests; simpl; lia || done.
Qed.

Lemma fragmap_full_spec map from n :
  map_ok map → 0 <= from → from + Z.of_nat n <= 8192 →
  ∃ b, fragmap_full map from n = Done b ∧
    (b = true ↔ ∀ j, from <= j < from + n → bit map j = true).
Proof.
  revert from. induction n as [|n IH]; intros from Hm Hfrom Hn; cbn [fragmap_full].
  { exists true. split; [done|]. split; [|done]. intros _ j Hj. lia. }
  rewrite fragmap_tst_spec by (done || lia). rewrite bind_done.
  destruct (IH (from + 1) Hm ltac:(lia) ltac:(lia)) as (b & -> & Hb). rewrite bind_done.
  eexists. split; [done|]. rewrite andb_true_iff, Hb. split.
  - intros [H0 H1] j Hj. destruct (decide (j = from)) as [->|]; [done|]. apply H1. lia.
  - intros H. split; [apply H; lia|]. intros j Hj. apply H. lia.
Qed.

Lemma fragmap_init_clear : fragmap_init (fragmap zero_buf) = repeat 0 256.
Proof. by vm_compute. Qed.

Lemma map_zero_ok : map_ok (repeat 0 256).
Proof.
  split; [done|]. apply Forall_forall. intros w Hw%list_elem_of_In%repeat_spec. by subst.
Qed.

Lemma bit_zero i : bit (repeat 0 256) i = false.
Proof.
  unfold bit. destruct (repeat 0 256 !! _) as [w|] eqn:Hw; [|apply Z.testbit_0_l].
  apply list_elem_of_lookup_2, list_elem_of_In, repeat_spec in Hw as ->. apply Z.testbit_0_l.
Qed.

(** ** Reassembly *)

(** A fragment of the data by the number of its first block and its size. *)
Record fragment : Type := Frag { f_block : Z; f_size : nat }.

Section reassembly.
Context (h : ip_hdr) (data : list Z).

Definition more (f : fragment) : bool :=
  bool_decide (8 * f_block f + f_size f < length data).

Definition chunk (f : fragment) : list Z := take (f_size f) (drop (Z.to_nat (8 * f_block f)) data).

(** The header of the fragment, in host order. *)
Definition frag_ip (f : fragment) : ip_hdr :=
  IpHdr (ip_vhl h) (ip_tos h) (ip_hdr_hlen h + f_size f) (ip_id h)
    (f_block f + (if more f then IP_FLAGS_MF else 0)) (ip_ttl h) (ip_proto h) (ip_csum h)
    (ip_src h) (ip_dst h).

(** The fragments a sender makes: not empty, within the data, whole blocks
    except at the end, and more than one. *)
Definition frag_ok (f : fragment) : Prop :=
  0 <= f_block f ∧ (0 < f_size f)%nat ∧ 8 * f_block f + f_size f <= length data ∧
  (more f = true → f_size f mod 8 = 0) ∧ (f_block f = 0 → more f = true) ∧
  ip_hdr_hlen h + f_size f < 65536.

Definition data_ok : Prop := 0 < Z.of_nat (length data) < 65536.

Definition covers_block (f : fragment) (j : Z) : bool :=
  bool_decide (f_block f <= j < f_block f + (f_size f + 7) / 8).

Definition covered (seen : list fragment) (j : Z) : bool := existsb (fun f => covers_block f j) seen.

(** Whether the length of the data is known; [seen] has the fragment that arrived last
    first.  The last fragment tells the length, a first fragment clears it. *)
Fixpoint len_known (seen : list fragment) : bool :=
  match seen with
  | [] => false
  | f :: seen => negb (bool_decide (f_block f = 0)) && (negb (more f) || len_known seen)
  end.

(** Every block has arrived, and the length is known. *)
Definition all_seen (seen : list fragment) : bool :=
  len_known seen &&
  forallb (fun j => covered seen j) (seqZ 0 ((length data + 7) / 8)).

Definition buf_holds (p : packet_buf) (seen : list fragment) : Prop :=
  reserved p = true ∧ map_ok (fragmap p) ∧
  (∀ j, 0 <= j < 8192 → bit (fragmap p) j = covered seen j) ∧
  Z.of_nat (length (pb_payload p)) = IP_MAX_BYTES ∧
  (∀ j : nat, (j < length data)%nat → covered seen (j / 8) = true → pb_payload p !! j = data !! j) ∧
  ∃ c, pb_ip_hdr p = set_csum c (with_len (if len_known seen then length data else 0) (blank_len h)).

Lemma foff_bits b (m : bool) :
  0 <= b < 8192 →
  Z.land (b + (if m then IP_FLAGS_MF else 0)) 0x1fff = b ∧
  (Z.land (b + (if m then IP_FLAGS_MF else 0)) IP_FLAGS_MF =? 0) = negb m.
Proof.
  intros Hb. unfold IP_FLAGS_MF. split.
  - change 0x1fff with (Z.ones 13). rewrite Z.land_ones by lia. destruct m; dlia.
  - change 0x2000 with (2 ^ 13). destruct m; simpl negb.
    + apply Z.eqb_neq. intros H0. apply (f_equal (fun x => Z.testbit x 13)) in H0.
      rewrite Z.land_spec, Z.pow2_bits_true, andb_true_r, Z.testbit_0_l in H0 by lia.
      rewrite Z.testbit_odd, Z.shiftr_div_pow2 in H0 by lia.
      assert (E : (b + 2 ^ 13) / 2 ^ 13 = 1) by dlia. by rewrite E in H0.
    + apply Z.eqb_eq. apply Z.bits_inj'. intros k Hk. rewrite Z.land_spec, Z.testbit_0_l.
      destruct (decide (k = 13)) as [->|Hne].
      * rewrite Z.testbit_odd, Z.shiftr_div_pow2 by lia.
        assert (E : (b + 0) / 2 ^ 13 = 0) by dlia. by rewrite E.
      * by rewrite Z.pow2_bits_false, andb_false_r by lia.
Qed.

Lemma frag_bounds f : data_ok → frag_ok f →
  0 <= f_block f < 8192 ∧ f_block f + (f_size f + 7) / 8 <= 8192 ∧
  length (chunk f) = f_size f ∧ 8 * f_block f + f_size f <= 65535.
Proof.
  unfold data_ok, frag_ok, chunk. intros Hd Hf. destruct_and!.
  split_and!; try dlia. rewrite length_take, length_drop. lia.
Qed.

Lemma chunk_lookup f (j : nat) : frag_ok f →
  8 * f_block f <= j < 8 * f_block f + f_size f →
  chunk f !! (j - Z.to_nat (8 * f_block f))%nat = data !! j.
Proof.
  unfold frag_ok, chunk. intros Hf Hj. destruct_and!.
  rewrite lookup_take_lt by lia. rewrite lookup_drop. f_equal. lia.
Qed.

(** A byte of a block that the fragment covers is a byte of the fragment. *)
Lemma covers_byte f (j : nat) : frag_ok f → (j < length data)%nat →
  covers_block f (j / 8) = true ↔ 8 * f_block f <= j < 8 * f_block f + f_size f.
Proof.
  unfold frag_ok, covers_block, more. intros Hf Hj. rewrite bool_decide_eq_true.
  destruct Hf as (Hb & Hs & Hl & Hm & _). rewrite bool_decide_eq_true in Hm. split; [|dlia].
  intros [H1 H2]. split; [dlia|].
  destruct (decide (8 * f_block f + f_size f < length data)) as [Hlt|Hge]; [|lia].
  specialize (Hm Hlt). dlia.
Qed.

Lemma buf_store_spec p seen f c junk :
  data_ok → 20 <= ip_hdr_hlen h → buf_holds p seen → frag_ok f →
  ∃ p', buf_store p (set_csum c (frag_ip f)) (chunk f ++ junk) = Done p' ∧ buf_holds p' (f :: seen).
Proof.
  intros Hd Hhl (Hr & Hm & Hbits & Hlen & Hpay & ch & Hhdr) Hf.
  pose proof (frag_bounds f Hd Hf) as (Hb & Hbe & Hcl & Hend).
  destruct (foff_bits (f_block f) (more f) Hb) as [Hoff Hmf].
  unfold buf_store. cbn [ip_foff ip_len frag_ip set_csum].
  change (ip_hdr_hlen (set_csum c (frag_ip f))) with (ip_hdr_hlen h). rewrite Hoff, Hmf.
  rewrite Z.shiftl_mul_pow2 by lia. change (2 ^ 3) with 8.
  assert (Hl : u64 (ip_hdr_hlen h + f_size f - ip_hdr_hlen h) = f_size f).
  { unfold u64. rewrite Z.mod_small by lia. lia. }
  rewrite Hl, Nat2Z.id. unfold IP_MAX_BYTES in Hlen.
  rewrite mem_read_ok by (rewrite length_app; lia). rewrite bind_done, drop_0, take_app_exact by done.
  replace (f_block f * 8) with (8 * f_block f) by lia.
  rewrite mem_write_ok by lia. rewrite bind_done.
  rewrite !Z.shiftr_div_pow2 by lia. change (2 ^ 3) with 8.
  rewrite (Z.mul_comm 8 (f_block f)), Z.div_mul, (Z.mul_comm (f_block f) 8) by lia.
  destruct (fragmap_set_range_spec (fragmap p) (f_block f) (Z.to_nat ((f_size f + 7) / 8)) Hm)
    as (map & Hset & Hmap & Hbit); [lia|rewrite Z2Nat.id by dlia; lia|].
  rewrite Hset, bind_done. eexists. split; [done|]. split_and!; simpl; [done|done| | | |].
  - intros j Hj. rewrite Hbit, Hbits by done. rewrite orb_comm. f_equal.
    unfold covers_block. apply bool_decide_ext. rewrite Z2Nat.id by dlia. done.
  - rewrite !length_app, length_take, length_drop, Hcl. unfold IP_MAX_BYTES. lia.
  - intros j Hj Hc. pose proof (covers_byte f j Hf Hj) as Hcov.
    destruct (decide (8 * f_block f <= j < 8 * f_block f + f_size f)) as [Hin|Hout].
    + rewrite lookup_app_r by (rewrite length_take; lia). rewrite length_take, Nat.min_l by lia.
      rewrite lookup_app_l by lia. by apply chunk_lookup.
    + assert (Hn : covers_block f (j / 8) = false).
      { apply not_true_iff_false. intros E. apply Hout. by apply Hcov. }
      rewrite Hn in Hc. simpl in Hc. rewrite <-(Hpay j Hj Hc).
      destruct (decide (j < 8 * f_block f)) as [Hlt|Hge].
      * rewrite lookup_app_l by (rewrite length_take; lia). by rewrite lookup_take_lt by lia.
      * rewrite lookup_app_r by (rewrite length_take; lia). rewrite length_take, Nat.min_l by lia.
        rewrite lookup_app_r by lia. rewrite lookup_drop, Hcl. f_equal. lia.
  - unfold frag_ok in Hf. destruct Hf as (_ & _ & Hle & _ & Hfirst & _). case_bool_decide as H0.
    + rewrite bool_decide_true by lia. by exists c.
    + exists ch. rewrite (bool_decide_false (f_block f = 0)) by lia. destruct (more f) eqn:Hmo; simpl; [done|]. rewrite Hhdr. unfold with_len, set_csum. simpl. f_equal.
      unfold more in Hmo. apply bool_decide_eq_false in Hmo. unfold data_ok in Hd. unfold u16.
      rewrite Z.mod_small by lia. lia.
Qed.

Lemma buf_complete_spec p seen :
  data_ok → buf_holds p seen → buf_complete p = Done (all_seen seen).
Proof.
  intros Hd (_ & Hm & Hbits & _ & _ & c & Hhdr). unfold buf_complete, all_seen. rewrite Hhdr.
  unfold data_ok in Hd. cbn [ip_len with_len set_csum]. destruct (len_known seen); [|done].
  rewrite bool_decide_false by lia. rewrite Z.shiftr_div_pow2 by lia. change (2 ^ 3) with 8.
  destruct (fragmap_full_spec (fragmap p) 0 (Z.to_nat ((length data + 7) / 8)) Hm) as (b & Hb & Hiff);
    [lia|dlia|].
  rewrite Hb. f_equal. simpl. apply eq_true_iff_eq. rewrite Hiff, forallb_forall.
  split; intros Hall j Hj.
  - apply list_elem_of_In, elem_of_seqZ in Hj. rewrite <-Hbits by dlia. apply Hall. dlia.
  - rewrite Hbits by dlia. apply Hall. apply list_elem_of_In, elem_of_seqZ. dlia.
Qed.
End reassembly.

(** ** The buffers as a map from packets to fragments *)
Lemma bufid_bytes hd : bytes (bufid hd).
Proof.
  unfold bufid. repeat apply Forall_app_2; auto with bytes. by repeat constructor.
Qed.

Definition buf_key (st : frag_state) (i : nat) : Z := be_val (bufid (pb_ip_hdr (buf_at st i))).

Section buffers.
Context `{!OrderedIndex rb_head indexes nodes RB_FIND RB_INSERT RB_REMOVE RB_FOREACH_FIND}.
Context (h : ip_hdr) (data : list Z).

(** Buffer 0 holds the packet, the others are not in use. *)
Definition frag_holds (st : frag_state) (seen : list fragment) : Prop :=
  (∃ p rest, packet_buffer st = p :: rest ∧ buf_holds h data p seen) ∧
  indexes (buf_key st) (packet_buffer_head st) {[0%nat]}.

Lemma buf_compares st hd s :
  compares (buf_key st) (be_val (bufid hd))
    (fun i => packet_buf_cmp hd (pb_ip_hdr (buf_at st i))) s.
Proof. intros i _. apply memcmp_be_val; [apply bufid_bytes..|done]. Qed.

Lemma find_held st seen f c :
  frag_holds st seen → find_packet_buffer st (set_csum c (frag_ip h data f)) = Done (Some 0%nat).
Proof.
  intros [(p & rest & Hp & Hh) Hix]. unfold find_packet_buffer.
  destruct (ix_find _ _ _ _ _ Hix (buf_compares st (set_csum c (frag_ip h data f)) _))
    as (res & -> & Hf).
  f_equal. destruct res as [i|]; simpl in Hf.
  - destruct Hf as [->%elem_of_singleton _]. done.
  - destruct (Hf 0%nat); [by apply elem_of_singleton|]. unfold buf_key, buf_at. rewrite Hp. simpl.
    destruct Hh as (_ & _ & _ & _ & _ & ch & ->). done.
Qed.

Lemma held_step st seen f c junk :
  data_ok data → 20 <= ip_hdr_hlen h → frag_holds st seen → frag_ok h data f →
  ∃ b st', buf_store (buf_at st 0) (set_csum c (frag_ip h data f)) (chunk data f ++ junk) = Done b ∧
    buf_complete b = Done (all_seen data (f :: seen)) ∧ st' = set_buf st 0 b ∧
    frag_holds st' (f :: seen).
Proof.
  intros Hd Hhl [(p & rest & Hp & Hh) Hix] Hf.
  destruct (buf_store_spec h data p seen f c junk Hd Hhl Hh Hf) as (b & Hb & Hh').
  assert (H0 : buf_at st 0 = p) by (unfold buf_at; by rewrite Hp). rewrite H0.
  eexists b, _. split; [done|]. split; [by eapply buf_complete_spec|]. split; [done|]. split.
  - exists b, rest. split; [|done]. unfold set_buf. cbn [packet_buffer]. by rewrite Hp.
  - apply (ix_ext (buf_key st)); [done|]. intros i ->%elem_of_singleton.
    unfold buf_key, buf_at, set_buf. cbn [packet_buffer]. rewrite Hp. simpl.
    destruct Hh as (_ & _ & _ & _ & _ & ? & ->), Hh' as (_ & _ & _ & _ & _ & ? & ->). done.
Qed.

Lemma block_in_range f : data_ok data → frag_ok h data f →
  Z.shiftl (Z.land (ip_foff (frag_ip h data f)) 0x1fff) 3 <= IP_MAX_BYTES.
Proof.
  intros Hd Hf. pose proof (frag_bounds h data f Hd Hf) as (Hb & _ & _ & Hend).
  cbn [ip_foff frag_ip]. rewrite (proj1 (foff_bits _ _ Hb)), Z.shiftl_mul_pow2 by lia.
  unfold IP_MAX_BYTES. lia.
Qed.

Lemma frag_receive_spec st seen f c junk :
  data_ok data → 20 <= ip_hdr_hlen h → frag_holds st seen → frag_ok h data f →
  ∃ st', frag_receive st (set_csum c (frag_ip h data f)) (chunk data f ++ junk) =
      Done (inr (0%nat, all_seen data (f :: seen)), st') ∧ frag_holds st' (f :: seen).
Proof.
  intros Hd Hhl Hst Hf. unfold frag_receive.
  rewrite bool_decide_false by (pose proof (block_in_range f Hd Hf); simpl in *; lia).
  unfold get_packet_buffer. rewrite (find_held st seen f c Hst), !bind_done.
  destruct (held_step st seen f c junk Hd Hhl Hst Hf) as (b & st' & Hb & Hc & -> & Hh).
  rewrite Hb, bind_done, Hc, bind_done. by eexists.
Qed.

(** The first fragment claims buffer 0. *)
Definition claimed (f : fragment) (c : Z) : packet_buf :=
  claim_buf zero_buf (set_csum c (frag_ip h data f)).

Lemma claimed_holds f c : data_ok data → buf_holds h data (claimed f c) [].
Proof.
  intros _. unfold claimed, claim_buf. split_and!; cbn [reserved fragmap pb_payload pb_ip_hdr].
  - done.
  - rewrite fragmap_init_clear. apply map_zero_ok.
  - intros j _. rewrite fragmap_init_clear. apply bit_zero.
  - unfold zero_buf. cbn [pb_payload]. by rewrite repeat_length, Z2Nat.id.
  - done.
  - by exists c.
Qed.

Lemma frag_first_spec f c junk :
  data_ok data → 20 <= ip_hdr_hlen h → frag_ok h data f →
  ∃ st', frag_receive frag_init (set_csum c (frag_ip h data f)) (chunk data f ++ junk) =
      Done (inr (0%nat, all_seen data [f]), st') ∧ frag_holds st' [f].
Proof.
  intros Hd Hhl Hf. unfold frag_receive.
  rewrite bool_decide_false by (pose proof (block_in_range f Hd Hf); simpl in *; lia).
  set (st1 := set_buf frag_init 0 (claimed f c)).
  assert (Hix0 : indexes (buf_key frag_init) (packet_buffer_head frag_init) ∅) by apply indexes_init.
  assert (Hix1 : indexes (buf_key st1) (packet_buffer_head st1) ∅) by apply indexes_init.
  unfold get_packet_buffer, find_packet_buffer.
  destruct (ix_find _ _ _ _ _ Hix0 (buf_compares frag_init (set_csum c (frag_ip h data f)) _)) as (res & -> & Hres).
  destruct res as [i|]; [by destruct Hres as [?%elem_of_empty _]|]. rewrite bind_done.
  change (first_free (packet_buffer frag_init) 0) with (Some 0%nat). cbv iota.
  change (claim_buf (buf_at frag_init 0) (set_csum c (frag_ip h data f))) with (claimed f c). fold st1.
  assert (Hn : 0%nat ∈ nodes (packet_buffer_head st1)) by (apply nodes_init; unfold PACKET_BUFFERS; lia).
  destruct (ix_insert (buf_key st1) _ _ 0%nat _ Hix1
    (buf_compares st1 (blank_len (set_csum c (frag_ip h data f))) _) Hn ltac:(apply not_elem_of_empty))
    as (res & hd & -> & Hres1 & _ & Hix2).
  destruct res as [i|]; [by destruct Hres1 as [?%elem_of_empty _]|]. rewrite bind_done. cbv zeta.
  rewrite bind_done. set (st2 := FragState (packet_buffer st1) hd).
  assert (Hst2 : frag_holds st2 []).
  { split; [|by rewrite union_empty_r_L in Hix2].
    exists (claimed f c), (repeat zero_buf 3). split; [done|]. by apply claimed_holds. }
  destruct (held_step st2 [] f c junk Hd Hhl Hst2 Hf) as (b & st' & Hb & Hc & -> & Hh).
  rewrite Hb, bind_done, Hc, bind_done. by eexists.
Qed.
End buffers.

(** ** A sequence of fragments of one packet *)

(** A fragment as it arrives: with its header checksum, and with what follows
    it in the receive buffer. *)
Definition arrival : Type := fragment * Z * list Z.

Definition fragment_of (a : arrival) : fragment := a.1.1.

Fixpoint frag_run (st : frag_state) (h : ip_hdr) (data : list Z) (fs : list arrival)
    : outcome (list (Z + nat * bool) * frag_state) :=
  match fs with
  | [] => Done ([], st)
  | (f, c, junk) :: fs =>
      '(r, st) ← frag_receive st (set_csum c (frag_ip h data f)) (chunk data f ++ junk);
      '(rs, st) ← frag_run st h data fs;
      Done (r :: rs, st)
  end.

(** Whether each fragment completes the packet. *)
Fixpoint completions (data : list Z) (seen fs : list fragment) : list bool :=
  match fs with
  | [] => []
  | f :: fs => all_seen data (f :: seen) :: completions data (f :: seen) fs
  end.

Lemma frag_run_spec h data fs st seen :
  data_ok data → 20 <= ip_hdr_hlen h → frag_holds h data st seen →
  Forall (frag_ok h data) (fragment_of <$> fs) →
  ∃ st', frag_run st h data fs =
      Done ((fun c => inr (0%nat, c)) <$> completions data seen (fragment_of <$> fs), st') ∧
    frag_holds h data st' (rev (fragment_of <$> fs) ++ seen).
Proof.
  intros Hd Hhl. revert st seen. induction fs as [|[[f c] junk] fs IH]; intros st seen Hst Hin.
  { by exists st. }
  rewrite fmap_cons in Hin. apply Forall_cons in Hin as [Hf Hin].
  destruct (frag_receive_spec h data st seen f c junk Hd Hhl Hst Hf) as (st1 & Hr & Hst1).
  destruct (IH st1 (f :: seen) Hst1 Hin) as (st2 & Hrun & Hst2).
  exists st2. cbn [frag_run]. rewrite Hr, bind_done, Hrun, bind_done. split; [done|].
  rewrite fmap_cons. simpl rev. by rewrite <-app_assoc.
Qed.

(** A complete buffer holds the data. *)
Lemma all_seen_payload h data p seen :
  data_ok data → buf_holds h data p seen → all_seen data seen = true →
  take (length data) (pb_payload p) = data ∧
  ∃ c, pb_ip_hdr p = set_csum c (with_len (length data) (blank_len h)).
Proof.
  intros Hd (_ & _ & _ & Hlen & Hpay & c & Hhdr) [Hl Hall]%andb_true_iff.
  rewrite Hl in Hhdr. split; [|by exists c]. unfold data_ok in Hd. unfold IP_MAX_BYTES in Hlen.
  rewrite forallb_forall in Hall. apply list_eq. intros j.
  destruct (decide (j < length data)%nat) as [Hj|Hj].
  - rewrite lookup_take_lt by done. apply Hpay; [done|]. apply Hall.
    apply list_elem_of_In, elem_of_seqZ. dlia.
  - rewrite lookup_ge_None_2 by (rewrite length_take; lia). symmetry. apply lookup_ge_None_2. lia.
Qed.

Lemma frag_run_complete h data fs :
  data_ok data → 20 <= ip_hdr_hlen h → fs ≠ [] → Forall (frag_ok h data) (fragment_of <$> fs) →
  ∃ st, frag_run frag_init h data fs =
      Done ((fun c => inr (0%nat, c)) <$> completions data [] (fragment_of <$> fs), st) ∧
    (all_seen data (rev (fragment_of <$> fs)) = true →
     take (length data) (pb_payload (buf_at st 0)) = data ∧
     ∃ c, pb_ip_hdr (buf_at st 0) = set_csum c (with_len (length data) (blank_len h))).
Proof.
  intros Hd Hhl Hne Hin. destruct fs as [|[[f c] junk] fs]; [done|]. rewrite fmap_cons in Hin. apply Forall_cons in Hin as [Hf Hin].
  destruct (frag_first_spec h data f c junk Hd Hhl Hf) as (st1 & Hr & Hst1).
  destruct (frag_run_spec h data fs st1 [f] Hd Hhl Hst1 Hin) as (st2 & Hrun & [(p & rest & Hp & Hh) _]).
  exists st2. cbn [frag_run]. rewrite Hr, bind_done, Hrun, bind_done. split; [done|].
  rewrite fmap_cons. simpl rev. intros Hall.
  assert (H0 : buf_at st2 0 = p) by (unfold buf_at; by rewrite Hp). rewrite H0.
  by eapply all_seen_payload.
Qed.

(** Reassembly.  The fragments of one datagram, arriving in any order,
    duplicated and overlapping or not, all land in the same buffer without an
    error; after each of them the packet is recognised as complete exactly when
    every eight byte block has arrived and a last fragment that no first fragment
    followed, and then the buffer holds the data of the datagram and its header
    with the length of the data. *)
Theorem reassembly_correct h data fs :
  data_ok data → 20 <= ip_hdr_hlen h → fs ≠ [] → Forall (frag_ok h data) (fragment_of <$> fs) →
  ∃ st, frag_run frag_init h data fs =
      Done ((fun c => inr (0%nat, c)) <$> completions data [] (fragment_of <$> fs), st) ∧
    (all_seen data (rev (fragment_of <$> fs)) = true →
     take (length data) (pb_payload (buf_at st 0)) = data ∧
     ∃ c, pb_ip_hdr (buf_at st 0) = set_csum c (with_len (length data) (blank_len h))).
Proof. apply frag_run_complete. Qed.

Definition demo_ip : ip_hdr := IpHdr 0x45 0 0 77 0 64 17 0 0x0A000003 0x0A000002.

Definition demo_data : list Z := seqZ 1 20.

(** The first block, the last four bytes, then the block between them. *)
Definition demo_frags : list arrival :=
  [(Frag 0 8, 11, [99]); (Frag 2 4, 12, []); (Frag 1 8, 13, [98; 97])].

Lemma reassembly_correct_witness :
  completions demo_data [] (fragment_of <$> demo_frags) = [false; false; true] ∧
  ∃ st, frag_run frag_init demo_ip demo_data demo_frags =
      Done ((fun c => inr (0%nat, c)) <$> completions demo_data [] (fragment_of <$> demo_frags), st) ∧
    (all_seen demo_data (rev (fragment_of <$> demo_frags)) = true →
     take (length demo_data) (pb_payload (buf_at st 0)) = demo_data ∧
     ∃ c, pb_ip_hdr (buf_at st 0) = set_csum c (with_len (length demo_data) (blank_len demo_ip))).
Proof.
  split; [reflexivity|]. apply (reassembly_correct demo_ip demo_data demo_frags).
  - done.
  - done.
  - done.
  - repeat constructor; cbn [f_block f_size fragment_of fst]; try done; try (vm_compute; done); simpl; lia.
Defined.

(** A first fragment that arrives after the last one clears the length: the
    packet is never complete although every byte has arrived. *)
Lemma first_after_last_never_completes :
  fst <$> frag_run frag_init demo_ip demo_data
    [(Frag 2 4, 0, []); (Frag 1 8, 0, []); (Frag 0 8, 0, [])] =
  Done [inr (0%nat, false); inr (0%nat, false); inr (0%nat, false)].
Proof. by vm_compute. Qed.

(** The check against [IP_MAX_BYTES] ignores the size of the fragment: a last
    fragment at the largest offset is copied behind the packet buffer. *)
Lemma fragment_overflow_faults :
  frag_receive frag_init (IpHdr 0x45 0 1500 77 0x1fff 64 17 0 0x0A000003 0x0A000002)
    (repeat 0 (Z.to_nat 1480)) = Fault.
Proof. by vm_compute. Qed.

(** [fragmap_init] clears a quarter of the map: a buffer that held a large
    packet remembers its blocks from 2048 on. *)
Lemma fragmap_init_incomplete :
  (map ← fragmap_set (repeat 0 256) 2048; fragmap_tst (fragmap_init map) 2048) = Done true.
Proof. by vm_compute. Qed.
