(* ===== verification/World.v ===== *)
(** * The state of the stack and the functions that change it

    The static variables of all the files together, [errno], and what the stack
    has handed to the kernel.  The functions of [Output] and [Input] run in the
    monad [M] over this state.  What the kernel answers is behind the interface
    [Kernel]. *)

From S2P Require Import Prelude Bytes RBTree Rib Socket Udp Tcp IpDefer Arp Fragment.

#[local] Open Scope Z_scope.

(** [sendto] on the packet socket, as a function of the frames handed to it so
    far and of the new frame: the number of bytes sent, or minus the error
    number. *)
Class Kernel : Type := k_sendto : list (list Z) → list Z → Z.

(** A kernel that takes every frame. *)
Class ReliableKernel `{Kernel} : Prop :=
  sendto_all tx frame : k_sendto tx frame = Z.of_nat (length frame).

Record world : Type := World {
  errno : Z;
  ether_if : list (list Z);      (* [el_mac] of the interfaces *)
  tx : list (list Z);            (* the frames given to [sendto], in order *)
  w_rib : rib_state;
  w_arp : arp_state;
  w_defer : defer_state;
  ip_global_id : Z;
  w_udp : udp_state;
  w_tcp : tcp_table;
  w_frag : frag_state
}.

Definition M (A : Type) : Type := world → outcome (A * world).

#[export] Instance M_ret : MRet M := fun A a w => Done (a, w).

#[export] Instance M_bind : MBind M :=
  fun A B f m w => match m w with Done (a, w) => f a w | Fault => Fault | Spin => Spin end.

#[export] Instance M_fmap : FMap M :=
  fun A B f m w => match m w with Done (a, w) => Done (f a, w) | Fault => Fault | Spin => Spin end.

(** ** Access to the state *)
Definition lift {A : Type} (o : outcome A) : M A :=
  fun w => match o with Done a => Done (a, w) | Fault => Fault | Spin => Spin end.

Definition gets {A : Type} (f : world → A) : M A := fun w => Done (f w, w).

Definition modify (f : world → world) : M unit := fun w => Done (tt, f w).

(** [errno] is an [int]. *)
Definition set_errno (e : Z) : M unit := modify (fun w =>
  World (s32 e) (ether_if w) (tx w) (w_rib w) (w_arp w) (w_defer w) (ip_global_id w) (w_udp w) (w_tcp w) (w_frag w)).

Definition log_tx (frame : list Z) : M unit := modify (fun w =>
  World (errno w) (ether_if w) (tx w ++ [frame]) (w_rib w) (w_arp w) (w_defer w) (ip_global_id w)
    (w_udp w) (w_tcp w) (w_frag w)).

Definition set_rib (s : rib_state) (w : world) : world :=
  World (errno w) (ether_if w) (tx w) s (w_arp w) (w_defer w) (ip_global_id w) (w_udp w) (w_tcp w) (w_frag w).

Definition set_arp (s : arp_state) (w : world) : world :=
  World (errno w) (ether_if w) (tx w) (w_rib w) s (w_defer w) (ip_global_id w) (w_udp w) (w_tcp w) (w_frag w).

Definition set_defer (s : defer_state) (w : world) : world :=
  World (errno w) (ether_if w) (tx w) (w_rib w) (w_arp w) s (ip_global_id w) (w_udp w) (w_tcp w) (w_frag w).

Definition set_ip_id (n : Z) (w : world) : world :=
  World (errno w) (ether_if w) (tx w) (w_rib w) (w_arp w) (w_defer w) n (w_udp w) (w_tcp w) (w_frag w).

Definition set_udp (s : udp_state) (w : world) : world :=
  World (errno w) (ether_if w) (tx w) (w_rib w) (w_arp w) (w_defer w) (ip_global_id w) s (w_tcp w) (w_frag w).

Definition set_tcp (s : tcp_table) (w : world) : world :=
  World (errno w) (ether_if w) (tx w) (w_rib w) (w_arp w) (w_defer w) (ip_global_id w) (w_udp w) s (w_frag w).

Definition set_frag (s : frag_state) (w : world) : world :=
  World (errno w) (ether_if w) (tx w) (w_rib w) (w_arp w) (w_defer w) (ip_global_id w) (w_udp w) (w_tcp w) s.

(** A function that returns a value and the new state of a component. *)
Definition on {S A : Type} (get : world → S) (set : S → world → world)
    (f : S → outcome (A * S)) : M A :=
  fun w => match f (get w) with
           | Done (a, s) => Done (a, set s w)
           | Fault => Fault
           | Spin => Spin
           end.

(** ** The state before [main] runs *)

(** The static variables of a stack with one interface. *)
Definition initial_world (mac : list Z) (u : udp_state) : world :=
  World 0 [mac] [] ip_route_init arp_init defer_init 0 u (TcpTable [] (RbHead None ∅)) frag_init.

(** A kernel that takes every frame, for examples. *)
Definition accept_all : Kernel := fun _ frame => Z.of_nat (length frame).

#[export] Instance accept_all_reliable : @ReliableKernel accept_all.
Proof. done. Qed.
