(* ===== verification/Output.v ===== *)
(** * The output path: Ethernet, ARP resolution, IP

    [ether_send] ([src/linux/linux_ether.c]), [arp_request],
    [arp_cache_get_haddr] and [arp_gratuitous] ([src/arp.c]), [ip_send] and its
    fragmentation ([src/ip.c]), [ip_defer_handler] ([src/ip_defer.c]) and
    [xstack_udp_send] ([src/udp.c]). *)

From S2P Require Import Prelude Bytes EtherFcs Checksum IpHeader RBTree Rib QueueR.
From S2P Require Import Socket Udp IpDefer Ether Arp World.

#[local] Open Scope Z_scope.

(** ** Ethernet *)
Definition ETHER_MAX_IF : Z := 1.

(** The hardware address of the interface; a negative handle is outside the
    array. *)
Definition ether_handle2eth (handle : Z) : M (option (list Z)) :=
  if bool_decide (handle >= ETHER_MAX_IF) then
    _ ← set_errno ENODEV; mret None
  else
    _ ← lift (require (bool_decide (0 <= handle)));
    eths ← gets ether_if;
    mac ← lift (deref (eths !! Z.to_nat handle));
    mret (Some mac).

Definition ether_handle2addr (handle : Z) : M (option (list Z)) :=
  eth ← ether_handle2eth handle;
  match eth with
  | None => _ ← set_errno ENODEV; mret None
  | Some mac => mret (Some mac)
  end.

(** ** Routes *)

(** [ip_route_find_by_iface] sets [errno] when there is no route.  Its only caller
    that looks at the [errno] of [ip_route_find_by_network] overwrites it. *)
Definition find_by_iface (addr : Z) : M (option ip_route) :=
  rib ← gets w_rib;
  route ← lift (ip_route_find_by_iface rib addr);
  match route with
  | Some route => mret (Some route)
  | None => _ ← set_errno ENOENT; mret None
  end.

Section kernel.
Context `{Kernel}.

Definition ether_send (handle : Z) (dst : list Z) (proto : Z) (buf : list Z) : M Z :=
  if frame_too_big (length buf) then mret (- EMSGSIZE) else
  eth ← ether_handle2eth handle;
  match eth with
  | None => e ← gets errno; mret (- e)
  | Some mac =>
      let frame := ether_frame mac dst proto buf in
      sent ← gets tx;
      _ ← log_tx frame;
      let retval := k_sendto sent frame in
      if bool_decide (retval < 0) then _ ← set_errno (- retval); mret retval
      else mret retval
  end.

(** ** ARP resolution *)

(** A failing [ether_handle2addr] leaves the zeros of the initialiser. *)
Definition arp_request (ether_handle spa tpa : Z) : M Z :=
  sha ← ether_handle2addr ether_handle;
  retval ← ether_send ether_handle mac_broadcast_addr ETHER_PROTO_ARP
             (arp_request_msg (default (repeat 0 6) sha) spa tpa);
  mret (if bool_decide (retval < 0) then retval else 0).

Definition arp_gratuitous (ether_handle spa : Z) : M Z :=
  sha ← ether_handle2addr ether_handle;
  _ ← ether_send ether_handle mac_broadcast_addr ETHER_PROTO_ARP
        (arp_request_msg (default (repeat 0 6) sha) spa spa);
  mret 0.

(** The hardware address, or [None] for -1. *)
Definition arp_cache_get_haddr (iface ip_addr : Z) : M (option (list Z)) :=
  arp ← gets w_arp;
  entry ← lift (arp_lookup arp ip_addr);
  match entry with
  | Some haddr => mret (Some haddr)
  | None =>
      route ← find_by_iface iface;
      match route with
      | Some route =>
          r ← arp_request (r_iface_handle route) (r_iface route) ip_addr;
          if bool_decide (r = 0) then _ ← set_errno EHOSTUNREACH; mret None else mret None
      | None => mret None
      end
  end.

(** ** IP *)

(** [(plen + 7) & ~7]; the constant is an [int], the sum a [size_t]. *)
Definition ip_off_round (plen : Z) : Z := Z.land (u64 (plen + 7)) (u64 (Z.lnot 7)).

Definition next_fragment_size (bytes hlen mtu : Z) : Z :=
  let max := ip_off_round (u64 (mtu - hlen - 8)) in
  if bool_decide (bytes < max) then bytes else max.

(** The header of the next fragment of [ip_send_fragments]. *)
Definition fragment_hdr (ip : ip_hdr) (plen bytes offset : Z) : ip_hdr :=
  IpHdr (ip_vhl ip) (ip_tos ip) (u16 (ip_hdr_hlen ip + plen)) (ip_id ip)
    (u16 (Z.lor (if bool_decide (bytes = 0) then 0 else IP_FLAGS_MF) (Z.shiftr offset 3)))
    (ip_ttl ip) (ip_proto ip) (ip_csum ip) (ip_src ip) (ip_dst ip).

(** The [do ... while (bytes > 0)] loop.  [payload] is the packet buffer, whose
    data part is overwritten with the data of the fragment. *)
Fixpoint send_fragments_loop (fuel : nat) (ether_handle : Z) (dst_mac : list Z) (ip : ip_hdr)
    (payload : list Z) (bytes offset retval : Z) : M Z :=
  match fuel with
  | O => lift Spin
  | S fuel =>
      let hlen := Z.to_nat (ip_hdr_hlen ip) in
      let plen := next_fragment_size bytes (ip_hdr_hlen ip) ETHER_DATA_LEN in
      let bytes := u64 (bytes - plen) in
      let ip := fragment_hdr ip plen bytes offset in
      payload ← lift (ip_hton ip payload);
      data ← lift (mem_read (hlen + Z.to_nat offset) (Z.to_nat plen) payload);
      payload ← lift (mem_write hlen data payload);
      frame ← lift (mem_read 0 (Z.to_nat (ip_len ip)) payload);
      eret ← ether_send ether_handle dst_mac ETHER_PROTO_IPV4 frame;
      if bool_decide (eret < 0) then mret eret else
      let retval := retval + eret in
      let offset := offset + plen in
      if bool_decide (bytes > 0) then
        send_fragments_loop fuel ether_handle dst_mac ip payload bytes offset retval
      else mret retval
  end.

Definition ip_send_fragments (ether_handle : Z) (dst_mac payload : list Z) (bsize : Z) : M Z :=
  '(hlen, ip) ← lift (ip_ntoh payload);
  let bytes := u64 (bsize - hlen) in
  send_fragments_loop (S (length payload)) ether_handle dst_mac ip payload bytes 0 0.

(** The packet [ip_send] builds: the header, in network order, and the data. *)
Definition ip_packet (src dst proto id : Z) (buf : list Z) : outcome (list Z) :=
  let packet_size := 20 + length buf in
  let hdr := IpHdr IP_VHL_DEFAULT IP_TOS_DEFAULT (u16 packet_size) (u16 id) IP_TOFF_DEFAULT
               IP_TTL_DEFAULT proto 0 src dst in
  ip_hton hdr (ip_hdr_store hdr ++ buf).

(** [ip_send(dst, proto, buf, bsize)] with the memory [buf] at that pointer. *)
Definition ip_send (dst proto : Z) (buf : list Z) (bsize : Z) : M Z :=
  rib ← gets w_rib;
  route ← lift (ip_route_find_by_network rib dst);
  match route with
  | None => _ ← set_errno EHOSTUNREACH; mret (-1)
  | Some route =>
      dst_mac ← arp_cache_get_haddr (r_iface route) dst;
      match dst_mac with
      | None =>
          e ← gets errno;
          if bool_decide (e = EHOSTUNREACH) then
            r ← on w_defer set_defer (fun d => ip_defer_push d dst proto buf bsize);
            if bool_decide (r = 0) || bool_decide (r = - EALREADY) then mret 0
            else _ ← set_errno (- r); mret (-1)
          else mret 0
      | Some dst_mac =>
          id ← gets ip_global_id;
          _ ← modify (set_ip_id (u32 (id + 1)));
          data ← lift (mem_read 0 (Z.to_nat bsize) buf);
          packet ← lift (ip_packet (r_iface route) dst proto id data);
          if bool_decide (bsize <= ETHER_DATA_LEN) then
            ether_send (r_iface_handle route) dst_mac ETHER_PROTO_IPV4 packet
          else
            retval ← ip_send_fragments (r_iface_handle route) dst_mac packet (length packet);
            if bool_decide (retval < 0) then _ ← set_errno (- retval); mret (-1) else mret retval
      end
  end.

(** ** Deferred transmissions *)
Definition add_try (s : ip_defer) : ip_defer :=
  {| tries := s32 (tries s + 1); IpDefer.dst := IpDefer.dst s; IpDefer.proto := IpDefer.proto s;
     buf_size := buf_size s; IpDefer.buf := IpDefer.buf s |}.

(** The [while (1)] loop of [ip_defer_handler]. *)
Fixpoint defer_loop (fuel : nat) : M unit :=
  match fuel with
  | O => lift Spin
  | S fuel =>
      d ← gets w_defer;
      match ip_defer_peek d with
      | None => mret tt
      | Some i =>
          slot ← lift (deref (ip_defer_queue d !! Z.to_nat i));
          _ ← modify (set_defer (set_slot d i (add_try slot)));
          if bool_decide (tries slot > 3) then
            _ ← modify (fun w => set_defer (ip_defer_drop (w_defer w)) w);
            defer_loop fuel
          else
            r ← ip_send (IpDefer.dst slot) (IpDefer.proto slot) (IpDefer.buf slot) (buf_size slot);
            e ← gets errno;
            if bool_decide (r = -1) && bool_decide (e = EHOSTUNREACH) then
              modify (fun w => set_defer (set_slot (w_defer w) i (add_try (add_try slot))) w)
            else
              _ ← modify (fun w => set_defer (ip_defer_drop (w_defer w)) w);
              defer_loop fuel
      end
  end.

(** The assignment after the loop is never reached. *)
Definition ip_defer_handler (delta_time : Z) : M unit :=
  _ ← modify (fun w => set_defer (set_inhibit true (w_defer w)) w);
  defer_loop 21.

(** ** UDP *)
Definition xstack_udp_send (s : xstack_sock) (d : dgram) : M Z :=
  r ← lift (udp_datagram s d);
  match r with
  | inr e => mret e
  | inl buf => ip_send (inet4_addr (dgram_dstaddr d)) IP_PROTO_UDP buf (length buf)
  end.

(** ** Configuration *)

(** A failing [ether_handle2addr] leaves [mac] without a value. *)
Definition ip_config (ether_handle ip_addr netmask : Z) : M Z :=
  let route := IpRoute (Z.land ip_addr netmask) netmask 0 ip_addr ether_handle in
  mac ← ether_handle2addr ether_handle;
  mac ← lift (deref mac);
  _ ← on w_arp set_arp (fun a => arp_cache_insert a ip_addr mac ARP_CACHE_STATIC);
  _ ← on w_rib set_rib (fun r => ip_route_update r route);
  _ ← arp_gratuitous ether_handle ip_addr;
  _ ← arp_gratuitous ether_handle ip_addr;
  _ ← arp_gratuitous ether_handle ip_addr;
  mret 0.
End kernel.
