(* ===== verification/IpFragments.v ===== *)
(** * Fragmentation: what [ip_send_fragments] puts on the wire

    A reference function [plan] cuts the data; the loop of the code sends
    exactly the packets of the plan, and the plan satisfies what reassembly asks
    for. *)

From S2P Require Import Prelude Bytes EtherFcs Checksum IpHeader RBTree RBIndex Rib.
From S2P Require Import Udp IpDefer Ether Arp Fragment World Output.

#[local] Open Scope Z_scope.

(** ** The plan *)
Definition MAX_CHUNK : nat := 1472.

(** The fragments of the data from the offset [off] on, [n] bytes. *)
Fixpoint plan (fuel : nat) (off n : nat) : list fragment :=
  match fuel with
  | O => []
  | S fuel =>
      let size := (n `min` MAX_CHUNK)%nat in
      Frag (off / 8)%nat size :: if bool_decide (size = n) then [] else plan fuel (off + size) (n - size)
  end.

Lemma next_fragment_size_plain n :
  0 <= n → next_fragment_size n 20 ETHER_DATA_LEN = Z.min n 1472.
Proof.
  intros Hn. unfold next_fragment_size. change (ip_off_round _) with 1472. case_tests; lia.
Qed.

(** A bit above a number is added by a bitwise or. *)
Lemma lor_high n b : 0 <= n → 0 <= b < 2 ^ n → Z.lor (2 ^ n) b = 2 ^ n + b.
Proof.
  intros Hn Hb. assert (Hland : Z.land (2 ^ n) b = 0).
  { apply Z.bits_inj'. intros k Hk. rewrite Z.land_spec, Z.testbit_0_l.
    destruct (decide (k = n)) as [->|Hne]; [|by rewrite Z.pow2_bits_false by lia].
    rewrite (Z.testbit_odd b), Z.shiftr_div_pow2, Z.div_small by lia. by rewrite andb_false_r. }
  rewrite Z.add_nocarry_lxor by done. symmetry. by apply Z.lxor_lor.
Qed.

(** A packet on the wire that carries the fragment [f] of [data]. *)
Definition carries (h : ip_hdr) (data : list Z) (f : fragment) (pkt : list Z) : Prop :=
  ∃ c, 0 <= c < 65536 ∧
    pkt = ip_hdr_store (set_csum c (hdr_hton (frag_ip h data f))) ++ chunk data f ∧
    ip_checksum (take 20 pkt) = 0.

(** ** The world after some frames *)
Definition sent (frames : list (list Z)) (w : world) : world :=
  World (errno w) (ether_if w) (tx w ++ frames) (w_rib w) (w_arp w) (w_defer w) (ip_global_id w)
    (w_udp w) (w_tcp w) (w_frag w).

Lemma sent_nil w : sent [] w = w.
Proof. unfold sent. rewrite app_nil_r. by destruct w. Qed.

Lemma sent_sent a b w : sent b (sent a w) = sent (a ++ b) w.
Proof. unfold sent. simpl. by rewrite <-app_assoc. Qed.

Lemma M_bind_done {A B} (m : M A) (f : A → M B) w a w' :
  m w = Done (a, w') → (m ≫= f) w = f a w'.
Proof. intros H. unfold mbind, M_bind. by rewrite H. Qed.

Lemma lift_bind {A B} (o : outcome A) (f : A → M B) w a :
  o = Done a → (lift o ≫= f) w = f a w.
Proof. intros ->. done. Qed.

Section kernel.
Context `{ReliableKernel}.

Lemma ether_send_ok w mac dst proto buf :
  ether_if w = [mac] → Z.of_nat (length buf) <= 1500 →
  ether_send 0 dst proto buf w =
    Done (Z.of_nat (length (ether_frame mac dst proto buf)), sent [ether_frame mac dst proto buf] w).
Proof.
  intros Hif Hl. unfold ether_send. rewrite frame_too_big_iff by lia.
  rewrite bool_decide_false by lia.
  rewrite (M_bind_done _ _ w (Some mac) w).
  2:{ unfold ether_handle2eth. rewrite bool_decide_false by (unfold ETHER_MAX_IF; lia).
      rewrite (lift_bind _ _ w tt) by by apply require_decide_true.
      rewrite (M_bind_done _ _ w [mac] w) by (unfold gets; by rewrite Hif). done. }
  unfold mbind, M_bind, gets, log_tx, modify. simpl. rewrite sendto_all.
  by rewrite bool_decide_false by lia.
Qed.

(** ** The loop *)
Context (h : ip_hdr) (data mac dst_mac : list Z).

(** What the plan asks of the header and of the data. *)
Definition sendable : Prop :=
  ip_hdr_ok h ∧ ip_hdr_hlen h = 20 ∧ bytes data ∧ 0 < Z.of_nat (length data) <= 65515.

(** The headers of the loop differ in length and offset only. *)
Definition same_packet (ip : ip_hdr) : Prop := blank_len ip = blank_len h.

Lemma fragment_hdr_frag ip (off size : nat) :
  sendable → same_packet ip → (off mod 8 = 0)%nat → (off + size <= length data)%nat →
  fragment_hdr ip size (Z.of_nat (length data) - off - size) off =
  frag_ip h data (Frag (off / 8)%nat size).
Proof.
  intros (Hok & Hhl & _ & Hlen) Hsame Hmod Hle. unfold same_packet, blank_len in Hsame.
  injection Hsame as Hv Ht Hi Httl Hp Hc Hs Hd. unfold fragment_hdr, frag_ip. cbn [f_block f_size].
  assert (Hih : ip_hdr_hlen ip = 20) by (unfold ip_hdr_hlen in *; by rewrite Hv).
  rewrite Hv, Ht, Hi, Httl, Hp, Hc, Hs, Hd, Hih, Hhl.
  assert (Hoff : Z.of_nat off = 8 * Z.of_nat (off / 8)).
  { rewrite Nat2Z.inj_div. apply (f_equal Z.of_nat) in Hmod. rewrite Nat2Z.inj_mod in Hmod. dlia. }
  f_equal.
  - unfold u16. apply Z.mod_small. lia.
  - rewrite Z.shiftr_div_pow2 by lia. change (2 ^ 3) with 8.
    assert (Hdiv : Z.of_nat off / 8 = Z.of_nat (off / 8)) by dlia. rewrite Hdiv. unfold more. cbn [f_block f_size].
    rewrite <-Hoff. unfold u16, IP_FLAGS_MF.
    destruct (decide (Z.of_nat (length data) - off - size = 0)) as [E|E].
    + rewrite bool_decide_true by done. rewrite (bool_decide_false (off + size < length data)) by lia.
      rewrite Z.lor_0_l. rewrite Z.mod_small by lia. lia.
    + rewrite bool_decide_false by done. rewrite (bool_decide_true (off + size < length data)) by lia.
      assert (Hb : 0 <= Z.of_nat (off / 8) < 2 ^ 13) by lia.
      change 0x2000 with (2 ^ 13). rewrite lor_high by done. change (2 ^ 13) with 0x2000 in *.
      rewrite Z.mod_small by lia. lia.
Qed.

Definition total_length (frames : list (list Z)) : Z :=
  foldr (fun f n => Z.of_nat (length f) + n) 0 frames.

(** The packets of the fragments as frames. *)
Definition frames_of (pkts : list (list Z)) : list (list Z) :=
  ether_frame mac dst_mac ETHER_PROTO_IPV4 <$> pkts.

(** What the data part of the packet buffer still holds. *)
Definition buffer_from (off : nat) (payload : list Z) : Prop :=
  bytes payload ∧ length payload = (20 + length data)%nat ∧
  drop (20 + off) payload = drop off data.

Lemma drop_after k (a b : list Z) : (length a <= k)%nat → drop k (a ++ b) = drop (k - length a) b.
Proof. intros Hk. rewrite drop_app. by rewrite (drop_ge a k) by lia. Qed.

(** One round: the packet of the fragment, and the buffer for the next one. *)
Lemma fragment_round ip payload (off size : nat) :
  sendable → same_packet ip → (off mod 8 = 0)%nat → (off + size <= length data)%nat →
  buffer_from off payload →
  let f := Frag (off / 8)%nat size in
  ∃ c payload' pkt, carries h data f pkt ∧
    ip_hton (frag_ip h data f) payload =
      Done (ip_hdr_store (set_csum c (hdr_hton (frag_ip h data f))) ++ drop 20 payload) ∧
    mem_read (20 + off) size
      (ip_hdr_store (set_csum c (hdr_hton (frag_ip h data f))) ++ drop 20 payload) =
      Done (chunk data f) ∧
    mem_write 20 (chunk data f)
      (ip_hdr_store (set_csum c (hdr_hton (frag_ip h data f))) ++ drop 20 payload) = Done payload' ∧
    mem_read 0 (20 + size) payload' = Done pkt ∧
    buffer_from (off + size) payload'.
Proof.
  intros (Hok & Hhl & Hdata & Hlen) Hsame Hmod Hle (Hb & Hl & Hdrop) f.
  assert (Hfh : ip_hdr_hlen (frag_ip h data f) = 20) by done.
  destruct (ip_hton_plain (frag_ip h data f) payload Hb Hfh ltac:(lia)) as (c & Hc & Hton & Hz).
  set (hd := ip_hdr_store (set_csum c (hdr_hton (frag_ip h data f)))) in *.
  assert (Hhd : length hd = 20%nat) by done.
  assert (Hoff : Z.to_nat (8 * f_block f) = off).
  { unfold f. cbn [f_block]. apply (f_equal Z.of_nat) in Hmod. rewrite Nat2Z.inj_mod in Hmod.
    rewrite Nat2Z.inj_div. dlia. }
  assert (Hch : chunk data f = take size (drop off data)) by (unfold chunk; by rewrite Hoff).
  assert (Hcl : length (chunk data f) = size) by (rewrite Hch, length_take, length_drop; lia).
  assert (Hpay : drop off (drop 20 payload) = drop off data) by by rewrite drop_drop.
  exists c, (hd ++ chunk data f ++ drop (20 + size) payload), (hd ++ chunk data f). fold hd. split_and!.
  - exists c. split; [done|]. split; [done|]. by rewrite take_app_exact.
  - done.
  - rewrite mem_read_ok by (rewrite length_app, length_drop; lia). f_equal.
    rewrite drop_after by lia. rewrite Hhd. replace (20 + off - 20)%nat with off by lia.
    by rewrite Hpay, Hch.
  - rewrite mem_write_ok by (rewrite length_app, length_drop; lia). f_equal.
    rewrite take_app_exact by done. do 2 f_equal. rewrite drop_after by lia. rewrite drop_drop.
    f_equal. lia.
  - rewrite mem_read_ok by (rewrite !length_app, length_drop; lia). f_equal. rewrite drop_0.
    rewrite app_assoc. apply take_app_exact. rewrite length_app. lia.
  - split_and!.
    + apply Forall_app_2; [apply ip_hdr_store_bytes|]. rewrite Hch.
      apply Forall_app_2; [by apply Forall_take, Forall_drop|by apply Forall_drop].
    + rewrite !length_app, length_drop. lia.
    + rewrite app_assoc, drop_after by (rewrite length_app; lia). rewrite length_app, drop_drop.
      replace (20 + size + (20 + (off + size) - (length hd + length (chunk data f))))%nat
        with (20 + (off + size))%nat by lia.
      rewrite <-(drop_drop data size off), <-Hdrop, drop_drop. done.
Qed.

Lemma send_loop fuel (off : nat) ip payload retval w :
  sendable → same_packet ip → (off mod 8 = 0)%nat → (off < length data)%nat →
  buffer_from off payload → (length data - off < fuel)%nat → ether_if w = [mac] →
  ∃ pkts, Forall2 (carries h data) (plan fuel off (length data - off)) pkts ∧
    send_fragments_loop fuel 0 dst_mac ip payload (Z.of_nat (length data) - off) off retval w =
      Done (retval + total_length (frames_of pkts), sent (frames_of pkts) w).
Proof.
  intros Hs. revert off ip payload retval w. induction fuel as [|fuel IH];
    intros off ip payload retval w Hsame Hmod Hoff Hbuf Hfuel Hif; [lia|].
  set (n := (length data - off)%nat). set (size := (n `min` MAX_CHUNK)%nat).
  pose proof Hs as (Hok & Hhl & Hdata & Hlen).
  assert (Hih : ip_hdr_hlen ip = 20).
  { unfold same_packet, blank_len in Hsame. injection Hsame as Hv _ _ _ _ _ _ _.
    unfold ip_hdr_hlen in *. by rewrite Hv. }
  assert (Hsize : Z.min (Z.of_nat (length data) - off) 1472 = size)
    by (unfold size, n, MAX_CHUNK; lia).
  destruct (fragment_round ip payload off size Hs Hsame Hmod ltac:(unfold size, n; lia) Hbuf)
    as (c & payload' & pkt & Hcar & Hton & Hrd & Hwr & Hfr & Hbuf').
  cbn [send_fragments_loop plan]. fold n size. rewrite Hih.
  rewrite next_fragment_size_plain, Hsize by lia.
  assert (Hu : u64 (Z.of_nat (length data) - off - size) = Z.of_nat (length data) - off - size).
  { unfold u64. apply Z.mod_small. unfold size, n. lia. }
  rewrite Hu, fragment_hdr_frag by (done || unfold size, n; lia).
  set (f := Frag (off / 8)%nat size) in *.
  rewrite (lift_bind _ _ w _ Hton). change (Z.to_nat 20) with 20%nat. rewrite !Nat2Z.id.
  rewrite (lift_bind _ _ w _ Hrd), (lift_bind _ _ w _ Hwr).
  assert (Hil : Z.to_nat (ip_len (frag_ip h data f)) = (20 + size)%nat).
  { cbn [ip_len frag_ip]. rewrite Hhl. unfold f. cbn [f_size]. lia. }
  rewrite Hil, (lift_bind _ _ w _ Hfr).
  assert (Hpl : Z.of_nat (length pkt) <= 1500).
  { apply mem_read_done in Hfr as [_ ->]. rewrite length_take. unfold size, MAX_CHUNK. lia. }
  rewrite (M_bind_done _ _ w _ _ (ether_send_ok w mac dst_mac ETHER_PROTO_IPV4 pkt Hif Hpl)).
  cbv beta zeta. rewrite (bool_decide_false (Z.of_nat (length _) < 0)) by lia.
  destruct (decide (size = n)) as [Heq|Hne].
  - rewrite (bool_decide_false (_ > 0)) by (unfold n in Heq; lia).
    rewrite (bool_decide_true (size = n)) by done.
    exists [pkt]. split; [constructor; [exact Hcar|constructor]|]. unfold frames_of, total_length, mret, M_ret. simpl.
    do 2 f_equal. lia.
  - assert (Hsz : size = MAX_CHUNK) by (unfold size in *; lia).
    rewrite (bool_decide_true (_ > 0)) by (unfold size, n in *; lia).
    rewrite (bool_decide_false (size = n)) by done.
    destruct (IH (off + size)%nat (frag_ip h data f) payload' (retval + Z.of_nat (length
      (ether_frame mac dst_mac ETHER_PROTO_IPV4 pkt))) (sent [ether_frame mac dst_mac ETHER_PROTO_IPV4 pkt] w))
      as (pkts & Hall & Hrun); [done| |unfold size, n in *; lia|done|unfold size, n in *; lia|done|].
    { rewrite Hsz. apply Nat.Div0.mod_divides. apply Nat.Div0.mod_divides in Hmod as [q ->].
      exists (q + 184)%nat. unfold MAX_CHUNK. lia. }
    exists (pkt :: pkts). replace (n - size)%nat with (length data - (off + size))%nat by (unfold n; lia).
    split; [by constructor|].
    rewrite Nat2Z.inj_add in Hrun.
    replace (Z.of_nat (length data) - off - size) with (Z.of_nat (length data) - (Z.of_nat off + size)) by lia.
    rewrite Hrun, sent_sent. unfold frames_of. rewrite fmap_cons. simpl total_length.
    do 2 f_equal. lia.
Qed.
End kernel.

(** ** The plan is what reassembly asks for *)
Section plan.
Context (h : ip_hdr) (data : list Z).
Context (Hhl : ip_hdr_hlen h = 20).
Context (Hlen : 1472 < Z.of_nat (length data) <= 65515).

Definition plan_at (off : nat) : Prop := (off mod 8 = 0)%nat ∧ (off < length data)%nat.

Lemma plan_head_ok off (size := ((length data - off) `min` MAX_CHUNK)%nat) :
  plan_at off → frag_ok h data (Frag (off / 8)%nat size) ∧
  8 * Z.of_nat (off / 8) = off ∧
  more data (Frag (off / 8)%nat size) = negb (bool_decide (size = (length data - off)%nat)).
Proof.
  intros [Hmod Hoff]. assert (H8 : 8 * Z.of_nat (off / 8) = off).
  { apply (f_equal Z.of_nat) in Hmod. rewrite Nat2Z.inj_mod in Hmod. rewrite Nat2Z.inj_div. dlia. }
  assert (Hmore : more data (Frag (off / 8)%nat size) =
    negb (bool_decide (size = (length data - off)%nat))).
  { unfold more. cbn [f_block f_size]. rewrite H8. subst size. unfold MAX_CHUNK in *.
    case_tests; simpl; lia || done. }
  split; [|done]. unfold frag_ok. rewrite Hmore. cbn [f_block f_size]. rewrite H8, Hhl.
  subst size. unfold MAX_CHUNK in *. split_and!; try lia.
  - case_bool_decide as E; [done|]. intros _.
    rewrite Nat.min_r by lia. done.
  - intros E. rewrite bool_decide_false; [done|]. assert (Z.of_nat off = 0) by lia. lia.
Qed.

Lemma plan_next off :
  plan_at off → ((length data - off) `min` MAX_CHUNK)%nat ≠ (length data - off)%nat →
  plan_at (off + (length data - off) `min` MAX_CHUNK).
Proof.
  intros [Hmod Hoff] Hne. rewrite Nat.min_r by lia. unfold MAX_CHUNK in *. split; [|lia].
  apply Nat.Div0.mod_divides. apply Nat.Div0.mod_divides in Hmod as [q ->].
  exists (q + 184)%nat. lia.
Qed.

(** No first fragment after the last one, and every fragment well made. *)
Fixpoint in_order (seen fs : list fragment) : Prop :=
  match fs with
  | [] => True
  | f :: fs => frag_ok h data f ∧ (f_block f = 0 → len_known data seen = false) ∧ in_order (f :: seen) fs
  end.

Lemma in_order_ok seen fs : in_order seen fs → Forall (frag_ok h data) fs.
Proof. revert seen. induction fs as [|f fs IH]; intros seen; [constructor|]. intros (Hf & _ & Hin). constructor; eauto. Qed.

Lemma plan_in_order fuel off seen :
  plan_at off → len_known data seen = false → in_order seen (plan fuel off (length data - off)).
Proof.
  revert off seen. induction fuel as [|fuel IH]; intros off seen Hat Hseen; [done|].
  cbn [plan in_order]. destruct (plan_head_ok off Hat) as (Hok & _ & Hmore).
  split; [done|]. split; [done|]. case_bool_decide as E; [done|].
  replace (length data - off - _)%nat
    with (length data - (off + (length data - off) `min` MAX_CHUNK))%nat by lia.
  apply IH; [by apply plan_next|]. cbn [len_known]. rewrite Hmore, Hseen, ?bool_decide_false by done. apply andb_false_r.
Qed.

Lemma plan_ok fuel off : plan_at off → Forall (frag_ok h data) (plan fuel off (length data - off)).
Proof. intros Hat. by apply (in_order_ok []), plan_in_order. Qed.

(** The plan ends with the last fragment and covers every block. *)
Lemma plan_covers fuel off :
  plan_at off → (length data - off < fuel)%nat →
  (∃ l f, plan fuel off (length data - off) = l ++ [f] ∧ more data f = false) ∧
  ∀ j, off / 8 <= j < (length data + 7) / 8 →
    covered (plan fuel off (length data - off)) j = true.
Proof.
  revert off. induction fuel as [|fuel IH]; intros off Hat Hfuel; [lia|].
  cbn [plan]. destruct (plan_head_ok off Hat) as (_ & H8 & Hmore).
  set (size := ((length data - off) `min` MAX_CHUNK)%nat) in *.
  assert (Hc : ∀ j, covers_block (Frag (off / 8)%nat size) j =
    bool_decide (off / 8 <= j < (off + size + 7) / 8)).
  { intros j. unfold covers_block. cbn [f_block f_size]. apply bool_decide_ext. dlia. }
  case_bool_decide as E.
  - split; [by exists [], (Frag (off / 8)%nat size); rewrite Hmore, ?bool_decide_true by done|].
    unfold covered. cbn [existsb]. intros j Hj. rewrite Hc, orb_false_r.
    apply bool_decide_eq_true. rewrite E. destruct Hat.
    replace (Z.of_nat off + Z.of_nat (length data - off) + 7) with (Z.of_nat (length data) + 7) by lia.
    done.
  - assert (Hnext := plan_next off Hat E). fold size in Hnext.
    replace (length data - off - size)%nat with (length data - (off + size))%nat by lia.
    assert (Hpos : (0 < size)%nat) by (unfold size, MAX_CHUNK; destruct Hat; lia).
    destruct (IH (off + size)%nat Hnext ltac:(destruct Hat; lia)) as [(l & f & Hl & Hf) Hcov].
    split; [by exists (Frag (off / 8)%nat size :: l), f; rewrite Hl|]. unfold covered in *. cbn [existsb].
    intros j Hj. rewrite Hc.
    destruct (decide (j < (off + size) / 8)) as [Hlt|Hge].
    + rewrite bool_decide_true; [done|]. dlia.
    + apply orb_true_intro. right. apply Hcov. rewrite Nat2Z.inj_add. lia.
Qed.

Lemma existsb_rev {A} (p : A → bool) l : existsb p (rev l) = existsb p l.
Proof.
  apply eq_true_iff_eq. rewrite !existsb_exists. setoid_rewrite <-in_rev. done.
Qed.

Lemma plan_all_seen fuel :
  (length data < fuel)%nat → all_seen data (rev (plan fuel 0 (length data))) = true.
Proof.
  intros Hfuel. assert (Hat : plan_at 0) by (split; [done|lia]).
  destruct (plan_covers fuel 0 Hat ltac:(lia)) as [(l & f & Hl & Hf) Hc].
  pose proof (plan_ok fuel 0 Hat) as Hok. rewrite Nat.sub_0_r in Hl, Hc, Hok.
  assert (Hk : len_known data (rev (plan fuel 0 (length data))) = true).
  { rewrite Hl, rev_unit. cbn [len_known]. rewrite Hf. cbn [negb orb]. rewrite bool_decide_false; [done|]. intros H0.
    rewrite Hl in Hok. apply Forall_app in Hok as [_ Hok%Forall_inv]. destruct Hok as (_ & _ & _ & _ & Hm & _).
    by rewrite (Hm H0) in Hf. }
  unfold all_seen. rewrite Hk. cbn [andb]. apply forallb_forall. intros j Hj. unfold covered. rewrite existsb_rev.
  apply Hc. apply list_elem_of_In, elem_of_seqZ in Hj. change (Z.of_nat 0 / 8) with 0. lia.
Qed.

(** The chunks put together are the data. *)
Lemma plan_concat fuel off :
  plan_at off → (length data - off < fuel)%nat →
  concat (chunk data <$> plan fuel off (length data - off)) = drop off data.
Proof.
  revert off. induction fuel as [|fuel IH]; intros off Hat Hfuel; [lia|].
  cbn [plan]. destruct (plan_head_ok off Hat) as (_ & H8 & _).
  set (size := ((length data - off) `min` MAX_CHUNK)%nat) in *.
  rewrite fmap_cons. cbn [concat]. unfold chunk at 1. cbn [f_block f_size]. rewrite H8, Nat2Z.id.
  case_bool_decide as E.
  - cbn [fmap list_fmap concat]. rewrite app_nil_r. apply take_ge. rewrite length_drop. lia.
  - replace (length data - off - size)%nat with (length data - (off + size))%nat by lia.
    rewrite (IH (off + size)%nat) by (by apply plan_next || (destruct Hat; unfold size, MAX_CHUNK; lia)).
    rewrite <-(take_drop size (drop off data)) at 2. by rewrite drop_drop.
Qed.
End plan.

(** ** The packet of [ip_send] *)
Definition sent_hdr (src dst proto id : Z) (n : Z) : ip_hdr :=
  IpHdr IP_VHL_DEFAULT IP_TOS_DEFAULT (20 + n) id IP_TOFF_DEFAULT IP_TTL_DEFAULT proto 0 src dst.

Lemma sent_hdr_ok src dst proto id n :
  0 <= src < 4294967296 → 0 <= dst < 4294967296 → 0 <= proto < 256 → 0 <= id < 65536 →
  0 <= n <= 65515 → ip_hdr_ok (sent_hdr src dst proto id n).
Proof.
  intros. unfold ip_hdr_ok, sent_hdr, IP_VHL_DEFAULT, IP_TOS_DEFAULT, IP_TOFF_DEFAULT, IP_TTL_DEFAULT.
  simpl. lia.
Qed.

Lemma ip_packet_done src dst proto id buf :
  bytes buf → 0 <= id < 65536 → Z.of_nat (length buf) <= 65515 →
  ∃ c, 0 <= c < 65536 ∧
    ip_packet src dst proto id buf =
      Done (ip_hdr_store (set_csum c (hdr_hton (sent_hdr src dst proto id (length buf)))) ++ buf) ∧
    ip_checksum (ip_hdr_store (set_csum c (hdr_hton (sent_hdr src dst proto id (length buf))))) = 0.
Proof.
  intros Hb Hid Hn. unfold ip_packet.
  assert (E : IpHdr IP_VHL_DEFAULT IP_TOS_DEFAULT (u16 (20 + length buf)) (u16 id) IP_TOFF_DEFAULT
    IP_TTL_DEFAULT proto 0 src dst = sent_hdr src dst proto id (length buf)).
  { unfold sent_hdr, u16. by rewrite !Z.mod_small by lia. }
  rewrite E. set (h := sent_hdr src dst proto id (length buf)).
  destruct (ip_hton_plain h (ip_hdr_store h ++ buf)) as (c & Hc & Hd & Hz).
  - apply Forall_app_2; [apply ip_hdr_store_bytes|done].
  - done.
  - rewrite length_app. change (length (ip_hdr_store h)) with 20%nat. lia.
  - exists c. split; [done|]. rewrite Hd. by rewrite drop_app_exact.
Qed.

(** What an [ip_packet] parses to. *)
Lemma ip_ntoh_stored h c rest :
  ip_hdr_ok h → 0 <= c < 65536 →
  ip_ntoh (ip_hdr_store (set_csum c (hdr_hton h)) ++ rest) = Done (ip_hdr_hlen h, set_csum c h).
Proof.
  intros Hok Hc. unfold ip_ntoh.
  rewrite ip_hdr_load_store by (by apply set_csum_ok, hdr_hton_ok). rewrite bind_done. cbv zeta.
  assert (E := hdr_ntoh_hton h Hok). apply (f_equal (set_csum c)) in E.
  change (set_csum c (set_csum 0 h)) with (set_csum c h) in E. rewrite <-E. done.
Qed.

Lemma frag_ip_ok h data f :
  ip_hdr_ok h → ip_hdr_hlen h = 20 → data_ok data → frag_ok h data f → ip_hdr_ok (frag_ip h data f).
Proof.
  intros Hok Hhl Hd Hf. pose proof (frag_bounds h data f Hd Hf) as (Hb & _).
  unfold frag_ok in Hf. unfold ip_hdr_ok in *. cbn [frag_ip ip_vhl ip_tos ip_len ip_id ip_foff ip_ttl
    ip_proto ip_csum ip_src ip_dst]. unfold IP_FLAGS_MF. destruct_and!. destruct (more data f); lia.
Qed.

(** The receiver of a sequence of packets. *)
Fixpoint receive_packets (st : frag_state) (pkts : list (list Z))
    : outcome (list (Z + nat * bool) * frag_state) :=
  match pkts with
  | [] => Done ([], st)
  | pkt :: pkts =>
      '(hlen, ip) ← ip_ntoh pkt;
      '(r, st) ← frag_receive st ip (drop (Z.to_nat hlen) pkt);
      '(rs, st) ← receive_packets st pkts;
      Done (r :: rs, st)
  end.

Lemma receive_carried h data fs pkts st :
  ip_hdr_ok h → ip_hdr_hlen h = 20 → data_ok data →
  Forall2 (carries h data) fs pkts → Forall (frag_ok h data) fs →
  ∃ arr, fragment_of <$> arr = fs ∧ receive_packets st pkts = frag_run st h data arr.
Proof.
  intros Hok Hhl Hd Hall. revert st. induction Hall as [|f pkt fs pkts Hc Hall IH]; intros st Hin.
  { by exists []. }
  apply Forall_cons in Hin as [Hf Hin]. destruct Hc as (c & Hc & -> & _).
  assert (IH' := λ st, IH st Hin).
  pose proof (frag_ip_ok h data f Hok Hhl Hd Hf) as Hfok.
  cbn [receive_packets]. rewrite ip_ntoh_stored by done. rewrite bind_done.
  change (ip_hdr_hlen (frag_ip h data f)) with (ip_hdr_hlen h). rewrite Hhl.
  rewrite drop_app_exact by done. rewrite <-(app_nil_r (chunk data f)).
  destruct (frag_receive st (set_csum c (frag_ip h data f)) (chunk data f ++ [])) as [[r st1]| |] eqn:Hr.
  - destruct (IH' st1) as (arr & Harr & Hrun). exists ((f, c, []) :: arr).
    rewrite fmap_cons, Harr. split; [done|]. cbn [frag_run]. by rewrite Hr, !bind_done, Hrun.
  - destruct (IH' st) as (arr & Harr & _). exists ((f, c, []) :: arr). rewrite fmap_cons, Harr.
    split; [done|]. cbn [frag_run]. by rewrite Hr.
  - destruct (IH' st) as (arr & Harr & _). exists ((f, c, []) :: arr). rewrite fmap_cons, Harr.
    split; [done|]. cbn [frag_run]. by rewrite Hr.
Qed.

Lemma completions_last data seen fs :
  fs ≠ [] → ∃ l, completions data seen fs = l ++ [all_seen data (rev fs ++ seen)].
Proof.
  revert seen. induction fs as [|f fs IH]; intros seen Hne; [done|]. cbn [completions].
  destruct fs as [|f' fs]; [by exists []|].
  destruct (IH (f :: seen) ltac:(done)) as (l & ->). exists (all_seen data (f :: seen) :: l).
  cbn [rev]. by rewrite <-!app_assoc.
Qed.

(** ** Properties *)
Section properties.
Context `{ReliableKernel}.

(** What [ip_send] hands to [ip_send_fragments]. *)
Lemma send_fragments_plan w mac dst_mac src dst proto id buf pkt :
  0 <= src < 4294967296 → 0 <= dst < 4294967296 → 0 <= proto < 256 → 0 <= id < 65536 →
  bytes buf → 1472 < Z.of_nat (length buf) <= 65515 → ether_if w = [mac] →
  ip_packet src dst proto id buf = Done pkt →
  let h := sent_hdr src dst proto id (length buf) in
  ∃ fuel pkts, (length buf < fuel)%nat ∧
    Forall2 (carries h buf) (plan fuel 0 (length buf)) pkts ∧
    ip_send_fragments 0 dst_mac pkt (length pkt) w =
      Done (total_length (frames_of mac dst_mac pkts), sent (frames_of mac dst_mac pkts) w).
Proof.
  intros Hs Hd Hp Hi Hb Hn Hif Hpkt h.
  destruct (ip_packet_done src dst proto id buf Hb Hi ltac:(lia)) as (c & Hc & Hpkt' & _).
  rewrite Hpkt' in Hpkt. apply done_inj in Hpkt as <-. fold h in Hc |- *.
  assert (Hok : ip_hdr_ok h) by (apply sent_hdr_ok; done || lia).
  set (hc := set_csum c h).
  assert (Hsend : sendable hc buf).
  { split; [by apply set_csum_ok|]. split; [done|]. split; [done|lia]. }
  set (pkt := ip_hdr_store (set_csum c (hdr_hton h)) ++ buf).
  assert (Hpl : length pkt = (20 + length buf)%nat) by done.
  destruct (send_loop hc buf mac dst_mac (S (length pkt)) 0 hc pkt 0 w Hsend) as (pkts & Hall & Hrun);
    [done|done|lia| |lia|done|].
  { split_and!; [|done|]. { apply Forall_app_2; [apply ip_hdr_store_bytes|done]. }
    rewrite Nat.add_0_r, drop_0. unfold pkt. by apply drop_app_exact. }
  rewrite Nat.sub_0_r in Hall. exists (S (length pkt)), pkts. split; [lia|]. split.
  - eapply Forall2_impl; [exact Hall|]. intros f p (c' & Hc' & -> & Hz). exists c'.
    by split; [|split].
  - unfold ip_send_fragments. rewrite (lift_bind _ _ w _ (ip_ntoh_stored h c buf Hok Hc)).
    fold pkt hc. change (ip_hdr_hlen h) with 20.
    assert (Hu : u64 (Z.of_nat (length pkt) - 20) = Z.of_nat (length buf)).
    { unfold u64. rewrite Hpl, Z.mod_small by lia. lia. }
    rewrite Hu. rewrite Z.sub_0_r in Hrun. exact Hrun.
Qed.

Lemma carried_size h data fs pkts :
  ip_hdr_hlen h = 20 → (∀ f, f ∈ fs → (f_size f <= 1472)%nat) →
  Forall2 (carries h data) fs pkts → Forall (fun p => Z.of_nat (length p) <= 1500) pkts.
Proof.
  intros Hhl Hsz Hall. induction Hall as [|f pkt fs pkts (c & _ & -> & _) Hall IH]; constructor.
  - rewrite length_app. change (length (ip_hdr_store _)) with 20%nat. unfold chunk.
    rewrite length_take. specialize (Hsz f ltac:(left)). lia.
  - apply IH. intros. apply Hsz. by right.
Qed.

Lemma plan_sizes fuel off n f : f ∈ plan fuel off n → (f_size f <= 1472)%nat.
Proof.
  revert off n. induction fuel as [|fuel IH]; intros off n; cbn [plan]; [by intros ?%elem_of_nil|].
  intros [->|Hf]%elem_of_cons; [cbn [f_size]; unfold MAX_CHUNK; lia|].
  case_bool_decide; [by apply elem_of_nil in Hf|]. by eapply IH.
Qed.

Lemma send_fragments_done w mac dst_mac src dst proto id buf pkt :
  0 <= src < 4294967296 → 0 <= dst < 4294967296 → 0 <= proto < 256 → 0 <= id < 65536 →
  bytes buf → 1472 < Z.of_nat (length buf) <= 65515 → ether_if w = [mac] →
  ip_packet src dst proto id buf = Done pkt →
  let h := sent_hdr src dst proto id (length buf) in
  ∃ fs pkts, ip_send_fragments 0 dst_mac pkt (length pkt) w =
      Done (total_length (frames_of mac dst_mac pkts), sent (frames_of mac dst_mac pkts) w) ∧
    Forall2 (carries h buf) fs pkts ∧ Forall (fun p => Z.of_nat (length p) <= 1500) pkts ∧
    in_order h buf [] fs ∧ concat (chunk buf <$> fs) = buf.
Proof.
  intros Hs Hd Hp Hi Hb Hn Hif Hpkt h.
  destruct (send_fragments_plan w mac dst_mac src dst proto id buf pkt Hs Hd Hp Hi Hb Hn Hif Hpkt)
    as (fuel & pkts & Hfuel & Hall & Hrun).
  exists (plan fuel 0 (length buf)), pkts. split; [done|]. split; [done|].
  assert (Hat : plan_at buf 0) by (split; [done|lia]).
  pose proof (plan_in_order h buf eq_refl Hn fuel 0 [] Hat eq_refl) as Hin.
  pose proof (plan_concat h buf eq_refl Hn fuel 0 Hat ltac:(lia)) as Hcat.
  rewrite Nat.sub_0_r in Hin, Hcat. split; [|by split].
  eapply (carried_size h); [done| |exact Hall]. intros f. apply plan_sizes.
Qed.

(** Fragmentation: for a packet of [ip_send] that does not fit the link,
    [ip_send_fragments] returns the number of bytes sent and hands the link one
    frame per fragment: every fragment is an IP packet of at most 1500 bytes
    with the addresses, protocol and identification of the packet, a header
    checksum that verifies, the offset of its data in blocks of eight bytes and
    the more-fragments flag on all but the last; the data of the fragments put
    together are the data of the packet. *)
Theorem ip_send_fragments_correct w mac dst_mac src dst proto id buf pkt :
  0 <= src < 4294967296 → 0 <= dst < 4294967296 → 0 <= proto < 256 → 0 <= id < 65536 →
  bytes buf → 1472 < Z.of_nat (length buf) <= 65515 → ether_if w = [mac] →
  ip_packet src dst proto id buf = Done pkt →
  let h := sent_hdr src dst proto id (length buf) in
  ∃ fs pkts, ip_send_fragments 0 dst_mac pkt (length pkt) w =
      Done (total_length (frames_of mac dst_mac pkts), sent (frames_of mac dst_mac pkts) w) ∧
    Forall2 (carries h buf) fs pkts ∧ Forall (fun p => Z.of_nat (length p) <= 1500) pkts ∧
    in_order h buf [] fs ∧ concat (chunk buf <$> fs) = buf.
Proof. apply send_fragments_done. Qed.

End properties.

Definition demo_world : world := initial_world mac_a (UdpState [] (RB_INITIALIZER 0)).

Definition demo_buf : list Z := repeat 7 (Z.to_nat 3000).

Definition demo_packet : list Z :=
  match ip_packet 0x0A000002 0x0A000003 17 5 demo_buf with Done p => p | _ => [] end.

Lemma demo_packet_done : ip_packet 0x0A000002 0x0A000003 17 5 demo_buf = Done demo_packet.
Proof. vm_compute. reflexivity. Qed.

Lemma demo_buf_bytes : bytes demo_buf.
Proof. apply Forall_forall. intros x Hx%list_elem_of_In%repeat_spec. by subst. Qed.

Lemma ip_send_fragments_correct_witness :
  let h := sent_hdr 0x0A000002 0x0A000003 17 5 (length demo_buf) in
  ∃ fs pkts, @ip_send_fragments accept_all 0 mac_b demo_packet (length demo_packet) demo_world =
      Done (total_length (frames_of mac_a mac_b pkts), sent (frames_of mac_a mac_b pkts) demo_world) ∧
    Forall2 (carries h demo_buf) fs pkts ∧ Forall (fun p => Z.of_nat (length p) <= 1500) pkts ∧
    in_order h demo_buf [] fs ∧ concat (chunk demo_buf <$> fs) = demo_buf.
Proof.
  apply (@ip_send_fragments_correct accept_all accept_all_reliable demo_world mac_a mac_b);
    [done|done|done|done|apply demo_buf_bytes|done|done|apply demo_packet_done].
Defined.

Section roundtrip.
Context `{ReliableKernel}.

(** C4: Fragmentation and reassembly are inverse: a receiver that parses the
    packets [ip_send_fragments] puts on the wire, in order, with [ip_ntoh] and
    feeds them to its reassembly buffers recognises the packet as complete at
    the last one, and its buffer then holds exactly the data that were sent,
    under a header with the same addresses, protocol and identification. *)
Theorem fragmentation_roundtrip w mac dst_mac src dst proto id buf pkt :
  0 <= src < 4294967296 → 0 <= dst < 4294967296 → 0 <= proto < 256 → 0 <= id < 65536 →
  bytes buf → 1472 < Z.of_nat (length buf) <= 65515 → ether_if w = [mac] →
  ip_packet src dst proto id buf = Done pkt →
  ∃ n pkts rs st c, ip_send_fragments 0 dst_mac pkt (length pkt) w =
      Done (n, sent (frames_of mac dst_mac pkts) w) ∧
    receive_packets frag_init pkts = Done (rs ++ [inr (0%nat, true)], st) ∧
    take (length buf) (pb_payload (buf_at st 0)) = buf ∧
    pb_ip_hdr (buf_at st 0) = set_csum c (with_len (length buf)
      (blank_len (sent_hdr src dst proto id (length buf)))).
Proof.
  intros Hs Hd Hp Hi Hb Hn Hif Hpkt. set (h := sent_hdr src dst proto id (length buf)).
  destruct (send_fragments_plan w mac dst_mac src dst proto id buf pkt Hs Hd Hp Hi Hb Hn Hif Hpkt)
    as (fuel & pkts & Hfuel & Hall & Hrun).
  fold h in Hall. set (fs := plan fuel 0 (length buf)) in *.
  assert (Hat : plan_at buf 0) by (split; [done|lia]).
  assert (Hok : ip_hdr_ok h) by (apply sent_hdr_ok; done || lia).
  assert (Hdata : data_ok buf) by (unfold data_ok; lia).
  pose proof (plan_ok h buf eq_refl Hn fuel 0 Hat) as Hin.
  pose proof (plan_all_seen h buf eq_refl Hn fuel Hfuel) as Hseen. rewrite Nat.sub_0_r in Hin. fold fs in Hin, Hseen.
  assert (Hne : fs ≠ []) by (unfold fs; by destruct fuel; [lia|]).
  destruct (receive_carried h buf fs pkts frag_init Hok eq_refl Hdata Hall Hin) as (arr & Harr & Hrecv).
  destruct (frag_run_complete h buf arr) as (st & Hst & Hpay); [done|done|by intros ->|by rewrite Harr|].
  rewrite Harr in Hst, Hpay. destruct (Hpay Hseen) as [Htake [c Hhdr]].
  destruct (completions_last buf [] fs Hne) as (l & Hl). rewrite app_nil_r, Hseen in Hl.
  rewrite Hl, fmap_app in Hst.
  eexists _, pkts, _, st, c. split; [exact Hrun|]. split; [by rewrite Hrecv, Hst|]. done.
Qed.
End roundtrip.

Lemma fragmentation_roundtrip_witness :
  ∃ n pkts rs st c,
    @ip_send_fragments accept_all 0 mac_b demo_packet (length demo_packet) demo_world =
      Done (n, sent (frames_of mac_a mac_b pkts) demo_world) ∧
    receive_packets frag_init pkts = Done (rs ++ [inr (0%nat, true)], st) ∧
    take (length demo_buf) (pb_payload (buf_at st 0)) = demo_buf ∧
    pb_ip_hdr (buf_at st 0) = set_csum c (with_len (length demo_buf)
      (blank_len (sent_hdr 0x0A000002 0x0A000003 17 5 (length demo_buf)))).
Proof.
  apply (@fragmentation_roundtrip accept_all accept_all_reliable demo_world mac_a mac_b);
    [done|done|done|done|apply demo_buf_bytes|done|done|apply demo_packet_done].
Defined.
