(* ===== verification/Config.v ===== *)
(** * The configured stack: [ip_config] of [src/ip.c], and what follows from it

    [main] configures one address on one interface.  [configured] describes the
    state of the stack from then on: one route, the static ARP entry and
    whatever was learned since; the theorems of [Output] and [Input] are stated
    for it. *)

From S2P Require Import Prelude Bytes EtherFcs Checksum IpHeader RBTree RBIndex RBMap.
From S2P Require Import Rib QueueR Socket Udp Tcp IpDefer Ether Arp Fragment World.
From S2P Require Import Output IpFragments.

#[local] Open Scope Z_scope.

(** ** A table of one route *)
Definition rib_nodes5 : gmap nat rb_entry := rb_nodes (RB_INITIALIZER XSTACK_IP_RIB_SIZE).

Definition rib_one (route : ip_route) : rib_state :=
  RibState [zero_route; zero_route; zero_route; zero_route; route]
    (RbHead (Some 4%nat) rib_nodes5) (RbHead (Some 4%nat) rib_nodes5) [3; 2; 1; 0]%nat.

Lemma rib_first_route route : ip_route_update ip_route_init route = Done (OK, rib_one route).
Proof. vm_compute. reflexivity. Qed.

Lemma rib_node4 : rib_nodes5 !! 4%nat = Some zero_entry.
Proof. reflexivity. Qed.

#[local] Opaque rib_nodes5.

Lemma s32_zero x y : 0 <= x < 2 ^ 32 → 0 <= y < 2 ^ 32 → s32 (u32 (x - y)) = 0 ↔ x = y.
Proof. apply cmp_zero. Qed.

Definition route_in_range (r : ip_route) : Prop :=
  0 <= r_network r < 2 ^ 32 ∧ 0 <= r_netmask r < 2 ^ 32 ∧ 0 <= r_iface r < 2 ^ 32.

Lemma rib_one_iface r a : route_in_range r → 0 <= a < 2 ^ 32 →
  ip_route_find_by_iface (rib_one r) a = Done (if bool_decide (a = r_iface r) then Some r else None).
Proof.
  intros (_ & _ & Hr) Ha. unfold ip_route_find_by_iface, find_iface. simpl rib_sourcetree.
  rewrite (single_find 4 _ rib_node4), bind_done. unfold route_iface_cmp, entry_route. simpl.
  rewrite (bool_decide_ext _ _ (s32_zero a (r_iface r) Ha Hr)). by case_tests.
Qed.

(** The addresses the route answers for: those of its network, and every one
    when its network is 0. *)
Definition reachable (r : ip_route) (a : Z) : bool :=
  bool_decide (a = r_network r) || bool_decide (r_network r = Z.land a (r_netmask r)) ||
  bool_decide (r_network r = 0).

Lemma rib_one_find r x : route_in_range r → 0 <= x < 2 ^ 32 →
  find_network (rib_one r) (with_network x) =
  Done (if bool_decide (x = r_network r) then Some 4%nat else None).
Proof.
  intros (Hn & _ & _) Hx. unfold find_network. cbn [rib_routetree rib_one].
  rewrite (single_find 4 _ rib_node4). f_equal. unfold route_network_cmp, with_network.
  change (entry_route (rib_one r) 4) with r. cbn [r_network].
  pose proof (s32_zero x (r_network r) Hx Hn). case_tests; tauto.
Qed.

Lemma rib_one_network r a : route_in_range r → 0 <= a < 2 ^ 32 →
  ip_route_find_by_network (rib_one r) a = Done (if reachable r a then Some r else None).
Proof.
  intros Hr Ha. unfold ip_route_find_by_network. rewrite (rib_one_find r a Hr Ha), bind_done.
  unfold reachable. destruct (bool_decide (a = r_network r)); [done|]. cbn [orb].
  change (rib_routetree (rib_one r)) with (RbHead (Some 4%nat) rib_nodes5).
  rewrite (single_foreach 4 _ rib_node4), bind_done. change (entry_route (rib_one r) 4) with r.
  destruct (bool_decide (r_network r = Z.land a (r_netmask r))); [done|]. cbn [orb].
  rewrite (rib_one_find r 0 Hr ltac:(lia)), bind_done.
  case_tests; done || congruence.
Qed.

(** ** The state after [ip_config] *)
Definition own_route (own mask : Z) : ip_route := IpRoute (Z.land own mask) mask 0 own 0.

(** The stack with hardware address [mac] and IP address [own] that last heard
    of the host [last], up to [elapsed] seconds ago. *)
Record configured (mac : list Z) (own mask elapsed : Z) (last : option (Z * list Z)) (w : world)
    : Prop := Configured {
  cf_mac : mac_ok mac;
  cf_own : 0 < own < 2 ^ 32;
  cf_mask : 0 <= mask < 2 ^ 32;
  cf_if : ether_if w = [mac];
  cf_rib : w_rib w = rib_one (own_route own mask);
  cf_elapsed : 0 <= elapsed;
  cf_arp : arp_holds own mac elapsed (w_arp w) last
}.

Definition with_errno (e : Z) (w : world) : world :=
  World (s32 e) (ether_if w) (tx w) (w_rib w) (w_arp w) (w_defer w) (ip_global_id w) (w_udp w) (w_tcp w) (w_frag w).

(** The hardware address the stack knows for [a]. *)
Definition known (last : option (Z * list Z)) (a : Z) : option (list Z) :=
  (last_step last (ArpLookup a)).1.

(** The parts of the state that [configured] is about. *)
Lemma configured_ext mac own mask elapsed last w w' :
  configured mac own mask elapsed last w → ether_if w' = ether_if w → w_rib w' = w_rib w →
  w_arp w' = w_arp w → configured mac own mask elapsed last w'.
Proof. intros [] Hi Hr Ha. split; congruence || (rewrite ?Hi, ?Hr, ?Ha; done). Qed.

Lemma own_route_in_range own mask : 0 < own < 2 ^ 32 → 0 <= mask < 2 ^ 32 →
  route_in_range (own_route own mask).
Proof.
  intros Ho Hm. unfold route_in_range, own_route. simpl. split; [|lia].
  split; [apply Z.land_nonneg; lia|].
  destruct (decide (Z.land own mask = 0)) as [->|Hne]; [done|].
  assert (0 <= Z.land own mask) by (apply Z.land_nonneg; lia).
  apply Z.log2_lt_pow2; [lia|].
  eapply Z.le_lt_trans; [apply Z.log2_land; lia|]. apply Z.min_lt_iff. left.
  apply Z.log2_lt_pow2; lia.
Qed.

Section kernel.
Context `{ReliableKernel}.

Lemma handle2addr_ok w mac : ether_if w = [mac] → ether_handle2addr 0 w = Done (Some mac, w).
Proof.
  intros Hif. unfold ether_handle2addr.
  rewrite (M_bind_done _ _ w (Some mac) w); [done|].
  unfold ether_handle2eth. rewrite bool_decide_false by (unfold ETHER_MAX_IF; lia).
  rewrite (lift_bind _ _ w tt) by by apply require_decide_true.
  rewrite (M_bind_done _ _ w [mac] w) by (unfold gets; by rewrite Hif). done.
Qed.

(** The frame of an ARP request or announcement. *)
Definition arp_frame (mac : list Z) (spa tpa : Z) : list Z :=
  ether_frame mac mac_broadcast_addr ETHER_PROTO_ARP (arp_request_msg mac spa tpa).

Lemma arp_msg_length mac spa tpa : mac_ok mac → length (arp_request_msg mac spa tpa) = 28%nat.
Proof. intros [_ Hm]. unfold arp_request_msg. by apply arp_store_length. Qed.

Lemma arp_request_ok w mac spa tpa :
  mac_ok mac → ether_if w = [mac] →
  arp_request 0 spa tpa w = Done (0, sent [arp_frame mac spa tpa] w).
Proof.
  intros Hm Hif. unfold arp_request. rewrite (M_bind_done _ _ w _ _ (handle2addr_ok w mac Hif)).
  cbn [default]. rewrite (M_bind_done _ _ w _ _ (ether_send_ok w mac _ _ (arp_request_msg mac spa tpa) Hif
    ltac:(rewrite arp_msg_length by done; lia))).
  by rewrite bool_decide_false by lia.
Qed.

Lemma arp_gratuitous_ok w mac spa :
  mac_ok mac → ether_if w = [mac] →
  arp_gratuitous 0 spa w = Done (0, sent [arp_frame mac spa spa] w).
Proof.
  intros Hm Hif. unfold arp_gratuitous. rewrite (M_bind_done _ _ w _ _ (handle2addr_ok w mac Hif)).
  cbn [default]. by rewrite (M_bind_done _ _ w _ _ (ether_send_ok w mac _ _ (arp_request_msg mac spa spa) Hif
    ltac:(rewrite arp_msg_length by done; lia))).
Qed.


(** ** [ip_config] *)
Lemma on_done {S A} (get : world → S) set (f : S → outcome (A * S)) w a s :
  f (get w) = Done (a, s) → on get set f w = Done (a, set s w).
Proof. intros Hf. unfold on. by rewrite Hf. Qed.

Lemma config_done mac own mask u :
  mac_ok mac → 0 < own < 2 ^ 32 → 0 <= mask < 2 ^ 32 →
  ∃ w, ip_config 0 own mask (initial_world mac u) = Done (0, w) ∧
    configured mac own mask 0 None w ∧ tx w = repeat (arp_frame mac own own) 3 ∧
    w_udp w = u ∧ w_defer w = defer_init ∧ w_frag w = frag_init ∧ ip_global_id w = 0 ∧
    w_tcp w = TcpTable [] (RbHead None ∅) ∧
    arp_cache (w_arp w) = ArpEntry own mac ARP_CACHE_STATIC :: repeat zero_arp 49.
Proof.
  intros Hm Ho Hk. destruct (config_holds own mac Ho) as (arp & Harp & Hh & Hcache).
  set (w0 := initial_world mac u). unfold ip_config.
  rewrite (M_bind_done _ _ w0 _ _ (handle2addr_ok w0 mac eq_refl)).
  rewrite (lift_bind _ _ w0 mac eq_refl).
  rewrite (M_bind_done _ _ w0 _ _ (on_done w_arp set_arp _ w0 _ _ Harp)).
  set (w1 := set_arp arp w0).
  rewrite (M_bind_done _ _ w1 _ _ (on_done w_rib set_rib _ w1 _ _ (rib_first_route (own_route own mask)))).
  set (w2 := set_rib _ w1).
  rewrite (M_bind_done _ _ w2 _ _ (arp_gratuitous_ok w2 mac own Hm eq_refl)).
  rewrite (M_bind_done _ _ _ _ _ (arp_gratuitous_ok (sent [arp_frame mac own own] w2) mac own Hm eq_refl)).
  rewrite sent_sent.
  rewrite (M_bind_done _ _ _ _ _ (arp_gratuitous_ok (sent _ w2) mac own Hm eq_refl)).
  rewrite sent_sent. eexists. split; [done|]. split; [by split|]. by split_and!.
Qed.

(** ** Resolution *)
Section configured.
Context (mac : list Z) (own mask elapsed : Z) (last : option (Z * list Z)).
Context (w : world) (Hcf : configured mac own mask elapsed last w).

Lemma route_lookup a : 0 <= a < 2 ^ 32 →
  ip_route_find_by_network (w_rib w) a =
  Done (if reachable (own_route own mask) a then Some (own_route own mask) else None).
Proof.
  intros Ha. destruct Hcf. rewrite cf_rib0. by apply rib_one_network; [apply own_route_in_range|].
Qed.

Lemma own_lookup a : 0 <= a < 2 ^ 32 →
  find_by_iface a w =
  Done (if bool_decide (a = own) then (Some (own_route own mask), w) else (None, with_errno ENOENT w)).
Proof.
  intros Ha. destruct Hcf. unfold find_by_iface. rewrite (M_bind_done _ _ w (w_rib w) w) by done.
  rewrite cf_rib0, (lift_bind _ _ w _ (rib_one_iface _ a (own_route_in_range own mask cf_own0 cf_mask0) Ha)).
  change (r_iface (own_route own mask)) with own. by case_bool_decide.
Qed.

Lemma haddr_known a h : 0 <= a < 2 ^ 32 → known last a = Some h →
  arp_cache_get_haddr own a w = Done (Some h, w).
Proof.
  intros Ha Hk. destruct Hcf. unfold arp_cache_get_haddr.
  rewrite (M_bind_done _ _ w (w_arp w) w) by done.
  rewrite (lift_bind _ _ w _ (lookup_spec own mac elapsed _ last a cf_arp0 Ha)).
  unfold known in Hk. by rewrite Hk.
Qed.

(** An unknown address is asked for. *)
Lemma haddr_unknown a : 0 <= a < 2 ^ 32 → known last a = None →
  arp_cache_get_haddr own a w = Done (None, with_errno EHOSTUNREACH (sent [arp_frame mac own a] w)).
Proof.
  intros Ha Hk. pose proof (own_lookup own) as Hown. destruct Hcf. unfold arp_cache_get_haddr.
  rewrite (M_bind_done _ _ w (w_arp w) w) by done.
  rewrite (lift_bind _ _ w _ (lookup_spec own mac elapsed _ last a cf_arp0 Ha)).
  unfold known in Hk. rewrite Hk.
  specialize (Hown ltac:(lia)). rewrite bool_decide_true in Hown by done.
  rewrite (M_bind_done _ _ w _ _ Hown).
  by rewrite (M_bind_done _ _ w _ _ (arp_request_ok w mac own a cf_mac0 cf_if0)).
Qed.
End configured.

(** A host is learned. *)
Lemma learn_configured mac own mask elapsed last w ip haddr :
  configured mac own mask elapsed last w → 0 <= ip < 2 ^ 32 → ip ≠ own →
  ∃ arp, arp_cache_insert (w_arp w) ip haddr ARP_CACHE_DYN = Done (OK, arp) ∧
    configured mac own mask elapsed (if bool_decide (ip = 0) then last else Some (ip, haddr))
      (set_arp arp w).
Proof.
  intros [] Hip Hne. destruct (learn_spec own mac elapsed _ last ip haddr cf_arp0 cf_elapsed0 Hip Hne)
    as (arp & Ha & Hh). exists arp. by split.
Qed.
End kernel.

(** ** Properties *)

(** [ip_config] of a fresh stack, with any kernel that takes the frames: it
    returns 0, announces the address three times by an ARP request for itself,
    and leaves the stack configured: one route for the network of the address
    on the interface, a static cache entry with the address and the hardware
    address and no other, nobody known yet,
    every other component as it was. *)
Theorem ip_config_correct `{ReliableKernel} mac own mask u :
  mac_ok mac → 0 < own < 2 ^ 32 → 0 <= mask < 2 ^ 32 →
  ∃ w, ip_config 0 own mask (initial_world mac u) = Done (0, w) ∧
    configured mac own mask 0 None w ∧ tx w = repeat (arp_frame mac own own) 3 ∧
    w_udp w = u ∧ w_defer w = defer_init ∧ w_frag w = frag_init ∧ ip_global_id w = 0 ∧
    w_tcp w = TcpTable [] (RbHead None ∅) ∧
    arp_cache (w_arp w) = ArpEntry own mac ARP_CACHE_STATIC :: repeat zero_arp 49.
Proof. apply config_done. Qed.

(** The arguments of [main]. *)
Definition OWN_ADDR : Z := 167772162.
Definition OWN_MASK : Z := 4294967040.

Definition demo_udp : udp_state := UdpState [] (RB_INITIALIZER 0).

Lemma ip_config_correct_witness :
  ∃ w, @ip_config accept_all 0 OWN_ADDR OWN_MASK (initial_world mac_a demo_udp) = Done (0, w) ∧
    configured mac_a OWN_ADDR OWN_MASK 0 None w ∧
    tx w = repeat (arp_frame mac_a OWN_ADDR OWN_ADDR) 3 ∧
    w_udp w = demo_udp ∧ w_defer w = defer_init ∧ w_frag w = frag_init ∧ ip_global_id w = 0 ∧
    w_tcp w = TcpTable [] (RbHead None ∅) ∧
    arp_cache (w_arp w) = ArpEntry OWN_ADDR mac_a ARP_CACHE_STATIC :: repeat zero_arp 49.
Proof.
  apply (@ip_config_correct accept_all accept_all_reliable mac_a OWN_ADDR OWN_MASK demo_udp).
  - apply mac_a_ok.
  - unfold OWN_ADDR. lia.
  - unfold OWN_MASK. lia.
Defined.

(** A configured stack, before and after it learned of one host. *)
Definition demo_up (u : udp_state) : world :=
  match @ip_config accept_all 0 OWN_ADDR OWN_MASK (initial_world mac_a u) with
  | Done (_, w) => w
  | _ => initial_world mac_a u
  end.

Definition DEMO_PEER : Z := OWN_ADDR + 1.

Definition demo_known (u : udp_state) : world :=
  match arp_cache_insert (w_arp (demo_up u)) DEMO_PEER mac_b ARP_CACHE_DYN with
  | Done (_, arp) => set_arp arp (demo_up u)
  | _ => demo_up u
  end.

Lemma demo_up_configured u :
  configured mac_a OWN_ADDR OWN_MASK 0 None (demo_up u) ∧ w_udp (demo_up u) = u ∧
  w_defer (demo_up u) = defer_init ∧ w_frag (demo_up u) = frag_init ∧
  w_tcp (demo_up u) = TcpTable [] (RbHead None ∅).
Proof.
  destruct (@config_done accept_all accept_all_reliable mac_a OWN_ADDR OWN_MASK u mac_a_ok)
    as (w & Hw & Hcf & _ & Hu & Hd & Hf & _ & Ht & _); [unfold OWN_ADDR; lia|unfold OWN_MASK; lia|].
  unfold demo_up. rewrite Hw. exact (conj Hcf (conj Hu (conj Hd (conj Hf Ht)))).
Qed.

Lemma demo_known_configured u :
  configured mac_a OWN_ADDR OWN_MASK 0 (Some (DEMO_PEER, mac_b)) (demo_known u) ∧
  w_udp (demo_known u) = u ∧ w_defer (demo_known u) = defer_init ∧ w_frag (demo_known u) = frag_init ∧
  w_tcp (demo_known u) = TcpTable [] (RbHead None ∅).
Proof.
  destruct (demo_up_configured u) as (Hcf & Hrest). unfold demo_known.
  destruct (learn_configured _ _ _ _ _ _ DEMO_PEER mac_b Hcf) as (arp & -> & Hcf');
    [unfold DEMO_PEER, OWN_ADDR; lia|unfold DEMO_PEER; lia|].
  rewrite bool_decide_false in Hcf' by (unfold DEMO_PEER, OWN_ADDR; lia). exact (conj Hcf' Hrest).
Qed.
