(* ===== verification/Keeps.v ===== *)
(** * What an operation leaves alone

    [keeps obs c]: the part [obs] of the state is the same after [c].  The output
    path only touches the ARP cache, the ring of deferred packets, the
    identification, [errno] and the frames sent, so every observation of the other
    components ([InputOnly]) is kept by [ip_send] and what it calls. *)

From S2P Require Import Prelude Bytes IpHeader RBTree Rib Socket Udp Tcp IpDefer Ether Arp Fragment.
From S2P Require Import World Output.

#[local] Open Scope Z_scope.

Definition keeps {S A : Type} (obs : world → S) (c : M A) : Prop :=
  ∀ w a w', c w = Done (a, w') → obs w' = obs w.

(** An observation of the components the output path does not change. *)
Class InputOnly {S : Type} (obs : world → S) : Prop :=
  input_only w w' :
    (ether_if w', w_rib w', w_udp w', w_tcp w', w_frag w') = (ether_if w, w_rib w, w_udp w, w_tcp w, w_frag w) →
    obs w' = obs w.

#[export] Instance input_only_frag : InputOnly w_frag.
Proof. intros w w' Hw. by injection Hw. Qed.

Create HintDb keeps.
#[export] Hint Extern 1 (InputOnly _) => apply _ : keeps.

Section keeps.
Context {S : Type} (obs : world → S) {A B : Type}.

Lemma keeps_ret (a : A) : keeps obs (mret a).
Proof. intros w a' w' Hrun. by injection Hrun as _ <-. Qed.

Lemma keeps_bind (c : M A) (f : A → M B) : keeps obs c → (∀ a, keeps obs (f a)) → keeps obs (c ≫= f).
Proof.
  intros Hc Hf w b w' Hrun. unfold mbind, M_bind in Hrun. destruct (c w) as [[a w1]| |] eqn:Ha; [|done..].
  by rewrite (Hf a w1 b w' Hrun), (Hc w a w1 Ha).
Qed.

Lemma keeps_lift (o : outcome A) : keeps obs (lift o).
Proof. intros w a w' Hrun. unfold lift in Hrun. destruct o; [|done..]. by injection Hrun as _ <-. Qed.

Lemma keeps_bind_lift (o : outcome A) (f : A → M B) : (∀ a, o = Done a → keeps obs (f a)) → keeps obs (lift o ≫= f).
Proof.
  intros Hf w b w' Hrun. unfold mbind, M_bind, lift in Hrun. destruct o as [a| |]; [|done..]. by eapply Hf.
Qed.

Lemma keeps_gets (f : world → A) : keeps obs (gets f).
Proof. intros w a w' Hrun. by injection Hrun as _ <-. Qed.

Lemma keeps_modify f : (∀ w, obs (f w) = obs w) → keeps obs (modify f).
Proof. intros Hf w a w' Hrun. injection Hrun as _ <-. apply Hf. Qed.

Lemma keeps_on {T : Type} get set (f : T → outcome (A * T)) :
  (∀ s w, obs (set s w) = obs w) → keeps obs (on get set f).
Proof.
  intros Hs w a w' Hrun. unfold on in Hrun. destruct (f (get w)) as [[b s]| |]; [|done..].
  injection Hrun as _ <-. apply Hs.
Qed.
End keeps.

#[export] Hint Resolve keeps_ret keeps_lift keeps_gets : keeps.
#[export] Hint Extern 1 (keeps _ (set_errno _)) => apply keeps_modify; intros; first [reflexivity|by apply input_only] : keeps.
#[export] Hint Extern 1 (keeps _ (log_tx _)) => apply keeps_modify; intros; first [reflexivity|by apply input_only] : keeps.
#[export] Hint Extern 1 (keeps _ (modify _)) => apply keeps_modify; intros; first [reflexivity|by apply input_only] : keeps.
#[export] Hint Extern 1 (keeps _ (on _ _ _)) => apply keeps_on; intros; first [reflexivity|by apply input_only] : keeps.

(** A run that returns is one of its first call and one of the rest. *)
Lemma M_bind_inv {A B} (c : M A) (f : A → M B) w b w' :
  (c ≫= f) w = Done (b, w') → ∃ a w1, c w = Done (a, w1) ∧ f a w1 = Done (b, w').
Proof.
  intros Hrun. unfold mbind, M_bind in Hrun. destruct (c w) as [[a w1]| |] eqn:Ha; [|done..]. by exists a, w1.
Qed.

Lemma lift_inv {A} (o : outcome A) w a w' : lift o w = Done (a, w') → o = Done a ∧ w' = w.
Proof. unfold lift. destruct o; [|done..]. by intros [= -> ->]. Qed.

(** One call after the other, one branch after the other. *)
Ltac keeps_calls :=
  repeat match goal with
  | |- keeps _ _ => solve [auto with keeps]
  | |- keeps _ (mbind _ _) => apply keeps_bind; [|intros ?]
  | |- keeps _ (match ?x with _ => _ end) => destruct x
  end.

(** ** The output path *)
Section output.
Context `{Kernel} {S : Type} (obs : world → S) `{!InputOnly obs}.

Lemma keeps_handle2eth h : keeps obs (ether_handle2eth h).
Proof. unfold ether_handle2eth. keeps_calls. Qed.
#[local] Hint Resolve keeps_handle2eth : keeps.

Lemma keeps_handle2addr h : keeps obs (ether_handle2addr h).
Proof. unfold ether_handle2addr. keeps_calls. Qed.
#[local] Hint Resolve keeps_handle2addr : keeps.

Lemma keeps_ether_send h dst proto buf : keeps obs (ether_send h dst proto buf).
Proof. unfold ether_send. keeps_calls. Qed.
#[local] Hint Resolve keeps_ether_send : keeps.

Lemma keeps_arp_request h spa tpa : keeps obs (arp_request h spa tpa).
Proof. unfold arp_request. keeps_calls. Qed.
#[local] Hint Resolve keeps_arp_request : keeps.

Lemma keeps_find_by_iface a : keeps obs (find_by_iface a).
Proof. unfold find_by_iface. keeps_calls. Qed.
#[local] Hint Resolve keeps_find_by_iface : keeps.

Lemma keeps_get_haddr iface a : keeps obs (arp_cache_get_haddr iface a).
Proof. unfold arp_cache_get_haddr. keeps_calls. Qed.
#[local] Hint Resolve keeps_get_haddr : keeps.

Lemma keeps_fragments_loop fuel h dst ip payload bytes offset retval :
  keeps obs (send_fragments_loop fuel h dst ip payload bytes offset retval).
Proof.
  revert ip payload bytes offset retval.
  induction fuel as [|fuel IH]; intros ip payload bytes offset retval; cbn [send_fragments_loop]; cbv zeta; keeps_calls.
Qed.
#[local] Hint Resolve keeps_fragments_loop : keeps.

Lemma keeps_ip_send dst proto buf bsize : keeps obs (ip_send dst proto buf bsize).
Proof. unfold ip_send, ip_send_fragments. keeps_calls. Qed.
#[local] Hint Resolve keeps_ip_send : keeps.

Lemma keeps_defer_loop fuel : keeps obs (defer_loop fuel).
Proof. induction fuel as [|fuel IH]; cbn [defer_loop]; keeps_calls. Qed.
#[local] Hint Resolve keeps_defer_loop : keeps.

Lemma keeps_defer_handler delta : keeps obs (ip_defer_handler delta).
Proof. unfold ip_defer_handler. keeps_calls. Qed.
#[local] Hint Resolve keeps_defer_handler : keeps.
End output.

#[export] Hint Resolve keeps_find_by_iface keeps_handle2eth keeps_handle2addr keeps_ether_send keeps_arp_request keeps_get_haddr
  keeps_fragments_loop keeps_ip_send keeps_defer_loop keeps_defer_handler : keeps.
