(* ===== verification/IpSend.v ===== *)
(** * [ip_send] and [ip_defer_handler] on a configured stack

    What [ip_send] of [src/ip.c] does with a packet, by the route, the cache and
    the size; then the handler of [src/ip_defer.c], which sends what waits in
    the ring when an address was learned. *)

From S2P Require Import Prelude Bytes EtherFcs Checksum IpHeader RBTree RBIndex RBMap.
From S2P Require Import Rib QueueR Socket Udp IpDefer Ether Arp Fragment World Output.
From S2P Require Import IpFragments Config.

#[local] Open Scope Z_scope.

(** ** Packets *)

(** A packet with the header [h] and a checksum that verifies. *)
Definition is_packet (h : ip_hdr) (data pkt : list Z) : Prop :=
  ∃ c, 0 <= c < 65536 ∧ pkt = ip_hdr_store (set_csum c (hdr_hton h)) ++ data ∧
    ip_checksum (take 20 pkt) = 0.

(** The packet of [ip_send]. *)
Definition ip_bytes (src dst proto id : Z) (buf : list Z) : list Z :=
  match ip_packet src dst proto id buf with Done p => p | _ => [] end.

Lemma u16_u16 x : u16 (u16 x) = u16 x.
Proof. unfold u16. by rewrite Z.mod_mod. Qed.

Lemma ip_packet_u16 src dst proto id buf :
  ip_packet src dst proto id buf = ip_packet src dst proto (u16 id) buf.
Proof. unfold ip_packet. by rewrite u16_u16. Qed.

Lemma ip_packet_bytes src dst proto id buf :
  bytes buf → Z.of_nat (length buf) <= 65515 →
  ip_packet src dst proto id buf = Done (ip_bytes src dst proto id buf) ∧
  is_packet (sent_hdr src dst proto (u16 id) (length buf)) buf (ip_bytes src dst proto id buf).
Proof.
  intros Hb Hn. unfold ip_bytes. rewrite ip_packet_u16.
  assert (Hid : 0 <= u16 id < 65536) by (unfold u16; apply Z.mod_pos_bound; lia).
  destruct (ip_packet_done src dst proto (u16 id) buf Hb Hid Hn) as (c & Hc & -> & Hz).
  split; [done|]. exists c. by rewrite take_app_exact.
Qed.

Lemma is_packet_length h data pkt : is_packet h data pkt → length pkt = (20 + length data)%nat.
Proof. intros (c & _ & -> & _). done. Qed.

Section kernel.
Context `{ReliableKernel}.

(** Only the first [bsize] bytes matter. *)
Lemma ip_send_prefix dst proto mem (n : nat) w :
  (n <= length mem)%nat → ip_send dst proto mem n w = ip_send dst proto (take n mem) n w.
Proof.
  intros Hn. assert (E : mem_read 0 (Z.to_nat n) mem = mem_read 0 (Z.to_nat n) (take n mem)).
  { rewrite !mem_read_ok by (rewrite ?length_take; lia). by rewrite Nat2Z.id, !drop_0, take_take, Nat.min_id. }
  unfold ip_send, ip_defer_push. by rewrite E.
Qed.

Context (mac : list Z) (own mask elapsed : Z) (last : option (Z * list Z)).

(** ** The branches of [ip_send] *)
Section branches.
Context (w : world) (Hcf : configured mac own mask elapsed last w).
Context (dst proto : Z) (buf : list Z) (Hdst : 0 <= dst < 2 ^ 32).

Lemma send_unreachable :
  reachable (own_route own mask) dst = false →
  ip_send dst proto buf (length buf) w = Done (-1, with_errno EHOSTUNREACH w).
Proof.
  intros Hr. unfold ip_send. rewrite (M_bind_done _ _ w (w_rib w) w) by done.
  rewrite (lift_bind _ _ w _ (route_lookup mac own mask elapsed last w Hcf dst Hdst)).
  by rewrite Hr.
Qed.

(** The result and [errno] of a deferred packet. *)
Definition deferred_result (r : Z) : Z :=
  if bool_decide (r = 0) || bool_decide (r = - EALREADY) then 0 else -1.
Definition deferred_errno (r : Z) : Z :=
  if bool_decide (r = 0) || bool_decide (r = - EALREADY) then EHOSTUNREACH else - r.

Lemma send_deferred r d :
  reachable (own_route own mask) dst = true → known last dst = None →
  ip_defer_push (w_defer w) dst proto buf (length buf) = Done (r, d) →
  ip_send dst proto buf (length buf) w = Done (deferred_result r,
    with_errno (deferred_errno r) (set_defer d (sent [arp_frame mac own dst] w))).
Proof.
  intros Hr Hk Hp. unfold ip_send. rewrite (M_bind_done _ _ w (w_rib w) w) by done.
  rewrite (lift_bind _ _ w _ (route_lookup mac own mask elapsed last w Hcf dst Hdst)), Hr.
  change (r_iface (own_route own mask)) with own.
  rewrite (M_bind_done _ _ w _ _ (haddr_unknown mac own mask elapsed last w Hcf dst Hdst Hk)).
  set (w1 := with_errno EHOSTUNREACH (sent [arp_frame mac own dst] w)).
  rewrite (M_bind_done _ _ w1 (errno w1) w1) by done. rewrite bool_decide_true by done.
  assert (Hon : on w_defer set_defer (λ d, ip_defer_push d dst proto buf (length buf)) w1 = Done (r, set_defer d w1))
    by by apply on_done.
  rewrite (M_bind_done _ _ w1 _ _ Hon). unfold deferred_result, deferred_errno.
  by destruct (bool_decide (r = 0) || bool_decide (r = - EALREADY)).
Qed.

Definition next_id (w : world) : world := set_ip_id (u32 (ip_global_id w + 1)) w.

(** The packet is built with the next identification. *)
Lemma send_resolved m :
  reachable (own_route own mask) dst = true → known last dst = Some m →
  bytes buf → Z.of_nat (length buf) <= 65515 →
  ip_send dst proto buf (length buf) w =
    (let pkt := ip_bytes own dst proto (ip_global_id w) buf in
     if bool_decide (length buf <= ETHER_DATA_LEN) then ether_send 0 m ETHER_PROTO_IPV4 pkt
     else retval ← ip_send_fragments 0 m pkt (length pkt);
          if bool_decide (retval < 0) then _ ← set_errno (- retval); mret (-1) else mret retval)
    (next_id w).
Proof.
  intros Hr Hk Hb Hn. unfold ip_send. rewrite (M_bind_done _ _ w (w_rib w) w) by done.
  rewrite (lift_bind _ _ w _ (route_lookup mac own mask elapsed last w Hcf dst Hdst)), Hr.
  change (r_iface (own_route own mask)) with own.
  rewrite (M_bind_done _ _ w _ _ (haddr_known mac own mask elapsed last w Hcf dst m Hdst Hk)).
  rewrite (M_bind_done _ _ w (ip_global_id w) w) by done.
  rewrite (M_bind_done _ _ w tt (next_id w)) by done.
  destruct (ip_packet_bytes own dst proto (ip_global_id w) buf Hb Hn) as [Hp _].
  rewrite (lift_bind _ _ (next_id w) buf)
    by (rewrite mem_read_ok by lia; by rewrite Nat2Z.id, drop_0, firstn_all).
  by rewrite (lift_bind _ _ (next_id w) _ Hp).
Qed.

Lemma send_packet m :
  reachable (own_route own mask) dst = true → known last dst = Some m →
  bytes buf → Z.of_nat (length buf) <= 1480 →
  let frame := ether_frame mac m ETHER_PROTO_IPV4 (ip_bytes own dst proto (ip_global_id w) buf) in
  ip_send dst proto buf (length buf) w = Done (Z.of_nat (length frame), sent [frame] (next_id w)).
Proof.
  intros Hr Hk Hb Hn frame. rewrite (send_resolved m) by (done || lia). cbv zeta.
  rewrite bool_decide_true by (unfold ETHER_DATA_LEN; lia).
  destruct (ip_packet_bytes own dst proto (ip_global_id w) buf Hb ltac:(lia)) as [_ Hp%is_packet_length].
  apply ether_send_ok; [apply Hcf|lia].
Qed.

(** A packet that fits without its header, but not with it. *)
Lemma send_too_big m :
  reachable (own_route own mask) dst = true → known last dst = Some m →
  bytes buf → 1480 < Z.of_nat (length buf) <= 1500 →
  ip_send dst proto buf (length buf) w = Done (- EMSGSIZE, next_id w).
Proof.
  intros Hr Hk Hb Hn. rewrite (send_resolved m) by (done || lia). cbv zeta.
  rewrite bool_decide_true by (unfold ETHER_DATA_LEN; lia).
  destruct (ip_packet_bytes own dst proto (ip_global_id w) buf Hb ltac:(lia)) as [_ Hp%is_packet_length].
  unfold ether_send. rewrite frame_too_big_iff by lia. by rewrite bool_decide_true by lia.
Qed.
Lemma total_length_nonneg frames : 0 <= total_length frames.
Proof. induction frames as [|f frames IH]; simpl; lia. Qed.

(** A packet that is cut into fragments. *)
Lemma send_fragmented m :
  reachable (own_route own mask) dst = true → known last dst = Some m →
  0 <= proto < 256 → bytes buf → 1500 < Z.of_nat (length buf) <= 65515 →
  let h := sent_hdr own dst proto (u16 (ip_global_id w)) (length buf) in
  ∃ fs pkts, ip_send dst proto buf (length buf) w =
      Done (total_length (frames_of mac m pkts), sent (frames_of mac m pkts) (next_id w)) ∧
    Forall2 (carries h buf) fs pkts ∧ Forall (fun p => Z.of_nat (length p) <= 1500) pkts ∧
    in_order h buf [] fs ∧ concat (chunk buf <$> fs) = buf.
Proof.
  intros Hr Hk Hp Hb Hn h. rewrite (send_resolved m) by (done || lia). cbv zeta.
  rewrite bool_decide_false by (unfold ETHER_DATA_LEN; lia).
  destruct (ip_packet_bytes own dst proto (ip_global_id w) buf Hb ltac:(lia)) as [Hpkt _].
  rewrite ip_packet_u16 in Hpkt. pose proof (cf_own _ _ _ _ _ _ Hcf).
  assert (0 <= u16 (ip_global_id w) < 65536) by (unfold u16; apply Z.mod_pos_bound; lia).
  destruct (send_fragments_done (next_id w) mac m own dst proto (u16 (ip_global_id w)) buf _ ltac:(lia)
    Hdst Hp ltac:(done) Hb ltac:(lia) (cf_if _ _ _ _ _ _ Hcf) Hpkt) as (fs & pkts & Hrun & Hall).
  exists fs, pkts. split; [|done]. rewrite (M_bind_done _ _ _ _ _ Hrun).
  by rewrite bool_decide_false by (pose proof (total_length_nonneg (frames_of mac m pkts)); lia).
Qed.
End branches.

(** ** Deferred transmissions *)

(** The frame for a waiting packet of which only destination and protocol are
    left: a header without data if the host is known, else a request for it. *)
Definition flush_frame (id : Z) (p : packet) : list Z :=
  match known last p.1.1 with
  | Some m => ether_frame mac m ETHER_PROTO_IPV4 (ip_bytes own p.1.1 p.1.2 id [])
  | None => arp_frame mac own p.1.1
  end.

Fixpoint flush_frames (id : Z) (ps : list packet) : list (list Z) :=
  match ps with
  | [] => []
  | p :: ps => flush_frame id p ::
      flush_frames (if bool_decide (known last p.1.1 = None) then id else u32 (id + 1)) ps
  end.

Definition waiting_ok (p : packet) : Prop :=
  0 <= p.1.1 < 2 ^ 32 ∧ reachable (own_route own mask) p.1.1 = true.

Definition no_sizes (d : defer_state) : Prop := Forall (fun s => buf_size s = 0) (ip_defer_queue d).

(** What the output path leaves alone. *)
Definition same_tables (w w' : world) : Prop :=
  ether_if w' = ether_if w ∧ w_rib w' = w_rib w ∧ w_arp w' = w_arp w ∧ w_udp w' = w_udp w ∧
  w_tcp w' = w_tcp w ∧ w_frag w' = w_frag w.

(** One packet of the ring while the handler runs. *)
Lemma send_waiting w p mem :
  configured mac own mask elapsed last w → defer_inhibit (w_defer w) = true → waiting_ok p →
  ∃ r w', ip_send p.1.1 p.1.2 mem 0 w = Done (r, w') ∧ r ≠ -1 ∧ same_tables w w' ∧
    w_defer w' = w_defer w ∧ tx w' = tx w ++ [flush_frame (ip_global_id w) p] ∧
    ip_global_id w' =
      (if bool_decide (known last p.1.1 = None) then ip_global_id w else u32 (ip_global_id w + 1)).
Proof.
  intros Hcf Hi [Hd Hr]. rewrite (ip_send_prefix _ _ mem 0 w) by lia. rewrite take_0.
  change (Z.of_nat 0) with (Z.of_nat (length (@nil Z))). unfold flush_frame. destruct (known last p.1.1) as [m|] eqn:Hk.
  - rewrite (send_packet w Hcf _ p.1.2 [] Hd m Hr Hk) by (done || constructor).
    eexists _, _. split; [done|]. split; [lia|]. by repeat split.
  - rewrite (send_deferred w Hcf _ p.1.2 [] Hd (- EALREADY) (w_defer w) Hr Hk)
      by (unfold ip_defer_push; by rewrite Hi).
    eexists _, _. split; [done|]. split; [done|]. by repeat split.
Qed.

(** Dropping the head, whatever became of its slot. *)
Lemma drop_used d p ps s :
  defer_holds d (p :: ps) → length (IpDefer.buf s) = 6%nat →
  defer_holds (ip_defer_drop (set_slot d (q_rd d) s)) ps.
Proof.
  intros Hh Hs. pose proof Hh as (Hok & Hl & Hb & Hf).
  assert (Hne : q_rd d ≠ q_wr d).
  { intros He. rewrite (proj2 (occupied_nil_iff _ Hok)) in Hf by done. by inversion Hf. }
  rewrite (occupied_advance (ring d) _ Hok eq_refl) in Hf by done.
  assert (Hnd := occupied_nodup _ Hok).
  rewrite (occupied_advance (ring d) _ Hok eq_refl) in Hnd by done. apply NoDup_cons in Hnd as [Hnd _].
  inversion Hf as [|? ? ? ? _ Hf' Heq]. subst. unfold ip_defer_drop. simpl.
  rewrite bool_decide_false by done.
  pose proof (read_ok (ring d) _ Hok eq_refl) as Hok'. split; [done|]. simpl. split; [by rewrite length_insert|].
  split; [by apply Forall_insert|]. apply (Forall2_impl_in _ _ _ _ Hf'). intros k q Hk (s' & Hs' & Hq).
  exists s'. split; [|done]. rewrite list_lookup_insert_ne; [done|].
  pose proof (occupied_range _ _ Hok' Hk). intros E. apply Hnd.
  assert (Hkq : k = q_rd d) by (unfold queue_ok in Hok; simpl in *; lia). by rewrite Hkq in Hk.
Qed.
Lemma M_bind_modify {B} (g : world → world) (k : unit → M B) w : (modify g ≫= k) w = k tt (g w).
Proof. done. Qed.

Lemma defer_flush fuel w ps :
  configured mac own mask elapsed last w → defer_holds (w_defer w) ps → no_sizes (w_defer w) →
  defer_inhibit (w_defer w) = true → Forall waiting_ok ps → (length ps < fuel)%nat →
  ∃ w', defer_loop fuel w = Done (tt, w') ∧ same_tables w w' ∧ defer_holds (w_defer w') [] ∧
    no_sizes (w_defer w') ∧ defer_inhibit (w_defer w') = true ∧
    tx w' = tx w ++ flush_frames (ip_global_id w) ps.
Proof.
  revert w ps. induction fuel as [|fuel IH]; intros w ps Hcf Hd Hz Hi Hps Hfuel; [lia|].
  cbn [defer_loop]. rewrite (M_bind_done _ _ w (w_defer w) w) by done.
  pose proof (peek_spec _ _ Hd) as Hpk. destruct ps as [|p ps].
  { rewrite Hpk. exists w. split; [done|]. cbn [flush_frames]. rewrite app_nil_r.
    split; [by repeat split|]. done. }
  destruct Hpk as (s & -> & Hs & Hdst & Hproto & _ & Htries). rewrite (lift_bind _ _ w s) by by rewrite Hs.
  apply Forall_cons in Hps as [Hp Hps]. pose proof Hz as Hz'. unfold no_sizes in Hz'.
  rewrite Forall_lookup in Hz'. pose proof (Hz' _ _ Hs) as Hsz.
  pose proof Hd as (_ & _ & Hb & _). rewrite Forall_lookup in Hb. pose proof (Hb _ _ Hs) as Hsb.
  rewrite M_bind_modify, Htries, bool_decide_false by lia.
  set (d1 := set_slot (w_defer w) (q_rd (w_defer w)) (add_try s)). set (w1 := set_defer d1 w).
  rewrite Hsz, Hdst, Hproto.
  destruct (send_waiting w1 p (IpDefer.buf s)) as (r & w2 & Hsend & Hr & Hsame & Hd2 & Htx & Hid);
    [by eapply configured_ext|done|done|].
  rewrite (M_bind_done _ _ w1 r w2 Hsend), (M_bind_done _ _ w2 (errno w2) w2) by done.
  rewrite (bool_decide_false (r = -1)) by done. cbn [andb]. rewrite M_bind_modify, Hd2.
  pose proof (drop_used _ p ps (add_try s) Hd Hsb) as Hd3.
  set (d3 := ip_defer_drop d1) in *. set (w3 := set_defer d3 w2).
  unfold same_tables in Hsame. destruct Hsame as (E1 & E2 & E3 & E4 & E5 & E6).
  assert (Hi3 : defer_inhibit d3 = true) by (unfold d3, ip_defer_drop; by destruct (bool_decide (q_rd d1 = q_wr d1))).
  assert (Hz3 : no_sizes d3).
  { assert (Forall (fun s => buf_size s = 0) (ip_defer_queue d1)) by by apply Forall_insert.
    unfold d3, ip_defer_drop, no_sizes. by destruct (bool_decide (q_rd d1 = q_wr d1)). }
  destruct (IH w3 ps) as (w' & Hrun & (F1 & F2 & F3 & F4 & F5 & F6) & Hd' & Hz'' & Hi' & Htx');
    [eapply configured_ext; [exact Hcf|exact E1|exact E2|exact E3]|done|done|done|done|simpl in Hfuel; lia|].
  exists w'. split; [done|]. split.
  { split_and!; [rewrite F1; exact E1|rewrite F2; exact E2|rewrite F3; exact E3|rewrite F4; exact E4|
      rewrite F5; exact E5|rewrite F6; exact E6]. } split; [done|]. split; [done|]. split; [done|].
  rewrite Htx'. cbn [flush_frames]. change (tx w3) with (tx w2). change (ip_global_id w3) with (ip_global_id w2).
  rewrite Htx, Hid, <-app_assoc. done.
Qed.

(** The handler: all that waits is sent or asked for, and the ring is empty. *)
Lemma handler_flushes w ps delta :
  configured mac own mask elapsed last w → defer_holds (w_defer w) ps → no_sizes (w_defer w) →
  Forall waiting_ok ps →
  ∃ w', ip_defer_handler delta w = Done (tt, w') ∧ same_tables w w' ∧ defer_holds (w_defer w') [] ∧
    no_sizes (w_defer w') ∧ defer_inhibit (w_defer w') = true ∧
    tx w' = tx w ++ flush_frames (ip_global_id w) ps.
Proof.
  intros Hcf Hd Hz Hps. unfold ip_defer_handler. rewrite M_bind_modify.
  assert (Hlen : (length ps < 21)%nat).
  { pose proof (defer_holds_length _ _ Hd). destruct Hd as (Hok & _).
    pose proof (queue_len_range _ Hok) as Hr. change (a_len (ring (w_defer w))) with 20 in Hr. lia. }
  destruct (defer_flush 21 (set_defer (set_inhibit true (w_defer w)) w) ps) as (w' & Hw' & H1 & H2);
    [eapply configured_ext; [exact Hcf|done..]|exact Hd|exact Hz|done|done|done|].
  by exists w'.
Qed.

(** ** Properties *)

(** C10: [ip_send] on a configured stack, by the case: without a route it returns
    -1 with [EHOSTUNREACH] and sends nothing; while the hardware address is not
    known it sends one ARP request and defers the packet, the result following
    from the outcome of the push; otherwise data of at most 1480 bytes go out
    in one Ethernet frame with an IP packet that verifies, data of more than
    1500 bytes as fragments that carry the data in order, and for the sizes in
    between nothing is sent and the result is [-EMSGSIZE]. *)
Theorem ip_send_correct w dst proto buf :
  configured mac own mask elapsed last w → 0 <= dst < 2 ^ 32 → 0 <= proto < 256 →
  bytes buf → Z.of_nat (length buf) <= 65515 →
  let id := ip_global_id w in
  let h := sent_hdr own dst proto (u16 id) (length buf) in
  (reachable (own_route own mask) dst = false →
   ip_send dst proto buf (length buf) w = Done (-1, with_errno EHOSTUNREACH w)) ∧
  (reachable (own_route own mask) dst = true → known last dst = None →
   ∀ ps, defer_holds (w_defer w) ps → ∃ d,
   let r := push_result (defer_inhibit (w_defer w)) ps buf in
   defer_holds d (if bool_decide (r = 0) then ps ++ [(dst, proto, buf)] else ps) ∧
   ip_send dst proto buf (length buf) w = Done (deferred_result r,
     with_errno (deferred_errno r) (set_defer d (sent [arp_frame mac own dst] w)))) ∧
  (∀ m, reachable (own_route own mask) dst = true → known last dst = Some m →
   (Z.of_nat (length buf) <= 1480 → ∃ pkt, is_packet h buf pkt ∧
    let frame := ether_frame mac m ETHER_PROTO_IPV4 pkt in
    ip_send dst proto buf (length buf) w = Done (Z.of_nat (length frame), sent [frame] (next_id w))) ∧
   (1480 < Z.of_nat (length buf) <= 1500 →
    ip_send dst proto buf (length buf) w = Done (- EMSGSIZE, next_id w)) ∧
   (1500 < Z.of_nat (length buf) → ∃ fs pkts,
    ip_send dst proto buf (length buf) w =
      Done (total_length (frames_of mac m pkts), sent (frames_of mac m pkts) (next_id w)) ∧
    Forall2 (carries h buf) fs pkts ∧ in_order h buf [] fs ∧ concat (chunk buf <$> fs) = buf)).
Proof.
  intros Hcf Hd Hp Hb Hn id h. split; [by apply send_unreachable|]. split.
  - intros Hr Hk ps Hps. destruct (push_spec _ ps dst proto buf Hps) as (d & Hpush & _ & Hh).
    exists d. split; [done|]. by apply send_deferred.
  - intros m Hr Hk. split_and!.
    + intros Hl. exists (ip_bytes own dst proto id buf). split; [by apply ip_packet_bytes|].
      by apply send_packet.
    + by apply (send_too_big w Hcf dst proto buf Hd m).
    + intros Hl. destruct (send_fragmented w Hcf dst proto buf Hd m Hr Hk Hp Hb ltac:(lia))
        as (fs & pkts & Hrun & Hcar & _ & Hrest). by exists fs, pkts.
Qed.

(** C27: [ip_defer_handler] terminates: on a configured stack whose ring holds
    the packets [ps] for destinations with a route, it returns with the ring
    empty after one frame per packet, in order: a request for the hardware
    address as long as it is not known, an IP packet else. The packet has a
    header only, the size of the data was not kept.  From then on every push is
    inhibited. *)
Theorem ip_defer_handler_flushes w ps delta :
  configured mac own mask elapsed last w → defer_holds (w_defer w) ps → no_sizes (w_defer w) →
  Forall waiting_ok ps →
  ∃ w', ip_defer_handler delta w = Done (tt, w') ∧ same_tables w w' ∧ defer_holds (w_defer w') [] ∧
    no_sizes (w_defer w') ∧ defer_inhibit (w_defer w') = true ∧
    tx w' = tx w ++ flush_frames (ip_global_id w) ps.
Proof. apply handler_flushes. Qed.
End kernel.

Lemma ip_send_correct_witness :
  let w := demo_known demo_udp in
  reachable (own_route OWN_ADDR OWN_MASK) DEMO_PEER = true ∧
  known (Some (DEMO_PEER, mac_b)) DEMO_PEER = Some mac_b ∧ length demo_buf = 3000%nat ∧
  ∃ fs pkts, @ip_send accept_all DEMO_PEER 17 demo_buf (length demo_buf) w =
      Done (total_length (frames_of mac_a mac_b pkts), sent (frames_of mac_a mac_b pkts) (next_id w)) ∧
    Forall2 (carries (sent_hdr OWN_ADDR DEMO_PEER 17 (u16 (ip_global_id w)) (length demo_buf)) demo_buf) fs pkts ∧
    in_order (sent_hdr OWN_ADDR DEMO_PEER 17 (u16 (ip_global_id w)) (length demo_buf)) demo_buf [] fs ∧
    concat (chunk demo_buf <$> fs) = demo_buf.
Proof.
  intros w. assert (Hr : reachable (own_route OWN_ADDR OWN_MASK) DEMO_PEER = true) by done.
  assert (Hk : known (Some (DEMO_PEER, mac_b)) DEMO_PEER = Some mac_b) by done.
  assert (Hl : length demo_buf = Z.to_nat 3000) by apply repeat_length.
  split; [done|]. split; [done|]. split; [done|].
  apply (@ip_send_correct accept_all accept_all_reliable mac_a OWN_ADDR OWN_MASK 0
    (Some (DEMO_PEER, mac_b)) w DEMO_PEER 17 demo_buf); [|done|done|apply demo_buf_bytes| |done|done|].
  - apply demo_known_configured.
  - rewrite Hl. lia.
  - rewrite Hl. lia.
Defined.

(** A stack with one packet waiting. *)
Definition demo_waiting : defer_state :=
  match ip_defer_push defer_init DEMO_PEER 17 [1; 2; 3] 3 with Done (_, d) => d | _ => defer_init end.

Lemma demo_waiting_holds : defer_holds demo_waiting [(DEMO_PEER, 17, [1; 2; 3])].
Proof.
  destruct (push_spec defer_init [] DEMO_PEER 17 [1; 2; 3] defer_init_holds) as (d & Hp & _ & Hd).
  unfold demo_waiting. 
  change (ip_defer_push defer_init DEMO_PEER 17 [1; 2; 3] 3)
    with (ip_defer_push defer_init DEMO_PEER 17 [1; 2; 3] (length [1; 2; 3])). by rewrite Hp.
Qed.

Lemma ip_defer_handler_flushes_witness :
  let w := set_defer demo_waiting (demo_known demo_udp) in
  ∃ w', @ip_defer_handler accept_all 0 w = Done (tt, w') ∧ same_tables w w' ∧
    defer_holds (w_defer w') [] ∧ no_sizes (w_defer w') ∧ defer_inhibit (w_defer w') = true ∧
    tx w' = tx w ++ flush_frames mac_a OWN_ADDR (Some (DEMO_PEER, mac_b)) (ip_global_id w)
      [(DEMO_PEER, 17, [1; 2; 3])].
Proof.
  intros w. apply (@ip_defer_handler_flushes accept_all accept_all_reliable mac_a OWN_ADDR OWN_MASK 0
    (Some (DEMO_PEER, mac_b))).
  - eapply configured_ext; [apply (demo_known_configured demo_udp)|done..].
  - apply demo_waiting_holds.
  - unfold no_sizes. apply (bool_decide_unpack _). vm_compute. done.
  - constructor; [|constructor]. split; [|done]. unfold DEMO_PEER, OWN_ADDR. simpl. lia.
Defined.
