(* ===== verification/Input.v ===== *)
(** * The input path: IP, ARP, Ethernet

    [ip_fragment_input] ([src/ip_fragment.c]) and [ip_input] ([src/ip.c]), which
    call each other, [arp_input] ([src/arp.c]), [ether_input] and
    [ether_output_reply] ([src/ether.c]), [ether_receive]
    ([src/linux/linux_ether.c]).

    A handler gets the receive buffer from its header on and the number of bytes
    received; it returns its result and the buffer, where it may have left a
    reply. *)

From S2P Require Import Prelude Bytes Checksum IpHeader RBTree Rib Socket Udp Tcp Icmp.
From S2P Require Import IpDefer Ether Arp Fragment World Output.

#[local] Open Scope Z_scope.

(** ** Dispatch *)

(** [SET_FOREACH] over a linker set of handlers. *)
Fixpoint find_handler {A : Type} (id : Z) (handlers : list (Z * A)) : option A :=
  match handlers with
  | [] => None
  | (proto_id, fn) :: handlers => if bool_decide (proto_id = id) then Some fn else find_handler id handlers
  end.

Definition ip_handler : Type := ip_hdr → list Z → Z → M (Z * list Z).

(** The handlers registered by [IP_PROTO_INPUT_HANDLER]. *)
Definition ip_proto_handlers : list (Z * ip_handler) :=
  [(IP_PROTO_ICMP, fun _ payload bsize => lift (icmp_input payload bsize));
   (IP_PROTO_TCP, fun ip payload bsize => on w_tcp set_tcp (fun t => tcp_input t ip payload bsize));
   (IP_PROTO_UDP, fun ip payload bsize => on w_udp set_udp (fun u => udp_input u ip payload bsize))].

Section kernel.
Context `{Kernel}.

(** ** IP *)

Definition XSTACK_IP_SEND_HOSTUNREAC : bool := true.

(** [ip_fragment_input(ip_hdr, rx_packet)], given [ip_input]: a complete packet
    is handed on in its buffer, where the reply is found and sent. *)
Definition ip_fragment_input (input : list Z → Z → M (Z * list Z)) (ip : ip_hdr) (rx_packet : list Z)
    : M Z :=
  r ← on w_frag set_frag (fun st => frag_receive st ip rx_packet);
  match r with
  | inl e => mret e
  | inr (_, false) => mret 0
  | inr (i, true) =>
      p ← gets (fun w => buf_at (w_frag w) i);
      '(retval, m) ← input (ip_hdr_store (pb_ip_hdr p) ++ pb_payload p) (ip_len (pb_ip_hdr p));
      '(_, hdr) ← lift (ip_ntoh m);
      let p := PacketBuf (reserved p) (timer p) (fragmap p) hdr (drop IP_HDR_SIZE m) in
      _ ← modify (fun w => set_frag (set_buf (w_frag w) i p) w);
      _ ← ip_send (ip_dst hdr) (ip_proto hdr) (pb_payload p) (u64 retval);
      st ← gets w_frag;
      st ← lift (release_packet_buffer st i);
      _ ← modify (set_frag st);
      mret 0
  end.

(** [ip_input] after the header was found to be acceptable; [ip] is the header
    at the start of [m], in host order. *)
Definition ip_deliver (ip : ip_hdr) (m : list Z) (bsize : Z) : M (Z * list Z) :=
  let hlen := Z.to_nat (ip_hdr_hlen ip) in
  let psize := u64 (bsize - ip_hdr_hlen ip) in
  match find_handler (ip_proto ip) ip_proto_handlers with
  | Some fn =>
      '(retval, payload) ← fn ip (drop hlen m) psize;
      let m := take hlen m ++ payload in
      '(retval, m) ←
        (if bool_decide (retval > 0) then
           '(n, m) ← lift (ip_reply_header m retval); mret (s32 n, m)
         else mret (retval, m));
      if bool_decide (retval = - ENOTSOCK) then
        lift (icmp_generate_dest_unreachable m hlen ICMP_CODE_PORTUNREAC psize)
      else mret (retval, m)
  | None => lift (icmp_generate_dest_unreachable m hlen ICMP_CODE_PROTOUNREAC psize)
  end.

(** [ip_input(e_hdr, payload, bsize)].  A fragment that completes a packet makes
    it call itself once, without a frame. *)
Fixpoint ip_input (fuel : nat) (e_hdr : option ether_hdr) (m : list Z) (bsize : Z) : M (Z * list Z) :=
  match fuel with
  | O => lift Spin
  | S fuel =>
      m ← match e_hdr with Some _ => lift (ip_ntoh_inplace m) | None => mret m end;
      ip ← lift (ip_hdr_load m);
      if negb (bool_decide (Z.land (ip_vhl ip) 0x40 = 0x40)) then mret (0, m) else
      if bool_decide (ip_hdr_hlen ip < 20) then mret (0, m) else
      if negb (bool_decide (ip_len ip = bsize)) then mret (0, m) else
      _ ← match e_hdr with
          | Some e => _ ← on w_arp set_arp
                            (fun a => arp_cache_insert a (ip_src ip) (h_src e) ARP_CACHE_DYN); mret tt
          | None => mret tt
          end;
      route ← find_by_iface (ip_dst ip);
      match route with
      | None =>
          if XSTACK_IP_SEND_HOSTUNREAC then
            lift (icmp_generate_dest_unreachable m (Z.to_nat (ip_hdr_hlen ip)) ICMP_CODE_HOSTUNREAC
                    (u64 (bsize - ip_hdr_hlen ip)))
          else mret (0, m)
      | Some _ =>
          if ip_fragment_is_frag ip then
            _ ← ip_fragment_input (ip_input fuel None) ip (drop (Z.to_nat (ip_hdr_hlen ip)) m);
            mret (0, m)
          else ip_deliver ip m bsize
      end
  end.

(** ** ARP *)
Definition arp_input (m : list Z) (bsize : Z) : M (Z * list Z) :=
  net ← lift (arp_load m);
  let arp := arp_ntoh net in
  if negb (bool_decide (arp_htype arp = ARP_HTYPE_ETHER)) then mret (- EPROTOTYPE, m) else
  if negb (bool_decide (arp_ptype arp = ETHER_PROTO_IPV4)) then mret (- EPROTOTYPE, m) else
  _ ← on w_arp set_arp (fun a => arp_cache_insert a (arp_spa arp) (arp_sha arp) ARP_CACHE_DYN);
  _ ← ip_defer_handler 0;
  if bool_decide (arp_oper arp = ARP_OPER_REQUEST) then
    route ← find_by_iface (arp_tpa arp);
    match route with
    | Some route =>
        sha ← ether_handle2addr (r_iface_handle route);
        m ← lift (arp_make_reply arp (default (arp_sha arp) sha) (r_iface route) m);
        mret (bsize, m)
    | None => mret (0, m)
    end
  else mret (0, m).

(** ** Ethernet *)
Definition ether_handler : Type := ether_hdr → list Z → Z → M (Z * list Z).

(** The handlers registered by [ETHER_PROTO_INPUT_HANDLER]. *)
Definition ether_proto_handlers : list (Z * ether_handler) :=
  [(ETHER_PROTO_ARP, fun _ payload bsize => arp_input payload bsize);
   (ETHER_PROTO_IPV4, fun hdr payload bsize => ip_input 2 (Some hdr) payload bsize)].

Definition ether_input (hdr : ether_hdr) (payload : list Z) (bsize : Z) : M (Z * list Z) :=
  match find_handler (h_proto hdr) ether_proto_handlers with
  | Some fn =>
      '(retval, payload) ← fn hdr payload bsize;
      if bool_decide (retval < 0) then _ ← set_errno (- retval); mret (-1, payload)
      else mret (retval, payload)
  | None => _ ← set_errno EPROTONOSUPPORT; mret (-1, payload)
  end.

(** [ether_send] checks the size before it reads the payload. *)
Definition ether_output_reply (ether_handle : Z) (hdr : ether_hdr) (payload : list Z) (bsize : Z) : M Z :=
  retval ← (if frame_too_big bsize then mret (- EMSGSIZE) else
            data ← lift (mem_read 0 (Z.to_nat bsize) payload);
            ether_send ether_handle (h_src hdr) (h_proto hdr) data);
  if bool_decide (retval < 0) then _ ← set_errno (- retval); mret (-1) else mret retval.

(** What [recvfrom] returns: a frame, or -1 and [errno]. *)
Inductive rx_result : Type :=
| RxFrame (wire : list Z)
| RxError (e : Z).

(** [ether_receive(handle, hdr, buf, bsize)], where [rx] is what [recvfrom] will
    return; what it returned is removed.  With nothing to receive it waits. *)
Fixpoint ether_receive (handle : Z) (hdr : ether_hdr) (buf : list Z) (rx : list rx_result)
    : M (Z * ether_hdr * list Z * list rx_result) :=
  eth ← ether_handle2eth handle;
  match eth with
  | None => mret (-1, hdr, buf, rx)
  | Some mac =>
      match rx with
      | [] => lift Spin
      | RxError e :: rx =>
          _ ← set_errno e;
          mret (if bool_decide (e = EAGAIN) || bool_decide (e = EINPROGRESS) then 0 else -1, hdr, buf, rx)
      | RxFrame wire :: rx =>
          let frame := rx_truncate wire in
          src ← lift (mem_read 6 ETHER_ALEN frame);
          if bool_decide (memcmp src mac = 0) then ether_receive handle hdr buf rx
          else
            '(retval, hdr, buf) ← lift (ether_parse frame buf);
            mret (retval, hdr, buf, rx)
      end
  end.

(** The ingress thread on a received frame: input, and the reply if there is one. *)
Definition ingress_frame (ether_handle : Z) (hdr : ether_hdr) (rx_buffer : list Z) (bsize : Z)
    : M (list Z) :=
  '(retval, rx_buffer) ← ether_input hdr rx_buffer bsize;
  if bool_decide (retval > 0) then
    _ ← ether_output_reply ether_handle hdr rx_buffer retval; mret rx_buffer
  else mret rx_buffer.
End kernel.
