(* ===== verification/IpInput.v ===== *)
(** * [ip_input] and [ether_input] on a configured stack

    What becomes of a packet that arrives: dropped, answered by an ICMP message,
    reassembled or handed to its protocol; then the answers of the stack to an
    echo request, to a datagram and to a packet nobody takes. *)

From S2P Require Import Prelude Bytes EtherFcs Checksum IpHeader RBTree RBIndex RBMap.
From S2P Require Import Rib QueueR Socket Udp Tcp Icmp IpDefer Ether Arp Fragment.
From S2P Require Import World Output IpFragments Config IpSend Input.

#[local] Open Scope Z_scope.

(** A header as it arrives, in network order, with some checksum. *)
Definition wire_hdr (h : ip_hdr) (c : Z) : list Z := ip_hdr_store (set_csum c (hdr_hton h)).

Lemma ntoh_inplace_wire h c rest :
  ip_hdr_ok h → 0 <= c < 65536 →
  ip_ntoh_inplace (wire_hdr h c ++ rest) = Done (ip_hdr_store (set_csum c h) ++ rest).
Proof.
  intros Hok Hc. unfold ip_ntoh_inplace, wire_hdr. rewrite ip_ntoh_stored, bind_done by done.
  exact (mem_write_mid 0 [] (wire_hdr h c) rest (ip_hdr_store (set_csum c h)) eq_refl eq_refl).
Qed.

(** What is learned from a packet. *)
Definition learn (last : option (Z * list Z)) (ip : Z) (haddr : list Z) : option (Z * list Z) :=
  if bool_decide (ip = 0) then last else Some (ip, haddr).

(** The tests of [ip_input] that a packet must pass. *)
Definition acceptable (h : ip_hdr) (bsize : Z) : bool :=
  bool_decide (Z.land (ip_vhl h) 0x40 = 0x40) && bool_decide (20 <= ip_hdr_hlen h) &&
  bool_decide (ip_len h = bsize).

Section kernel.
Context `{ReliableKernel}.

(** ** Dropped packets *)
Lemma input_drops fuel e h c rest bsize w :
  ip_hdr_ok h → 0 <= c < 65536 → acceptable h bsize = false →
  ip_input (S fuel) (Some e) (wire_hdr h c ++ rest) bsize w =
    Done ((0, ip_hdr_store (set_csum c h) ++ rest), w).
Proof.
  intros Hok Hc Ha. cbn [ip_input]. rewrite (lift_bind _ _ w _ (ntoh_inplace_wire h c rest Hok Hc)).
  rewrite (lift_bind _ _ w (set_csum c h)) by (by apply ip_hdr_load_store, set_csum_ok).
  change (ip_vhl (set_csum c h)) with (ip_vhl h). change (ip_len (set_csum c h)) with (ip_len h).
  change (ip_hdr_hlen (set_csum c h)) with (ip_hdr_hlen h). unfold acceptable in Ha.
  destruct (bool_decide (Z.land (ip_vhl h) 64 = 64)); [|done]. cbn [negb andb] in *.
  destruct (decide (20 <= ip_hdr_hlen h)) as [Hl|Hl].
  - rewrite (bool_decide_false (_ < 20)) by lia. rewrite (bool_decide_true (20 <= _)) in Ha by done.
    cbn [andb] in Ha. by rewrite Ha.
  - by rewrite (bool_decide_true (_ < 20)) by lia.
Qed.

Section configured.
Context (mac : list Z) (own mask elapsed : Z) (last : option (Z * list Z)).
Context (w : world) (Hcf : configured mac own mask elapsed last w).

(** ** Accepted packets: the sender is learned, then the destination decides *)
Lemma input_accepts fuel e h c rest :
  ip_hdr_ok h → 0 <= c < 65536 → acceptable h (ip_len h) = true → ip_src h ≠ own →
  let ip := set_csum c h in
  let m := ip_hdr_store ip ++ rest in
  let hlen := Z.to_nat (ip_hdr_hlen h) in
  ∃ arp, configured mac own mask elapsed (learn last (ip_src h) (h_src e)) (set_arp arp w) ∧
    ip_input (S fuel) (Some e) (wire_hdr h c ++ rest) (ip_len h) w =
    (if bool_decide (ip_dst h = own) then
       if ip_fragment_is_frag h then
         _ ← ip_fragment_input (ip_input fuel None) ip (drop hlen m); mret (0, m)
       else ip_deliver ip m (ip_len h)
     else _ ← set_errno ENOENT;
       lift (icmp_generate_dest_unreachable m hlen ICMP_CODE_HOSTUNREAC
               (u64 (ip_len h - ip_hdr_hlen h)))) (set_arp arp w).
Proof.
  intros Hok Hc Ha Hne ip m hlen.
  assert (Hr : 0 <= ip_src h < 2 ^ 32 ∧ 0 <= ip_dst h < 2 ^ 32) by (unfold ip_hdr_ok in Hok; lia).
  destruct Hr as [Hsrc Hdst].
  destruct (learn_configured mac own mask elapsed last w (ip_src h) (h_src e) Hcf) as (arp & Harp & Hcf');
    [lia|done|].
  exists arp. split; [exact Hcf'|]. cbn [ip_input].
  rewrite (lift_bind _ _ w _ (ntoh_inplace_wire h c rest Hok Hc)).
  rewrite (lift_bind _ _ w ip) by (by apply ip_hdr_load_store, set_csum_ok).
  change (ip_vhl ip) with (ip_vhl h). change (ip_len ip) with (ip_len h).
  change (ip_hdr_hlen ip) with (ip_hdr_hlen h). change (ip_src ip) with (ip_src h).
  change (ip_dst ip) with (ip_dst h). change (ip_fragment_is_frag ip) with (ip_fragment_is_frag h).
  fold m hlen. unfold acceptable in Ha. apply andb_true_iff in Ha as [[Hv Hl]%andb_true_iff _].
  rewrite Hv. apply bool_decide_eq_true in Hl. rewrite (bool_decide_false (_ < 20)) by lia.
  rewrite (bool_decide_true (ip_len h = ip_len h)) by done. cbn [negb].
  set (w1 := set_arp arp w). rewrite (M_bind_done _ _ w tt w1).
  2:{ by rewrite (M_bind_done _ _ w _ _ (on_done w_arp set_arp _ w _ _ Harp)). }
  pose proof (own_lookup mac own mask elapsed _ w1 Hcf' (ip_dst h) Hdst) as Hlk.
  destruct (bool_decide (ip_dst h = own)); rewrite (M_bind_done _ _ w1 _ _ Hlk); [|reflexivity]. by destruct (ip_fragment_is_frag h).
Qed.
End configured.

(** ** Delivery *)

(** A packet without options for [n] bytes of data. *)
Definition plain (h : ip_hdr) (n : nat) : Prop :=
  ip_hdr_ok h ∧ ip_hdr_hlen h = 20 ∧ Z.land (ip_vhl h) 0x40 = 0x40 ∧ ip_len h = 20 + n.

Lemma plain_acceptable h n : plain h n → acceptable h (ip_len h) = true.
Proof.
  intros (_ & Hl & Hv & _). unfold acceptable. by rewrite Hl, !bool_decide_true by (done || lia).
Qed.

Lemma plain_psize h n : plain h n → u64 (ip_len h - ip_hdr_hlen h) = n.
Proof.
  intros (Hok & Hl & _ & Hn). unfold ip_hdr_ok in Hok. unfold u64. rewrite Z.mod_small; lia.
Qed.

Lemma plain_set_csum h n c : plain h n → 0 <= c < 65536 → plain (set_csum c h) n.
Proof. intros (Hok & Hrest) Hc. split; [by apply set_csum_ok|done]. Qed.

(** The handler of the protocol decides about the reply. *)
Lemma deliver_handled ip n payload fn r payload' w w' :
  plain ip n → find_handler (ip_proto ip) ip_proto_handlers = Some fn →
  fn ip payload n w = Done ((r, payload'), w') → r ≠ - ENOTSOCK → r <= 0 →
  ip_deliver ip (ip_hdr_store ip ++ payload) (ip_len ip) w =
    Done ((r, ip_hdr_store ip ++ payload'), w').
Proof.
  intros Hp Hfn Hrun Hne Hr. unfold ip_deliver. rewrite Hfn, (plain_psize ip n Hp).
  destruct Hp as (_ & -> & _). change (Z.to_nat 20) with 20%nat.
  rewrite drop_app_exact, take_app_exact by done. rewrite (M_bind_done _ _ w _ _ Hrun).
  rewrite (bool_decide_false (r > 0)) by lia.
  rewrite (M_bind_done _ _ w' (r, ip_hdr_store ip ++ payload') w') by done.
  by rewrite bool_decide_false by done.
Qed.

Lemma deliver_replied ip n payload fn (r : nat) payload' w w' :
  plain ip n → find_handler (ip_proto ip) ip_proto_handlers = Some fn →
  fn ip payload n w = Done ((Z.of_nat r, payload'), w') → 0 < Z.of_nat r < 65516 →
  ∃ c, let reply := hdr_hton (reply_hdr ip (20 + r)) in
    ip_deliver ip (ip_hdr_store ip ++ payload) (ip_len ip) w =
      Done ((20 + r, ip_hdr_store (set_csum c reply) ++ payload'), w') ∧
    ip_checksum (ip_hdr_store (set_csum c reply)) = 0.
Proof.
  intros Hp Hfn Hrun Hr. unfold ip_deliver. rewrite Hfn, (plain_psize ip n Hp).
  destruct Hp as (Hok & Hl & _). rewrite Hl. change (Z.to_nat 20) with 20%nat.
  rewrite drop_app_exact, take_app_exact by done. rewrite (M_bind_done _ _ w _ _ Hrun).
  rewrite (bool_decide_true (Z.of_nat r > 0)) by lia.
  set (m := ip_hdr_store ip ++ payload').
  assert (Hload : ip_hdr_load m = Done ip) by by apply ip_hdr_load_store.
  pose proof (ip_reply_header_done m ip r Hload) as Hrep. rewrite Hl in Hrep.
  assert (Hu : u64 (Z.of_nat r + 20) = 20 + r) by (unfold u64; rewrite Z.mod_small; lia).
  rewrite Hu in Hrep.
  destruct (ip_hton_header (reply_hdr ip (20 + r)) m) as (c & _ & Hton & Hz). { done. }
  { unfold m. rewrite length_app. change (length (ip_hdr_store ip)) with 20%nat. lia. }
  assert (Hdm : drop 20 m = payload') by by apply drop_app_exact.
  exists c. split; [|done]. rewrite Hton, bind_done, Hdm in Hrep.
  assert (Hs : s32 (20 + r) = 20 + r).
  { unfold s32, u32. rewrite Z.mod_small by lia. by rewrite bool_decide_true by lia. }
  assert (Hm : 20 <= length m) by (unfold m; rewrite length_app; change (length (ip_hdr_store ip)) with 20%nat; lia).
  set (m' := ip_hdr_store _ ++ payload') in Hrep |- *.
  assert (Hstep : ('(n0, m0) ← lift (ip_reply_header m r); mret (s32 n0, m0)) w' = Done ((20 + r, m'), w')).
  { rewrite (lift_bind _ _ w' _ (Hrep Hm)). by rewrite Hs. }
  rewrite (M_bind_done _ _ w' _ _ Hstep). by rewrite bool_decide_false by (unfold ENOTSOCK; lia).
Qed.

(** ** Destination unreachable *)

(** The answer to a packet with the header [h] and the payload [p]. *)
Definition is_unreachable (h : ip_hdr) (p : list Z) (code : Z) (k : nat) (m : list Z) : Prop :=
  ∃ c c' c'', let r := hdr_hton (reply_hdr (unreachable_hdr h) (56 + k)) in
    m = ip_hdr_store (set_csum c'' r) ++ icmp_store (Icmp 3 code c 0) ++
        ip_hdr_store (set_csum c' (hdr_hton h)) ++ take k p ++ drop (28 + k) p ∧
    ip_checksum (ip_hdr_store (set_csum c' (hdr_hton h))) = 0 ∧
    ip_checksum (ip_hdr_store (set_csum c'' r)) = 0.

Lemma unreachable_min m off code n :
  icmp_generate_dest_unreachable m off code n = icmp_generate_dest_unreachable m off code (Z.min 8 n).
Proof. unfold icmp_generate_dest_unreachable. replace (Z.min 8 (Z.min 8 n)) with (Z.min 8 n) by lia. done. Qed.

Lemma unreachable_done h n p code :
  plain h n → bytes p → (44 <= length p)%nat →
  let k := (8 `min` n)%nat in
  ∃ m, icmp_generate_dest_unreachable (ip_hdr_store h ++ p) 20 code n = Done (92 + 2 * k, m) ∧
    is_unreachable h p code k m.
Proof.
  intros (Hok & Hl & _) Hb Hp k.
  destruct (icmp_unreachable_done h p code k Hok Hb Hl ltac:(lia) Hp) as (c & c' & c'' & Hd & Hz).
  rewrite unreachable_min. replace (Z.min 8 n) with (Z.of_nat k) by lia. cbv zeta in Hd.
  eexists. split; [exact Hd|]. by exists c, c', c''.
Qed.

(** ** From a frame to the answering frame *)
Lemma input_handled hdr m n fn w r m' w' :
  find_handler (h_proto hdr) ether_proto_handlers = Some fn → fn hdr m n w = Done ((r, m'), w') →
  ether_input hdr m n w =
    (if bool_decide (r < 0) then Done ((-1, m'), with_errno (- r) w') else Done ((r, m'), w')).
Proof.
  intros Hfn Hrun. unfold ether_input. rewrite Hfn, (M_bind_done _ _ w _ _ Hrun).
  by destruct (bool_decide (r < 0)).
Qed.

Lemma frame_answered hdr m n fn w mac (r : nat) m' w' :
  find_handler (h_proto hdr) ether_proto_handlers = Some fn →
  fn hdr m n w = Done ((Z.of_nat r, m'), w') → ether_if w' = [mac] → (r <= length m')%nat →
  0 < Z.of_nat r <= 1500 →
  ingress_frame 0 hdr m n w =
    Done (m', sent [ether_frame mac (h_src hdr) (h_proto hdr) (take r m')] w').
Proof.
  intros Hfn Hrun Hif Hr Hle. unfold ingress_frame.
  pose proof (input_handled hdr m n fn w _ m' w' Hfn Hrun) as Hin.
  rewrite bool_decide_false in Hin by lia. rewrite (M_bind_done _ _ w _ _ Hin).
  rewrite bool_decide_true by lia. unfold ether_output_reply.
  rewrite frame_too_big_iff, bool_decide_false by lia.
  set (data := take r m'). set (frame := ether_frame mac (h_src hdr) (h_proto hdr) data).
  assert (Hdl : length data = r) by (unfold data; rewrite length_take; lia).
  assert (Hsend : (data ← lift (mem_read 0 (Z.to_nat r) m');
    ether_send 0 (h_src hdr) (h_proto hdr) data) w' = Done (Z.of_nat (length frame), sent [frame] w')).
  { rewrite (lift_bind _ _ w' data) by (by rewrite Nat2Z.id, mem_read_ok by lia).
    apply ether_send_ok; [done|lia]. }
  rewrite (M_bind_done _ _ w' (Z.of_nat (length frame)) (sent [frame] w')); [done|].
  rewrite (M_bind_done _ _ w' _ _ Hsend). by rewrite bool_decide_false by lia.
Qed.

Lemma frame_silent hdr m n fn w r m' w' :
  find_handler (h_proto hdr) ether_proto_handlers = Some fn → fn hdr m n w = Done ((r, m'), w') →
  r <= 0 →
  ingress_frame 0 hdr m n w = Done (m', if bool_decide (r < 0) then with_errno (- r) w' else w').
Proof.
  intros Hfn Hrun Hr. unfold ingress_frame.
  pose proof (input_handled hdr m n fn w r m' w' Hfn Hrun) as Hin. destruct (bool_decide (r < 0)) eqn:E.
  - by rewrite (M_bind_done _ _ w _ _ Hin).
  - rewrite (M_bind_done _ _ w _ _ Hin). by rewrite bool_decide_false by lia.
Qed.

(** ** The answers *)
Section answers.
Context (mac : list Z) (own mask elapsed : Z) (last : option (Z * list Z)).
Context (w : world) (Hcf : configured mac own mask elapsed last w).

(** A frame with a packet for this host, [n] bytes of data at the start of
    [payload], from another host. *)
Record arrives (h : ip_hdr) (n : nat) (payload : list Z) : Prop := Arrives {
  ar_plain : plain h n;
  ar_src : ip_src h ≠ own;
  ar_bytes : bytes payload;
  ar_size : (n <= length payload)%nat;
  ar_link : Z.of_nat n <= 1480
}.

Lemma input_deliver e h c n payload :
  arrives h n payload → 0 <= c < 65536 → ip_dst h = own → ip_fragment_is_frag h = false →
  ∃ arp, configured mac own mask elapsed (learn last (ip_src h) (h_src e)) (set_arp arp w) ∧
    ip_input 2 (Some e) (wire_hdr h c ++ payload) (ip_len h) w =
    ip_deliver (set_csum c h) (ip_hdr_store (set_csum c h) ++ payload) (ip_len h) (set_arp arp w).
Proof.
  intros [Hp Hs Hb Hn Hl] Hc Hd Hf.
  destruct (input_accepts mac own mask elapsed last w Hcf 1 e h c payload) as (arp & Hcf' & Hin);
    [apply Hp|done|by eapply plain_acceptable|done|].
  exists arp. split; [done|]. rewrite Hin. by rewrite bool_decide_true, Hf.
Qed.

Lemma input_echo e h c n rest (payload := 8 :: rest) :
  arrives h n payload → 0 <= c < 65536 → ip_dst h = own → ip_fragment_is_frag h = false →
  ip_proto h = IP_PROTO_ICMP → (8 <= n)%nat →
  ∃ arp c1 c2, configured mac own mask elapsed (learn last (ip_src h) (h_src e)) (set_arp arp w) ∧
    let reply := hdr_hton (reply_hdr h (20 + n)) in
    ip_input 2 (Some e) (wire_hdr h c ++ payload) (ip_len h) w =
      Done ((20 + n, ip_hdr_store (set_csum c1 reply) ++ echo_reply payload n c2), set_arp arp w) ∧
    ip_checksum (ip_hdr_store (set_csum c1 reply)) = 0 ∧
    ip_checksum (take n (echo_reply payload n c2)) = 0.
Proof.
  intros Ha Hc Hd Hf Hpr Hn. destruct (input_deliver e h c n payload Ha Hc Hd Hf) as (arp & Hcf' & Hin).
  destruct Ha as [Hp Hs Hb Hl Hlk].
  destruct (icmp_echo_spec payload n rest Hb ltac:(lia) eq_refl) as (c2 & Hic & Hz).
  destruct (deliver_replied (set_csum c h) n payload
    (fun _ payload bsize => lift (icmp_input payload bsize)) n (echo_reply payload n c2) (set_arp arp w)
    (set_arp arp w)) as (c1 & Hdel & Hz1).
  { by apply plain_set_csum. }
  { change (ip_proto (set_csum c h)) with (ip_proto h). by rewrite Hpr. }
  { unfold lift. by rewrite Hic. }
  { lia. }
  exists arp, c1, c2. split; [done|]. cbv zeta. rewrite Hin. split; [exact Hdel|]. by split.
Qed.

(** ** Datagrams *)
Lemma deliver_port_unreachable ip n payload payload' fn v v' :
  plain ip n → find_handler (ip_proto ip) ip_proto_handlers = Some fn →
  fn ip payload n v = Done ((- ENOTSOCK, payload'), v') → bytes payload' → (44 <= length payload')%nat →
  let k := (8 `min` n)%nat in
  ∃ m, ip_deliver ip (ip_hdr_store ip ++ payload) (ip_len ip) v = Done ((92 + 2 * k, m), v') ∧
    is_unreachable ip payload' ICMP_CODE_PORTUNREAC k m.
Proof.
  intros Hp Hfn Hrun Hb Hl k. destruct (unreachable_done ip n payload' ICMP_CODE_PORTUNREAC Hp Hb Hl)
    as (m & Hm & Hu). exists m. split; [|done].
  unfold ip_deliver. rewrite Hfn, (plain_psize ip n Hp).
  destruct Hp as (_ & -> & _). change (Z.to_nat 20) with 20%nat.
  rewrite drop_app_exact, take_app_exact by done. rewrite (M_bind_done _ _ v _ _ Hrun).
  rewrite (bool_decide_false (_ > 0)) by (unfold ENOTSOCK; lia).
  rewrite (M_bind_done _ _ v' (- ENOTSOCK, ip_hdr_store ip ++ payload') v') by done.
  rewrite bool_decide_true by done. unfold lift. by rewrite Hm.
Qed.

Lemma input_udp addrs md e h c n payload :
  udp_refines addrs (w_udp w) md →
  arrives h n payload → 0 <= c < 65536 → ip_dst h = own → ip_fragment_is_frag h = false →
  ip_proto h = IP_PROTO_UDP → (44 <= length payload)%nat →
  let k := (8 `min` n)%nat in
  let run := ip_input 2 (Some e) (wire_hdr h c ++ payload) (ip_len h) w in
  match md_step addrs md (UdpDeliver h (take n payload)) with
  | Done ((r, _), md') =>
      ∃ arp u p', configured mac own mask elapsed (learn last (ip_src h) (h_src e)) (set_udp u (set_arp arp w)) ∧
        udp_refines addrs u md' ∧ length p' = length payload ∧ drop 8 p' = drop 8 payload ∧ r <= 0 ∧
        if bool_decide (r = - ENOTSOCK) then
          ∃ m, run = Done ((92 + 2 * k, m), set_udp u (set_arp arp w)) ∧
            is_unreachable (set_csum c h) p' ICMP_CODE_PORTUNREAC k m
        else run = Done ((r, ip_hdr_store (set_csum c h) ++ p'), set_udp u (set_arp arp w))
  | Spin => run = Spin
  | Fault => False
  end.
Proof.
  intros Hu Ha Hc Hd Hf Hpr Hlen k run.
  destruct (input_deliver e h c n payload Ha Hc Hd Hf) as (arp & Hcf' & Hin).
  destruct Ha as [Hp Hs Hb Hn Hlk].
  destruct (udp_input_refines addrs (w_udp w) md (set_csum c h) payload n Hu (set_csum_ok _ _ Hc (proj1 Hp)) Hb Hn
    ltac:(lia)) as [(r & p' & u & md' & Hrun & Hstep & Hu' & Hr & Hb' & Hl' & Hd')|[Hrun Hstep]];
    change (md_step addrs md (UdpDeliver (set_csum c h) (take n payload)))
      with (md_step addrs md (UdpDeliver h (take n payload))) in Hstep; rewrite Hstep.
  - exists arp, u, p'. split; [by eapply configured_ext|]. do 4 (split; [done|]).
    set (fn := fun (ip : ip_hdr) payload bsize => on w_udp set_udp (fun u => udp_input u ip payload bsize)).
    assert (Hfn : find_handler (ip_proto (set_csum c h)) ip_proto_handlers = Some fn)
      by (change (ip_proto (set_csum c h)) with (ip_proto h); by rewrite Hpr).
    assert (Hfr : fn (set_csum c h) payload (n : Z) (set_arp arp w) =
      Done ((r, p'), set_udp u (set_arp arp w))) by (unfold fn; by apply on_done).
    case_bool_decide as Hne.
    + subst r. unfold run. rewrite Hin.
      by apply (deliver_port_unreachable _ n payload p' fn _ _ (plain_set_csum h n c Hp Hc) Hfn Hfr Hb' ltac:(lia)).
    + unfold run. rewrite Hin. by apply (deliver_handled (set_csum c h) n payload fn r p' _ _ (plain_set_csum h n c Hp Hc) Hfn Hfr).
  - unfold run. rewrite Hin. unfold ip_deliver. change (ip_proto (set_csum c h)) with (ip_proto h). rewrite Hpr.
    change (ip_hdr_hlen (set_csum c h)) with (ip_hdr_hlen h).
    rewrite (plain_psize h n Hp). cbn [find_handler ip_proto_handlers]. rewrite !bool_decide_false by done.
    rewrite bool_decide_true by done. destruct Hp as (_ & Hl & _).
    rewrite Hl. change (Z.to_nat 20) with 20%nat.
    rewrite drop_app_exact by done. unfold on, mbind, M_bind. change (w_udp (set_arp arp w)) with (w_udp w).
    by rewrite Hrun.
Qed.

(** ** Segments *)
Lemma input_tcp e h c n payload :
  tcp_ok (w_tcp w) → arrives h n payload → 0 <= c < 65536 → ip_dst h = own →
  ip_fragment_is_frag h = false → ip_proto h = IP_PROTO_TCP → (60 <= length payload)%nat →
  ∃ arp t r p', configured mac own mask elapsed (learn last (ip_src h) (h_src e)) (set_tcp t (set_arp arp w)) ∧
    tcp_input (w_tcp w) h payload n = Done (r, p', t) ∧ tcp_ok t ∧ length p' = length payload ∧
    let run := ip_input 2 (Some e) (wire_hdr h c ++ payload) (ip_len h) w in
    if bool_decide (0 < r) then
      tcp_reply_ok h payload p' r ∧ ∃ c1, let reply := hdr_hton (reply_hdr h (20 + r)) in
      run = Done ((20 + r, ip_hdr_store (set_csum c1 reply) ++ p'), set_tcp t (set_arp arp w)) ∧
      ip_checksum (ip_hdr_store (set_csum c1 reply)) = 0
    else run = Done ((r, ip_hdr_store (set_csum c h) ++ p'), set_tcp t (set_arp arp w)).
Proof.
  intros Ht Ha Hc Hd Hf Hpr Hlen. destruct (input_deliver e h c n payload Ha Hc Hd Hf) as (arp & Hcf' & Hin).
  destruct Ha as [Hp Hs Hb Hn Hlk].
  destruct (tcp_input_spec (w_tcp w) h payload n Ht ltac:(lia) Hlen Hb) as (r & p' & t & Hrun & Ht' & _ & Hl' & Hrep).
  exists arp, t, r, p'. split; [by eapply configured_ext|]. do 3 (split; [done|]). cbv zeta. rewrite Hin.
  set (fn := fun (ip : ip_hdr) payload bsize => on w_tcp set_tcp (fun t => tcp_input t ip payload bsize)).
  assert (Hfn : find_handler (ip_proto (set_csum c h)) ip_proto_handlers = Some fn)
    by (change (ip_proto (set_csum c h)) with (ip_proto h); by rewrite Hpr).
  assert (Hfr : fn (set_csum c h) payload (n : Z) (set_arp arp w) =
    Done ((r, p'), set_tcp t (set_arp arp w))) by (unfold fn; by apply on_done).
  case_bool_decide as Hr.
  - specialize (Hrep Hr). split; [done|]. assert (Hrr := Hrep). destruct Hrr as (Hrr & _).
    rewrite <-(Z2Nat.id r) in Hfr |- * by lia.
    destruct (deliver_replied (set_csum c h) n payload fn (Z.to_nat r) p' _ _ (plain_set_csum h n c Hp Hc)
      Hfn Hfr ltac:(lia)) as (c1 & Hdel & Hz). by exists c1.
  - apply (deliver_handled (set_csum c h) n payload fn r p' _ _ (plain_set_csum h n c Hp Hc) Hfn Hfr); [|lia].
    by eapply tcp_input_result.
Qed.

(** ** Packets for nobody *)
Lemma input_host e h c n payload :
  arrives h n payload → 0 <= c < 65536 → ip_dst h ≠ own → (44 <= length payload)%nat →
  let k := (8 `min` n)%nat in
  ∃ arp m, configured mac own mask elapsed (learn last (ip_src h) (h_src e)) (set_arp arp w) ∧
    ip_input 2 (Some e) (wire_hdr h c ++ payload) (ip_len h) w = Done ((92 + 2 * k, m), with_errno ENOENT (set_arp arp w)) ∧
    is_unreachable (set_csum c h) payload ICMP_CODE_HOSTUNREAC k m.
Proof.
  intros [Hp Hs Hb Hn Hl] Hc Hd Hlen k.
  destruct (input_accepts mac own mask elapsed last w Hcf 1 e h c payload) as (arp & Hcf' & Hin);
    [apply Hp|done|by eapply plain_acceptable|done|].
  destruct (unreachable_done (set_csum c h) n payload ICMP_CODE_HOSTUNREAC (plain_set_csum h n c Hp Hc) Hb
    Hlen) as (m & Hm & Hun).
  exists arp, m. split; [exact Hcf'|]. split; [|exact Hun].
  rewrite Hin, bool_decide_false, (plain_psize h n Hp) by done. destruct Hp as (_ & -> & _).
  unfold set_errno. rewrite M_bind_modify. unfold lift.
  change (Z.to_nat 20) with 20%nat. by rewrite Hm.
Qed.

Lemma input_proto e h c n payload :
  arrives h n payload → 0 <= c < 65536 → ip_dst h = own → ip_fragment_is_frag h = false →
  ip_proto h ∉ [IP_PROTO_ICMP; IP_PROTO_TCP; IP_PROTO_UDP] → (44 <= length payload)%nat →
  let k := (8 `min` n)%nat in
  ∃ arp m, configured mac own mask elapsed (learn last (ip_src h) (h_src e)) (set_arp arp w) ∧
    ip_input 2 (Some e) (wire_hdr h c ++ payload) (ip_len h) w = Done ((92 + 2 * k, m), set_arp arp w) ∧
    is_unreachable (set_csum c h) payload ICMP_CODE_PROTOUNREAC k m.
Proof.
  intros Ha Hc Hd Hf Hx Hlen k. destruct (input_deliver e h c n payload Ha Hc Hd Hf) as (arp & Hcf' & Hin).
  destruct Ha as [Hp Hs Hb Hn Hl].
  destruct (unreachable_done (set_csum c h) n payload ICMP_CODE_PROTOUNREAC (plain_set_csum h n c Hp Hc) Hb
    Hlen) as (m & Hm & Hun).
  exists arp, m. split; [exact Hcf'|]. split; [|exact Hun]. rewrite Hin. unfold ip_deliver.
  rewrite !not_elem_of_cons in Hx. destruct Hx as (Hx1 & Hx2 & Hx3 & _).
  assert (Hnone : find_handler (ip_proto (set_csum c h)) ip_proto_handlers = None).
  { cbn [find_handler ip_proto_handlers]. by rewrite !bool_decide_false by (intros E; symmetry in E; done). }
  rewrite Hnone. change (ip_hdr_hlen (set_csum c h)) with (ip_hdr_hlen h).
  rewrite (plain_psize h n Hp). destruct Hp as (_ & -> & _). unfold lift.
  change (Z.to_nat 20) with 20%nat. by rewrite Hm.
Qed.

(** ** Properties *)

Lemma find_ipv4 hdr : h_proto hdr = ETHER_PROTO_IPV4 →
  find_handler (h_proto hdr) ether_proto_handlers =
  Some (fun hdr payload bsize => ip_input 2 (Some hdr) payload bsize).
Proof. by intros ->. Qed.

(** An answering frame, the sender learned. *)
Definition answers_with (hdr : ether_hdr) (src : Z) (m : list Z) (n : Z) (pkt : list Z) : Prop :=
  ∃ m' w', ingress_frame 0 hdr m n w = Done (m', w') ∧
    configured mac own mask elapsed (learn last src (h_src hdr)) w' ∧
    tx w' = tx w ++ [ether_frame mac (h_src hdr) ETHER_PROTO_IPV4 pkt].

Lemma answered hdr src m n (r : nat) m' w' :
  h_proto hdr = ETHER_PROTO_IPV4 → ip_input 2 (Some hdr) m n w = Done ((Z.of_nat r, m'), w') →
  configured mac own mask elapsed (learn last src (h_src hdr)) w' → tx w' = tx w →
  (r <= length m')%nat → 0 < Z.of_nat r <= 1500 → answers_with hdr src m n (take r m').
Proof.
  intros Hpr Hrun Hcf' Htx Hl Hr. pose proof (find_ipv4 hdr Hpr) as Hfn.
  eexists _, _. split; [by apply (frame_answered hdr m n _ w mac r m' w' Hfn Hrun); [apply Hcf'|..]|].
  split; [by eapply configured_ext|]. simpl. by rewrite Htx, Hpr.
Qed.

(** C8: Ping: a frame with an ICMP echo request of [n] bytes to the address of
    the stack is answered by one frame to its sender with an echo reply of the
    same data: an IP packet with the addresses exchanged, whose header and ICMP
    checksums verify; afterwards the sender is in the ARP cache. *)
Theorem ping_answered hdr h c n rest (payload := 8 :: rest) :
  h_proto hdr = ETHER_PROTO_IPV4 → arrives h n payload → 0 <= c < 65536 → ip_dst h = own →
  ip_fragment_is_frag h = false → ip_proto h = IP_PROTO_ICMP → (8 <= n)%nat →
  ∃ c1 c2, let header := ip_hdr_store (set_csum c1 (hdr_hton (reply_hdr h (20 + n)))) in
    let message := take n (echo_reply payload n c2) in
    answers_with hdr (ip_src h) (wire_hdr h c ++ payload) (ip_len h) (header ++ message) ∧
    ip_checksum header = 0 ∧ ip_checksum message = 0.
Proof.
  intros Hpr Ha Hc Hd Hf Hp Hn.
  destruct (input_echo hdr h c n rest Ha Hc Hd Hf Hp Hn) as (arp & c1 & c2 & Hcf' & Hrun & Hz1 & Hz2).
  exists c1, c2. cbv zeta in *. split; [|done]. destruct Ha as [_ _ _ Hs Hl].
  fold payload in Hrun, Hz2. set (head := ip_hdr_store _) in *.
  assert (Hpl : length (echo_reply payload n c2) = length payload) by (apply echo_reply_length; lia).
  replace (head ++ take n (echo_reply payload n c2)) with (take (20 + n) (head ++ echo_reply payload n c2))
    by by rewrite take_app_add'.
  replace (20 + n) with (Z.of_nat (20 + n)) in Hrun by lia. eapply answered; [done|exact Hrun|done|done| |lia].
  rewrite length_app, Hpl. change (length head) with 20%nat. lia.
Qed.

(** C31: A packet nobody takes: for another host, for a protocol that is not
    ICMP, TCP or UDP, or a UDP datagram for a port without a socket. One frame
    goes back to the sender; its data start with a destination unreachable
    message with the code of the case, an IP header that verifies and the
    offending header, which verifies too, followed by the bytes of the packet
    up to the size the code computes, 92 plus twice the quoted bytes. *)
Theorem unreachable_answered addrs md hdr h c n payload code :
  udp_refines addrs (w_udp w) md → h_proto hdr = ETHER_PROTO_IPV4 → arrives h n payload →
  0 <= c < 65536 → (88 <= length payload)%nat →
  (code = ICMP_CODE_HOSTUNREAC ∧ ip_dst h ≠ own ∨
   code = ICMP_CODE_PROTOUNREAC ∧ ip_dst h = own ∧ ip_fragment_is_frag h = false ∧
     ip_proto h ∉ [IP_PROTO_ICMP; IP_PROTO_TCP; IP_PROTO_UDP] ∨
   code = ICMP_CODE_PORTUNREAC ∧ ip_dst h = own ∧ ip_fragment_is_frag h = false ∧
     ip_proto h = IP_PROTO_UDP ∧ md_step addrs md (UdpDeliver h (take n payload)) = Done ((- ENOTSOCK, None), md)) →
  let k := (8 `min` n)%nat in
  ∃ m p', is_unreachable (set_csum c h) p' code k m ∧ length p' = length payload ∧
    drop 8 p' = drop 8 payload ∧
    answers_with hdr (ip_src h) (wire_hdr h c ++ payload) (ip_len h) (take (92 + 2 * k) m).
Proof.
  intros Hu Hpr Ha Hc Hlen Hcase k. pose proof Ha as [Hp Hs Hb Hn Hl].
  assert (Hgoal : ∀ p' m w', ip_input 2 (Some hdr) (wire_hdr h c ++ payload) (ip_len h) w =
      Done ((92 + 2 * k, m), w') → is_unreachable (set_csum c h) p' code k m →
      length p' = length payload → drop 8 p' = drop 8 payload →
      configured mac own mask elapsed (learn last (ip_src h) (h_src hdr)) w' → tx w' = tx w →
      ∃ m p', is_unreachable (set_csum c h) p' code k m ∧ length p' = length payload ∧
        drop 8 p' = drop 8 payload ∧
        answers_with hdr (ip_src h) (wire_hdr h c ++ payload) (ip_len h) (take (92 + 2 * k) m)).
  { intros p' m w' Hrun Hun Hl' Hd' Hcf' Htx. exists m, p'. split_and!; [done..|].
    replace (92 + 2 * k) with (Z.of_nat (92 + 2 * k)) in Hrun by lia.
    eapply answered; [done|exact Hrun|done|done| |lia].
    destruct Hun as (? & ? & ? & -> & _). rewrite !length_app, length_take, length_drop, !ip_hdr_store_length.
    change (length (icmp_store _)) with 8%nat. unfold IP_HDR_SIZE. lia. }
  destruct Hcase as [[-> Hd]|[(-> & Hd & Hf & Hx)|(-> & Hd & Hf & Hx & Hmd)]].
  - destruct (input_host hdr h c n payload Ha Hc Hd ltac:(lia)) as (arp & m & Hcf' & Hrun & Hun).
    apply (Hgoal payload m _ Hrun); [done|done|done| |done]. by eapply configured_ext.
  - destruct (input_proto hdr h c n payload Ha Hc Hd Hf Hx ltac:(lia)) as (arp & m & Hcf' & Hrun & Hun).
    by apply (Hgoal payload m _ Hrun).
  - pose proof (input_udp addrs md hdr h c n payload Hu Ha Hc Hd Hf Hx ltac:(lia)) as Hin. cbv zeta in Hin.
    rewrite Hmd in Hin. destruct Hin as (arp & u & p' & Hcf' & _ & Hl' & Hd' & _ & Hrun).
    rewrite bool_decide_true in Hrun by done. destruct Hrun as (m & Hrun & Hun).
    by apply (Hgoal p' m _ Hrun).
Qed.

(** C7: A UDP datagram for a bound socket with room: the frame is consumed
    without an answer, the datagram is appended, with its source, to the queue
    of exactly the socket the demultiplexer of [udp_refines_demux] names, and
    the sender is learned. *)
Theorem datagram_delivered addrs md md' hdr h c n payload :
  udp_refines addrs (w_udp w) md → h_proto hdr = ETHER_PROTO_IPV4 → arrives h n payload →
  0 <= c < 65536 → ip_dst h = own → ip_fragment_is_frag h = false → ip_proto h = IP_PROTO_UDP →
  (44 <= length payload)%nat →
  md_step addrs md (UdpDeliver h (take n payload)) = Done ((0, None), md') →
  ∃ m' w', ingress_frame 0 hdr (wire_hdr h c ++ payload) (ip_len h) w = Done (m', w') ∧
    configured mac own mask elapsed (learn last (ip_src h) (h_src hdr)) w' ∧
    udp_refines addrs (w_udp w') md' ∧ tx w' = tx w ∧ w_tcp w' = w_tcp w ∧ w_defer w' = w_defer w ∧
    w_frag w' = w_frag w.
Proof.
  intros Hu Hpr Ha Hc Hd Hf Hp Hlen Hmd.
  pose proof (input_udp addrs md hdr h c n payload Hu Ha Hc Hd Hf Hp Hlen) as Hin. cbv zeta in Hin.
  rewrite Hmd in Hin. destruct Hin as (arp & u & p' & Hcf' & Hu' & _ & _ & _ & Hrun).
  rewrite bool_decide_false in Hrun by done.
  pose proof (frame_silent hdr _ _ _ w _ _ _ (find_ipv4 hdr Hpr) Hrun ltac:(lia)) as Hfr.
  eexists _, _. split; [exact Hfr|]. by split_and!.
Qed.

(** C9: A TCP segment on the wire: whatever the segment, the table evolves as
    [tcp_input] says; a positive result is sent back as one frame, an IP packet
    with a header that verifies and a segment that verifies and has the ports
    exchanged; otherwise nothing is sent. *)
Theorem segment_answered hdr h c n payload :
  tcp_ok (w_tcp w) → h_proto hdr = ETHER_PROTO_IPV4 → arrives h n payload → 0 <= c < 65536 →
  ip_dst h = own → ip_fragment_is_frag h = false → ip_proto h = IP_PROTO_TCP →
  (60 <= length payload)%nat →
  ∃ r p' t m' w', tcp_input (w_tcp w) h payload n = Done (r, p', t) ∧
    ingress_frame 0 hdr (wire_hdr h c ++ payload) (ip_len h) w = Done (m', w') ∧
    configured mac own mask elapsed (learn last (ip_src h) (h_src hdr)) w' ∧ w_tcp w' = t ∧ tcp_ok t ∧
    if bool_decide (0 < r) then
      tcp_reply_ok h payload p' r ∧ ∃ c1, let header := ip_hdr_store (set_csum c1 (hdr_hton (reply_hdr h (20 + r)))) in
      ip_checksum header = 0 ∧
      tx w' = tx w ++ [ether_frame mac (h_src hdr) ETHER_PROTO_IPV4 (header ++ take (Z.to_nat r) p')]
    else tx w' = tx w.
Proof.
  intros Ht Hpr Ha Hc Hd Hf Hp Hlen.
  destruct (input_tcp hdr h c n payload Ht Ha Hc Hd Hf Hp Hlen)
    as (arp & t & r & p' & Hcf' & Hin & Ht' & Hl' & Hrun). cbv zeta in Hrun.
  exists r, p', t. pose proof (find_ipv4 hdr Hpr) as Hfn. case_bool_decide as Hr.
  - destruct Hrun as (Hrep & c1 & Hrun & Hz). pose proof Hrep as (Hrr & _).
    set (head := ip_hdr_store _) in *. replace (20 + r) with (Z.of_nat (20 + Z.to_nat r)) in Hrun by lia.
    assert (Hsz : (20 + Z.to_nat r <= length (head ++ p'))%nat).
    { rewrite length_app, Hl'. change (length head) with 20%nat. lia. }
    assert (Hlink : 0 < Z.of_nat (20 + Z.to_nat r) <= 1500) by lia.
    pose proof (frame_answered hdr _ _ _ w mac _ _ _ Hfn Hrun (cf_if _ _ _ _ _ _ Hcf') Hsz Hlink) as Hfr.
    eexists _, _. split; [done|]. split; [exact Hfr|]. split; [by eapply configured_ext|]. split; [done|].
    split; [done|]. split; [done|]. exists c1. cbv zeta. fold head. split; [done|].
    assert (Htk : take (20 + Z.to_nat r) (head ++ p') = head ++ take (Z.to_nat r) p') by by rewrite take_app_add'.
    rewrite <-Htk, <-Hpr. reflexivity.
  - pose proof (frame_silent hdr _ _ _ w _ _ _ Hfn Hrun ltac:(lia)) as Hfr.
    eexists _, _. split; [done|]. split; [exact Hfr|].
    destruct (bool_decide (r < 0)); (split; [by eapply configured_ext|by split_and!]).
Qed.

(** Packets [ip_input] must not accept (another IP version, a header length
    below 20, a total length that is not the number of bytes received) are
    dropped: the result is 0, nothing is sent and no part of the state changes,
    the sender is not learned. *)
Theorem ip_input_drops e h c rest bsize v :
  ip_hdr_ok h → 0 <= c < 65536 → acceptable h bsize = false →
  ip_input 2 (Some e) (wire_hdr h c ++ rest) bsize v = Done ((0, ip_hdr_store (set_csum c h) ++ rest), v).
Proof. apply input_drops. Qed.
End answers.
End kernel.

(** ** Witnesses *)
#[local] Opaque demo_up demo_known.

Definition demo_ether : ether_hdr := EtherHdr mac_a mac_b ETHER_PROTO_IPV4.

(** A packet from the peer with [n] bytes of data. *)
Definition peer_ip (proto dst : Z) (n : nat) : ip_hdr :=
  IpHdr 0x45 0 (20 + n) 7 0 64 proto 0 DEMO_PEER dst.

Lemma peer_ip_arrives proto dst n payload :
  0 <= proto < 256 → 0 <= dst < 4294967296 → bytes payload → (n <= length payload)%nat →
  Z.of_nat n <= 1480 → arrives OWN_ADDR (peer_ip proto dst n) n payload.
Proof.
  intros Hp Hd Hb Hn Hl. split; [|done..]. split; [|done]. unfold ip_hdr_ok, peer_ip, DEMO_PEER, OWN_ADDR.
  simpl. lia.
Qed.

Lemma sample_echo_bytes : bytes sample_echo.
Proof. apply (bool_decide_unpack _). by vm_compute. Qed.

Lemma ping_answered_witness :
  let w := demo_up demo_udp in let h := peer_ip IP_PROTO_ICMP OWN_ADDR 9 in
  ∃ c1 c2, let header := ip_hdr_store (set_csum c1 (hdr_hton (reply_hdr h (20 + 9%nat)))) in
    let message := take 9 (echo_reply sample_echo 9 c2) in
    @answers_with accept_all mac_a OWN_ADDR OWN_MASK 0 None w demo_ether (ip_src h)
      (wire_hdr h 0 ++ sample_echo) (ip_len h) (header ++ message) ∧
    ip_checksum header = 0 ∧ ip_checksum message = 0.
Proof.
  intros w h. apply (@ping_answered accept_all accept_all_reliable mac_a OWN_ADDR OWN_MASK 0 None w
    (proj1 (demo_up_configured demo_udp)) demo_ether h 0 9 (tail sample_echo)).
  - reflexivity.
  - apply peer_ip_arrives; [unfold IP_PROTO_ICMP, IP_PROTO_TCP, IP_PROTO_UDP; lia|unfold OWN_ADDR; lia|apply sample_echo_bytes|simpl; lia|lia].
  - lia.
  - reflexivity.
  - reflexivity.
  - reflexivity.
  - lia.
Defined.

Definition demo_payload : list Z := repeat 7 100.

Lemma demo_payload_bytes : bytes demo_payload.
Proof. apply (bool_decide_unpack _). by vm_compute. Qed.

Lemma demo_udp_refines : udp_refines [] demo_udp (UdpModel [] []).
Proof.
  destruct (udp_init_refines []) as (st & Hst & Hr); [constructor|].
  unfold udp_init in Hst. apply done_inj in Hst as <-. exact Hr.
Qed.

Lemma unreachable_answered_witness :
  let w := demo_up demo_udp in let h := peer_ip IP_PROTO_TCP (OWN_ADDR + 7) 30 in
  ∃ m p', is_unreachable (set_csum 0 h) p' ICMP_CODE_HOSTUNREAC (8 `min` 30)%nat m ∧ length p' = length demo_payload ∧
    drop 8 p' = drop 8 demo_payload ∧
    @answers_with accept_all mac_a OWN_ADDR OWN_MASK 0 None w demo_ether (ip_src h)
      (wire_hdr h 0 ++ demo_payload) (ip_len h) (take (92 + 2 * (8 `min` 30))%nat m).
Proof.
  intros w h. assert (Hu : w_udp w = demo_udp) by apply (demo_up_configured demo_udp).
  apply (@unreachable_answered accept_all accept_all_reliable mac_a OWN_ADDR OWN_MASK 0 None w
    (proj1 (demo_up_configured demo_udp)) [] (UdpModel [] []) demo_ether h 0 30 demo_payload).
  - rewrite Hu. apply demo_udp_refines.
  - reflexivity.
  - apply peer_ip_arrives; [unfold IP_PROTO_ICMP, IP_PROTO_TCP, IP_PROTO_UDP; lia|unfold OWN_ADDR; lia|apply demo_payload_bytes|simpl; lia|lia].
  - lia.
  - simpl. lia.
  - left. split; [reflexivity|]. unfold h, peer_ip, OWN_ADDR. simpl. lia.
Defined.

(** One socket, bound to port 10 as in [src/xstack.c]. *)
Definition demo_addr : list sockaddr := [Sockaddr OWN_ADDR 10].

Definition demo_bound : udp_state :=
  match (st ← udp_init demo_addr; udp_step st (UdpBind 0)) with Done (_, st) => st | _ => demo_udp end.

Lemma demo_bound_refines : udp_refines demo_addr demo_bound (UdpModel [0%nat] [[]]).
Proof.
  destruct (udp_init_refines demo_addr) as (st & Hst & Hr); [by repeat constructor|].
  destruct (bind_refines demo_addr st _ 0 Hr) as (a & st' & m' & Hs & Hm & Hr'); [simpl; lia|].
  unfold demo_bound. rewrite Hst, bind_done, Hs. vm_compute in Hm. apply done_inj in Hm.
  by injection Hm as _ <-.
Qed.

(** From port 53 to port 10, three bytes. *)
Definition demo_datagram : list Z := [0; 53; 0; 10; 0; 11; 0; 0; 104; 105; 33] ++ repeat 0 60.

Lemma datagram_delivered_witness :
  let w := demo_up demo_bound in let h := peer_ip IP_PROTO_UDP OWN_ADDR 11 in
  ∃ m' w', @ingress_frame accept_all 0 demo_ether (wire_hdr h 0 ++ demo_datagram) (ip_len h) w = Done (m', w') ∧
    configured mac_a OWN_ADDR OWN_MASK 0 (learn None (ip_src h) (h_src demo_ether)) w' ∧
    udp_refines demo_addr (w_udp w') (UdpModel [0%nat] [[(Sockaddr DEMO_PEER 53, [104; 105; 33])]]) ∧
    tx w' = tx w ∧ w_tcp w' = w_tcp w ∧ w_defer w' = w_defer w ∧ w_frag w' = w_frag w.
Proof.
  intros w h. assert (Hu : w_udp w = demo_bound) by apply (demo_up_configured demo_bound).
  apply (@datagram_delivered accept_all mac_a OWN_ADDR OWN_MASK 0 None w
    (proj1 (demo_up_configured demo_bound)) demo_addr (UdpModel [0%nat] [[]]) _ demo_ether h 0 11 demo_datagram).
  - rewrite Hu. apply demo_bound_refines.
  - reflexivity.
  - apply peer_ip_arrives; [unfold IP_PROTO_ICMP, IP_PROTO_TCP, IP_PROTO_UDP; lia|unfold OWN_ADDR; lia| |simpl; lia|lia]. apply (bool_decide_unpack _). by vm_compute.
  - lia.
  - reflexivity.
  - reflexivity.
  - reflexivity.
  - simpl. lia.
  - vm_compute. reflexivity.
Defined.

(** A SYN to port 80. *)
Definition demo_segment : list Z :=
  [0x9c; 0x40; 0; 80; 0; 0; 0; 100; 0; 0; 0; 0; 0x50; 2; 0x10; 0; 0; 0; 0; 0] ++ repeat 0 60.

Lemma segment_answered_witness :
  let w := demo_up demo_udp in let h := peer_ip IP_PROTO_TCP OWN_ADDR 20 in
  ∃ r p' t m' w', tcp_input (w_tcp w) h demo_segment 20%nat = Done (r, p', t) ∧
    @ingress_frame accept_all 0 demo_ether (wire_hdr h 0 ++ demo_segment) (ip_len h) w = Done (m', w') ∧
    configured mac_a OWN_ADDR OWN_MASK 0 (learn None (ip_src h) (h_src demo_ether)) w' ∧ w_tcp w' = t ∧ tcp_ok t ∧
    if bool_decide (0 < r) then
      tcp_reply_ok h demo_segment p' r ∧ ∃ c1, let header := ip_hdr_store (set_csum c1 (hdr_hton (reply_hdr h (20 + r)))) in
      ip_checksum header = 0 ∧
      tx w' = tx w ++ [ether_frame mac_a (h_src demo_ether) ETHER_PROTO_IPV4 (header ++ take (Z.to_nat r) p')]
    else tx w' = tx w.
Proof.
  intros w h.
  assert (Ht : w_tcp w = TcpTable [] (RbHead None ∅)) by apply (demo_up_configured demo_udp).
  apply (@segment_answered accept_all accept_all_reliable mac_a OWN_ADDR OWN_MASK 0 None w
    (proj1 (demo_up_configured demo_udp)) demo_ether h 0 20 demo_segment).
  - rewrite Ht. apply tcp_init_ok.
  - reflexivity.
  - apply peer_ip_arrives; [unfold IP_PROTO_ICMP, IP_PROTO_TCP, IP_PROTO_UDP; lia|unfold OWN_ADDR; lia| |simpl; lia|lia]. apply (bool_decide_unpack _). by vm_compute.
  - lia.
  - reflexivity.
  - reflexivity.
  - reflexivity.
  - simpl. lia.
Defined.

Lemma ip_input_drops_witness :
  let h := peer_ip IP_PROTO_UDP OWN_ADDR 11 in
  @ip_input accept_all 2 (Some demo_ether) (wire_hdr h 0 ++ demo_datagram) 46 (demo_up demo_udp) =
    Done ((0, ip_hdr_store (set_csum 0 h) ++ demo_datagram), demo_up demo_udp).
Proof.
  intros h. apply (@ip_input_drops accept_all).
  - unfold ip_hdr_ok, h, peer_ip, DEMO_PEER, OWN_ADDR, IP_PROTO_UDP. simpl. lia.
  - lia.
  - reflexivity.
Defined.
