(* ===== verification/FragInput.v ===== *)
(** * A fragmented datagram on the wire: [ip_input] with [ip_fragment_input]

    What becomes of the fragments of a UDP datagram for this host: the last one
    makes [ip_input] call itself with the reassembled packet, which goes to the
    socket without the last 20 bytes of the datagram, since the length of the data is
    taken for the length of the packet. *)

From S2P Require Import Prelude Bytes EtherFcs Checksum IpHeader RBTree RBIndex RBMap.
From S2P Require Import Rib QueueR Socket Udp Tcp Icmp IpDefer Ether Arp Fragment.
From S2P Require Import World Output IpFragments Config IpSend Input IpInput.

#[local] Open Scope Z_scope.

(** ** Frames *)

(** The receive buffer when a fragment has arrived, and the size of the data. *)
Definition frag_frame (h : ip_hdr) (data : list Z) (a : arrival) : list Z :=
  let '(f, c, junk) := a in wire_hdr (frag_ip h data f) c ++ chunk data f ++ junk.

Definition frag_size (h : ip_hdr) (data : list Z) (a : arrival) : Z :=
  ip_len (frag_ip h data (fragment_of a)).

Section kernel.
Context `{Kernel}.

(** The ingress thread on the frames of the fragments. *)
Fixpoint ingress_fragments (hdr : ether_hdr) (h : ip_hdr) (data : list Z) (fs : list arrival) : M unit :=
  match fs with
  | [] => mret tt
  | a :: fs =>
      _ ← ingress_frame 0 hdr (frag_frame h data a) (frag_size h data a);
      ingress_fragments hdr h data fs
  end.
End kernel.

Definition arrival_ok (a : arrival) : Prop :=
  let '(_, c, junk) := a in 0 <= c < 65536 ∧ bytes junk.

(** ** The buffers *)
Definition buf_ok (p : packet_buf) : Prop := bytes (pb_payload p) ∧ ip_hdr_ok (pb_ip_hdr p).

Definition bufs_ok (st : frag_state) : Prop := Forall buf_ok (packet_buffer st).

Lemma zero_buf_ok : buf_ok zero_buf.
Proof.
  split; [|by vm_compute]. unfold zero_buf. cbn [pb_payload]. apply Forall_forall. intros x Hx%list_elem_of_In%repeat_spec. by subst x.
Qed.

Lemma buf_at_ok st i : bufs_ok st → buf_ok (buf_at st i).
Proof.
  intros Hb. unfold buf_at. destruct (packet_buffer st !! i) as [p|] eqn:Hp; [|apply zero_buf_ok].
  unfold bufs_ok in Hb. rewrite Forall_lookup in Hb. by eapply Hb.
Qed.

Lemma set_buf_ok st i p : bufs_ok st → buf_ok p → bufs_ok (set_buf st i p).
Proof. intros Hb Hp. unfold bufs_ok, set_buf. cbn [packet_buffer]. by apply Forall_insert. Qed.

Lemma blank_len_ok h : ip_hdr_ok h → ip_hdr_ok (blank_len h).
Proof. unfold ip_hdr_ok. simpl. lia. Qed.

Lemma get_buffer_ok st ip r st' :
  bufs_ok st → ip_hdr_ok ip → get_packet_buffer st ip = Done (r, st') → bufs_ok st'.
Proof.
  intros Hb Hip. unfold get_packet_buffer. intros Hg. apply bind_done_inv in Hg as (p & _ & Hg).
  destruct p as [i|]; [by simplify_eq|]. destruct (first_free _ _) as [i|]; [|by simplify_eq].
  assert (Hc : bufs_ok (set_buf st i (claim_buf (buf_at st i) ip))).
  { apply set_buf_ok; [done|]. split; [by apply buf_at_ok|by apply blank_len_ok]. }
  apply bind_done_inv in Hg as ([res hd] & _ & Hg). destruct res as [j|]; [|by simplify_eq].
  apply bind_done_inv in Hg as (st1 & Hrel & Hg). simplify_eq.
  unfold release_packet_buffer in Hrel. apply bind_done_inv in Hrel as (h' & _ & Hrel). simplify_eq.
  unfold bufs_ok. cbn [packet_buffer]. apply Forall_insert; [exact Hc|].
  exact (buf_at_ok (FragState _ hd) i Hc).
Qed.

Lemma frag_receive_ok st ip rx r st' :
  bufs_ok st → ip_hdr_ok ip → bytes rx → frag_receive st ip rx = Done (r, st') → bufs_ok st'.
Proof.
  intros Hb Hip Hrx. unfold frag_receive. case_bool_decide; [by intros ?; simplify_eq|].
  intros Hr. apply bind_done_inv in Hr as ([p st1] & Hg & Hr).
  pose proof (get_buffer_ok _ _ _ _ Hb Hip Hg) as Hb1. destruct p as [i|]; [|by simplify_eq].
  apply bind_done_inv in Hr as (b & Hs & Hr). apply bind_done_inv in Hr as (c & _ & Hr). simplify_eq.
  apply set_buf_ok; [done|]. unfold buf_store in Hs. apply bind_done_inv in Hs as (d & Hd & Hs).
  apply bind_done_inv in Hs as (payload & Hp & Hs). apply bind_done_inv in Hs as (map & _ & Hs). simplify_eq.
  destruct (buf_at_ok st1 i Hb1) as [Hpb Hph]. apply (mem_read_bytes _ _ _ _ Hrx) in Hd as [Hd _].
  split; cbn [pb_payload pb_ip_hdr]; [by apply (mem_write_bytes _ _ _ _ Hpb Hd) in Hp|].
  case_bool_decide; [by apply blank_len_ok|]. destruct (_ =? _); [|done].
  unfold ip_hdr_ok in *. cbn [ip_vhl ip_tos ip_len ip_id ip_foff ip_ttl ip_proto ip_csum ip_src ip_dst with_len].
  assert (Hu : 0 <= u16 (u64 (ip_len ip - ip_hdr_hlen ip) + Z.shiftl (Z.land (ip_foff ip) 8191) 3) < 65536)
    by (unfold u16; apply Z.mod_pos_bound; lia). lia.
Qed.

(** The table before the first fragment and between fragments. *)
Definition frag_at (h : ip_hdr) (data : list Z) (st : frag_state) (seen : list fragment) : Prop :=
  bufs_ok st ∧
  match seen with
  | [] => st = frag_init
  | _ => frag_holds h data st seen
  end.

Lemma frag_next h data st seen f c junk :
  data_ok data → ip_hdr_hlen h = 20 → frag_at h data st seen → frag_ok h data f → bytes data → bytes junk →
  ip_hdr_ok h → 0 <= c < 65536 →
  ∃ st', frag_receive st (set_csum c (frag_ip h data f)) (chunk data f ++ junk) =
      Done (inr (0%nat, all_seen data (f :: seen)), st') ∧ frag_at h data st' (f :: seen).
Proof.
  intros Hd Hhl [Hb Hst] Hf Hbd Hbj Hh0 Hc.
  assert (Hrx : bytes (chunk data f ++ junk)).
  { apply Forall_app_2; [|done]. unfold chunk. by apply Forall_take, Forall_drop. }
  assert (Hr : ∃ st', frag_receive st (set_csum c (frag_ip h data f)) (chunk data f ++ junk) =
      Done (inr (0%nat, all_seen data (f :: seen)), st') ∧ frag_holds h data st' (f :: seen)).
  { destruct seen as [|f0 seen]; [subst st; apply frag_first_spec; [done|lia|done]|apply frag_receive_spec; [done|lia|done..]]. }
  destruct Hr as (st' & Hr & Hh). exists st'. split; [done|]. split; [|done].
  by eapply frag_receive_ok; [done|apply set_csum_ok; [done|by apply frag_ip_ok]|..].
Qed.

Lemma frag_is_frag h data f c : data_ok data → frag_ok h data f →
  ip_fragment_is_frag (set_csum c (frag_ip h data f)) = true.
Proof.
  intros Hd Hf. pose proof (frag_bounds h data f Hd Hf) as (Hb & _). destruct Hf as (Hb0 & _ & _ & _ & Hm & _).
  unfold ip_fragment_is_frag. cbn [ip_foff set_csum frag_ip]. destruct (foff_bits _ (more data f) Hb) as [-> ->].
  destruct (decide (f_block f = 0)) as [H0|H0]; [by rewrite (Hm H0)|].
  rewrite (proj2 (Z.eqb_neq _ _) H0). by destruct (more data f).
Qed.

(** The buffer is released. *)
Lemma release_held h data st seen p :
  frag_holds h data st seen →
  ∃ hd, release_packet_buffer (set_buf st 0 p) 0 =
      Done (FragState (<[0%nat := with_reserved false p]> (packet_buffer st)) hd) ∧
    indexes (buf_key st) hd ∅.
Proof.
  intros [(q & rest & Hp & _) Hix].
  destruct (ix_remove _ _ _ 0%nat Hix ltac:(by apply elem_of_singleton)) as (hd & Hr & Hix' & _).
  exists hd. split; [|by rewrite difference_diag_L in Hix']. unfold release_packet_buffer.
  change (packet_buffer_head (set_buf st 0 p)) with (packet_buffer_head st). rewrite Hr, bind_done.
  unfold buf_at, set_buf. cbn [packet_buffer]. rewrite Hp. done.
Qed.

Section kernel.
Context `{ReliableKernel}.
Context (mac : list Z) (own mask elapsed : Z).

(** The reassembled packet comes back into [ip_input]. *)
Lemma input_whole last v ip n payload :
  configured mac own mask elapsed last v → plain ip n → ip_dst ip = own → ip_fragment_is_frag ip = false →
  ip_input 1 None (ip_hdr_store ip ++ payload) (ip_len ip) v =
  ip_deliver ip (ip_hdr_store ip ++ payload) (ip_len ip) v.
Proof.
  intros Hcf (Hok & Hl & Hv & Hn) Hd Hf. cbn [ip_input].
  rewrite (M_bind_done _ _ v (ip_hdr_store ip ++ payload) v) by done.
  rewrite (lift_bind _ _ v ip) by by apply ip_hdr_load_store.
  rewrite (bool_decide_true (Z.land _ _ = _)) by done. cbn [negb].
  rewrite (bool_decide_false (ip_hdr_hlen ip < 20)) by lia. rewrite (bool_decide_true (ip_len ip = _)) by done.
  cbn [negb]. rewrite (M_bind_done _ _ v tt v) by done.
  assert (Hr : 0 <= ip_dst ip < 2 ^ 32) by (unfold ip_hdr_ok in Hok; lia).
  pose proof (own_lookup mac own mask elapsed last v Hcf (ip_dst ip) Hr) as Hlk.
  rewrite bool_decide_true in Hlk by done. by rewrite (M_bind_done _ _ v _ _ Hlk), Hf.
Qed.

Section whole.
Context (h : ip_hdr) (data : list Z) (addrs : list sockaddr) (md md' : udp_model) (n : nat).
Context (Hd : data_ok data) (Hhl : ip_hdr_hlen h = 20) (Hv : Z.land (ip_vhl h) 0x40 = 0x40).
Context (Hdst : ip_dst h = own) (Hpr : ip_proto h = IP_PROTO_UDP).
Context (Hlen : length data = (20 + n)%nat) (Hn : Z.of_nat n <= 4080).
Context (Hmd : md_step addrs md (UdpDeliver h (take n data)) = Done ((0, None), md')).

(** The datagram in a complete buffer goes to the socket. *)
Lemma whole_delivered last v p seen :
  configured mac own mask elapsed last v → udp_refines addrs (w_udp v) md → buf_ok p →
  buf_holds h data p seen → all_seen data seen = true →
  ip_dst (pb_ip_hdr p) = own ∧
  ∃ u p', ip_input 1 None (ip_hdr_store (pb_ip_hdr p) ++ pb_payload p) (ip_len (pb_ip_hdr p)) v =
      Done ((0, ip_hdr_store (pb_ip_hdr p) ++ p'), set_udp u v) ∧ udp_refines addrs u md'.
Proof.
  intros Hcf Hu [Hpb Hpok] Hh Hall. destruct (all_seen_payload h data p seen Hd Hh Hall) as (Hpay & c & Hhdr).
  pose proof Hh as (_ & _ & _ & Hplen & _ & _). unfold IP_MAX_BYTES in Hplen.
  set (hd := pb_ip_hdr p) in *. set (payload := pb_payload p) in *.
  assert (Hplain : plain hd n).
  { split; [done|]. rewrite Hhdr. split; [exact Hhl|]. split; [exact Hv|]. cbn [ip_len set_csum with_len]. lia. }
  assert (Hdst' : ip_dst hd = own) by (rewrite Hhdr; exact Hdst). split; [done|].
  assert (Hstep : md_step addrs md (UdpDeliver hd (take n payload)) = Done ((0, None), md')).
  { rewrite <-Hmd, Hhdr, <-Hpay, take_take, Nat.min_l by lia. done. }
  destruct (udp_input_refines addrs (w_udp v) md hd payload n Hu Hpok Hpb ltac:(lia) ltac:(lia))
    as [(r & p' & u & md1 & Hrun & Hstep' & Hu' & _)|[_ Hstep']]; rewrite Hstep in Hstep'; [|done].
  injection Hstep' as <- <-. exists u, p'. split; [|done].
  set (fn := fun (ip : ip_hdr) payload bsize => on w_udp set_udp (fun u => udp_input u ip payload bsize)).
  assert (Hfn : find_handler (ip_proto hd) ip_proto_handlers = Some fn) by (by rewrite Hhdr; cbn; rewrite Hpr).
  assert (Hfr : fn hd payload (n : Z) v = Done ((0, p'), set_udp u v)) by (unfold fn; by apply on_done).
  rewrite (input_whole last v hd n payload Hcf Hplain Hdst' ltac:(by rewrite Hhdr)).
  exact (deliver_handled hd n payload fn 0 p' v _ Hplain Hfn Hfr ltac:(done) ltac:(done)).
Qed.

(** Then [ip_send] is called for a destination in the wrong byte order. *)
Context (Hback : reachable (own_route own mask) (ntohl own) = false).

Lemma fragment_completes last v st seen ip rx :
  configured mac own mask elapsed last v → udp_refines addrs (w_udp v) md →
  frag_receive (w_frag v) ip rx = Done (inr (0%nat, true), st) → frag_at h data st seen → seen ≠ [] →
  all_seen data seen = true →
  ∃ u fr, ip_fragment_input (ip_input 1 None) ip rx v =
      Done (0, with_errno EHOSTUNREACH (set_frag fr (set_udp u v))) ∧
    udp_refines addrs u md' ∧ reserved (buf_at fr 0) = false.
Proof.
  intros Hcf Hu Hrcv [Hbb Hst] Hne Hall. destruct seen as [|f0 seen]; [done|].
  pose proof Hst as [(p & rest & Hp & Hh) _].
  assert (Hp0 : buf_at st 0 = p) by (unfold buf_at; by rewrite Hp).
  pose proof (buf_at_ok st 0 Hbb) as Hpok. rewrite Hp0 in Hpok. set (v1 := set_frag st v).
  assert (Hcf1 : configured mac own mask elapsed last v1) by by eapply configured_ext.
  destruct (whole_delivered last v1 p _ Hcf1 Hu Hpok Hh Hall) as (Hdst' & u & p' & Hin & Hu').
  unfold ip_fragment_input.
  assert (Hon : on w_frag set_frag (λ st, frag_receive st ip rx) v = Done (inr (0%nat, true), v1)) by by apply on_done.
  rewrite (M_bind_done _ _ v _ _ Hon).
  rewrite (M_bind_done _ _ v1 p v1) by (unfold gets; cbn [w_frag set_frag v1]; by rewrite Hp0).
  rewrite (M_bind_done _ _ v1 _ _ Hin). set (hd := pb_ip_hdr p) in *. set (v2 := set_udp u v1).
  assert (Hnt : ip_ntoh (ip_hdr_store hd ++ p') = Done (ip_hdr_hlen (hdr_ntoh hd), hdr_ntoh hd)).
  { unfold ip_ntoh. by rewrite ip_hdr_load_store by apply Hpok. }
  rewrite (lift_bind _ _ v2 _ Hnt). cbv zeta. set (p2 := PacketBuf _ _ _ _ _). rewrite M_bind_modify.
  change (w_frag v2) with st. set (v3 := set_frag (set_buf st 0 p2) v2).
  assert (Hcf3 : configured mac own mask elapsed last v3) by by eapply configured_ext.
  assert (Hsend : ip_send (ip_dst (hdr_ntoh hd)) (ip_proto (hdr_ntoh hd)) (pb_payload p2) (u64 0) v3 =
    Done (-1, with_errno EHOSTUNREACH v3)).
  { change (u64 0) with (Z.of_nat 0). rewrite ip_send_prefix by lia. rewrite take_0.
    change (ip_dst (hdr_ntoh hd)) with (ntohl (ip_dst hd)). rewrite Hdst'.
    exact (send_unreachable mac own mask elapsed last v3 Hcf3 (ntohl own) (ip_proto hd) [] (htonl_range own) Hback). }
  rewrite (M_bind_done _ _ v3 _ _ Hsend).
  destruct (release_held h data st _ p2 Hst) as (hd' & Hrel & _).
  rewrite (M_bind_done _ _ _ (set_buf st 0 p2) (with_errno EHOSTUNREACH v3)) by done.
  rewrite (lift_bind _ _ _ _ Hrel), M_bind_modify. eexists u, _. split; [done|]. split; [done|].
  unfold buf_at. cbn [packet_buffer]. by rewrite Hp.
Qed.
End whole.

(** ** Frames with fragments *)
Context (hdr : ether_hdr) (h : ip_hdr) (data : list Z).
Context (Hproto : h_proto hdr = ETHER_PROTO_IPV4) (Hsrc : ip_src h ≠ own) (Hdst : ip_dst h = own).
Context (Hok : ip_hdr_ok h) (Hhl : ip_hdr_hlen h = 20) (Hv : Z.land (ip_vhl h) 0x40 = 0x40).
Context (Hd : data_ok data) (Hbytes : bytes data).

Lemma fragment_enters last v f c junk :
  configured mac own mask elapsed last v → frag_ok h data f → 0 <= c < 65536 →
  ∃ arp, configured mac own mask elapsed (learn last (ip_src h) (h_src hdr)) (set_arp arp v) ∧
    ∀ r v', ip_fragment_input (ip_input 1 None) (set_csum c (frag_ip h data f)) (chunk data f ++ junk)
        (set_arp arp v) = Done (r, v') →
      ∃ m', ingress_frame 0 hdr (frag_frame h data (f, c, junk)) (frag_size h data (f, c, junk)) v = Done (m', v').
Proof.
  intros Hcf Hf Hc. assert (Hfok := frag_ip_ok h data f Hok Hhl Hd Hf).
  assert (Hacc : acceptable (frag_ip h data f) (ip_len (frag_ip h data f)) = true).
  { unfold acceptable. change (ip_vhl (frag_ip h data f)) with (ip_vhl h).
    change (ip_hdr_hlen (frag_ip h data f)) with (ip_hdr_hlen h). by rewrite Hhl, !bool_decide_true by (done || lia). }
  destruct (input_accepts mac own mask elapsed last v Hcf 1 hdr (frag_ip h data f) c (chunk data f ++ junk)
    Hfok Hc Hacc Hsrc) as (arp & Hcf' & Hin).
  exists arp. split; [exact Hcf'|]. intros r v' Hrun.
  rewrite (bool_decide_true (ip_dst _ = own)) in Hin by done.
  change (ip_fragment_is_frag (frag_ip h data f)) with (ip_fragment_is_frag (set_csum c (frag_ip h data f))) in Hin.
  rewrite frag_is_frag in Hin by done. change (ip_hdr_hlen (frag_ip h data f)) with (ip_hdr_hlen h) in Hin.
  rewrite Hhl in Hin. change (Z.to_nat 20) with 20%nat in Hin.
  rewrite drop_app_exact in Hin by done. rewrite (M_bind_done _ _ _ _ _ Hrun) in Hin.
  pose proof (frame_silent hdr _ _ _ v _ _ _ (find_ipv4 hdr Hproto) Hin ltac:(lia)) as Hfr.
  eexists. exact Hfr.
Qed.

Lemma learn_twice last src m : learn (learn last src m) src m = learn last src m.
Proof. unfold learn. by case_bool_decide. Qed.

(** A fragment that does not complete the packet is kept. *)
Lemma fragment_waits last v seen f c junk :
  configured mac own mask elapsed last v → frag_at h data (w_frag v) seen → frag_ok h data f →
  0 <= c < 65536 → bytes junk →
  all_seen data (f :: seen) = false →
  ∃ m' v', ingress_frame 0 hdr (frag_frame h data (f, c, junk)) (frag_size h data (f, c, junk)) v = Done (m', v') ∧
    configured mac own mask elapsed (learn last (ip_src h) (h_src hdr)) v' ∧
    frag_at h data (w_frag v') (f :: seen) ∧ w_udp v' = w_udp v ∧ tx v' = tx v.
Proof.
  intros Hcf Hst Hf Hc Hj Hall. destruct (fragment_enters last v f c junk Hcf Hf Hc) as (arp & Hcf' & Hin).
  destruct (frag_next h data (w_frag v) seen f c junk Hd Hhl Hst Hf Hbytes Hj Hok Hc)
    as (st & Hrcv & Hst'). rewrite Hall in Hrcv.
  assert (Hrun : ip_fragment_input (ip_input 1 None) (set_csum c (frag_ip h data f)) (chunk data f ++ junk)
      (set_arp arp v) = Done (0, set_frag st (set_arp arp v))).
  { unfold ip_fragment_input.
    assert (Hon : on w_frag set_frag (λ s, frag_receive s (set_csum c (frag_ip h data f)) (chunk data f ++ junk))
      (set_arp arp v) = Done (inr (0%nat, false), set_frag st (set_arp arp v))) by by apply on_done.
    by rewrite (M_bind_done _ _ _ _ _ Hon). }
  destruct (Hin _ _ Hrun) as (m' & Hfr). eexists m', _. split; [exact Hfr|].
  split; [by eapply configured_ext|]. by split.
Qed.

Context (addrs : list sockaddr) (md md' : udp_model) (n : nat).
Context (Hudp : ip_proto h = IP_PROTO_UDP) (Hlen : length data = (20 + n)%nat) (Hn : Z.of_nat n <= 4080).
Context (Hback : reachable (own_route own mask) (ntohl own) = false).
Context (Hmd : md_step addrs md (UdpDeliver h (take n data)) = Done ((0, None), md')).

(** The one that does. *)
Lemma fragment_last last v seen f c junk :
  configured mac own mask elapsed last v → udp_refines addrs (w_udp v) md →
  frag_at h data (w_frag v) seen → frag_ok h data f →
  0 <= c < 65536 → bytes junk →
  all_seen data (f :: seen) = true →
  ∃ m' v', ingress_frame 0 hdr (frag_frame h data (f, c, junk)) (frag_size h data (f, c, junk)) v = Done (m', v') ∧
    configured mac own mask elapsed (learn last (ip_src h) (h_src hdr)) v' ∧
    udp_refines addrs (w_udp v') md' ∧ tx v' = tx v ∧ reserved (buf_at (w_frag v') 0) = false.
Proof.
  intros Hcf Hu Hst Hf Hc Hj Hall. destruct (fragment_enters last v f c junk Hcf Hf Hc) as (arp & Hcf' & Hin).
  destruct (frag_next h data (w_frag v) seen f c junk Hd Hhl Hst Hf Hbytes Hj Hok Hc)
    as (st & Hrcv & Hst'). rewrite Hall in Hrcv.
  destruct (fragment_completes h data addrs md md' n Hd Hhl Hv Hdst Hudp Hlen Hn Hmd Hback _ (set_arp arp v) st
    (f :: seen) _ _ Hcf' Hu Hrcv Hst' ltac:(done) Hall) as (u & fr & Hrun & Hu' & Hres).
  destruct (Hin _ _ Hrun) as (m' & Hfr). eexists m', _. split; [exact Hfr|].
  split; [by eapply configured_ext|]. by split.
Qed.

(** A fragmented UDP datagram on the wire.  When the fragments of a
    datagram for a bound socket with room arrive, in any order,
    duplicated and overlapping or not, nothing is
    answered, the socket gets nothing until the fragment that completes the
    packet, and then the datagram without its last 20 bytes; the buffer is free
    again. *)
Theorem fragments_delivered last w fs a :
  configured mac own mask elapsed last w → udp_refines addrs (w_udp w) md → w_frag w = frag_init →
  Forall arrival_ok (fs ++ [a]) → Forall (frag_ok h data) (fragment_of <$> fs ++ [a]) →
  completions data [] (fragment_of <$> fs ++ [a]) = replicate (length fs) false ++ [true] →
  ∃ w1 w2, ingress_fragments hdr h data fs w = Done (tt, w1) ∧ w_udp w1 = w_udp w ∧ tx w1 = tx w ∧
    ingress_fragments hdr h data [a] w1 = Done (tt, w2) ∧
    configured mac own mask elapsed (learn last (ip_src h) (h_src hdr)) w2 ∧
    udp_refines addrs (w_udp w2) md' ∧ tx w2 = tx w ∧ reserved (buf_at (w_frag w2) 0) = false.
Proof.
  intros Hcf Hu Hfr Hall.
  assert (Hat : frag_at h data (w_frag w) []).
  { rewrite Hfr. split; [|done]. unfold bufs_ok, frag_init. cbn [packet_buffer].
    apply Forall_forall. intros p Hp%list_elem_of_In%repeat_spec. subst p. apply zero_buf_ok. }
  clear Hfr. revert last w Hcf Hu Hat. generalize (@nil fragment) as seen.
  induction fs as [|[[f c] junk] fs IH]; intros seen last w Hcf Hu Hat Hin Hcomp.
  - destruct a as [[f c] junk]. apply Forall_singleton in Hall as [Hc Hj]. apply Forall_cons in Hin as [Hf _].
    simpl in Hcomp. injection Hcomp as Hcomp.
    destruct (fragment_last last w seen f c junk Hcf Hu Hat Hf Hc Hj Hcomp) as (m' & v' & Hrun & Hrest).
    exists w, v'. do 3 (split; [done|]). cbn [ingress_fragments]. by rewrite (M_bind_done _ _ _ _ _ Hrun).
  - cbn [app] in Hall. apply Forall_cons in Hall as [[Hc Hj] Hall]. apply Forall_cons in Hin as [Hf Hin].
    simpl in Hcomp. injection Hcomp as Hnot Hcomp.
    destruct (fragment_waits last w seen f c junk Hcf Hat Hf Hc Hj Hnot) as (m' & v' & Hrun & Hcf' & Hat' & Hu' & Htx).
    destruct (IH Hall (f :: seen) _ v' Hcf' ltac:(by rewrite Hu') Hat' Hin Hcomp)
      as (w1 & w2 & H1 & H2 & H3 & H4 & H5 & H6 & H7 & H8).
    exists w1, w2. cbn [ingress_fragments]. rewrite (M_bind_done _ _ _ _ _ Hrun). split; [exact H1|].
    rewrite H2, H3, Hu', Htx. do 3 (split; [done|]). rewrite learn_twice in H5. split; [done|].
    split; [done|]. split; [by rewrite H7|done].
Qed.
End kernel.

(** ** Witness *)

(** A datagram with forty bytes, in two fragments of 24 bytes. *)
Definition demo_split : list Z := [0; 53; 0; 10; 0; 48; 0; 0] ++ seqZ 1 40.

Definition demo_first : arrival := (Frag 0 24, 11, [99]).
Definition demo_second : arrival := (Frag 3 24, 12, []).

Lemma demo_frag_ok h f : ip_hdr_hlen h = 20 → f = Frag 0 24 ∨ f = Frag 3 24 → frag_ok h demo_split f.
Proof.
  intros Hh Hf. unfold frag_ok. rewrite Hh. destruct Hf as [-> | ->]; cbn [f_block f_size].
  - split; [lia|]. split; [lia|]. split; [change (length demo_split) with 48%nat; lia|].
    split; [intros _; reflexivity|]. split; [intros _; vm_compute; reflexivity|lia].
  - split; [lia|]. split; [lia|]. split; [change (length demo_split) with 48%nat; lia|].
    split; [intros _; reflexivity|]. split; [intros E; discriminate E|lia].
Qed.

#[local] Opaque demo_up.

Lemma fragments_delivered_witness :
  let w := demo_up demo_bound in let h := peer_ip IP_PROTO_UDP OWN_ADDR 0 in
  ∃ w1 w2, @ingress_fragments accept_all demo_ether h demo_split [demo_first] w = Done (tt, w1) ∧
    w_udp w1 = w_udp w ∧ tx w1 = tx w ∧
    @ingress_fragments accept_all demo_ether h demo_split [demo_second] w1 = Done (tt, w2) ∧
    configured mac_a OWN_ADDR OWN_MASK 0 (learn None (ip_src h) (h_src demo_ether)) w2 ∧
    udp_refines demo_addr (w_udp w2) (UdpModel [0%nat] [[(Sockaddr DEMO_PEER 53, seqZ 1 20)]]) ∧
    tx w2 = tx w ∧ reserved (buf_at (w_frag w2) 0) = false.
Proof.
  intros w h. destruct (demo_up_configured demo_bound) as (Hcf & Hu & _ & Hf & _).
  apply (@fragments_delivered accept_all mac_a OWN_ADDR OWN_MASK 0 demo_ether h demo_split)
    with (addrs := demo_addr) (md := UdpModel [0%nat] [[]]) (n := 28%nat) (fs := [demo_first]).
  - reflexivity.
  - unfold h, peer_ip, DEMO_PEER, OWN_ADDR. simpl. lia.
  - reflexivity.
  - unfold ip_hdr_ok, h, peer_ip, DEMO_PEER, OWN_ADDR, IP_PROTO_UDP. simpl. lia.
  - reflexivity.
  - reflexivity.
  - unfold data_ok. change (length demo_split) with 48%nat. lia.
  - apply (bool_decide_unpack _). by vm_compute.
  - reflexivity.
  - reflexivity.
  - lia.
  - vm_compute. reflexivity.
  - vm_compute. reflexivity.
  - exact Hcf.
  - unfold w. rewrite Hu. apply demo_bound_refines.
  - exact Hf.
  - repeat constructor; lia.
  - constructor; [apply demo_frag_ok; [reflexivity|by left]|]. constructor; [apply demo_frag_ok; [reflexivity|by right]|constructor].
  - vm_compute. reflexivity.
Defined.
