(* ===== verification/ArpInput.v ===== *)
(** * [arp_input] and the errors of [ether_input] on a configured stack

    A request is answered, a message of either kind teaches the stack its
    sender and sends what waited for it. *)

From S2P Require Import Prelude Bytes EtherFcs Checksum IpHeader RBTree RBIndex RBMap.
From S2P Require Import Rib QueueR Socket Udp Tcp Icmp IpDefer Ether Arp Fragment.
From S2P Require Import World Output IpFragments Config IpSend Input IpInput.

#[local] Open Scope Z_scope.

(** A message as it arrives. *)
Definition wire_arp (m : arp_ip) : list Z := arp_store (arp_hton m).

Section kernel.
Context `{ReliableKernel}.
Context (mac : list Z) (own mask elapsed : Z) (last : option (Z * list Z)).
Context (w : world) (Hcf : configured mac own mask elapsed last w).

(** The reply to a request for the address of the stack. *)
Definition arp_answer (hdr : ether_hdr) (m : arp_ip) (rest : list Z) (n : nat) : list (list Z) :=
  if bool_decide (arp_oper m = ARP_OPER_REQUEST) && bool_decide (arp_tpa m = own) then
    [ether_frame mac (h_src hdr) ETHER_PROTO_ARP (take n (wire_arp (reply_to m mac own) ++ rest))]
  else [].

Lemma arp_input_spec m rest n ps :
  arp_ok m → arp_htype m = ARP_HTYPE_ETHER → arp_ptype m = ETHER_PROTO_IPV4 → arp_spa m ≠ own →
  let last' := learn last (arp_spa m) (arp_sha m) in
  defer_holds (w_defer w) ps → no_sizes (w_defer w) → Forall (waiting_ok own mask) ps →
  ∃ w', configured mac own mask elapsed last' w' ∧ defer_holds (w_defer w') [] ∧
    no_sizes (w_defer w') ∧ w_udp w' = w_udp w ∧ w_tcp w' = w_tcp w ∧
    tx w' = tx w ++ flush_frames mac own last' (ip_global_id w) ps ∧
    arp_input (wire_arp m ++ rest) n w =
      (if bool_decide (arp_oper m = ARP_OPER_REQUEST) && bool_decide (arp_tpa m = own) then
         Done ((n, wire_arp (reply_to m mac own) ++ rest), w')
       else Done ((0, wire_arp m ++ rest), w')).
Proof.
  intros Hok Hht Hpt Hne last' Hd Hz Hps. pose proof Hok as Hok'. unfold arp_ok in Hok'.
  assert (Hr : 0 <= arp_spa m < 2 ^ 32 ∧ 0 <= arp_tpa m < 2 ^ 32) by lia. destruct Hr as [Hspa Htpa].
  clear Hok'.
  destruct (learn_configured mac own mask elapsed last w (arp_spa m) (arp_sha m) Hcf Hspa Hne)
    as (arp & Harp & Hcf1). fold (learn last (arp_spa m) (arp_sha m)) in Hcf1. fold last' in Hcf1.
  set (w1 := set_arp arp w) in *.
  destruct (handler_flushes mac own mask elapsed last' w1 ps 0 Hcf1 Hd Hz Hps)
    as (w' & Hfl & (E1 & E2 & E3 & E4 & E5 & _) & Hd' & Hz' & _ & Htx).
  assert (Hcf' : configured mac own mask elapsed last' w') by by eapply configured_ext.
  set (w2 := if bool_decide (arp_oper m = ARP_OPER_REQUEST) && negb (bool_decide (arp_tpa m = own))
             then with_errno ENOENT w' else w').
  assert (Hw2 : configured mac own mask elapsed last' w2 ∧ w_defer w2 = w_defer w' ∧ w_udp w2 = w_udp w' ∧
    w_tcp w2 = w_tcp w' ∧ tx w2 = tx w').
  { unfold w2. by destruct (_ && _); (split; [by eapply configured_ext|]). }
  destruct Hw2 as (G1 & G2 & G3 & G4 & G5).
  exists w2. rewrite G2, G3, G4, G5. do 3 (split; [done|]). split; [exact E4|]. split; [exact E5|]. split; [exact Htx|].
  clear G1 G2 G3 G4 G5.
  unfold arp_input, wire_arp.
  rewrite (lift_bind _ _ w (arp_hton m)) by (by apply arp_load_store, arp_hton_ok).
  rewrite arp_ntoh_hton by done. rewrite Hht, Hpt. rewrite !(bool_decide_true (_ = _)) by done. cbn [negb].
  rewrite (M_bind_done _ _ w _ _ (on_done w_arp set_arp _ w _ _ Harp)). fold w1.
  rewrite (M_bind_done _ _ w1 _ _ Hfl).
  unfold w2. clear w2. destruct (bool_decide (arp_oper m = ARP_OPER_REQUEST)); [|done]. cbn [andb].
  pose proof (own_lookup mac own mask elapsed last' w' Hcf' (arp_tpa m) Htpa) as Hlk.
  destruct (bool_decide (arp_tpa m = own)); rewrite (M_bind_done _ _ w' _ _ Hlk); [|done]. cbn [negb]. destruct Hcf'.
  rewrite (M_bind_done _ _ w' _ _ (handle2addr_ok w' mac cf_if)). cbn [default].
  assert (Hmk : arp_make_reply m mac own (arp_store (arp_hton m) ++ rest) =
    Done (arp_store (arp_hton (reply_to m mac own)) ++ rest)).
  { apply make_reply_done; [done|apply cf_mac|lia]. }
  by rewrite (lift_bind _ _ w' _ Hmk).
Qed.

(** ** Properties *)

(** C29: An ARP message for IPv4 over Ethernet, a request or a reply, from
    another host: the sender is learned, and what waited in the ring is sent or
    asked for again; a request for the address of the stack is then answered by
    one frame to its sender with the reply of [arp_exchange_resolves]; other
    messages are not answered. *)
Theorem arp_message_handled hdr m rest (n : nat) ps :
  h_proto hdr = ETHER_PROTO_ARP → arp_ok m → arp_htype m = ARP_HTYPE_ETHER →
  arp_ptype m = ETHER_PROTO_IPV4 → arp_spa m ≠ own → 28 <= Z.of_nat n <= 1500 →
  (n <= 28 + length rest)%nat →
  let last' := learn last (arp_spa m) (arp_sha m) in
  defer_holds (w_defer w) ps → no_sizes (w_defer w) → Forall (waiting_ok own mask) ps →
  ∃ m' w', ingress_frame 0 hdr (wire_arp m ++ rest) n w = Done (m', w') ∧
    configured mac own mask elapsed last' w' ∧ defer_holds (w_defer w') [] ∧
    tx w' = tx w ++ flush_frames mac own last' (ip_global_id w) ps ++ arp_answer hdr m rest n.
Proof.
  intros Hpr Hok Hht Hpt Hne Hn Hsz last' Hd Hz Hps.
  destruct (arp_input_spec m rest n ps Hok Hht Hpt Hne Hd Hz Hps) as (w' & Hcf' & Hd' & _ & _ & _ & Htx & Hrun).
  fold last' in Hcf', Htx.
  assert (Hfn : find_handler (h_proto hdr) ether_proto_handlers =
    Some (fun _ payload bsize => arp_input payload bsize)) by by rewrite Hpr.
  unfold arp_answer. destruct (bool_decide (arp_oper m = ARP_OPER_REQUEST) && bool_decide (arp_tpa m = own)).
  - pose proof (frame_answered hdr _ _ _ w mac n _ w' Hfn Hrun (cf_if _ _ _ _ _ _ Hcf')) as Hfr.
    eexists _, _. split; [apply Hfr; [|lia]|].
    { destruct Hcf'. unfold wire_arp. rewrite length_app, arp_store_length; [lia|apply cf_mac|apply Hok]. }
    split; [by eapply configured_ext|]. split; [done|]. simpl tx. by rewrite Htx, Hpr, <-app_assoc.
  - pose proof (frame_silent hdr _ _ _ w 0 _ w' Hfn Hrun ltac:(lia)) as Hfr.
    eexists _, _. split; [exact Hfr|]. split; [done|]. split; [done|]. by rewrite app_nil_r.
Qed.

(** The errors of the input path reach the caller of [ether_input] as -1 with
    [errno]: a frame of a type without a handler gives [EPROTONOSUPPORT], an ARP
    message that is not for Ethernet or not for IPv4 gives [EPROTOTYPE]; nothing
    is sent, nothing learned, the buffer is as it was. *)
Theorem ether_input_errors hdr payload n m rest :
  (h_proto hdr ∉ [ETHER_PROTO_ARP; ETHER_PROTO_IPV4] →
   ether_input hdr payload n w = Done ((-1, payload), with_errno EPROTONOSUPPORT w)) ∧
  (h_proto hdr = ETHER_PROTO_ARP → arp_ok m →
   arp_htype m ≠ ARP_HTYPE_ETHER ∨ arp_ptype m ≠ ETHER_PROTO_IPV4 →
   ether_input hdr (wire_arp m ++ rest) n w = Done ((-1, wire_arp m ++ rest), with_errno EPROTOTYPE w)).
Proof.
  split.
  - intros Hx. rewrite !not_elem_of_cons in Hx. destruct Hx as (Hx1 & Hx2 & _).
    assert (Hnone : find_handler (h_proto hdr) ether_proto_handlers = None).
    { cbn [find_handler ether_proto_handlers]. by rewrite !bool_decide_false by (intros E; symmetry in E; done). }
    unfold ether_input. by rewrite Hnone.
  - intros Hpr Hok Hty.
    assert (Hfn : find_handler (h_proto hdr) ether_proto_handlers =
      Some (fun _ payload bsize => arp_input payload bsize)) by by rewrite Hpr.
    assert (Hrun : arp_input (wire_arp m ++ rest) n w = Done ((- EPROTOTYPE, wire_arp m ++ rest), w)).
    { unfold arp_input, wire_arp.
      rewrite (lift_bind _ _ w (arp_hton m)) by (by apply arp_load_store, arp_hton_ok).
      rewrite arp_ntoh_hton by done. destruct (decide (arp_htype m = ARP_HTYPE_ETHER)) as [E|E].
      - rewrite (bool_decide_true (arp_htype m = _)) by done. cbn [negb].
        by rewrite bool_decide_false by tauto.
      - by rewrite (bool_decide_false (arp_htype m = _)) by done. }
    pose proof (input_handled hdr (wire_arp m ++ rest) n _ w _ _ _ Hfn Hrun) as Hin.
    rewrite Hin. by rewrite bool_decide_true by done.
Qed.
End kernel.

(** ** Witnesses *)
#[local] Opaque demo_up demo_known.

(** Who has the address of the stack? *)
Definition demo_request : arp_ip :=
  ArpIp ARP_HTYPE_ETHER ETHER_PROTO_IPV4 6 4 ARP_OPER_REQUEST mac_b DEMO_PEER (repeat 0 6) OWN_ADDR.

Lemma demo_request_ok : arp_ok demo_request.
Proof.
  unfold arp_ok, demo_request, DEMO_PEER, OWN_ADDR, ARP_HTYPE_ETHER, ETHER_PROTO_IPV4, ARP_OPER_REQUEST.
  simpl. lia.
Qed.

Definition demo_arp_ether : ether_hdr := EtherHdr mac_broadcast_addr mac_b ETHER_PROTO_ARP.

Lemma arp_message_handled_witness :
  let w := set_defer demo_waiting (demo_up demo_udp) in
  let last' := learn None (arp_spa demo_request) (arp_sha demo_request) in
  ∃ m' w', @ingress_frame accept_all 0 demo_arp_ether (wire_arp demo_request ++ repeat 0 18) 46%nat w = Done (m', w') ∧
    configured mac_a OWN_ADDR OWN_MASK 0 last' w' ∧ defer_holds (w_defer w') [] ∧
    tx w' = tx w ++ flush_frames mac_a OWN_ADDR last' (ip_global_id w) [(DEMO_PEER, 17, [1; 2; 3])] ++
      arp_answer mac_a OWN_ADDR demo_arp_ether demo_request (repeat 0 18) 46.
Proof.
  intros w last'. assert (Hcf : configured mac_a OWN_ADDR OWN_MASK 0 None w).
  { eapply configured_ext; [apply (demo_up_configured demo_udp)|reflexivity..]. }
  apply (@arp_message_handled accept_all accept_all_reliable mac_a OWN_ADDR OWN_MASK 0 None w Hcf
    demo_arp_ether demo_request (repeat 0 18) 46).
  - reflexivity.
  - apply demo_request_ok.
  - reflexivity.
  - reflexivity.
  - unfold demo_request, DEMO_PEER. simpl. lia.
  - lia.
  - simpl. lia.
  - apply demo_waiting_holds.
  - unfold no_sizes. apply (bool_decide_unpack _). vm_compute. done.
  - constructor; [|constructor]. split; [|done]. unfold DEMO_PEER, OWN_ADDR. simpl. lia.
Defined.

Definition demo_bad_request : arp_ip :=
  ArpIp 6 ETHER_PROTO_IPV4 6 4 ARP_OPER_REQUEST mac_b DEMO_PEER (repeat 0 6) OWN_ADDR.

Lemma ether_input_errors_witness :
  let w := demo_up demo_udp in
  @ether_input accept_all (EtherHdr mac_a mac_b 0x86dd) [1; 2] 2 w =
    Done ((-1, [1; 2]), with_errno EPROTONOSUPPORT w) ∧
  @ether_input accept_all demo_arp_ether (wire_arp demo_bad_request ++ []) 28 w =
    Done ((-1, wire_arp demo_bad_request ++ []), with_errno EPROTOTYPE w).
Proof.
  intros w. split.
  - apply (@ether_input_errors accept_all w (EtherHdr mac_a mac_b 0x86dd) [1; 2] 2 demo_request []).
    rewrite !not_elem_of_cons. split_and!; [done|done|]. apply not_elem_of_nil.
  - apply (@ether_input_errors accept_all w demo_arp_ether [] 28 demo_bad_request []).
    + reflexivity.
    + unfold arp_ok, demo_bad_request, DEMO_PEER, OWN_ADDR, ETHER_PROTO_IPV4, ARP_OPER_REQUEST. simpl. lia.
    + left. done.
Defined.
