(* ===== verification/Stack.v ===== *)
(** * The threads of the stack, [src/xstack.c]

    One round of the ingress and of the egress loop, the timer and the periodic
    tasks, [xstack_init] and [main] up to [xstack_start]. *)

From S2P Require Import Prelude Bytes IpHeader RBTree RBIndex RBMap Rib QueueR Socket.
From S2P Require Import Udp Tcp IpDefer Ether Arp Fragment World Output IpFragments.
From S2P Require Import Config IpSend Input.

#[local] Open Scope Z_scope.

Definition XSTACK_PERIODIC_EVENT_SEC : Z := 10.

(** ** Binding and initialisation *)

(** [xstack_bind]: 0, or -1 with [errno]. *)
Definition xstack_bind (st : udp_state) (sock : nat) : outcome (option Z * udp_state) :=
  if bool_decide (sock_proto (sock_at st sock) = XIP_PROTO_UDP) then xstack_udp_bind st sock
  else Done (Some EPROTOTYPE, st).

Definition put_sock (st : udp_state) (i : nat) (s : xstack_sock) : udp_state :=
  UdpState (<[i := s]> (sockets st)) (upd_sock_tree_head st).

(** The loop of [xstack_init] over the [n] sockets from [i] on, given that the
    shared memory can be mapped; the error that makes it exit. *)
Fixpoint xstack_init_loop (st : udp_state) (i n : nat) : outcome (option Z * udp_state) :=
  match n with
  | O => Done (None, st)
  | S n =>
      let sock := sock_at st i in
      s ← xstack_init_sock (sock_proto sock) (sock_addr sock);
      '(r, st) ← xstack_bind (put_sock st i s) i;
      match r with
      | Some e => Done (Some e, st)
      | None => xstack_init_loop st (S i) n
      end
  end.

Definition xstack_init (st : udp_state) : outcome (option Z * udp_state) :=
  xstack_init_loop st 0 (length (sockets st)).

(** The sockets before [xstack_init]: addresses, no shared memory yet. *)
Definition static_sock (addr : sockaddr) : xstack_sock :=
  let q := QueueCb 0 0 0 0 in Sock XIP_PROTO_UDP addr q [] q [].

Definition static_sockets (addrs : list sockaddr) : udp_state :=
  UdpState (static_sock <$> addrs) (RB_INITIALIZER (length addrs)).

(** The one socket of [sockets]. *)
Definition stack_sockets : list sockaddr := [Sockaddr 167772162 10].

(** ** The timer *)

(** [eval_timer]: whether the tasks are due, [delta_time] and the new [start],
    given the seconds of the monotonic clock. *)
Definition eval_timer (start now : Z) : bool * Z * Z :=
  let delta_time := s32 (now - start) in
  if bool_decide (delta_time >= XSTACK_PERIODIC_EVENT_SEC) then (true, delta_time, now)
  else (false, delta_time, start).

(** [start] is 0 before the first tick: the first [delta_time] is the time the host
    is up, not the time since the start of the stack. *)
Lemma first_delta_is_uptime uptime :
  XSTACK_PERIODIC_EVENT_SEC <= uptime < 2 ^ 31 → eval_timer 0 uptime = (true, uptime, uptime).
Proof.
  unfold XSTACK_PERIODIC_EVENT_SEC, eval_timer. intros Hu. rewrite Z.sub_0_r.
  assert (Hs : s32 uptime = uptime).
  { unfold s32, u32. rewrite Z.mod_small by lia. by rewrite bool_decide_true by lia. }
  rewrite Hs. by rewrite bool_decide_true by (unfold XSTACK_PERIODIC_EVENT_SEC; lia).
Qed.

Section kernel.
Context `{Kernel}.

(** The tasks registered by [XSTACK_PERIODIC_TASK]. *)
Definition periodic_tasks : list (Z → M unit) :=
  [fun delta_time => modify (fun w => set_arp (arp_cache_update (w_arp w) delta_time) w);
   ip_defer_handler].

Fixpoint run_tasks (tasks : list (Z → M unit)) (delta_time : Z) : M unit :=
  match tasks with
  | [] => mret tt
  | task :: tasks => _ ← task delta_time; run_tasks tasks delta_time
  end.

Definition run_periodic_tasks (delta_time : Z) : M unit := run_tasks periodic_tasks delta_time.

(** ** The ingress thread *)

(** Its variables: the frame header, [rx_buffer] and [start] of the timer. *)
Record ingress : Type := Ingress {
  in_hdr : ether_hdr;
  rx_buffer : list Z;
  timer_start : Z
}.

(** One round of the loop, from [ether_receive] to the check of the state. *)
Definition ingress_round (ether_handle : Z) (s : ingress) (rx : list rx_result) (now : Z)
    : M (ingress * list rx_result) :=
  '(retval, hdr, buf, rx) ← ether_receive ether_handle (in_hdr s) (rx_buffer s) rx;
  buf ← (if bool_decide (retval > 0) then ingress_frame ether_handle hdr buf retval else mret buf);
  let '(due, delta_time, start) := eval_timer (timer_start s) now in
  _ ← (if due : bool then run_periodic_tasks delta_time else mret tt);
  mret (Ingress hdr buf start, rx).

(** ** The egress thread *)

(** [xstack_tcp_send] fails for every datagram. *)
Definition xstack_tcp_send (s : xstack_sock) (d : dgram) : M Z := mret (-1).

(** [proto_send[proto]], which is called for a protocol between
    [XIP_PROTO_NONE] and [XIP_PROTO_LAST]. *)
Definition proto_send (proto : Z) : xstack_sock → dgram → M Z :=
  if bool_decide (proto = XIP_PROTO_TCP) then xstack_tcp_send else xstack_udp_send.

(** One socket of the loop. *)
Definition egress_socket (i : nat) : M unit :=
  sock ← gets (fun w => sock_at (w_udp w) i);
  d ← lift (egress_peek sock);
  match d with
  | None => mret tt
  | Some d =>
      let proto := sock_proto sock in
      _ ← (if bool_decide (proto > XIP_PROTO_NONE) && bool_decide (proto < XIP_PROTO_LAST)
           then proto_send proto sock d else mret (-1));
      sock ← gets (fun w => sock_at (w_udp w) i);
      sock ← lift (egress_discard sock);
      modify (fun w => set_udp (put_sock (w_udp w) i sock) w)
  end.

Fixpoint egress_sockets (i n : nat) : M unit :=
  match n with
  | O => mret tt
  | S n => _ ← egress_socket i; egress_sockets (S i) n
  end.

(** One round of the loop: every socket once. *)
Definition egress_round : M unit :=
  n ← gets (fun w => length (sockets (w_udp w)));
  egress_sockets 0 n.

(** ** [main] up to the start of the threads *)

(** [ip_config] and [xstack_init], on the interface [ether_init] opened. *)
Definition boot (ether_handle : Z) : M (option Z) :=
  _ ← ip_config ether_handle 167772162 4294967040;
  on w_udp set_udp xstack_init.
End kernel.

(** ** [xstack_init] binds every socket *)
Lemma sockaddr_ok_static addrs i :
  Forall sockaddr_ok addrs → (i < length addrs)%nat → sockaddr_ok (sock_addr (sock_at (static_sockets addrs) i)).
Proof.
  intros Ha Hi. destruct (lookup_lt_is_Some_2 addrs i Hi) as [a Hl].
  unfold sock_at, static_sockets. cbn [sockets]. rewrite list_lookup_fmap, Hl. cbn.
  rewrite Forall_lookup in Ha. by eapply Ha.
Qed.

Section init.
Context (addrs : list sockaddr) (Haddrs : Forall sockaddr_ok addrs) (Hdup : NoDup addrs).
Context (Hports : Forall (fun a => port a <= XSTACK_SOCK_PORT_MAX) addrs).

(** The first [i] sockets are bound to their address, with empty queues. *)
Definition bound_up_to (st : udp_state) (i : nat) : Prop :=
  udp_linked st (rev (seq 0 i)) ∧ sock_addr <$> sockets st = addrs ∧
  ∀ j s, sockets st !! j = Some s → sock_proto s = XIP_PROTO_UDP ∧ ((j < i)%nat → ingress_holds s []).

Lemma static_bound : bound_up_to (static_sockets addrs) 0.
Proof.
  split_and!.
  - split; simpl.
    + apply indexes_init.
    + intros i Hi. rewrite length_fmap in Hi. by apply nodes_init.
    + intros i Hi. by apply elem_of_nil in Hi.
    + intros i Hi. rewrite length_fmap in Hi. by apply sockaddr_ok_static.
  - unfold static_sockets. cbn [sockets]. rewrite <-list_fmap_compose. apply list_fmap_id.
  - intros j s Hj. unfold static_sockets in Hj. cbn [sockets] in Hj. rewrite list_lookup_fmap in Hj.
    destruct (addrs !! j); simplify_eq/=. split; [done|lia].
Qed.

Lemma bound_length st i : bound_up_to st i → length (sockets st) = length addrs.
Proof. intros (_ & <- & _). by rewrite length_fmap. Qed.

Lemma bound_addr st i j : bound_up_to st i → (j < length addrs)%nat → addrs !! j = Some (sock_addr (sock_at st j)).
Proof.
  intros Hb Hj. pose proof (bound_length st i Hb) as Hl. destruct Hb as (_ & Ha & _).
  destruct (lookup_lt_is_Some_2 (sockets st) j ltac:(lia)) as [s Hs].
  unfold sock_at. rewrite <-Ha, list_lookup_fmap, Hs. done.
Qed.

(** The address of a later socket is free. *)
Lemma addr_free st i : bound_up_to st i → (i < length addrs)%nat →
  bound_to st (rev (seq 0 i)) (sock_addr (sock_at st i)) = None.
Proof.
  intros Hb Hi. destruct (bound_to st _ _) as [j|] eqn:Hj; [|done]. apply bound_to_in in Hj as [Hj He].
  apply list_elem_of_In, in_rev, list_elem_of_In, elem_of_seq in Hj.
  pose proof (bound_addr st i j Hb ltac:(lia)) as H1. pose proof (bound_addr st i i Hb Hi) as H2.
  rewrite He in H1. pose proof (NoDup_lookup addrs j i _ Hdup H1 H2). lia.
Qed.

Lemma init_step st i :
  bound_up_to st i → (i < length addrs)%nat →
  ∃ s st', xstack_init_sock (sock_proto (sock_at st i)) (sock_addr (sock_at st i)) = Done s ∧
    xstack_bind (put_sock st i s) i = Done (None, st') ∧ bound_up_to st' (S i).
Proof.
  intros Hb Hi. pose proof (bound_length st i Hb) as Hlen. pose proof (bound_addr st i i Hb Hi) as Hai.
  pose proof (addr_free st i Hb Hi) as Hfree. pose proof Hb as (Hl & Ha & Hs).
  set (a := sock_addr (sock_at st i)) in *.
  assert (Hok : sockaddr_ok a) by (rewrite Forall_lookup in Haddrs; by eapply Haddrs).
  assert (Hpt : port a <= XSTACK_SOCK_PORT_MAX) by (rewrite Forall_lookup in Hports; by eapply Hports).
  destruct (lookup_lt_is_Some_2 (sockets st) i ltac:(lia)) as [s0 Hs0].
  assert (Hpr : sock_proto (sock_at st i) = XIP_PROTO_UDP).
  { unfold sock_at. rewrite Hs0. cbn. by apply (Hs i s0). }
  rewrite Hpr. destruct (init_sock_done XIP_PROTO_UDP a Hok) as (s & Hinit & Hh & Hsa).
  assert (Hsp : sock_proto s = XIP_PROTO_UDP).
  { unfold xstack_init_sock in Hinit. apply bind_done_inv in Hinit as (iq & _ & Hinit).
    apply bind_done_inv in Hinit as (eq & _ & Hinit). by apply done_inj in Hinit as <-. }
  pose proof (linked_update st _ i s Hl Hsa) as Hl1. fold (put_sock st i s) in Hl1.
  set (st1 := put_sock st i s) in *.
  assert (Hat : sock_at st1 i = s).
  { unfold sock_at, st1, put_sock. cbn [sockets]. by rewrite list_lookup_insert_eq by lia. }
  assert (Hbt : bound_to st1 (rev (seq 0 i)) a = None).
  { rewrite <-Hfree. unfold bound_to. apply find_ext_in. intros j Hj.
    apply list_elem_of_In, in_rev, list_elem_of_In, elem_of_seq in Hj. unfold sock_at, st1, put_sock. cbn [sockets].
    by rewrite list_lookup_insert_ne by lia. }
  rewrite <-Hsa, <-Hat in Hbt.
  destruct (bind_free st1 (rev (seq 0 i)) i Hl1) as (h & Hins & Hl2);
    [unfold st1, put_sock; cbn [sockets]; rewrite length_insert; lia|done|].
  exists s, (UdpState (sockets st1) h). split; [done|]. split.
  - fold st1. unfold xstack_bind. rewrite Hat, bool_decide_true by done. unfold xstack_udp_bind.
    rewrite Hat. rewrite bool_decide_false by (rewrite Hsa; lia).
    rewrite (find_bound st1 _ (sock_addr s) Hl1) by (by rewrite Hsa). rewrite bind_done.
    rewrite Hat in Hbt, Hins. rewrite Hbt, Hins, bind_done. done.
  - split_and!.
    + rewrite seq_S, rev_app_distr. exact Hl2.
    + cbn [sockets]. unfold st1, put_sock. cbn [sockets]. rewrite list_fmap_insert, Ha.
      by rewrite Hsa, list_insert_id by done.
    + intros j sj Hj. cbn [sockets] in Hj. unfold st1, put_sock in Hj. cbn [sockets] in Hj.
      destruct (decide (j = i)) as [->|Hne].
      * rewrite list_lookup_insert_eq in Hj by lia. injection Hj as <-. done.
      * rewrite list_lookup_insert_ne in Hj by done. destruct (Hs j sj Hj) as [Hp Hq]. split; [done|].
        intros Hlt. apply Hq. lia.
Qed.

Lemma init_loop st i n :
  bound_up_to st i → (i + n = length addrs)%nat →
  ∃ st', xstack_init_loop st i n = Done (None, st') ∧ bound_up_to st' (length addrs).
Proof.
  revert st i. induction n as [|n IH]; intros st i Hb Hn.
  { exists st. split; [done|]. by replace (length addrs) with i by lia. }
  destruct (init_step st i Hb ltac:(lia)) as (s & st1 & Hinit & Hbind & Hb1).
  destruct (IH st1 (S i) Hb1 ltac:(lia)) as (st2 & Hrun & Hb2). exists st2. split; [|done].
  cbn [xstack_init_loop]. by rewrite Hinit, bind_done, Hbind, bind_done.
Qed.

Lemma bound_refines st :
  bound_up_to st (length addrs) →
  udp_refines addrs st (UdpModel (rev (seq 0 (length addrs))) (replicate (length addrs) [])).
Proof.
  intros Hb. pose proof (bound_length st _ Hb) as Hlen. destruct Hb as (Hl & Ha & Hs).
  split; [done|]. split; [done|]. cbn [md_queue]. rewrite <-Hlen. apply Forall2_same_length_lookup_2.
  { by rewrite length_replicate. }
  intros j s q Hj Hq. apply lookup_replicate in Hq as [-> Hlt]. apply (Hs j s Hj). lia.
Qed.

(** [xstack_init] on the static table. *)
Lemma init_done :
  ∃ st, xstack_init (static_sockets addrs) = Done (None, st) ∧
    udp_refines addrs st (UdpModel (rev (seq 0 (length addrs))) (replicate (length addrs) [])).
Proof.
  destruct (init_loop _ 0 (length addrs) static_bound eq_refl) as (st & Hst & Hb). exists st.
  split; [|by apply bound_refines]. unfold xstack_init, static_sockets. cbn [sockets].
  rewrite length_fmap. exact Hst.
Qed.

(** A second run finds the first address taken, by the socket itself. *)
Lemma init_again st :
  bound_up_to st (length addrs) → addrs ≠ [] → ∃ st', xstack_init st = Done (Some EADDRINUSE, st').
Proof.
  intros Hb Hne. assert (Hi : (0 < length addrs)%nat) by (destruct addrs; [done|simpl; lia]).
  pose proof (bound_length st _ Hb) as Hlen. pose proof (bound_addr st _ 0 Hb Hi) as Ha0.
  pose proof Hb as (Hl & Ha & Hs). set (a := sock_addr (sock_at st 0)) in *.
  assert (Hok : sockaddr_ok a) by (rewrite Forall_lookup in Haddrs; by eapply Haddrs).
  assert (Hpt : port a <= XSTACK_SOCK_PORT_MAX) by (rewrite Forall_lookup in Hports; by eapply Hports).
  destruct (lookup_lt_is_Some_2 (sockets st) 0 ltac:(lia)) as [s0 Hs0].
  assert (Hpr : sock_proto (sock_at st 0) = XIP_PROTO_UDP) by (unfold sock_at; rewrite Hs0; by apply (Hs 0%nat s0)).
  destruct (init_sock_done XIP_PROTO_UDP a Hok) as (s & Hinit & _ & Hsa).
  assert (Hsp : sock_proto s = XIP_PROTO_UDP).
  { unfold xstack_init_sock in Hinit. apply bind_done_inv in Hinit as (iq & _ & Hinit).
    apply bind_done_inv in Hinit as (eq & _ & Hinit). by apply done_inj in Hinit as <-. }
  pose proof (linked_update st _ 0 s Hl Hsa) as Hl1. fold (put_sock st 0 s) in Hl1.
  set (st1 := put_sock st 0 s) in *.
  assert (Hat : sock_at st1 0 = s).
  { unfold sock_at, st1, put_sock. cbn [sockets]. by rewrite list_lookup_insert_eq by lia. }
  destruct (bound_to st1 (rev (seq 0 (length addrs))) (sock_addr s)) as [j|] eqn:Hbt.
  2:{ pose proof (List.find_none _ _ Hbt 0%nat) as Hn. exfalso. rewrite <-Hat in Hn.
      rewrite bool_decide_true in Hn by done. discriminate Hn. apply in_rev. rewrite rev_involutive.
      apply in_seq. lia. }
  exists st1. unfold xstack_init. rewrite Hlen. destruct (length addrs) as [|n] eqn:Hn; [lia|].
  cbn [xstack_init_loop]. rewrite Hpr. fold a. rewrite Hinit, bind_done. fold st1.
  unfold xstack_bind. rewrite Hat, bool_decide_true by done. unfold xstack_udp_bind. rewrite Hat.
  rewrite bool_decide_false by (rewrite Hsa; lia).
  rewrite (find_bound st1 _ (sock_addr s) Hl1) by (by rewrite Hsa). rewrite bind_done.
  by rewrite Hbt.
Qed.

(** *** Properties *)

(** [xstack_init] on a table of UDP sockets with distinct addresses and ports
    up to 49151 binds every socket: it does not exit, and the state afterwards
    is that of the demultiplexer with all sockets bound and all queues empty.
    When [xstack_start] runs it again, after [xstack_stop], it exits with
    [EADDRINUSE], because the sockets are still in the tree. *)
Theorem xstack_init_binds :
  ∃ st, xstack_init (static_sockets addrs) = Done (None, st) ∧
    udp_refines addrs st (UdpModel (rev (seq 0 (length addrs))) (replicate (length addrs) [])) ∧
    (addrs ≠ [] → ∃ st', xstack_init st = Done (Some EADDRINUSE, st')).
Proof.
  destruct (init_loop _ 0 (length addrs) static_bound eq_refl) as (st & Hst & Hb). exists st.
  split; [|split; [by apply bound_refines|intros; by apply init_again]].
  unfold xstack_init, static_sockets. cbn [sockets]. rewrite length_fmap. exact Hst.
Qed.
End init.

Lemma stack_sockets_ok : Forall sockaddr_ok stack_sockets.
Proof. constructor; [|constructor]. split; cbn [inet4_addr port]; lia. Qed.

Lemma xstack_init_binds_witness :
  ∃ st, xstack_init (static_sockets stack_sockets) = Done (None, st) ∧
    udp_refines stack_sockets st (UdpModel [0%nat] [[]]) ∧
    (stack_sockets ≠ [] → ∃ st', xstack_init st = Done (Some EADDRINUSE, st')).
Proof.
  apply (xstack_init_binds stack_sockets).
  - apply stack_sockets_ok.
  - apply NoDup_singleton.
  - constructor; [|constructor]. unfold XSTACK_SOCK_PORT_MAX. cbn [port]. lia.
Defined.

(** ** The stack as [main] leaves it to the threads *)
Record stack_up (mac : list Z) (own mask elapsed : Z) (last : option (Z * list Z))
    (addrs : list sockaddr) (md : udp_model) (w : world) : Prop := StackUp {
  up_configured : configured mac own mask elapsed last w;
  up_udp : udp_refines addrs (w_udp w) md;
  up_tcp : tcp_ok (w_tcp w);
  up_defer : ∃ ps, defer_holds (w_defer w) ps ∧ Forall (waiting_ok own mask) ps;
  up_sizes : no_sizes (w_defer w)
}.

Lemma defer_init_sizes : no_sizes defer_init.
Proof. unfold no_sizes. apply (bool_decide_unpack _). by vm_compute. Qed.

Lemma boot_done `{ReliableKernel} mac :
  mac_ok mac →
  ∃ w, boot 0 (initial_world mac (static_sockets stack_sockets)) = Done (None, w) ∧
    stack_up mac OWN_ADDR OWN_MASK 0 None stack_sockets (UdpModel [0%nat] [[]]) w ∧
    tx w = repeat (arp_frame mac OWN_ADDR OWN_ADDR) 3 ∧
    w_rib w = rib_one (own_route OWN_ADDR OWN_MASK) ∧
    arp_cache (w_arp w) = ArpEntry OWN_ADDR mac ARP_CACHE_STATIC :: repeat zero_arp 49 ∧
    w_tcp w = TcpTable [] (RbHead None ∅) ∧ w_defer w = defer_init ∧ defer_holds (w_defer w) [] ∧
    w_frag w = frag_init ∧ ip_global_id w = 0.
Proof.
  intros Hm.
  destruct (config_done mac OWN_ADDR OWN_MASK (static_sockets stack_sockets) Hm)
    as (w & Hw & Hcf & Htx & Hu & Hd & Hfr & Hid & Ht & Hc); [unfold OWN_ADDR; lia|unfold OWN_MASK; lia|].
  destruct (init_done stack_sockets stack_sockets_ok) as (st & Hst & Hr).
  { apply NoDup_singleton. }
  { constructor; [|constructor]. unfold XSTACK_SOCK_PORT_MAX. cbn [port]. lia. }
  exists (set_udp st w). split; [|split].
  - unfold boot. rewrite (M_bind_done _ _ _ _ _ Hw). apply on_done. by rewrite Hu.
  - split; simpl.
    + by eapply configured_ext.
    + exact Hr.
    + rewrite Ht. apply tcp_init_ok.
    + exists []. split; [rewrite Hd; apply defer_init_holds|constructor].
    + rewrite Hd. apply defer_init_sizes.
  - pose proof (cf_rib _ _ _ _ _ _ Hcf) as Hrib. cbn [tx w_rib w_arp w_tcp w_defer w_frag ip_global_id set_udp].
    refine (conj Htx (conj Hrib (conj Hc (conj Ht (conj Hd (conj _ (conj Hfr Hid))))))).
    rewrite Hd. apply defer_init_holds.
Qed.

(** C14: [main], up to the start of the threads, on an interface with the
    hardware address [mac], with a kernel that takes its frames: it announces the
    address of the stack three times and leaves every component in order.  The
    routing table has the route of 10.0.0.2/24 and no other, the ARP cache the
    static entry of that address with [mac] and 49 unused ones, the socket is bound
    to port 10 and its queue is empty, there is no TCP connection, no deferred
    packet and no packet under reassembly. *)
Theorem boot_correct `{ReliableKernel} mac :
  mac_ok mac →
  ∃ w, boot 0 (initial_world mac (static_sockets stack_sockets)) = Done (None, w) ∧
    stack_up mac OWN_ADDR OWN_MASK 0 None stack_sockets (UdpModel [0%nat] [[]]) w ∧
    tx w = repeat (arp_frame mac OWN_ADDR OWN_ADDR) 3 ∧
    w_rib w = rib_one (own_route OWN_ADDR OWN_MASK) ∧
    arp_cache (w_arp w) = ArpEntry OWN_ADDR mac ARP_CACHE_STATIC :: repeat zero_arp 49 ∧
    w_tcp w = TcpTable [] (RbHead None ∅) ∧ w_defer w = defer_init ∧ defer_holds (w_defer w) [] ∧
    w_frag w = frag_init ∧ ip_global_id w = 0.
Proof. apply boot_done. Qed.

Lemma boot_correct_witness :
  ∃ w, @boot accept_all 0 (initial_world mac_a (static_sockets stack_sockets)) = Done (None, w) ∧
    stack_up mac_a OWN_ADDR OWN_MASK 0 None stack_sockets (UdpModel [0%nat] [[]]) w ∧
    tx w = repeat (arp_frame mac_a OWN_ADDR OWN_ADDR) 3 ∧
    w_rib w = rib_one (own_route OWN_ADDR OWN_MASK) ∧
    arp_cache (w_arp w) = ArpEntry OWN_ADDR mac_a ARP_CACHE_STATIC :: repeat zero_arp 49 ∧
    w_tcp w = TcpTable [] (RbHead None ∅) ∧ w_defer w = defer_init ∧ defer_holds (w_defer w) [] ∧
    w_frag w = frag_init ∧ ip_global_id w = 0.
Proof. apply (@boot_correct accept_all accept_all_reliable mac_a mac_a_ok). Defined.
