(* ===== verification/Egress.v ===== *)
(** * The egress path: an application, the egress queue of its socket and the
    egress thread

    The composition of [xstack_sendto] ([lib/xstack.c]) with the round of
    [xstack_egress_thread] ([src/xstack.c]): what leaves the stack for a datagram
    whose size is in the block, and what becomes of the ones [xstack_sendto]
    writes, which leaves the size out. *)

From S2P Require Import Prelude Bytes EtherFcs Checksum IpHeader RBTree RBIndex RBMap.
From S2P Require Import Rib QueueR Socket Udp Tcp IpDefer Ether Arp Fragment World.
From S2P Require Import Output IpFragments Config IpSend Input Stack.

#[local] Open Scope Z_scope.

(** ** Data *)
Definition egress_geometry (s : xstack_sock) : Prop :=
  queue_ok (egress_q s) ∧ b_size (egress_q s) = XSTACK_DATAGRAM_SIZE_MAX ∧
  a_len (egress_q s) = 4 ∧ Z.of_nat (length (egress_data s)) = XSTACK_DATAGRAM_BUF_SIZE.

(** The egress queue of [s] holds the datagrams [ds], the oldest first. *)
Definition egress_holds (s : xstack_sock) (ds : list dgram) : Prop :=
  egress_geometry s ∧
  Forall2 (fun k d => dgram_load (slot_off k) (egress_data s) = Done d) (occupied (egress_q s)) ds.

(** No block of the egress area has a size. *)
Definition no_size_at (k : Z) (data : list Z) : Prop :=
  mem_read (slot_off k + DGRAM_SIZE) 8 data = Done (repeat 0 8).

Definition zero_sizes (s : xstack_sock) : Prop := ∀ k, 0 <= k < 4 → no_size_at k (egress_data s).

Definition ready (s : xstack_sock) : Prop :=
  sock_proto s = XIP_PROTO_UDP ∧ egress_geometry s ∧ zero_sizes s.

(** What belongs to the other direction. *)
Definition ingress_side (s : xstack_sock) : sockaddr * queue_cb * list Z :=
  (sock_addr s, ingress_q s, ingress_data s).

(** ** An application and the egress thread, in turns *)
Inductive egress_op : Type :=
| OSend (i : nat) (buffer : list Z) (dest : sockaddr)   (* an application calls [xstack_sendto] *)
| ORound.                                               (* the thread does a round *)

Section kernel.
Context `{Kernel}.

(** A send on a full queue waits for the thread: nothing has changed yet. *)
Definition egress_op_run (op : egress_op) : M unit :=
  match op with
  | OSend i buffer dest => fun w =>
      match xstack_sendto (sock_at (w_udp w) i) buffer dest with
      | Done (_, s) => Done (tt, set_udp (put_sock (w_udp w) i s) w)
      | Spin => Done (tt, w)
      | Fault => Fault
      end
  | ORound => egress_round
  end.

Fixpoint egress_run (ops : list egress_op) : M unit :=
  match ops with
  | [] => mret tt
  | op :: ops => _ ← egress_op_run op; egress_run ops
  end.
End kernel.

Definition egress_op_ok (n : nat) (op : egress_op) : Prop :=
  match op with
  | OSend i buffer _ => (i < n)%nat ∧ payload_ok buffer
  | ORound => True
  end.

(** ** The queue of one socket *)
Lemma load_done k data :
  0 <= k < 4 → Z.of_nat (length data) = XSTACK_DATAGRAM_BUF_SIZE →
  ∃ d, dgram_load (slot_off k) data = Done d ∧
    (no_size_at k data → dgram_buf_size d = 0).
Proof.
  intros Hk Hl. unfold XSTACK_DATAGRAM_BUF_SIZE in Hl.
  assert (Hoff : (slot_off k + 4096 <= length data)%nat) by (unfold slot_off, XSTACK_DATAGRAM_SIZE_MAX; lia).
  unfold dgram_load. rewrite mem_read_ok by (unfold DGRAM_BUF; lia). rewrite bind_done.
  eexists. split; [done|]. intros Hz. cbn [dgram_buf_size].
  apply mem_read_done in Hz as [_ Hz]. unfold DGRAM_SIZE, DGRAM_BUF in *.
  replace (take 8 (drop 16 (take 24 (drop (slot_off k) data)))) with (take 8 (drop (slot_off k + 16) data)).
  - rewrite <-Hz. reflexivity.
  - by rewrite skipn_firstn_comm, take_take, drop_drop.
Qed.

Lemma holds_some s : egress_geometry s → ∃ ds, egress_holds s ds ∧ (zero_sizes s → Forall (fun d => dgram_buf_size d = 0) ds).
Proof.
  intros Hg. assert (Hall : ∀ ks, (∀ k, k ∈ ks → 0 <= k < 4) →
    ∃ ds, Forall2 (fun k d => dgram_load (slot_off k) (egress_data s) = Done d) ks ds ∧
      (zero_sizes s → Forall (fun d => dgram_buf_size d = 0) ds)).
  { induction ks as [|k ks IH]; intros Hks; [by exists []|].
    destruct IH as (ds & Hds & Hz); [intros k' Hk'; apply Hks; by right|].
    destruct (load_done k (egress_data s)) as (d & Hd & Hdz); [apply Hks; left|apply Hg|].
    exists (d :: ds). split; [by constructor|]. intros Hzs. constructor; [|by apply Hz].
    apply Hdz, Hzs, Hks. left. }
  destruct (Hall (occupied (egress_q s))) as (ds & Hds & Hz).
  - intros k Hk. destruct Hg as (Hok & _ & <- & _). by apply occupied_range.
  - by exists ds.
Qed.

Lemma peek_none s : egress_holds s [] → egress_peek s = Done None.
Proof.
  intros ((Hok & _) & Hf). inversion Hf as [Ho|]. unfold egress_peek, queue_isempty.
  apply eq_sym, (occupied_nil_iff _ Hok) in Ho. by rewrite bool_decide_true.
Qed.

Lemma peek_some s d ds : egress_holds s (d :: ds) → egress_peek s = Done (Some d).
Proof.
  intros ((Hok & Hb & _) & Hf). apply Forall2_cons_inv_r in Hf as (k & ks & Hd & _ & Ho).
  unfold egress_peek, queue_isempty. rewrite bool_decide_false.
  2:{ intros He. apply eq_sym in He. apply (occupied_nil_iff _ Hok) in He. by rewrite Ho in He. }
  rewrite queue_peek_hd, Ho by done. cbn. rewrite Hb. fold (slot_off k). by rewrite Hd.
Qed.

Lemma discard_head s d ds :
  egress_holds s (d :: ds) →
  ∃ q, egress_discard s = Done (set_egress s q (egress_data s)) ∧
    egress_holds (set_egress s q (egress_data s)) ds.
Proof.
  intros ((Hok & Hb & Ha & Hd) & Hf). destruct (discard_spec 1 _ Hok) as (q & Hq & Hok' & Ho & _ & Hb' & Ha').
  exists q. split; [unfold egress_discard; by rewrite Hq|].
  split; [split_and!; simpl; congruence|]. simpl. rewrite Ho.
  apply Forall2_cons_inv_r in Hf as (k & ks & _ & Hf & ->). done.
Qed.

(** ** [xstack_sendto] *)
Lemma no_size_write w k bs data data' off :
  mem_write (slot_off w + off) bs data = Done data' → 0 <= w → 0 <= k →
  (off + length bs <= 16 ∨ 24 <= off ∧ off + length bs <= 4096)%nat →
  no_size_at k data → no_size_at k data'.
Proof.
  unfold no_size_at. intros Hw H0 Hk Hoff Hz.
  rewrite (mem_write_read_disjoint _ _ _ _ _ _ Hw); [done|].
  destruct (decide (k = w)) as [->|Hne]; [unfold DGRAM_SIZE; lia|].
  pose proof (slot_off_far k w Hk H0 Hne). unfold DGRAM_SIZE. lia.
Qed.

Lemma write_done off bs data :
  (off + length bs <= length data)%nat → ∃ data', mem_write off bs data = Done data' ∧ length data' = length data.
Proof.
  intros Hl. eexists. split; [by apply mem_write_ok|]. eapply mem_write_length. by apply mem_write_ok.
Qed.

Lemma sendto_ready s buffer dest :
  ready s → payload_ok buffer →
  (xstack_sendto s buffer dest = Spin ∧ queue_len (egress_q s) = 3) ∨
  ∃ s', xstack_sendto s buffer dest = Done (inl (Z.of_nat (length buffer)), s') ∧ ready s' ∧
    queue_len (egress_q s') = queue_len (egress_q s) + 1 ∧ ingress_side s' = ingress_side s.
Proof.
  intros (Hp & (Hok & Hb & Ha & Hl) & Hz) Hbuf. unfold payload_ok in Hbuf.
  destruct (commit_ok _ Hok) as (w & Hc & Hn & Hok').
  assert (Hm : 0 <= m_write (egress_q s) < 4) by (unfold queue_ok in Hok; rewrite <-Ha; tauto).
  unfold xstack_sendto, queue_alloc. rewrite bool_decide_false by (unfold XSTACK_DATAGRAM_SIZE_MAX; lia).
  rewrite Hn, bind_done. destruct (bool_decide_reflect (w = m_read (egress_q s))) as [Hw|Hw].
  { left. split; [done|]. apply (full_iff _ _ Hok Hn) in Hw. lia. }
  right. rewrite offset_done by (done || lia). rewrite bind_done, Hb.
  rewrite bool_decide_false by (unfold XSTACK_DATAGRAM_SIZE_MAX; lia).
  fold (slot_off (m_write (egress_q s))). set (o := slot_off (m_write (egress_q s))).
  assert (Ho : (o + 4096 <= length (egress_data s))%nat).
  { unfold o, slot_off, XSTACK_DATAGRAM_SIZE_MAX, XSTACK_DATAGRAM_BUF_SIZE in *. lia. }
  destruct (write_done o (repeat 0 8) (egress_data s)) as (d1 & H1 & L1); [rewrite repeat_length; lia|].
  destruct (write_done (o + DGRAM_DST) (sockaddr_bytes dest) d1) as (d2 & H2 & L2);
    [rewrite sockaddr_bytes_length; unfold DGRAM_DST; lia|].
  destruct (write_done (o + DGRAM_BUF) buffer d2) as (d3 & H3 & L3); [unfold DGRAM_BUF; lia|].
  rewrite H1, bind_done, H2, bind_done, H3, bind_done, Hc, bind_done. eexists. split; [done|]. split.
  - split; [done|]. split; [split_and!; simpl; [done..|congruence]|]. intros k Hk. simpl.
    rewrite <-(Nat.add_0_r o) in H1.
    eapply no_size_write; [exact H3|lia|lia|unfold DGRAM_BUF; lia|].
    eapply no_size_write; [exact H2|lia|lia|rewrite sockaddr_bytes_length; unfold DGRAM_DST; lia|].
    eapply no_size_write; [exact H1|lia|lia|rewrite repeat_length; lia|]. by apply Hz.
  - split; [|done]. simpl. rewrite <-!occupied_length by done. rewrite occupied_commit by done.
    rewrite length_app. simpl. lia.
Qed.

(** ** The thread *)

(** The bytes of a datagram on the wire, without a checksum. *)
Definition udp_wire (sport dport : Z) (payload : list Z) : list Z :=
  rev (le_bytes 2 (u16 sport)) ++ rev (le_bytes 2 (u16 dport)) ++
  rev (le_bytes 2 (8 + length payload)) ++ [0; 0] ++ payload.

Lemma udp_wire_length sport dport payload : length (udp_wire sport dport payload) = (8 + length payload)%nat.
Proof. unfold udp_wire. rewrite !length_app, !length_rev, !le_bytes_length. simpl. lia. Qed.

Lemma udp_wire_bytes sport dport payload : bytes payload → bytes (udp_wire sport dport payload).
Proof.
  intros Hp. unfold udp_wire.
  do 3 (apply Forall_app_2; [apply bytes_rev, le_bytes_bytes|]).
  apply Forall_app_2; [by repeat constructor|done].
Qed.

(** The datagram [xstack_udp_send] builds. *)
Lemma datagram_wire s d payload :
  0 < dgram_buf_size d < UDP_MAXLEN → dgram_buf_size d = length payload →
  take (length payload) (dgram_buf d) = payload →
  udp_datagram s d = Done (inl (udp_wire (port (sock_addr s)) (port (dgram_dstaddr d)) payload)).
Proof.
  intros Hr Hs Hp. unfold udp_datagram, UDP_MAXLEN in *. rewrite !bool_decide_true by lia. cbn [negb andb].
  assert (Hlen : (length payload <= length (dgram_buf d))%nat).
  { rewrite <-Hp. rewrite length_take. lia. }
  rewrite mem_read_ok by lia. rewrite bind_done. do 2 f_equal.
  unfold udp_hton, udp_hdr_store, udp_wire. cbn [udp_sport udp_dport udp_len udp_csum].
  rewrite !le_bytes_htons, drop_0, Hs, Nat2Z.id, Hp. rewrite <-!app_assoc.
  unfold u16 at 3. rewrite Z.mod_small by lia. done.
Qed.

Section thread.
Context `{Kernel}.

Lemma sock_at_lookup st i s : Udp.sockets st !! i = Some s → sock_at st i = s.
Proof. unfold sock_at. by intros ->. Qed.

Lemma egress_idle i w s :
  Udp.sockets (w_udp w) !! i = Some s → egress_holds s [] → egress_socket i w = Done (tt, w).
Proof.
  intros Hi Hh. unfold egress_socket. rewrite (M_bind_done _ _ w s w) by (unfold gets; by rewrite (sock_at_lookup _ _ _ Hi)).
  by rewrite (lift_bind _ _ w _ (peek_none s Hh)).
Qed.

(** One datagram, given what sending it does. *)
Lemma egress_one i w s d ds r w1 :
  Udp.sockets (w_udp w) !! i = Some s → sock_proto s = XIP_PROTO_UDP → egress_holds s (d :: ds) →
  xstack_udp_send s d w = Done (r, w1) → w_udp w1 = w_udp w →
  ∃ q, egress_holds (set_egress s q (egress_data s)) ds ∧
    egress_socket i w = Done (tt, set_udp (put_sock (w_udp w) i (set_egress s q (egress_data s))) w1).
Proof.
  intros Hi Hp Hh Hsend Hu. destruct (discard_head s d ds Hh) as (q & Hq & Hh'). exists q. split; [done|].
  unfold egress_socket. rewrite (M_bind_done _ _ w s w) by (unfold gets; by rewrite (sock_at_lookup _ _ _ Hi)).
  rewrite (lift_bind _ _ w _ (peek_some s d ds Hh)), Hp. cbn [bool_decide andb].
  change (proto_send XIP_PROTO_UDP) with xstack_udp_send. cbv zeta. cbn beta iota.
  rewrite !bool_decide_true by done. cbn [andb].
  rewrite (M_bind_done _ _ w r w1 Hsend).
  rewrite (M_bind_done _ _ w1 s w1) by (unfold gets; by rewrite Hu, (sock_at_lookup _ _ _ Hi)).
  rewrite (lift_bind _ _ w1 _ Hq). unfold modify. by rewrite Hu.
Qed.

Lemma udp_send_empty s d w : dgram_buf_size d = 0 → xstack_udp_send s d w = Done (- EINVAL, w).
Proof. intros Hd. unfold xstack_udp_send, udp_datagram. by rewrite Hd. Qed.

(** What one turn of the thread leaves of a number of waiting datagrams. *)
Definition egress_turn (n : Z) : Z := Z.max 0 (n - 1).

Lemma egress_drop i w s :
  Udp.sockets (w_udp w) !! i = Some s → ready s →
  ∃ s', egress_socket i w = Done (tt, set_udp (put_sock (w_udp w) i s') w) ∧ ready s' ∧
    queue_len (egress_q s') = egress_turn (queue_len (egress_q s)) ∧ ingress_side s' = ingress_side s.
Proof.
  intros Hi (Hp & Hg & Hz). destruct (holds_some s Hg) as (ds & Hh & Hds). specialize (Hds Hz).
  assert (Hlen : ∀ s ds, egress_holds s ds → queue_len (egress_q s) = length ds).
  { intros s0 ds0 ((Hok & _) & Hf). apply Forall2_length in Hf. rewrite <-Hf. symmetry. by apply occupied_length. }
  destruct ds as [|d ds].
  - exists s. rewrite (egress_idle i w s Hi Hh). split; [|split; [done|split; [by rewrite (Hlen s [] Hh)|done]]].
    unfold put_sock. rewrite list_insert_id by done. by destruct w as [? ? ? ? ? ? ? [] ? ?].
  - apply Forall_cons in Hds as [Hd Hds].
    destruct (egress_one i w s d ds _ _ Hi Hp Hh (udp_send_empty s d w Hd) eq_refl) as (q & Hh' & Hrun).
    eexists. split; [exact Hrun|]. split; [split; [done|]; split; [apply Hh'|done]|].
    rewrite (Hlen _ _ Hh'), (Hlen _ _ Hh). simpl. unfold egress_turn. split; [lia|done].
Qed.

Definition waiting (st : udp_state) : list Z := (fun s => queue_len (egress_q s)) <$> Udp.sockets st.

(** A change of the egress side is none for the demultiplexer. *)
Lemma refines_egress addrs st md i s :
  udp_refines addrs st md → ingress_side s = ingress_side (sock_at st i) → udp_refines addrs (put_sock st i s) md.
Proof.
  intros Hr Hs. injection Hs as Ha Hq Hd. destruct (decide (i < length addrs)%nat) as [Hi|Hi].
  - destruct (refines_queue addrs st md i Hr Hi) as (q & Hmq & Hh).
    replace md with (UdpModel (md_bound md) (<[i:=q]> (md_queue md))).
    2:{ rewrite list_insert_id by done. by destruct md. }
    apply (refines_update addrs st md i s q Hr); [|done].
    destruct Hh as ((Hok & Hb & Hal & Hl & Hao) & Hall & Hf). unfold ingress_holds, ingress_geometry.
    rewrite Ha, Hq, Hd. by split_and!.
  - pose proof (refines_length addrs st md Hr). unfold put_sock. rewrite list_insert_ge by lia. by destruct st.
Qed.

Lemma egress_sockets_drop n : ∀ i w,
  Forall ready (Udp.sockets (w_udp w)) → (i + n = length (Udp.sockets (w_udp w)))%nat →
  ∃ st, egress_sockets i n w = Done (tt, set_udp st w) ∧ Forall ready (Udp.sockets st) ∧
    waiting st = take i (waiting (w_udp w)) ++ (egress_turn <$> drop i (waiting (w_udp w))) ∧
    ∀ addrs md, udp_refines addrs (w_udp w) md → udp_refines addrs st md.
Proof.
  induction n as [|n IH]; intros i w Hr Hn.
  { exists (w_udp w). split; [by destruct w|]. split; [done|].
    split; [|done]. unfold waiting. rewrite drop_ge, take_ge by (rewrite length_fmap; lia). by rewrite app_nil_r. }
  destruct (lookup_lt_is_Some_2 (Udp.sockets (w_udp w)) i ltac:(lia)) as [s Hs].
  assert (Hrs : ready s) by (rewrite Forall_lookup in Hr; by eapply Hr).
  destruct (egress_drop i w s Hs Hrs) as (s' & Hrun & Hr' & Hq & Hside).
  destruct (IH (S i) (set_udp (put_sock (w_udp w) i s') w)) as (st & Hst & Hf & Hw & Hu).
  { by apply Forall_insert. } { simpl. rewrite length_insert. lia. }
  exists st. cbn [egress_sockets]. rewrite (M_bind_done _ _ _ _ _ Hrun). split; [exact Hst|]. split; [done|]. split.
  2:{ intros addrs md Hm. apply Hu. cbn [w_udp set_udp]. apply refines_egress; [done|].
      by rewrite (sock_at_lookup _ _ _ Hs). }
  rewrite Hw. unfold waiting. cbn [w_udp set_udp put_sock Udp.sockets]. rewrite list_fmap_insert, Hq.
  set (l := (λ s, queue_len (egress_q s)) <$> Udp.sockets (w_udp w)).
  assert (Hl : l !! i = Some (queue_len (egress_q s))) by (unfold l; by rewrite list_lookup_fmap, Hs).
  assert (Hi : (i < length l)%nat) by by eapply lookup_lt_Some.
  rewrite (drop_S l _ i Hl), fmap_cons. rewrite (take_S_r _ i (egress_turn (queue_len (egress_q s))))
    by by rewrite list_lookup_insert_eq.
  rewrite take_insert_ge, drop_insert_lt by lia. by rewrite <-app_assoc.
Qed.

(** The numbers of waiting datagrams, as counters. *)
Definition waiting_step (ns : list Z) (op : egress_op) : list Z :=
  match op with
  | OSend i _ _ => alter (fun n => Z.min 3 (n + 1)) i ns
  | ORound => egress_turn <$> ns
  end.

Lemma egress_op_done op w :
  Forall ready (Udp.sockets (w_udp w)) → egress_op_ok (length (Udp.sockets (w_udp w))) op →
  ∃ st, egress_op_run op w = Done (tt, set_udp st w) ∧ Forall ready (Udp.sockets st) ∧
    waiting st = waiting_step (waiting (w_udp w)) op.
Proof.
  intros Hr Hop. destruct op as [i buffer dest|].
  - destruct Hop as [Hi Hbuf]. destruct (lookup_lt_is_Some_2 _ i Hi) as [s Hs].
    assert (Hrs : ready s) by (rewrite Forall_lookup in Hr; by eapply Hr).
    assert (Hws : waiting (w_udp w) !! i = Some (queue_len (egress_q s)))
      by (unfold waiting; by rewrite list_lookup_fmap, Hs).
    cbn [egress_op_run]. rewrite (sock_at_lookup _ _ _ Hs).
    destruct (sendto_ready s buffer dest Hrs Hbuf) as [(-> & Hq)|(s' & -> & Hr' & Hq & _)].
    + exists (w_udp w). split; [by destruct w|]. split; [done|]. cbn [waiting_step].
      symmetry. apply list_eq. intros j. destruct (decide (i = j)) as [<-|Hne].
      * rewrite list_lookup_alter_eq, Hws, Hq. done.
      * by rewrite list_lookup_alter_ne.
    + exists (put_sock (w_udp w) i s'). split; [done|]. split; [by apply Forall_insert|].
      unfold waiting. cbn [put_sock Udp.sockets waiting_step]. rewrite list_fmap_insert.
      apply list_eq. intros j. fold (waiting (w_udp w)).
      assert (Hlt : (i < length (waiting (w_udp w)))%nat) by by eapply lookup_lt_Some.
      destruct (decide (i = j)) as [<-|Hne].
      * rewrite list_lookup_alter_eq, list_lookup_insert_eq, Hws by done. simpl. f_equal.
        destruct Hr' as (_ & (Hok & _ & Ha & _) & _). pose proof (queue_len_range _ Hok). lia.
      * by rewrite list_lookup_alter_ne, list_lookup_insert_ne.
  - destruct (egress_sockets_drop (length (Udp.sockets (w_udp w))) 0 w Hr eq_refl) as (st & Hst & Hf & Hw & _).
    exists st. split; [exact Hst|]. split; [done|]. by rewrite Hw, take_0, drop_0.
Qed.

Lemma waiting_length st : length (waiting st) = length (Udp.sockets st).
Proof. unfold waiting. by rewrite length_fmap. Qed.

Lemma waiting_step_length ns op : length (waiting_step ns op) = length ns.
Proof. destruct op; simpl; [apply length_alter|apply length_fmap]. Qed.

(** C26: what [xstack_sendto] puts into a queue is never transmitted.  Over any
    sequence of sends of at most 4072 bytes and rounds of the egress thread,
    from sockets whose blocks have no size, as [xstack_init] leaves them, no
    frame goes out and nothing of the stack but the sockets changes.  A send
    adds a datagram unless three are waiting, a round removes one from every
    socket: [xstack_udp_send] refuses each, as its size was never set. *)
Theorem sendto_never_transmitted w ops :
  Forall ready (Udp.sockets (w_udp w)) → Forall (egress_op_ok (length (Udp.sockets (w_udp w)))) ops →
  ∃ st, egress_run ops w = Done (tt, set_udp st w) ∧ Forall ready (Udp.sockets st) ∧
    waiting st = foldl waiting_step (waiting (w_udp w)) ops.
Proof.
  revert w. induction ops as [|op ops IH]; intros w Hr Hops; [by exists (w_udp w); destruct w|].
  apply Forall_cons in Hops as [Hop Hops]. destruct (egress_op_done op w Hr Hop) as (st & Hst & Hf & Hw).
  destruct (IH (set_udp st w)) as (st' & Hrun & Hf' & Hw'); [done| |].
  { cbn [w_udp set_udp]. rewrite <-waiting_length, Hw, waiting_step_length, waiting_length. done. }
  exists st'. cbn [egress_run]. rewrite (M_bind_done _ _ _ _ _ Hst). split; [exact Hrun|]. split; [done|].
  cbn [foldl]. rewrite <-Hw. exact Hw'.
Qed.
End thread.

Section send.
Context `{ReliableKernel}.
Context (mac : list Z) (own mask elapsed : Z) (last : option (Z * list Z)).

(** C25: the egress thread transmits.  When the oldest datagram of a socket has
    a size of 1 to 1472 and its destination has a route and a known hardware
    address, the thread's turn sends exactly one frame, with an IP packet that
    verifies, from the address of the stack, holding a UDP datagram from the
    port of the socket to the port of the destination with just those bytes,
    and takes the datagram off the queue. *)
Theorem egress_transmits w i s d ds payload m :
  configured mac own mask elapsed last w → Udp.sockets (w_udp w) !! i = Some s →
  sock_proto s = XIP_PROTO_UDP → egress_holds s (d :: ds) →
  dgram_buf_size d = length payload → take (length payload) (dgram_buf d) = payload → bytes payload →
  1 <= Z.of_nat (length payload) <= 1472 → let dst := inet4_addr (dgram_dstaddr d) in
  0 <= dst < 2 ^ 32 → reachable (own_route own mask) dst = true → known last dst = Some m →
  let data := udp_wire (port (sock_addr s)) (port (dgram_dstaddr d)) payload in
  ∃ pkt q, is_packet (sent_hdr own dst IP_PROTO_UDP (u16 (ip_global_id w)) (length data)) data pkt ∧
    egress_holds (set_egress s q (egress_data s)) ds ∧
    egress_socket i w = Done (tt, set_udp (put_sock (w_udp w) i (set_egress s q (egress_data s)))
      (sent [ether_frame mac m ETHER_PROTO_IPV4 pkt] (next_id w))).
Proof.
  intros Hcf Hi Hp Hh Hs Ht Hb Hn dst Hd Hr Hk data.
  assert (Hdl : Z.of_nat (length data) <= 1480) by (unfold data; rewrite udp_wire_length; lia).
  assert (Hdb : bytes data) by by apply udp_wire_bytes.
  exists (ip_bytes own dst IP_PROTO_UDP (ip_global_id w) data).
  set (pkt := ip_bytes own dst IP_PROTO_UDP (ip_global_id w) data).
  assert (Hsend : xstack_udp_send s d w =
    Done (Z.of_nat (length (ether_frame mac m ETHER_PROTO_IPV4 pkt)), sent [ether_frame mac m ETHER_PROTO_IPV4 pkt] (next_id w))).
  { unfold xstack_udp_send. rewrite (lift_bind _ _ w _ (datagram_wire s d payload ltac:(unfold UDP_MAXLEN; lia) Hs Ht)).
    by apply (send_packet mac own mask elapsed last w Hcf dst IP_PROTO_UDP data Hd m Hr Hk). }
  destruct (egress_one i w s d ds _ _ Hi Hp Hh Hsend eq_refl) as (q & Hh' & Hrun).
  exists q. split; [|done]. by apply ip_packet_bytes; [|lia].
Qed.
End send.

(** ** Witnesses *)

(** A socket as [xstack_init] leaves it is ready. *)
Lemma init_ready addr : ∃ s, xstack_init_sock XIP_PROTO_UDP addr = Done s ∧ ready s.
Proof.
  eexists. split; [reflexivity|]. split; [done|]. split.
  - split_and!; [by vm_compute|done|done|]. cbn [egress_data]. by rewrite repeat_length.
  - intros k Hk. unfold no_size_at. cbn [egress_data].
    assert (Hcases : k = 0 ∨ k = 1 ∨ k = 2 ∨ k = 3) by lia.
    destruct Hcases as [->|[->|[->| ->]]]; by vm_compute.
Qed.

Definition demo_open (addr : sockaddr) : xstack_sock :=
  match xstack_init_sock XIP_PROTO_UDP addr with Done s => s | _ => no_sock end.

Lemma demo_open_ready addr : ready (demo_open addr).
Proof. destruct (init_ready addr) as (s & Hs & Hr). unfold demo_open. by rewrite Hs. Qed.

Definition demo_egress_world (s : xstack_sock) : world := set_udp (UdpState [s] (RB_INITIALIZER 1)) (demo_known demo_udp).

Lemma sendto_never_transmitted_witness :
  let w := demo_egress_world (demo_open (Sockaddr OWN_ADDR 10)) in
  let ops := [OSend 0 [1; 2; 3] demo_peer; OSend 0 [4] demo_peer; ORound] in
  ∃ st, @egress_run accept_all ops w = Done (tt, set_udp st w) ∧ Forall ready (Udp.sockets st) ∧
    waiting st = [1].
Proof.
  intros w ops. apply (@sendto_never_transmitted accept_all w ops).
  - constructor; [apply demo_open_ready|constructor].
  - repeat constructor; unfold payload_ok; simpl; lia.
Defined.

(** A socket with a complete datagram in its first block. *)
Definition demo_filled : xstack_sock :=
  let s := demo_open (Sockaddr OWN_ADDR 10) in
  match mem_write 0 (dgram_bytes (Sockaddr 0 0) (Sockaddr DEMO_PEER 53) [104; 105; 33]) (egress_data s),
        queue_commit (egress_q s) with
  | Done data, Done q => set_egress s q data
  | _, _ => s
  end.

Definition demo_egress_dgram : dgram :=
  match dgram_load 0 (egress_data demo_filled) with Done d => d | _ => Dgram (Sockaddr 0 0) (Sockaddr 0 0) 0 [] end.

Lemma demo_filled_holds : egress_holds demo_filled [demo_egress_dgram].
Proof.
  split.
  - split_and!; by vm_compute.
  - assert (Ho : occupied (egress_q demo_filled) = [0]) by by vm_compute.
    rewrite Ho. constructor; [by vm_compute|constructor].
Qed.

Lemma egress_transmits_witness :
  let w := demo_egress_world demo_filled in let data := udp_wire 10 53 [104; 105; 33] in
  ∃ pkt q, is_packet (sent_hdr OWN_ADDR DEMO_PEER IP_PROTO_UDP (u16 (ip_global_id w)) (length data)) data pkt ∧
    egress_holds (set_egress demo_filled q (egress_data demo_filled)) [] ∧
    @egress_socket accept_all 0 w =
      Done (tt, set_udp (put_sock (w_udp w) 0 (set_egress demo_filled q (egress_data demo_filled)))
        (sent [ether_frame mac_a mac_b ETHER_PROTO_IPV4 pkt] (next_id w))).
Proof.
  intros w data.
  apply (@egress_transmits accept_all accept_all_reliable mac_a OWN_ADDR OWN_MASK 0 (Some (DEMO_PEER, mac_b))
    w 0 demo_filled demo_egress_dgram [] [104; 105; 33] mac_b).
  - eapply configured_ext; [apply (demo_known_configured demo_udp)|reflexivity..].
  - reflexivity.
  - vm_compute. reflexivity.
  - apply demo_filled_holds.
  - vm_compute. reflexivity.
  - vm_compute. reflexivity.
  - repeat constructor; done.
  - simpl. lia.
  - vm_compute. split; [intros ?; discriminate|reflexivity].
  - vm_compute. reflexivity.
  - vm_compute. reflexivity.
Defined.
