(* ===== verification/Safety.v ===== *)
(** * The running stack: an invariant of the ingress thread

    Every well-formed frame, of whatever protocol, and every tick of the timer
    leave the stack in the state [stack_up] describes: no access outside a
    buffer, no NULL pointer, no endless loop.  The one thing that blocks is a
    datagram for a socket whose queue is full. *)

From S2P Require Import Prelude Bytes EtherFcs Checksum IpHeader RBTree RBIndex RBMap.
From S2P Require Import Rib QueueR Socket Udp Tcp Icmp IpDefer Ether Arp Fragment.
From S2P Require Import World Output IpFragments Config IpSend Input IpInput ArpInput.
From S2P Require Import Stack.

#[local] Open Scope Z_scope.

(** The frames the theorem is about: the header and the receive buffer, whose
    first [n] bytes are the data of the frame.  ARP messages and IP packets come from
    another address than the own one ([Arp.own_address_taken] shows what happens
    otherwise); the IP packets that are not dropped have no options, are not fragments
    and fit a frame.  The buffer has at least the 108 bytes an ICMP answer may need; that
    of the ingress thread has [ETHER_MAXLEN]. *)
Inductive good_frame (own : Z) (hdr : ether_hdr) : list Z → nat → Prop :=
| good_arp m rest (n : nat) :
    h_proto hdr = ETHER_PROTO_ARP → arp_ok m → arp_htype m = ARP_HTYPE_ETHER →
    arp_ptype m = ETHER_PROTO_IPV4 → arp_spa m ≠ own → 28 <= Z.of_nat n <= 1500 →
    (n <= 28 + length rest)%nat → good_frame own hdr (wire_arp m ++ rest) n
| good_ip h c (n : nat) payload :
    h_proto hdr = ETHER_PROTO_IPV4 → arrives own h n payload → 0 <= c < 65536 →
    (88 <= length payload)%nat → ip_fragment_is_frag h = false →
    good_frame own hdr (wire_hdr h c ++ payload) (20 + n)
| good_dropped h c rest (n : nat) :
    h_proto hdr = ETHER_PROTO_IPV4 → ip_hdr_ok h → 0 <= c < 65536 → acceptable h n = false →
    good_frame own hdr (wire_hdr h c ++ rest) n
| good_other payload (n : nat) :
    h_proto hdr ∉ [ETHER_PROTO_ARP; ETHER_PROTO_IPV4] → good_frame own hdr payload n.

(** ** What a frame does to the sockets *)

(** The datagram in a received frame, if it is one for this host: the header and the
    UDP packet. *)
Definition udp_frame (own : Z) (hdr : ether_hdr) (m : list Z) (n : nat) : option (ip_hdr * list Z) :=
  if bool_decide (h_proto hdr = ETHER_PROTO_IPV4) then
    match (m ← ip_ntoh_inplace m; ip_hdr_load m) with
    | Done ip =>
        if acceptable ip n && bool_decide (ip_dst ip = own) && bool_decide (ip_proto ip = IP_PROTO_UDP)
        then Some (ip, take (n - Z.to_nat (ip_hdr_hlen ip)) (drop (Z.to_nat (ip_hdr_hlen ip)) m))
        else None
    | _ => None
    end
  else None.

(** The demultiplexer of [Udp] after the frame. *)
Definition deliver (own : Z) (addrs : list sockaddr) (md : udp_model) (hdr : ether_hdr) (m : list Z) (n : nat)
    : outcome udp_model :=
  match udp_frame own hdr m n with
  | Some (ip, payload) => '(_, md) ← md_step addrs md (UdpDeliver ip payload); Done md
  | None => Done md
  end.

Lemma udp_frame_other own hdr m n : h_proto hdr ≠ ETHER_PROTO_IPV4 → udp_frame own hdr m n = None.
Proof. intros Hp. unfold udp_frame. by rewrite bool_decide_false. Qed.

Lemma udp_frame_ip own hdr h c rest (n : nat) :
  h_proto hdr = ETHER_PROTO_IPV4 → ip_hdr_ok h → 0 <= c < 65536 →
  udp_frame own hdr (wire_hdr h c ++ rest) n =
    if acceptable h n && bool_decide (ip_dst h = own) && bool_decide (ip_proto h = IP_PROTO_UDP)
    then Some (set_csum c h, take (n - Z.to_nat (ip_hdr_hlen h)) (drop (Z.to_nat (ip_hdr_hlen h)) (wire_hdr h c ++ rest)))
    else None.
Proof.
  intros Hp Hok Hc. unfold udp_frame. rewrite bool_decide_true, (ntoh_inplace_wire h c rest Hok Hc), bind_done by done.
  by rewrite ip_hdr_load_store by (by apply set_csum_ok).
Qed.

Lemma udp_frame_plain own hdr h c payload (n : nat) :
  h_proto hdr = ETHER_PROTO_IPV4 → plain h n → 0 <= c < 65536 →
  udp_frame own hdr (wire_hdr h c ++ payload) (20 + n) =
    if bool_decide (ip_dst h = own) && bool_decide (ip_proto h = IP_PROTO_UDP)
    then Some (set_csum c h, take n payload) else None.
Proof.
  intros Hp Hpl Hc. rewrite udp_frame_ip by (done || apply Hpl). pose proof (plain_acceptable h n Hpl) as Ha.
  destruct Hpl as (_ & Hhl & _ & Hl). replace (Z.of_nat (20 + n)) with (ip_len h) by lia. rewrite Ha, Hhl.
  change (Z.to_nat 20) with 20%nat. rewrite drop_app_exact by apply ip_hdr_store_length.
  by replace (20 + n - 20)%nat with n by lia.
Qed.

Lemma icmp_other payload (n : nat) :
  bytes payload → (n <= length payload)%nat → (n < 8)%nat ∨ head payload ≠ Some 8 →
  ∃ r, icmp_input payload n = Done (r, payload) ∧ r < 0 ∧ r ≠ - ENOTSOCK.
Proof.
  intros Hp Hn Hx. unfold icmp_input. destruct (decide (n < 8)%nat) as [Hs|Hs].
  { rewrite bool_decide_true by (unfold ICMP_SIZE; lia). by eexists. }
  destruct Hx as [|Hty]; [lia|]. destruct payload as [|ty rest]; [simpl in Hn; lia|].
  apply Forall_cons in Hp as [Hb _]. unfold is_byte in Hb.
  rewrite bool_decide_false by (unfold ICMP_SIZE; lia).
  unfold icmp_load. rewrite bool_decide_true by (unfold ICMP_SIZE; lia). rewrite bind_done.
  rewrite bool_decide_false; [by eexists|]. unfold ICMP_TYPE_ECHO_REQUEST, field. simpl.
  intros Heq. apply Hty. simpl. f_equal. lia.
Qed.

Section kernel.
Context `{ReliableKernel}.
Context (mac : list Z) (own mask : Z) (addrs : list sockaddr).

(** What the reply and the errors change. *)
Lemma stack_up_ext elapsed last md w w' :
  stack_up mac own mask elapsed last addrs md w → ether_if w' = ether_if w → w_rib w' = w_rib w →
  w_arp w' = w_arp w → w_udp w' = w_udp w → w_tcp w' = w_tcp w → w_defer w' = w_defer w →
  stack_up mac own mask elapsed last addrs md w'.
Proof.
  intros [Hcf Hu Ht Hd Hz] E1 E2 E3 E4 E5 E6. split.
  - by eapply configured_ext.
  - by rewrite E4.
  - by rewrite E5.
  - by rewrite E6.
  - by rewrite E6.
Qed.

(** From the result of a handler to the end of the round. *)
Lemma turn hdr m n fn w r m' w' elapsed last md :
  find_handler (h_proto hdr) ether_proto_handlers = Some fn → fn hdr m n w = Done ((r, m'), w') →
  stack_up mac own mask elapsed last addrs md w' → r <= 1500 → r <= Z.of_nat (length m') →
  ∃ m'' w'', ingress_frame 0 hdr m n w = Done (m'', w'') ∧
    stack_up mac own mask elapsed last addrs md w''.
Proof.
  intros Hfn Hrun Hup Hr Hl. destruct (decide (0 < r)) as [Hpos|Hneg].
  - rewrite <-(Z2Nat.id r) in Hrun by lia.
    rewrite (frame_answered hdr m n fn w mac (Z.to_nat r) m' w' Hfn Hrun (cf_if _ _ _ _ _ _
      (up_configured _ _ _ _ _ _ _ _ Hup))) by lia.
    eexists _, _. split; [done|]. by eapply stack_up_ext.
  - rewrite (frame_silent hdr m n fn w r m' w' Hfn Hrun) by lia. eexists _, _. split; [done|].
    destruct (bool_decide (r < 0)); by eapply stack_up_ext.
Qed.

Section frame.
Context (elapsed : Z) (last : option (Z * list Z)) (md : udp_model) (w : world).
Context (Hup : stack_up mac own mask elapsed last addrs md w).

(** The frame is a datagram for a socket whose queue is full. *)
Definition blocked (hdr : ether_hdr) (m : list Z) : Prop :=
  ∃ h c (k : nat) payload, m = wire_hdr h c ++ payload ∧ h_proto hdr = ETHER_PROTO_IPV4 ∧
    ip_proto h = IP_PROTO_UDP ∧ md_step addrs md (UdpDeliver h (take k payload)) = Spin.

(** The state after an input, or the wait for room in the queue. *)
Definition continues (hdr : ether_hdr) (m : list Z) (n : nat) : Prop :=
  (∃ m' w' last' md', ingress_frame 0 hdr m n w = Done (m', w') ∧ deliver own addrs md hdr m n = Done md' ∧
    stack_up mac own mask elapsed last' addrs md' w') ∨
  ingress_frame 0 hdr m n w = Spin ∧ deliver own addrs md hdr m n = Spin ∧ blocked hdr m.

(** A frame without a datagram for this host. *)
Lemma deliver_none hdr m n : udp_frame own hdr m n = None → deliver own addrs md hdr m n = Done md.
Proof. unfold deliver. by intros ->. Qed.

Lemma up_move last' md' w' :
  configured mac own mask elapsed last' w' → udp_refines addrs (w_udp w') md' → tcp_ok (w_tcp w') →
  w_defer w' = w_defer w → stack_up mac own mask elapsed last' addrs md' w'.
Proof.
  intros Hcf Hu Ht Hd. destruct Hup as [_ _ _ Hps Hz]. split; [done|done|done|by rewrite Hd|by rewrite Hd].
Qed.

Lemma up_learned last' arp :
  configured mac own mask elapsed last' (set_arp arp w) →
  stack_up mac own mask elapsed last' addrs md (set_arp arp w).
Proof. intros Hcf. apply up_move; [done|apply Hup|apply Hup|done]. Qed.

(** One turn with an IP packet. *)
Lemma ip_turn hdr m (n : nat) bsize r m' w' last' md' :
  h_proto hdr = ETHER_PROTO_IPV4 → deliver own addrs md hdr m n = Done md' → Z.of_nat n = bsize →
  ip_input 2 (Some hdr) m bsize w = Done ((r, m'), w') →
  stack_up mac own mask elapsed last' addrs md' w' → r <= 1500 → r <= Z.of_nat (length m') →
  continues hdr m n.
Proof.
  intros Hpr Hmd <- Hrun Hup' Hr Hl. left.
  destruct (turn hdr m n _ w r m' w' elapsed last' md' (find_ipv4 hdr Hpr) Hrun Hup' Hr Hl)
    as (m'' & w'' & Hfr & Hup''). by exists m'', w'', last', md'.
Qed.

Lemma unreachable_length h p code k m :
  is_unreachable h p code k m → (28 + k <= length p)%nat → length m = (20 + length p)%nat.
Proof.
  intros (? & ? & ? & -> & _) Hl. rewrite !length_app, length_take, length_drop, !ip_hdr_store_length.
  change (length (icmp_store _)) with 8%nat. unfold IP_HDR_SIZE. lia.
Qed.

Section ip.
Context (hdr : ether_hdr) (h : ip_hdr) (c : Z) (n : nat) (payload : list Z).
Context (Hpr : h_proto hdr = ETHER_PROTO_IPV4) (Ha : arrives own h n payload) (Hc : 0 <= c < 65536).
Context (Hlen : (88 <= length payload)%nat) (Hf : ip_fragment_is_frag h = false).

Lemma turn_size : Z.of_nat (20 + n) = ip_len h.
Proof. destruct Ha as [(_ & _ & _ & Hl) _ _ _ _]. lia. Qed.

(** A packet that is no datagram for this host. *)
Lemma deliver_other : ip_dst h ≠ own ∨ ip_proto h ≠ IP_PROTO_UDP →
  deliver own addrs md hdr (wire_hdr h c ++ payload) (20 + n) = Done md.
Proof.
  intros Hx. apply deliver_none. rewrite udp_frame_plain by (done || apply Ha).
  destruct Hx; [by rewrite bool_decide_false|]. rewrite (bool_decide_false (ip_proto h = _)) by done. by rewrite andb_false_r.
Qed.

Lemma turn_host : ip_dst h ≠ own → continues hdr (wire_hdr h c ++ payload) (20 + n).
Proof.
  intros Hd. destruct (input_host mac own mask elapsed last w (up_configured _ _ _ _ _ _ _ _ Hup)
    hdr h c n payload Ha Hc Hd ltac:(lia)) as (arp & m & Hcf' & Hrun & Hun).
  eapply ip_turn; [done|apply deliver_other; by left|apply turn_size|exact Hrun| |lia|].
  { eapply stack_up_ext; [by apply up_learned|done..]. }
  rewrite (unreachable_length _ _ _ _ _ Hun) by lia. lia.
Qed.

Lemma turn_proto : ip_dst h = own → ip_proto h ∉ [IP_PROTO_ICMP; IP_PROTO_TCP; IP_PROTO_UDP] →
  continues hdr (wire_hdr h c ++ payload) (20 + n).
Proof.
  intros Hd Hx. destruct (input_proto mac own mask elapsed last w (up_configured _ _ _ _ _ _ _ _ Hup)
    hdr h c n payload Ha Hc Hd Hf Hx ltac:(lia)) as (arp & m & Hcf' & Hrun & Hun).
  eapply ip_turn; [done|apply deliver_other; right|apply turn_size|exact Hrun|by apply up_learned|lia|].
  { intros E. apply Hx. rewrite E. do 2 right. left. }
  rewrite (unreachable_length _ _ _ _ _ Hun) by lia. lia.
Qed.

Lemma turn_icmp : ip_dst h = own → ip_proto h = IP_PROTO_ICMP →
  continues hdr (wire_hdr h c ++ payload) (20 + n).
Proof.
  intros Hd Hp. pose proof (up_configured _ _ _ _ _ _ _ _ Hup) as Hcf. pose proof Ha as [Hpl Hs Hb Hn Hl].
  pose proof turn_size as Hts.
  destruct (decide ((8 <= n)%nat ∧ head payload = Some 8)) as [[Hn8 Hty]|Hno].
  - assert (∃ rest, payload = 8 :: rest) as [rest E].
    { destruct payload as [|ty rest]; [done|]. injection Hty as ->. by exists rest. }
    pose proof Ha as Ha'. rewrite E in Ha'.
    destruct (input_echo mac own mask elapsed last w Hcf hdr h c n rest Ha' Hc Hd Hf Hp Hn8)
      as (arp & c1 & c2 & Hcf' & Hrun & _). cbv zeta in Hrun. rewrite <-E in Hrun.
    assert (Hl4 : (4 <= length payload)%nat) by lia.
    eapply ip_turn; [done|apply deliver_other; right; by rewrite Hp|exact Hts|exact Hrun|by apply up_learned|lia|].
    rewrite length_app, ip_hdr_store_length, echo_reply_length by done. unfold IP_HDR_SIZE. lia.
  - destruct (input_deliver mac own mask elapsed last w Hcf hdr h c n payload Ha Hc Hd Hf) as (arp & Hcf' & Hin).
    destruct (icmp_other payload n Hb Hn) as (r & Hic & Hr & Hne); [destruct (decide (n < 8)%nat); [by left|]; right;
      intros E; apply Hno; split; [lia|done]|].
    set (fn := fun (_ : ip_hdr) payload bsize => @lift (Z * list Z) (icmp_input payload bsize)).
    assert (Hfn : find_handler (ip_proto (set_csum c h)) ip_proto_handlers = Some fn)
      by (change (ip_proto (set_csum c h)) with (ip_proto h); by rewrite Hp).
    assert (Hfr : fn (set_csum c h) payload (n : Z) (set_arp arp w) = Done ((r, payload), set_arp arp w))
      by (unfold fn, lift; by rewrite Hic).
    pose proof (deliver_handled (set_csum c h) n payload fn r payload _ _ (plain_set_csum h n c Hpl Hc) Hfn Hfr
      Hne ltac:(lia)) as Hdel.
    change (ip_len (set_csum c h)) with (ip_len h) in Hdel. rewrite <-Hin in Hdel.
    eapply ip_turn; [done|apply deliver_other; right; by rewrite Hp|exact Hts|exact Hdel|by apply up_learned|lia|lia].
Qed.

Lemma turn_tcp : ip_dst h = own → ip_proto h = IP_PROTO_TCP →
  continues hdr (wire_hdr h c ++ payload) (20 + n).
Proof.
  intros Hd Hp. destruct (input_tcp mac own mask elapsed last w (up_configured _ _ _ _ _ _ _ _ Hup)
    hdr h c n payload (up_tcp _ _ _ _ _ _ _ _ Hup) Ha Hc Hd Hf Hp ltac:(lia))
    as (arp & t & r & p' & Hcf' & _ & Ht' & Hl' & Hrun). cbv zeta in Hrun.
  assert (Hup' : stack_up mac own mask elapsed (learn last (ip_src h) (h_src hdr)) addrs md
    (set_tcp t (set_arp arp w))) by (apply up_move; [done|apply Hup|done|done]).
  case_bool_decide as Hr.
  - destruct Hrun as ((Hrr & _) & c1 & Hrun & _).
    eapply ip_turn; [done|apply deliver_other; right; by rewrite Hp|apply turn_size|exact Hrun|done|lia|].
    rewrite length_app, Hl', ip_hdr_store_length. unfold IP_HDR_SIZE. lia.
  - eapply ip_turn; [done|apply deliver_other; right; by rewrite Hp|apply turn_size|exact Hrun|done|lia|lia].
Qed.

Lemma turn_udp : ip_dst h = own → ip_proto h = IP_PROTO_UDP →
  continues hdr (wire_hdr h c ++ payload) (20 + n).
Proof.
  intros Hd Hp. pose proof (input_udp mac own mask elapsed last w (up_configured _ _ _ _ _ _ _ _ Hup)
    addrs md hdr h c n payload (up_udp _ _ _ _ _ _ _ _ Hup) Ha Hc Hd Hf Hp ltac:(lia)) as Hin.
  cbv zeta in Hin.
  assert (Hdv : deliver own addrs md hdr (wire_hdr h c ++ payload) (20 + n) =
    '(_, md) ← md_step addrs md (UdpDeliver h (take n payload)); Done md).
  { unfold deliver. rewrite udp_frame_plain, !bool_decide_true by (done || apply Ha). done. }
  destruct (md_step addrs md (UdpDeliver h (take n payload))) as [[[r o] md']| |] eqn:Hmd; [|done|].
  - destruct Hin as (arp & u & p' & Hcf' & Hu' & Hl' & _ & Hr & Hrun).
    assert (Hup' : stack_up mac own mask elapsed (learn last (ip_src h) (h_src hdr)) addrs md'
      (set_udp u (set_arp arp w))) by (apply up_move; [done|done|apply Hup|done]).
    rewrite bind_done in Hdv. case_bool_decide as Hne.
    + destruct Hrun as (m & Hrun & Hun). eapply ip_turn; [done|exact Hdv|apply turn_size|exact Hrun|done|lia|].
      rewrite (unreachable_length _ _ _ _ _ Hun) by lia. lia.
    + eapply ip_turn; [done|exact Hdv|apply turn_size|exact Hrun|done|lia|lia].
  - right. split; [|split; [exact Hdv|by exists h, c, n, payload]]. unfold ingress_frame, ether_input.
    rewrite (find_ipv4 hdr Hpr), turn_size. unfold mbind, M_bind. by rewrite Hin.
Qed.
End ip.

Lemma turn_ip hdr h c (n : nat) payload :
  h_proto hdr = ETHER_PROTO_IPV4 → arrives own h n payload → 0 <= c < 65536 →
  (88 <= length payload)%nat → ip_fragment_is_frag h = false →
  continues hdr (wire_hdr h c ++ payload) (20 + n).
Proof.
  intros Hpr Ha Hc Hlen Hf. destruct (decide (ip_dst h = own)) as [Hd|Hd]; [|by apply turn_host].
  destruct (decide (ip_proto h = IP_PROTO_ICMP)); [by apply turn_icmp|].
  destruct (decide (ip_proto h = IP_PROTO_TCP)); [by apply turn_tcp|].
  destruct (decide (ip_proto h = IP_PROTO_UDP)); [by apply turn_udp|].
  apply turn_proto; [done..|]. rewrite !not_elem_of_cons. split_and!; [done..|apply not_elem_of_nil].
Qed.

Lemma turn_arp hdr m rest (n : nat) :
  h_proto hdr = ETHER_PROTO_ARP → arp_ok m → arp_htype m = ARP_HTYPE_ETHER →
  arp_ptype m = ETHER_PROTO_IPV4 → arp_spa m ≠ own → 28 <= Z.of_nat n <= 1500 →
  (n <= 28 + length rest)%nat → continues hdr (wire_arp m ++ rest) n.
Proof.
  intros Hpr Hok Hht Hpt Hne Hn Hsz. left. destruct Hup as [Hcf Hu Ht (ps & Hd & Hps) Hz].
  destruct (arp_input_spec mac own mask elapsed last w Hcf m rest n ps Hok Hht Hpt Hne Hd Hz Hps)
    as (w' & Hcf' & Hd' & Hz' & Hu' & Ht' & _ & Hrun).
  assert (Hdv : deliver own addrs md hdr (wire_arp m ++ rest) n = Done md).
  { apply deliver_none, udp_frame_other. by rewrite Hpr. }
  set (last' := learn last (arp_spa m) (arp_sha m)) in *.
  assert (Hup' : stack_up mac own mask elapsed last' addrs md w').
  { split; [done|by rewrite Hu'|by rewrite Ht'|by exists []|done]. }
  set (fn := fun (_ : ether_hdr) payload bsize => arp_input payload bsize).
  assert (Hfn : find_handler (h_proto hdr) ether_proto_handlers = Some fn) by by rewrite Hpr.
  destruct (bool_decide (arp_oper m = ARP_OPER_REQUEST) && bool_decide (arp_tpa m = own)).
  - destruct (turn hdr (wire_arp m ++ rest) n fn w n _ w' elapsed last' md Hfn Hrun Hup')
      as (m'' & w'' & Hfr & Hup''); [lia| |by exists m'', w'', last', md].
    unfold wire_arp. rewrite length_app, arp_store_length; [lia|apply Hcf|apply Hok].
  - destruct (turn hdr (wire_arp m ++ rest) n fn w 0 _ w' elapsed last' md Hfn Hrun Hup')
      as (m'' & w'' & Hfr & Hup''); [lia|lia|by exists m'', w'', last', md].
Qed.

Lemma turn_good hdr m n : good_frame own hdr m n → continues hdr m n.
Proof.
  intros [m1 rest n1 H1 H2 H3 H4 H5 H6 H7|h c n1 payload H1 H2 H3 H4 H5|h c rest n1 H1 H2 H3 H4|payload n1 Hx].
  - by apply turn_arp.
  - by apply turn_ip.
  - eapply (ip_turn hdr _ n1 n1 0); [done| |done|by apply input_drops|done|lia|lia].
    apply deliver_none. rewrite udp_frame_ip by done. by rewrite H4.
  - left. rewrite !not_elem_of_cons in Hx. destruct Hx as (Hx1 & Hx2 & _).
    assert (Hnone : find_handler (h_proto hdr) ether_proto_handlers = None).
    { cbn [find_handler ether_proto_handlers]. by rewrite !bool_decide_false by (intros E; symmetry in E; done). }
    exists payload, (with_errno EPROTONOSUPPORT w), last, md.
    split; [|split; [by apply deliver_none, udp_frame_other|by eapply stack_up_ext]].
    unfold ingress_frame, ether_input. by rewrite Hnone.
Qed.

(** The tick of the timer. *)
Lemma tick_keeps delta :
  0 <= delta → elapsed <= ARP_CACHE_AGE_MAX →
  ∃ w', run_periodic_tasks delta w = Done (tt, w') ∧
    stack_up mac own mask (elapsed + delta) last addrs md w' ∧ defer_holds (w_defer w') [].
Proof.
  intros Hdelta Hel. destruct Hup as [Hcf Hu Ht (ps & Hd & Hps) Hz].
  set (w1 := set_arp (arp_cache_update (w_arp w) delta) w).
  assert (Hcf1 : configured mac own mask (elapsed + delta) last w1).
  { destruct Hcf. split; try done; [lia|]. by apply tick_spec. }
  destruct (handler_flushes mac own mask (elapsed + delta) last w1 ps delta Hcf1 Hd Hz Hps)
    as (w' & Hfl & (E1 & E2 & E3 & E4 & E5 & _) & Hd' & Hz' & _).
  exists w'. split.
  - unfold run_periodic_tasks, periodic_tasks. cbn [run_tasks]. rewrite M_bind_modify. fold w1.
    by rewrite (M_bind_done _ _ w1 _ _ Hfl).
  - split; [|done]. split; [by eapply configured_ext|by rewrite E4|by rewrite E5|by exists []|done].
Qed.
End frame.

(** ** Properties *)

(** C13: The invariant of the running stack, with a kernel that takes its frames.
    For every well-formed frame (any ARP message for IPv4 over Ethernet that does not
    claim the own address as its sender, any IP packet from another source address
    that has no options and is not a fragment, for this host or another, of any
    protocol and with any contents that fit a frame, any packet that is dropped for its version, its
    header length or its size, any unknown frame type) the input path returns, without an access outside a buffer, in a
    state that satisfies the invariant again; or it waits, for a datagram to a
    socket whose queue is full. *)
Theorem ingress_keeps_invariant elapsed last md w hdr m n :
  stack_up mac own mask elapsed last addrs md w → good_frame own hdr m n →
  (∃ m' w' last' md', ingress_frame 0 hdr m n w = Done (m', w') ∧
    stack_up mac own mask elapsed last' addrs md' w') ∨
  ingress_frame 0 hdr m n w = Spin ∧ blocked md hdr m.
Proof.
  intros Hup Hg. destruct (turn_good elapsed last md w Hup hdr m n Hg) as [(m' & w' & last' & md' & Hrun & _ & Hup')|(? & _ & ?)];
    [left; by exists m', w', last', md'|by right].
Qed.

(** The periodic tasks return in a state that satisfies the invariant, with
    the cache entries older by the time they were given, as long as what they were
    given before is at most twenty hours, and the ring of deferred packets empty. *)
Theorem periodic_tasks_keep_invariant elapsed last md w delta :
  stack_up mac own mask elapsed last addrs md w → 0 <= delta → elapsed <= ARP_CACHE_AGE_MAX →
  ∃ w', run_periodic_tasks delta w = Done (tt, w') ∧
    stack_up mac own mask (elapsed + delta) last addrs md w' ∧ defer_holds (w_defer w') [].
Proof. intros Hup. exact (tick_keeps elapsed last md w Hup delta). Qed.
End kernel.

(** ** Witnesses *)
#[local] Opaque demo_up demo_known.

Lemma demo_stack_up :
  stack_up mac_a OWN_ADDR OWN_MASK 0 None demo_addr (UdpModel [0%nat] [[]]) (demo_up demo_bound).
Proof.
  destruct (demo_up_configured demo_bound) as (Hcf & Hu & Hd & _ & Ht). split.
  - exact Hcf.
  - rewrite Hu. apply demo_bound_refines.
  - rewrite Ht. apply tcp_init_ok.
  - exists []. rewrite Hd. split; [apply defer_init_holds|constructor].
  - rewrite Hd. apply defer_init_sizes.
Qed.

Lemma ingress_keeps_invariant_witness :
  let h := peer_ip IP_PROTO_TCP OWN_ADDR 20 in
  let m := wire_hdr h 0 ++ demo_segment ++ repeat 0 20 in
  (∃ m' w' last' md', @ingress_frame accept_all 0 demo_ether m (20 + 20)%nat (demo_up demo_bound) = Done (m', w') ∧
    stack_up mac_a OWN_ADDR OWN_MASK 0 last' demo_addr md' w') ∨
  @ingress_frame accept_all 0 demo_ether m (20 + 20)%nat (demo_up demo_bound) = Spin ∧
    blocked demo_addr (UdpModel [0%nat] [[]]) demo_ether m.
Proof.
  intros h m. apply (@ingress_keeps_invariant accept_all accept_all_reliable mac_a OWN_ADDR OWN_MASK demo_addr
    0 None (UdpModel [0%nat] [[]]) (demo_up demo_bound) demo_ether m (20 + 20) demo_stack_up).
  apply good_ip.
  - reflexivity.
  - apply peer_ip_arrives; [unfold IP_PROTO_TCP; lia|unfold OWN_ADDR; lia| |simpl; lia|lia].
    apply (bool_decide_unpack _). by vm_compute.
  - lia.
  - simpl. lia.
  - reflexivity.
Defined.

Lemma periodic_tasks_keep_invariant_witness :
  ∃ w', @run_periodic_tasks accept_all 10 (demo_up demo_bound) = Done (tt, w') ∧
    stack_up mac_a OWN_ADDR OWN_MASK (0 + 10) None demo_addr (UdpModel [0%nat] [[]]) w' ∧
    defer_holds (w_defer w') [].
Proof.
  apply (@periodic_tasks_keep_invariant accept_all accept_all_reliable mac_a OWN_ADDR OWN_MASK demo_addr
    0 None (UdpModel [0%nat] [[]]) (demo_up demo_bound) 10 demo_stack_up).
  - lia.
  - unfold ARP_CACHE_AGE_MAX. lia.
Defined.

(** ** What the conditions are for *)

(** An IP header whose options are longer than the packet: [ip_input] does not
    check the header length against the size, the ICMP handler is told a size
    near 2^64 and the checksum runs out of the buffer. *)
Lemma icmp_overrun (rest : list Z) bsize :
  (8 <= length (8%Z :: rest))%nat → Z.of_nat (length (8 :: rest)) < bsize → icmp_input (8 :: rest) bsize = Fault.
Proof.
  intros Hl Hb. unfold icmp_input. rewrite bool_decide_false by (unfold ICMP_SIZE; lia).
  unfold icmp_load. rewrite bool_decide_true by done. rewrite bind_done.
  rewrite bool_decide_true by done. rewrite mem_write_ok by (simpl; lia). rewrite bind_done.
  set (p1 := _ ++ _). assert (Hl1 : length p1 = length (8 :: rest)).
  { unfold p1. rewrite !length_app, length_take, length_drop, le_bytes_length. lia. }
  rewrite mem_write_ok by (rewrite Hl1, le_bytes_length; lia). rewrite bind_done.
  unfold mem_read at 1. rewrite bool_decide_false; [done|].
  rewrite !length_app, length_take, length_drop, le_bytes_length. lia.
Qed.

Lemma options_overrun_faults `{ReliableKernel} mac own mask elapsed last w e h c rest rest' :
  configured mac own mask elapsed last w → ip_hdr_ok h → 0 <= c < 65536 →
  acceptable h (ip_len h) = true → ip_src h ≠ own → ip_dst h = own → ip_fragment_is_frag h = false →
  ip_proto h = IP_PROTO_ICMP → ip_len h < ip_hdr_hlen h →
  drop (Z.to_nat (ip_hdr_hlen h)) (ip_hdr_store (set_csum c h) ++ rest) = 8 :: rest' →
  (8 <= length (8%Z :: rest'))%nat → Z.of_nat (length (8 :: rest')) < 2 ^ 32 →
  ip_input 2 (Some e) (wire_hdr h c ++ rest) (ip_len h) w = Fault.
Proof.
  intros Hcf Hok Hc Ha Hs Hd Hf Hp Hlt Hdrop Hl8 Hl32.
  destruct (input_accepts mac own mask elapsed last w Hcf 1 e h c rest Hok Hc Ha Hs) as (arp & _ & Hin).
  rewrite Hin. rewrite bool_decide_true, Hf by done. unfold ip_deliver.
  change (ip_proto (set_csum c h)) with (ip_proto h). change (ip_hdr_hlen (set_csum c h)) with (ip_hdr_hlen h).
  rewrite Hp, Hdrop. cbn [find_handler ip_proto_handlers]. rewrite bool_decide_true by done.
  pose proof (ip_hdr_hlen_range h) as Hr. unfold mbind, M_bind, lift. rewrite icmp_overrun; [done|done|].
  assert (Hlen : 0 <= ip_len h) by (unfold ip_hdr_ok in Hok; lia).
  replace (u64 (ip_len h - ip_hdr_hlen h)) with (ip_len h - ip_hdr_hlen h + 2 ^ 64); [lia|].
  unfold u64. rewrite <-(Z_mod_plus_full _ 1), Z.mod_small; lia.
Qed.

(** A packet shorter than the data of a minimal frame arrives with its padding:
    the size does not match the total length, and a ping with less than 18
    bytes of data is never answered. *)
Lemma padded_packet_dropped :
  let h := peer_ip IP_PROTO_ICMP OWN_ADDR 9 in
  (λ '(_, w), length (tx w)) <$>
    (_ ← @boot accept_all 0;
     @ingress_frame accept_all 0 demo_ether (wire_hdr h 0 ++ sample_echo ++ repeat 0 (Z.to_nat 1485)) 46)
    (initial_world mac_a (static_sockets stack_sockets)) = Done 3%nat.
Proof. by vm_compute. Qed.
