(* ===== verification/System.v ===== *)
(** * The whole stack as a transition system

    The threads, the timer and the applications take turns on a stack that
    [main] has started: a frame arrives, the periodic tasks run, the egress
    thread does a round, an application calls [xstack_sendto] or [xstack_recvfrom].
    Whatever the sequence, the stack is in order after every turn. *)

From S2P Require Import Prelude Bytes EtherFcs Checksum IpHeader RBTree RBIndex RBMap.
From S2P Require Import Rib QueueR Socket Udp Tcp Icmp IpDefer Ether Arp Fragment.
From S2P Require Import World Output IpFragments Config IpSend Input IpInput ArpInput.
From S2P Require Import Stack Egress Safety Keeps.

#[local] Open Scope Z_scope.

(** ** What the input path leaves alone in the sockets *)

(** A part of every socket. *)
Definition of_sockets {T : Type} (f : xstack_sock → T) (w : world) : list T := f <$> Udp.sockets (w_udp w).

(** The output path does not touch the sockets. *)
#[export] Instance of_sockets_input {T} (f : xstack_sock → T) : InputOnly (of_sockets f).
Proof. intros w w' Hw. unfold of_sockets. by injection Hw as _ _ -> _ _. Qed.

Lemma insert_part {T} (f : xstack_sock → T) st i s :
  f s = f (sock_at st i) → f <$> <[i := s]> (Udp.sockets st) = f <$> Udp.sockets st.
Proof.
  intros Hs. destruct (decide (i < length (Udp.sockets st))%nat) as [Hi|Hi].
  - destruct (lookup_lt_is_Some_2 _ _ Hi) as [s0 H0]. rewrite list_fmap_insert, Hs.
    apply list_insert_id. by rewrite list_lookup_fmap, (sock_at_lookup _ _ _ H0), H0.
  - by rewrite list_insert_ge by lia.
Qed.

Section input.
Context `{Kernel} {T : Type} (f : xstack_sock → T).

(** It is the same after the delivery of a datagram. *)
Context (Hdgram : ∀ s src buf r s', xstack_sock_dgram_input s src buf = Done (r, s') → f s' = f s).

Abbreviation keeps := (Keeps.keeps (of_sockets f)).

Lemma udp_input_part st ip payload bsize r p st' :
  udp_input st ip payload bsize = Done (r, p, st') → f <$> Udp.sockets st' = f <$> Udp.sockets st.
Proof.
  unfold udp_input. intros Hrun. case_bool_decide; [by injection Hrun as _ _ <-|].
  apply bind_done_inv in Hrun as (net & _ & Hrun). apply bind_done_inv in Hrun as (p1 & _ & Hrun).
  apply bind_done_inv in Hrun as ([i|] & _ & Hrun); [|by injection Hrun as _ _ <-].
  apply bind_done_inv in Hrun as (data & _ & Hrun).
  apply bind_done_inv in Hrun as ([retval s] & Hin%Hdgram & Hrun).
  apply (insert_part f st) in Hin. case_bool_decide; [|by injection Hrun as _ _ <-].
  apply bind_done_inv in Hrun as (p2 & _ & Hrun). by injection Hrun as _ _ <-.
Qed.

Lemma keeps_udp ip payload bsize : keeps (on w_udp set_udp (fun u => udp_input u ip payload bsize)).
Proof.
  intros w a w' Hrun. unfold on in Hrun. destruct (udp_input _ _ _ _) as [[[r p] st]| |] eqn:Hu; [|done..].
  injection Hrun as _ <-. by apply udp_input_part in Hu.
Qed.
#[local] Hint Resolve keeps_udp : keeps.

Lemma keeps_handlers id fn ip payload bsize :
  find_handler id ip_proto_handlers = Some fn → keeps (fn ip payload bsize).
Proof.
  intros Hf. cbn [find_handler ip_proto_handlers] in Hf.
  repeat (case_bool_decide; [injection Hf as <-; auto with keeps|]). done.
Qed.

Lemma keeps_ip_deliver ip m bsize : keeps (ip_deliver ip m bsize).
Proof.
  unfold ip_deliver. destruct (find_handler _ _) as [fn|] eqn:Hf; [|keeps_calls]. cbv zeta.
  apply keeps_bind; [by eapply keeps_handlers|]. intros [r p]. keeps_calls.
Qed.
#[local] Hint Resolve keeps_ip_deliver : keeps.

Lemma keeps_fragment_input input ip rx : (∀ m n, keeps (input m n)) → keeps (ip_fragment_input input ip rx).
Proof. intros Hi. unfold ip_fragment_input. keeps_calls. Qed.

Lemma keeps_ip_input fuel e m bsize : keeps (ip_input fuel e m bsize).
Proof.
  revert e m bsize. induction fuel as [|fuel IH]; intros e m bsize; cbn [ip_input]; [auto with keeps|].
  assert (∀ ip rx, keeps (ip_fragment_input (ip_input fuel None) ip rx)).
  { intros. by apply keeps_fragment_input. }
  keeps_calls.
Qed.
#[local] Hint Resolve keeps_ip_input : keeps.

Lemma keeps_arp_input m bsize : keeps (arp_input m bsize).
Proof. unfold arp_input. cbv zeta. keeps_calls. Qed.
#[local] Hint Resolve keeps_arp_input : keeps.

Lemma keeps_ingress_frame h hdr m bsize : keeps (ingress_frame h hdr m bsize).
Proof.
  unfold ingress_frame. apply keeps_bind.
  - unfold ether_input. cbn [find_handler ether_proto_handlers].
    repeat (case_bool_decide; [keeps_calls|]). keeps_calls.
  - intros [r p]. unfold ether_output_reply. keeps_calls.
Qed.

Lemma keeps_periodic_tasks delta : keeps (run_periodic_tasks delta).
Proof. unfold run_periodic_tasks, periodic_tasks. cbn [run_tasks]. keeps_calls. Qed.
End input.

(** *** The egress side *)
Definition egress_side (s : xstack_sock) : Z * queue_cb * list Z :=
  (sock_proto s, egress_q s, egress_data s).

Abbreviation egress_sides := (of_sockets egress_side).

Lemma dgram_input_side s src buf r s' :
  xstack_sock_dgram_input s src buf = Done (r, s') → egress_side s' = egress_side s.
Proof.
  unfold xstack_sock_dgram_input. intros Hrun. apply bind_done_inv in Hrun as (i & _ & Hrun).
  case_bool_decide; [done|]. repeat apply bind_done_inv in Hrun as (? & _ & Hrun).
  by injection Hrun as _ <-.
Qed.

(** ** Turns *)
Inductive turn_event : Type :=
| Frame (hdr : ether_hdr) (rx_buffer : list Z) (n : nat)    (* the ingress thread, with a frame *)
| Tick (delta : Z)                                          (* its periodic tasks *)
| EgressTurn                                                (* a round of the egress thread *)
| AppSend (i : nat) (buffer : list Z) (dest : sockaddr)     (* applications *)
| AppRecv (i : nat) (len : Z) (peek : bool).

Definition turn_ok (ev : turn_event) : Prop :=
  match ev with
  | Frame hdr m n => good_frame OWN_ADDR hdr m n
  | Tick delta => 0 <= delta
  | EgressTurn => True
  | AppSend i buffer _ => (i < length stack_sockets)%nat ∧ payload_ok buffer
  | AppRecv i len _ => (i < length stack_sockets)%nat ∧ 0 <= len < 2 ^ 32
  end.

Definition turn_time (ev : turn_event) : Z := match ev with Tick delta => delta | _ => 0 end.

(** What the applications do to the shared memory. *)
Definition app_sendto (st : udp_state) (i : nat) (buffer : list Z) (dest : sockaddr)
    : outcome (unit * udp_state) :=
  '(_, s) ← xstack_sendto (sock_at st i) buffer dest; Done (tt, put_sock st i s).

Definition app_recvfrom (st : udp_state) (i : nat) (len : Z) (peek : bool) : outcome (unit * udp_state) :=
  '(_, s) ← xstack_recvfrom (sock_at st i) len peek; Done (tt, put_sock st i s).

Section kernel.
Context `{Kernel}.

Definition take_turn (ev : turn_event) : M unit :=
  match ev with
  | Frame hdr m n => _ ← ingress_frame 0 hdr m n; mret tt
  | Tick delta => run_periodic_tasks delta
  | EgressTurn => egress_round
  | AppSend i buffer dest => on w_udp set_udp (fun u => app_sendto u i buffer dest)
  | AppRecv i len peek => on w_udp set_udp (fun u => app_recvfrom u i len peek)
  end.

(** The states of the stack, with the sum of the [delta_time]s its periodic tasks
    were given so far; the ages of the ARP cache are in order as long as no task runs
    after a sum of more than twenty hours.  The first [delta_time] is the uptime of
    the host ([Stack.first_delta_is_uptime]), so this sum is the uptime, in steps. *)
Inductive system (mac : list Z) : Z → world → Prop :=
| system_boot w :
    boot 0 (initial_world mac (static_sockets stack_sockets)) = Done (None, w) → system mac 0 w
| system_turn t ev w w' :
    system mac t w → t <= ARP_CACHE_AGE_MAX → turn_ok ev → take_turn ev w = Done (tt, w') →
    system mac (t + turn_time ev) w'.
End kernel.

(** A turn that has to wait: for a reader of the socket the datagram is for, for the
    egress thread, for a datagram. *)
Definition turn_waits (w : world) (ev : turn_event) : Prop :=
  match ev with
  | Frame hdr m n => ∃ md, udp_refines stack_sockets (w_udp w) md ∧ blocked stack_sockets md hdr m
  | AppSend i _ _ => queue_len (egress_q (sock_at (w_udp w) i)) = 3
  | AppRecv i _ _ => ingress_holds (sock_at (w_udp w) i) []
  | Tick _ | EgressTurn => False
  end.

(** ** The sockets as the demultiplexer sees them *)

(** What a turn does to the model of the sockets. *)
Definition md_turn (md : udp_model) (ev : turn_event) : outcome udp_model :=
  match ev with
  | Frame hdr m n => deliver OWN_ADDR stack_sockets md hdr m n
  | AppRecv i len peek => '(_, md) ← md_step stack_sockets md (UdpRecv i len peek); Done md
  | Tick _ | EgressTurn | AppSend _ _ _ => Done md
  end.

Definition is_send (ev : turn_event) : bool := match ev with AppSend _ _ _ => true | _ => false end.

(** ** Invariant *)

(** The stack is in order and its sockets are those of the model [md]. *)
Definition in_order_md (mac : list Z) (t : Z) (md : udp_model) (w : world) : Prop :=
  (∃ last, stack_up mac OWN_ADDR OWN_MASK t last stack_sockets md w) ∧
  Forall ready (Udp.sockets (w_udp w)).

Definition in_order_at (mac : list Z) (t : Z) (w : world) : Prop :=
  (∃ last md, stack_up mac OWN_ADDR OWN_MASK t last stack_sockets md w) ∧
  Forall ready (Udp.sockets (w_udp w)).

Lemma in_order_at_md mac t w : in_order_at mac t w ↔ ∃ md, in_order_md mac t md w.
Proof. unfold in_order_at, in_order_md. naive_solver. Qed.

Lemma ready_side s s' : egress_side s' = egress_side s → ready s → ready s'.
Proof.
  intros Hs (Hp & Hg & Hz). injection Hs as Ep Eq Ed. unfold ready, egress_geometry, zero_sizes.
  by rewrite Ep, Eq, Ed.
Qed.

Lemma ready_sides w w' : egress_sides w' = egress_sides w →
  Forall ready (Udp.sockets (w_udp w)) → Forall ready (Udp.sockets (w_udp w')).
Proof.
  intros Hs. rewrite !Forall_lookup. intros Hr i s Hi.
  assert (Hl : egress_sides w !! i = Some (egress_side s)).
  { rewrite <-Hs. unfold of_sockets. by rewrite list_lookup_fmap, Hi. }
  unfold of_sockets in Hl. rewrite list_lookup_fmap in Hl. destruct (Udp.sockets (w_udp w) !! i) as [s0|] eqn:H0; [|done].
  apply (inj Some) in Hl. apply (ready_side s0); [by symmetry|by eapply Hr].
Qed.

Lemma stack_up_udp mac t last md md' w u :
  stack_up mac OWN_ADDR OWN_MASK t last stack_sockets md w → udp_refines stack_sockets u md' →
  stack_up mac OWN_ADDR OWN_MASK t last stack_sockets md' (set_udp u w).
Proof.
  intros [Hcf _ Ht Hd Hz] Hu. split; [by eapply configured_ext|exact Hu|exact Ht|exact Hd|exact Hz].
Qed.

(** The socket of [src/xstack.c] after [xstack_init]. *)
Lemma init_sockets st :
  xstack_init (static_sockets stack_sockets) = Done (None, st) →
  Udp.sockets st = [demo_open (Sockaddr OWN_ADDR 10)].
Proof.
  intros Hst.
  assert (Hc : (λ '(_, st), Udp.sockets st) <$> xstack_init (static_sockets stack_sockets) =
    Done [demo_open (Sockaddr OWN_ADDR 10)]) by by vm_compute.
  rewrite Hst in Hc. by apply done_inj in Hc.
Qed.

Section safety.
Context `{ReliableKernel}.
Context (mac : list Z) (Hmac : mac_ok mac).

Lemma boot_in_order_md w :
  boot 0 (initial_world mac (static_sockets stack_sockets)) = Done (None, w) →
  in_order_md mac 0 (UdpModel [0%nat] [[]]) w.
Proof.
  intros Hw. destruct (boot_done mac Hmac) as (w' & Hw' & Hup & _). rewrite Hw in Hw'. injection Hw' as <-.
  split; [by exists None|].
  unfold boot, mbind, M_bind in Hw. destruct (ip_config _ _ _ _) as [[r w1]| |] eqn:Hc; [|done..].
  unfold on in Hw. destruct (xstack_init (w_udp w1)) as [[e st]| |] eqn:Hi; [|done..].
  injection Hw as -> <-. cbn [w_udp set_udp].
  destruct (config_done mac OWN_ADDR OWN_MASK (static_sockets stack_sockets) Hmac)
    as (w2 & Hc2 & _ & _ & Hu & _); [unfold OWN_ADDR; lia|unfold OWN_MASK; lia|].
  change 167772162 with OWN_ADDR in Hc. change 4294967040 with OWN_MASK in Hc.
  rewrite Hc2 in Hc. injection Hc as _ <-. rewrite Hu in Hi. rewrite (init_sockets st Hi).
  constructor; [apply demo_open_ready|constructor].
Qed.

Lemma boot_in_order w :
  boot 0 (initial_world mac (static_sockets stack_sockets)) = Done (None, w) → in_order_at mac 0 w.
Proof. intros Hw. apply in_order_at_md. eexists. by apply boot_in_order_md. Qed.

(** The outcome of a turn, and of the same turn on the model. *)
Definition turn_ends (t : Z) (md : udp_model) (w : world) (ev : turn_event) : Prop :=
  (∃ w' md', take_turn ev w = Done (tt, w') ∧ md_turn md ev = Done md' ∧
     in_order_md mac (t + turn_time ev) md' w') ∨
  take_turn ev w = Spin ∧ turn_waits w ev ∧ (md_turn md ev = Spin ∨ is_send ev = true).

Section turn.
Context (t : Z) (md : udp_model) (w : world) (Ht : t <= ARP_CACHE_AGE_MAX) (Hin : in_order_md mac t md w).

Lemma frame_turn hdr m n : turn_ok (Frame hdr m n) → turn_ends t md w (Frame hdr m n).
Proof.
  destruct Hin as [[last Hup] Hr]. intros Hg. cbn [turn_ok] in Hg. unfold turn_ends.
  cbn [turn_time take_turn]. rewrite Z.add_0_r.
  destruct (turn_good mac OWN_ADDR OWN_MASK stack_sockets t last md w Hup hdr m n Hg)
    as [(m' & w' & last' & md' & Hrun & Hmd & Hup')|(Hrun & Hmd & Hb)].
  - left. exists w', md'. rewrite (M_bind_done _ _ _ _ _ Hrun). split; [done|]. split; [done|].
    split; [by exists last'|]. by apply (ready_sides w); [by eapply (keeps_ingress_frame _ dgram_input_side)|].
  - right. unfold mbind, M_bind. rewrite Hrun. split; [done|]. split; [|by left]. exists md. split; [apply Hup|done].
Qed.

Lemma tick_turn delta : 0 <= delta → turn_ends t md w (Tick delta).
Proof.
  destruct Hin as [[last Hup] Hr]. intros Hdelta.
  destruct (tick_keeps mac OWN_ADDR OWN_MASK stack_sockets t last md w Hup delta Hdelta Ht)
    as (w' & Hrun & Hup' & _).
  left. exists w', md. split; [exact Hrun|]. split; [done|]. split; [by exists last|].
  by apply (ready_sides w); [by eapply keeps_periodic_tasks|].
Qed.

Lemma egress_turn_ends : turn_ends t md w EgressTurn.
Proof.
  destruct Hin as [[last Hup] Hr]. left. cbn [turn_time take_turn]. rewrite Z.add_0_r.
  destruct (egress_sockets_drop (length (Udp.sockets (w_udp w))) 0 w Hr eq_refl) as (st & Hst & Hf & _ & Hu).
  exists (set_udp st w), md. split; [exact Hst|]. split; [done|]. split; [|exact Hf]. exists last.
  apply (stack_up_udp mac t last md); [done|]. apply Hu, Hup.
Qed.

Lemma socket_in_order i : (i < length stack_sockets)%nat →
  ∃ s, Udp.sockets (w_udp w) !! i = Some s ∧ sock_at (w_udp w) i = s ∧ ready s.
Proof.
  destruct Hin as [[last Hup] Hr]. intros Hi.
  assert (Hl : length (Udp.sockets (w_udp w)) = length stack_sockets).
  { destruct (up_udp _ _ _ _ _ _ _ _ Hup) as (_ & <- & _). by rewrite length_fmap. }
  destruct (lookup_lt_is_Some_2 (Udp.sockets (w_udp w)) i ltac:(lia)) as [s Hs]. exists s.
  split; [done|]. split; [by apply sock_at_lookup|]. rewrite Forall_lookup in Hr. by eapply Hr.
Qed.

Lemma send_turn i buffer dest : turn_ok (AppSend i buffer dest) → turn_ends t md w (AppSend i buffer dest).
Proof.
  intros [Hi Hb]. destruct (socket_in_order i Hi) as (s & Hs & Hat & Hrs).
  destruct Hin as [[last Hup] Hr]. unfold turn_ends. cbn [turn_time take_turn turn_waits].
  unfold on, app_sendto. rewrite Hat, Z.add_0_r.
  destruct (sendto_ready s buffer dest Hrs Hb) as [[-> Hq]|(s' & -> & Hr' & _ & Hside)]; [by right; split_and!; [| |right]|left].
  rewrite bind_done. eexists _, md. split; [done|]. split; [done|]. split; [|by apply Forall_insert]. exists last.
  apply (stack_up_udp mac t last md); [done|]. apply refines_egress; [apply Hup|by rewrite Hat].
Qed.

Lemma recv_side s len peek r s' :
  xstack_recvfrom s len peek = Done (r, s') → egress_side s' = egress_side s.
Proof.
  unfold xstack_recvfrom. intros Hrun. destruct (queue_peek _); [|done].
  apply bind_done_inv in Hrun as (d & _ & Hrun). cbv zeta in Hrun. apply bind_done_inv in Hrun as (bs & _ & Hrun).
  destruct peek; [by injection Hrun as _ <-|]. apply bind_done_inv in Hrun as ([k q] & _ & Hrun).
  by injection Hrun as _ <-.
Qed.

Lemma recv_turn i len peek : turn_ok (AppRecv i len peek) → turn_ends t md w (AppRecv i len peek).
Proof.
  intros [Hi Hlen]. destruct (socket_in_order i Hi) as (s & Hs & Hat & Hrs).
  destruct Hin as [[last Hup] Hr]. unfold turn_ends. cbn [turn_time take_turn turn_waits].
  unfold on, app_recvfrom. rewrite Hat, Z.add_0_r.
  destruct (refines_queue stack_sockets (w_udp w) md i (up_udp _ _ _ _ _ _ _ _ Hup) Hi) as (q & Hq & Hh).
  rewrite Hat in Hh. destruct q as [|[src buf] q].
  { right. rewrite (recvfrom_empty _ _ _ Hh). split; [done|]. split; [done|]. left.
    cbn [md_turn md_step]. by rewrite Hq. }
  left. destruct (recvfrom_head _ _ _ _ _ peek Hh Hlen) as (s' & Hrun & Hh' & Hsa).
  pose proof (recv_side _ _ _ _ _ Hrun) as Hside. rewrite Hrun, bind_done. eexists _, _. split; [done|].
  split; [cbn [md_turn md_step]; by rewrite Hq|].
  split; [|apply Forall_insert; [done|by eapply ready_side]]. exists last.
  apply (stack_up_udp mac t last md); [done|].
  by apply (refines_update stack_sockets (w_udp w) md i s' _ (up_udp _ _ _ _ _ _ _ _ Hup) Hh'); rewrite Hat.
Qed.

Lemma turn_refines ev : turn_ok ev → turn_ends t md w ev.
Proof.
  destruct ev as [hdr m n|delta| |i buffer dest|i len peek]; intros Hok.
  - by apply frame_turn.
  - by apply tick_turn.
  - apply egress_turn_ends.
  - by apply send_turn.
  - by apply recv_turn.
Qed.
End turn.

Lemma turn_in_order t w : t <= ARP_CACHE_AGE_MAX → in_order_at mac t w → ∀ ev, turn_ok ev →
  (∃ w', take_turn ev w = Done (tt, w') ∧ in_order_at mac (t + turn_time ev) w') ∨
  take_turn ev w = Spin ∧ turn_waits w ev.
Proof.
  intros Ht [md Hin]%in_order_at_md ev Hok.
  destruct (turn_refines t md w Ht Hin ev Hok) as [(w' & md' & Hrun & _ & Hin')|(Hs & Hw & _)]; [left|by right].
  exists w'. split; [done|]. apply in_order_at_md. by exists md'.
Qed.
End safety.

Lemma system_in_order `{ReliableKernel} mac t w : mac_ok mac → system mac t w → in_order_at mac t w.
Proof.
  intros Hmac Hs. induction Hs as [w Hw|t ev w w' Hs IH Ht Hok Hrun]; [by apply boot_in_order|].
  destruct (turn_in_order mac t w Ht IH ev Hok) as [(w1 & Hrun1 & Hin)|[Hspin _]]; [|congruence].
  rewrite Hrun in Hrun1. by injection Hrun1 as <-.
Qed.

(** ** Property *)

(** C11: The stack [main] starts stays in order.  In every state that a sequence of
    turns leads to, the invariant holds: the address, the route and the ARP cache
    are configured, the sockets refine the demultiplexer, TCP and the deferred
    packets are well formed; and every further turn ends, without an access outside
    a buffer, or waits for the one thing it has to wait for.  A turn is a round of
    the ingress thread with a frame, the periodic tasks, a round of the egress
    thread, or a call of [xstack_sendto] or [xstack_recvfrom], within these bounds.
    The kernel takes every frame that is sent.  A received frame is an ARP message
    for IPv4 over Ethernet from another host, an IP packet from another host that has
    no options and is not a fragment, a packet that is dropped for its version, its
    header length or its size, or of an unknown type.  An application sends at most
    4072 bytes per call: the code lets 4096 pass and then overruns the block.  And no
    turn comes after periodic tasks that were given, in all, more than the
    twenty hours an ARP entry may live; as the first of them is given the uptime of the host, that is
    the uptime, not the time since the start. *)
Theorem system_safe `{ReliableKernel} mac t w ev :
  mac_ok mac → system mac t w → t <= ARP_CACHE_AGE_MAX → turn_ok ev →
  (∃ last md, stack_up mac OWN_ADDR OWN_MASK t last stack_sockets md w) ∧
  ((∃ w', take_turn ev w = Done (tt, w') ∧ system mac (t + turn_time ev) w') ∨
   take_turn ev w = Spin ∧ turn_waits w ev).
Proof.
  intros Hmac Hs Ht Hok. pose proof (system_in_order mac t w Hmac Hs) as Hin. split; [apply Hin|].
  destruct (turn_in_order mac t w Ht Hin ev Hok) as [(w' & Hrun & _)|Hwait]; [left|by right].
  exists w'. split; [done|]. by eapply system_turn.
Qed.

(** A stack that has just been started, and a ping. *)
Lemma demo_booted : ∃ w, @system accept_all mac_a 0 w.
Proof.
  destruct (@boot_done accept_all accept_all_reliable mac_a mac_a_ok) as (w & Hw & _).
  exists w. by apply system_boot.
Qed.

(** A segment to port 80 in the receive buffer. *)
Definition demo_turn : turn_event :=
  Frame demo_ether (wire_hdr (peer_ip IP_PROTO_TCP OWN_ADDR 20) 0 ++ demo_segment ++ repeat 0 20) (20 + 20).

Lemma demo_turn_ok : turn_ok demo_turn.
Proof.
  apply good_ip.
  - reflexivity.
  - apply peer_ip_arrives; [unfold IP_PROTO_TCP; lia|unfold OWN_ADDR; lia| |simpl; lia|lia].
    apply (bool_decide_unpack _). by vm_compute.
  - lia.
  - simpl. lia.
  - reflexivity.
Qed.

Lemma system_safe_witness :
  ∃ w, @system accept_all mac_a 0 w ∧
    (∃ last md, stack_up mac_a OWN_ADDR OWN_MASK 0 last stack_sockets md w) ∧
    ((∃ w', @take_turn accept_all demo_turn w = Done (tt, w') ∧ @system accept_all mac_a (0 + turn_time demo_turn) w') ∨
     @take_turn accept_all demo_turn w = Spin ∧ turn_waits w demo_turn).
Proof.
  destruct demo_booted as [w Hw]. exists w. split; [exact Hw|].
  apply (@system_safe accept_all accept_all_reliable mac_a 0 w demo_turn).
  - apply mac_a_ok.
  - exact Hw.
  - unfold ARP_CACHE_AGE_MAX. lia.
  - apply demo_turn_ok.
Defined.
