(* ===== verification/Lifecycle.v ===== *)
(** * Start and stop of the threads, [src/xstack.c]

    The state machine of [xstack_start], [xstack_stop] and the two threads, in any
    interleaving.  The body of a thread's loop is one event here, [Stack] has what
    it does; only the wait of [xstack_sock_dgram_input] for a free block of the
    ingress queue, which may never end, is a state of its own.  The other waits of a
    body have a timeout ([recvfrom] by [linux_ether_set_rxtimeout], [sigtimedwait]),
    and [sendto] is taken to return.  The calls of
    [pthread_create], [pthread_cancel] and [pthread_join] are events of the thread
    that makes them.  The second part adds the ingress queue ([QueueR]) and the
    application that reads from it, and says when [xstack_stop] returns. *)

From S2P Require Import Prelude QueueR.
From stdpp Require Import relations.

(** ** Data *)
Inductive xstack_state : Type :=
| XSTACK_STOPPED
| XSTACK_RUNNING
| XSTACK_DYING.

#[export] Instance xstack_state_eq_dec : EqDecision xstack_state.
Proof. solve_decision. Defined.

(** A thread: not created, in the body of its loop, waiting there for a free block
    of the ingress queue, about to look at the state, cancelled but still on its
    way to a cancellation point (the wait for a block is none), or at its end. *)
Inductive thread : Type :=
| NoThread
| Working
| Waiting
| Checking
| Cancelled
| CancelledWaiting
| Exited.

#[export] Instance thread_eq_dec : EqDecision thread.
Proof. solve_decision. Defined.

(** Where the main thread is: outside of the two functions or before the next
    call in one of them. *)
Inductive main_pc : Type :=
| Idle
| StartInit
| StartIngress
| StartEgress
| StartRunning
| StopIngress
| StopEgress
| StopStopped.

#[export] Instance main_pc_eq_dec : EqDecision main_pc.
Proof. solve_decision. Defined.

Record sys : Type := Sys {
  get_state : xstack_state;
  ingress_tid : thread;
  egress_tid : thread;
  ether_handle : Z;
  pc : main_pc
}.

#[export] Instance sys_eq_dec : EqDecision sys.
Proof. solve_decision. Defined.

Definition set_state (s : xstack_state) (y : sys) : sys :=
  Sys s (ingress_tid y) (egress_tid y) (ether_handle y) (pc y).
Definition set_pc (p : main_pc) (y : sys) : sys :=
  Sys (get_state y) (ingress_tid y) (egress_tid y) (ether_handle y) p.
Definition set_ingress_tid (t : thread) (y : sys) : sys :=
  Sys (get_state y) t (egress_tid y) (ether_handle y) (pc y).
Definition set_egress_tid (t : thread) (y : sys) : sys :=
  Sys (get_state y) (ingress_tid y) t (ether_handle y) (pc y).
Definition set_handle (h : Z) (y : sys) : sys :=
  Sys (get_state y) (ingress_tid y) (egress_tid y) h (pc y).

Inductive event : Type :=
| EStart (handle : Z)          (* a call of [xstack_start] *)
| EInit                        (* [xstack_init] returns *)
| ECreateIngress (ok : bool)   (* [pthread_create] for the ingress thread *)
| ECreateEgress (ok : bool)    (* and for the egress thread *)
| ERunning                     (* [set_state(XSTACK_RUNNING)] *)
| EStop                        (* a call of [xstack_stop] *)
| EJoinIngress                 (* [pthread_join] returns *)
| EJoinEgress
| EStopped                     (* [set_state(XSTACK_STOPPED)] *)
| EIngress                     (* the ingress thread takes a step *)
| EDatagram                    (* its frame holds a datagram for the socket *)
| EAlloc (free : bool)         (* it calls [queue_alloc]; a block is free or not *)
| EEgress.

(** ** Steps *)

(** A cancelled thread ends at the next cancellation point it comes to. *)
Definition pthread_cancel (t : thread) : thread :=
  match t with
  | Waiting | CancelledWaiting => CancelledWaiting
  | _ => Cancelled
  end.

(** [xstack_start] from its first test to its end. *)
Definition xstack_start (e : event) (y : sys) : option sys :=
  match pc y, e with
  | Idle, EStart handle =>
      let y := set_handle handle y in
      if bool_decide (get_state y ≠ XSTACK_STOPPED) then Some y (* [EALREADY] *)
      else Some (set_pc StartInit y)
  | StartInit, EInit => Some (set_pc StartIngress y)
  | StartIngress, ECreateIngress true => Some (set_pc StartEgress (set_ingress_tid Working y))
  | StartIngress, ECreateIngress false => Some (set_pc Idle y)
  | StartEgress, ECreateEgress true => Some (set_pc StartRunning (set_egress_tid Working y))
  | StartEgress, ECreateEgress false => Some (set_pc Idle (set_ingress_tid (pthread_cancel (ingress_tid y)) y))
  | StartRunning, ERunning => Some (set_pc Idle (set_state XSTACK_RUNNING y))
  | _, _ => None
  end.

(** [xstack_stop]; a join returns when the thread has exited. *)
Definition xstack_stop (e : event) (y : sys) : option sys :=
  match pc y, e with
  | Idle, EStop => Some (set_pc StopIngress (set_state XSTACK_DYING y))
  | StopIngress, EJoinIngress =>
      if bool_decide (ingress_tid y = Exited) then Some (set_pc StopEgress (set_ingress_tid NoThread y))
      else None
  | StopEgress, EJoinEgress =>
      if bool_decide (egress_tid y = Exited) then Some (set_pc StopStopped (set_egress_tid NoThread y))
      else None
  | StopStopped, EStopped => Some (set_pc Idle (set_state XSTACK_STOPPED y))
  | _, _ => None
  end.

(** A thread: the body of the loop, then the test of the state.  A cancelled
    thread ends at the next call that is a cancellation point.  A thread that
    waits for a block is not moved by this. *)
Definition thread_step (s : xstack_state) (t : thread) : option thread :=
  match t with
  | Working => Some Checking
  | Checking => Some (if bool_decide (s = XSTACK_DYING) then Exited else Working)
  | Cancelled => Some Exited
  | NoThread | Waiting | CancelledWaiting | Exited => None
  end.

(** The ingress thread comes to [while ((dgram_index = queue_alloc(..)) == -1)]. *)
Definition dgram_arrives (t : thread) : option thread :=
  match t with
  | Working => Some Waiting
  | Cancelled => Some CancelledWaiting
  | _ => None
  end.

(** One round of that loop: with a free block the thread goes on, and has no
    other wait before its test of the state. *)
Definition dgram_attempt (free : bool) (t : thread) : option thread :=
  match t with
  | Waiting => Some (if free then Checking else Waiting)
  | CancelledWaiting => Some (if free then Cancelled else CancelledWaiting)
  | _ => None
  end.

Definition do_event (e : event) (y : sys) : option sys :=
  match e with
  | EIngress => t ← thread_step (get_state y) (ingress_tid y); Some (set_ingress_tid t y)
  | EDatagram => t ← dgram_arrives (ingress_tid y); Some (set_ingress_tid t y)
  | EAlloc free => t ← dgram_attempt free (ingress_tid y); Some (set_ingress_tid t y)
  | EEgress => t ← thread_step (get_state y) (egress_tid y); Some (set_egress_tid t y)
  | EStop | EJoinIngress | EJoinEgress | EStopped => xstack_stop e y
  | _ => xstack_start e y
  end.

Definition step (y y' : sys) : Prop := ∃ e, do_event e y = Some y'.

Definition sys_init : sys := Sys XSTACK_STOPPED NoThread NoThread 0 Idle.

(** Stopped, with no thread left. *)
Definition stopped (y : sys) : Prop :=
  get_state y = XSTACK_STOPPED ∧ ingress_tid y = NoThread ∧ egress_tid y = NoThread ∧ pc y = Idle.

Definition reachable_sys (y : sys) : Prop := rtc step sys_init y.

(** ** Invariant *)
Definition alive (t : thread) : Prop := t = Working ∨ t = Waiting ∨ t = Checking.

(** The egress thread never waits for a block. *)
Definition waits (t : thread) : Prop := t = Waiting ∨ t = CancelledWaiting.

(** What each point of the main thread implies. *)
Definition sys_ok (y : sys) : Prop :=
  match pc y with
  | Idle =>
      get_state y = XSTACK_RUNNING ∧ alive (ingress_tid y) ∧ alive (egress_tid y) ∨
      get_state y = XSTACK_STOPPED ∧ ¬ alive (ingress_tid y) ∧ egress_tid y = NoThread
  | StartInit | StartIngress =>
      get_state y = XSTACK_STOPPED ∧ ¬ alive (ingress_tid y) ∧ egress_tid y = NoThread
  | StartEgress => get_state y = XSTACK_STOPPED ∧ alive (ingress_tid y) ∧ egress_tid y = NoThread
  | StartRunning => get_state y = XSTACK_STOPPED ∧ alive (ingress_tid y) ∧ alive (egress_tid y)
  | StopIngress =>
      get_state y = XSTACK_DYING ∧
      (ingress_tid y ≠ NoThread ∧ egress_tid y ≠ NoThread ∨
       ¬ alive (ingress_tid y) ∧ egress_tid y = NoThread)
  | StopEgress => get_state y = XSTACK_DYING ∧ ingress_tid y = NoThread
  | StopStopped => get_state y = XSTACK_DYING ∧ ingress_tid y = NoThread ∧ egress_tid y = NoThread
  end.

Ltac crush_sys :=
  unfold sys_ok, alive, do_event, xstack_start, xstack_stop, thread_step, dgram_arrives, dgram_attempt, pthread_cancel in *;
  simpl in *;
  repeat (case_bool_decide || case_match || simplify_eq/=); simpl in *; try done;
  naive_solver.

Lemma sys_ok_step y y' : sys_ok y → step y y' → sys_ok y'.
Proof.
  destruct y as [s i g h p]. intros Hok [e He]. destruct p, e; try done; crush_sys.
Qed.

(** The egress thread is neither cancelled nor in the wait for a block. *)
Definition egress_ok (y : sys) : Prop := ¬ waits (egress_tid y) ∧ egress_tid y ≠ Cancelled.

Lemma egress_ok_step y y' : egress_ok y → step y y' → egress_ok y'.
Proof.
  destruct y as [s i g h p]. unfold egress_ok, waits. intros Hok [e He]. destruct p, e; try done; crush_sys.
Qed.

Lemma reachable_ok y : reachable_sys y → sys_ok y ∧ egress_ok y.
Proof.
  intros Hr. unfold reachable_sys in Hr. revert Hr. apply (rtc_ind_r (fun y => sys_ok y ∧ egress_ok y) sys_init).
  - split; [right|split]; unfold alive, waits; naive_solver.
  - intros y1 y2 _ Hstep [Hok He]. split; [by eapply sys_ok_step|by eapply egress_ok_step].
Qed.

(** ** Stopping *)

(** The events of the threads and of the main thread in [xstack_stop], without a
    new call of one of the two functions. *)
Definition calls (e : event) : bool := match e with EStart _ | EStop => true | _ => false end.

(** The threads with the ring of the one socket, and the application that takes
    datagrams out of it. *)
Inductive action : Type :=
| Run (e : event)
| Recv.

Definition conf : Type := sys * queue_cb.

#[export] Instance queue_cb_eq_dec : EqDecision queue_cb.
Proof. solve_decision. Defined.

(** An attempt of [queue_alloc] succeeds if there is a free block, which is
    committed then; [Recv] is the end of a call of [xstack_recvfrom]. *)
Definition act (a : action) (c : conf) : option conf :=
  let '(y, q) := c in
  match a with
  | Run (EAlloc free) =>
      match queue_alloc q, queue_commit q with
      | Done i, Done q' =>
          if bool_decide (free = negb (bool_decide (i = -1)%Z))
          then y' ← do_event (EAlloc free) y; Some (y', if free then q' else q)
          else None
      | _, _ => None
      end
  | Run e => if calls e then None else y' ← do_event e y; Some (y', q)
  | Recv =>
      match queue_peek q, queue_discard q 1 with
      | Some _, Done (_, q') => Some (y, q')
      | _, _ => None
      end
  end.

(** A failed attempt leaves everything as it is; every other action changes
    something. *)
Definition progress (c c' : conf) : Prop := ∃ a, act a c = Some c' ∧ c' ≠ c.

(** Actions of the stack alone: nobody reads. *)
Definition unread (c c' : conf) : Prop := ∃ e, act (Run e) c = Some c'.

(** The states between [set_state(XSTACK_DYING)] and the return of [xstack_stop]. *)
Definition stopping (y : sys) : Prop :=
  ¬ waits (egress_tid y) ∧ egress_tid y ≠ Cancelled ∧ ingress_tid y ≠ Cancelled ∧ ingress_tid y ≠ CancelledWaiting ∧
  match pc y with
  | StopIngress => get_state y = XSTACK_DYING ∧ ingress_tid y ≠ NoThread ∧ egress_tid y ≠ NoThread
  | StopEgress => get_state y = XSTACK_DYING ∧ ingress_tid y = NoThread ∧ egress_tid y ≠ NoThread
  | StopStopped => get_state y = XSTACK_DYING ∧ ingress_tid y = NoThread ∧ egress_tid y = NoThread
  | _ => stopped y
  end.

(** [xstack_stop] waits for the ingress thread, which waits for a block, and the
    ring is full. *)
Definition blocked (c : conf) : Prop :=
  pc c.1 = StopIngress ∧ ingress_tid c.1 = Waiting ∧ queue_alloc c.2 = Done (-1)%Z.

(** The steps the threads have left; a datagram that is put into the ring leaves
    one more for the application. *)
Definition ingress_weight (t : thread) : nat :=
  match t with Working => 4 | Waiting => 3 | Checking => 1 | _ => 0 end.
Definition egress_weight (t : thread) : nat :=
  match t with Working => 2 | Checking => 1 | _ => 0 end.
Definition pc_weight (p : main_pc) : nat :=
  match p with StopIngress => 3 | StopEgress => 2 | StopStopped => 1 | _ => 0 end.

Definition sys_weight (y : sys) : nat :=
  ingress_weight (ingress_tid y) + egress_weight (egress_tid y) + pc_weight (pc y).

Definition stop_weight (c : conf) : nat := sys_weight c.1 + length (occupied c.2).

(** *** The ring *)
Definition ring_ok (q : queue_cb) : Prop := queue_ok q ∧ (1 < a_len q)%Z.

Lemma commit_len q q' : queue_commit q = Done q' → a_len q' = a_len q.
Proof. unfold queue_commit. intros H. inv_done. done. Qed.

Lemma ring_alloc q : ring_ok q →
  ∃ i q', queue_alloc q = Done i ∧ queue_commit q = Done q' ∧
    (i = -1 ∧ queue_peek q ≠ None ∨
     i ≠ -1 ∧ ring_ok q' ∧ length (occupied q') = S (length (occupied q)))%Z.
Proof.
  intros [Hq Ha]. destruct (queue_refines_fifo q 0 Hq) as (Hal & _ & Hc & Hp & _).
  destruct (commit_ok q Hq) as (w & Hcm & _ & _). eexists _, _. split; [exact Hal|]. split; [exact Hcm|].
  case_bool_decide as Hf.
  - left. split; [done|]. rewrite Hp. destruct (occupied q); simpl in *; [lia|done].
  - right. destruct (Hc Hf) as (q' & Hc' & Hok & Ho). rewrite Hcm in Hc'. injection Hc' as <-.
    pose proof (commit_len _ _ Hcm) as Hl. assert (0 <= m_write q * b_size q)%Z by (unfold queue_ok in Hq; nia).
    split; [lia|]. split; [split; [done|by rewrite Hl]|]. rewrite Ho, length_app. simpl. lia.
Qed.

Lemma ring_recv q : ring_ok q → queue_peek q ≠ None →
  ∃ n q', queue_discard q 1 = Done (n, q') ∧ ring_ok q' ∧ length (occupied q) = S (length (occupied q')) ∧
    queue_alloc q' ≠ Done (-1)%Z.
Proof.
  intros [Hq Ha] Hp. destruct (discard_spec 1 q Hq) as (q' & Hd & Hok & Ho & _ & _ & Hl).
  rewrite queue_peek_hd in Hp by done. destruct (occupied q) as [|s r] eqn:Hr; [done|]. simpl in Ho.
  rewrite drop_0 in Ho. eexists _, q'. split; [exact Hd|]. split; [split; [done|by rewrite Hl]|].
  split; [by rewrite Ho|]. pose proof (occupied_length q Hq) as H1. pose proof (queue_len_range q Hq).
  destruct (queue_refines_fifo q' 0 Hok) as (-> & _). rewrite Hr in H1. simpl in H1.
  rewrite bool_decide_false by (rewrite Ho, Hl; lia). intros He. injection He.
  unfold queue_ok in Hok. nia.
Qed.

(** *** Every action brings the end nearer, or is a failed attempt *)
Ltac crush_stop :=
  unfold stopping, sys_weight, stopped, waits, do_event, xstack_start, xstack_stop, thread_step, dgram_arrives,
    dgram_attempt in *; simpl in *;
  repeat (case_bool_decide || case_match || simplify_eq/=); try naive_solver lia.

Lemma run_stopping e y y' :
  stopping y → calls e = false → (∀ free, e ≠ EAlloc free) → do_event e y = Some y' →
  stopping y' ∧ sys_weight y' < sys_weight y.
Proof.
  destruct y as [s i g h p]. intros Hst Hn Hne He.
  destruct e; try done; try (by destruct (Hne free)); clear Hne; destruct p; try done; crush_stop.
Qed.

Lemma alloc_stopping (free : bool) y y' :
  stopping y → do_event (EAlloc free) y = Some y' →
  if free then stopping y' ∧ S (sys_weight y') < sys_weight y else y' = y.
Proof. destruct y as [s i g h p]. intros Hst He. destruct free, p; crush_stop. Qed.

Lemma alloc_or_not e : (∃ free, e = EAlloc free) ∨ (∀ free, e ≠ EAlloc free).
Proof. destruct e; try (by right); left; eauto. Qed.

Lemma act_alloc (free : bool) c c' : act (Run (EAlloc free)) c = Some c' →
  ∃ i q', queue_alloc c.2 = Done i ∧ queue_commit c.2 = Done q' ∧ free = negb (bool_decide (i = -1)%Z) ∧
    do_event (EAlloc free) c.1 = Some c'.1 ∧ c'.2 = if free then q' else c.2.
Proof.
  destruct c as [y q]. simpl. intros Ha. destruct (queue_alloc q) as [i| |]; try done.
  destruct (queue_commit q) as [q'| |]; try done. case_bool_decide as Hf; [|done].
  destruct (do_event (EAlloc free) y) as [y'|] eqn:He; simpl in *; rewrite He in Ha; [|done]. simplify_eq/=.
  by eexists _, _.
Qed.

Lemma act_run e c c' : (∀ free, e ≠ EAlloc free) → act (Run e) c = Some c' →
  calls e = false ∧ do_event e c.1 = Some c'.1 ∧ c'.2 = c.2.
Proof.
  destruct c as [y q]. intros Hne Ha. destruct e; try (by destruct (Hne free)); cbn [act calls] in Ha; try done;
    destruct (do_event _ y) eqn:He; by simplify_eq/=.
Qed.

Lemma act_recv q : ring_ok q → queue_peek q ≠ None →
  ∃ q', (∀ y, act Recv (y, q) = Some (y, q')) ∧ ring_ok q' ∧ length (occupied q) = S (length (occupied q')) ∧
    queue_alloc q' ≠ Done (-1)%Z.
Proof.
  intros Hq Hp. destruct (ring_recv q Hq Hp) as (n & q' & Hd & Hrest). exists q'. split; [|done].
  intros y. unfold act. destruct (queue_peek q); [|done]. by rewrite Hd.
Qed.

Lemma act_stopping a c c' :
  stopping c.1 → ring_ok c.2 → act a c = Some c' →
  stopping c'.1 ∧ ring_ok c'.2 ∧ (c' = c ∨ stop_weight c' < stop_weight c).
Proof.
  destruct c as [y q], c' as [y' q']. cbn [fst snd]. intros Hst Hq Ha. unfold stop_weight. cbn [fst snd]. destruct a as [e|].
  - destruct (alloc_or_not e) as [[free ->]|Hne].
    + destruct (act_alloc _ _ _ Ha) as (i & q1 & Hal & Hcm & -> & He & Hq2). cbn [fst snd] in *. subst q'.
      pose proof (alloc_stopping _ _ _ Hst He) as Hs. destruct (ring_alloc q Hq) as (i' & q2 & Hal' & Hcm' & Hc).
      rewrite Hal in Hal'. rewrite Hcm in Hcm'. simplify_eq. case_bool_decide as Hi; simpl in *; [by subst; auto|].
      destruct Hc as [[]|(_ & Hq2 & Hl)]; [done|]. rewrite Hl. split; [apply Hs|]. split; [done|]. right. lia.
    + destruct (act_run e (y, q) (y', q')) as (Hc & He & Hq1); [done|done|]. cbn [fst snd] in *. subst q'.
      destruct (run_stopping e y y' Hst Hc) as [Hst' Hw]; [done|done|]. split; [done|]. split; [done|]. right. lia.
  - destruct (decide (queue_peek q = None)) as [Hp|Hp]; [simpl in Ha; by rewrite Hp in Ha|].
    destruct (act_recv q Hq Hp) as (q1 & Hr & Hq1 & Hl & _). rewrite Hr in Ha. simplify_eq. split; [done|].
    split; [done|]. right. lia.
Qed.

Lemma stopping_runs n c c' : stopping c.1 → ring_ok c.2 → nsteps progress n c c' →
  stopping c'.1 ∧ ring_ok c'.2 ∧ n + stop_weight c' ≤ stop_weight c.
Proof.
  intros Hst Hq Hn. induction Hn as [c|n c c1 c2 [a [Ha Hne]] Hn IH]; [split; [done|]; split; [done|lia]|].
  destruct (act_stopping a c c1 Hst Hq Ha) as (Hst1 & Hq1 & [?|Hw]); [done|].
  destruct (IH Hst1 Hq1) as (? & ? & ?). split; [done|]. split; [done|lia].
Qed.

(** *** What can happen next *)

(** The stack by itself gets on, or is at the end, or waits for a reader. *)
Lemma stopping_progress c : stopping c.1 → ring_ok c.2 →
  stopped c.1 ∨ (∃ c', unread c c' ∧ c' ≠ c) ∨ blocked c.
Proof.
  destruct c as [[s i g h p] q]. simpl. intros Hst Hq.
  assert (Hcan : ∀ e y', do_event e (Sys s i g h p) = Some y' → calls e = false → (∀ free, e ≠ EAlloc free) →
            y' ≠ Sys s i g h p → ∃ c', unread (Sys s i g h p, q) c' ∧ c' ≠ (Sys s i g h p, q)).
  { intros e y' He Hc Hne Hy. exists (y', q). split; [|by intros [=]; auto]. exists e.
    destruct e; try (by destruct (Hne free)); cbn [act calls] in *; try done; by rewrite He. }
  destruct Hst as (Hw & Hg & Hi1 & Hi2 & Hm). simpl in *. destruct p; try (by left).
  - destruct i; try (by destruct Hi1); try (by destruct Hi2); try (by destruct Hm as (_ & [] & _)).
    + right. left. by eapply (Hcan EIngress).
    + destruct (ring_alloc q Hq) as (j & q' & Hal & Hcm & [[-> _]|(Hj & _ & _)]).
      * by right; right.
      * right. left. exists (Sys s Checking g h StopIngress, q'). split; [|done]. exists (EAlloc true).
        cbn [act]. rewrite Hal, Hcm, (bool_decide_false (j = -1)%Z) by done. by rewrite bool_decide_true.
    + right. left. eapply (Hcan EIngress); [done..|]. by case_bool_decide.
    + right. left. by eapply (Hcan EJoinIngress).
  - destruct g; try (by destruct Hg); try (by destruct Hw; unfold waits; auto); try (by destruct Hm as (_ & _ & [])).
    + right. left. by eapply (Hcan EEgress).
    + right. left. eapply (Hcan EEgress); [done..|]. by case_bool_decide.
    + right. left. by eapply (Hcan EJoinEgress).
  - right. left. by eapply (Hcan EStopped).
Qed.

(** Without a reader the wait does not end. *)
Lemma blocked_step c c' : blocked c → unread c c' → blocked c'.
Proof.
  intros (Hp & Hi & Hal) [e He]. unfold blocked. destruct (alloc_or_not e) as [[free ->]|Hne].
  - destruct (act_alloc _ _ _ He) as (i & q1 & Hal' & _ & -> & Hd & Hq). rewrite Hal in Hal'. simplify_eq.
    destruct c as [[s t g h p] q], c' as [y' q']. simpl in *. by simplify_eq/=.
  - destruct (act_run e c c') as (Hc & Hd & ->); [done|done|]. destruct c as [[s i g h p] q], c' as [y' q'].
    simpl in *. subst p i. destruct e; simpl in Hd; simplify_eq/=; try done; try (by destruct (Hne free)).
    by destruct (thread_step s g); simplify_eq/=.
Qed.

Lemma blocked_runs c c' : blocked c → rtc unread c c' → blocked c'.
Proof. intros Hb Hr. induction Hr; [done|]. eauto using blocked_step. Qed.

(** A call of [xstack_recvfrom] ends it. *)
Lemma blocked_read c : ring_ok c.2 → blocked c →
  ∃ c1 c2, act Recv c = Some c1 ∧ act (Run (EAlloc true)) c1 = Some c2 ∧ ingress_tid c2.1 = Checking.
Proof.
  destruct c as [[s i g h p] q]. simpl. intros Hq (Hp & Hi & Hal). simpl in *. subst.
  destruct (ring_alloc q Hq) as (j & q' & Hal' & _ & [[_ Hpk]|[Hj _]]); [|rewrite Hal in Hal'; by simplify_eq].
  destruct (act_recv q Hq Hpk) as (q1 & Hr & Hq1 & _ & Hf).
  destruct (ring_alloc q1 Hq1) as (k & q2 & Hk & Hcm & _).
  eexists _, (Sys s Checking g h StopIngress, q2). split; [apply Hr|]. split; [|done]. cbn [act].
  rewrite Hk, Hcm, (bool_decide_false (k = -1)%Z) by naive_solver. by rewrite bool_decide_true.
Qed.

Lemma running_stop y y0 : reachable_sys y → get_state y = XSTACK_RUNNING → do_event EStop y = Some y0 →
  stopping y0 ∧ sys_weight y0 ≤ 9.
Proof.
  intros Hr Hrun Hstop. destruct (reachable_ok y Hr) as [Hok He]. destruct y as [s i g h p]. simpl in *. subst s.
  unfold do_event, xstack_stop in Hstop. simpl in Hstop. destruct p; try done.
  injection Hstop as <-. unfold sys_ok, egress_ok, alive, waits, stopping, sys_weight in *. simpl in *.
  destruct i, g; simpl; naive_solver lia.
Qed.

(** ** Properties *)

(** C32: in every reachable interleaving the state variable tells the truth
    about the threads: while it says RUNNING no call is in progress and both
    threads are in their loops; when it says STOPPED and no call is in progress
    neither of them is, in particular after a failed [pthread_create] (the
    cancelled ingress thread may still be on its way out); a thread leaves its
    loop only when the state says DYING.  A second [xstack_start] of a running
    stack is refused, but it has replaced the interface handle the threads use. *)
Theorem threads_match_state (y : sys) (Hy : reachable_sys y) :
  (get_state y = XSTACK_RUNNING → pc y = Idle ∧ alive (ingress_tid y) ∧ alive (egress_tid y)) ∧
  (get_state y = XSTACK_STOPPED → pc y = Idle → ¬ alive (ingress_tid y) ∧ ¬ alive (egress_tid y)) ∧
  (∀ e y', e = EIngress ∨ e = EDatagram ∨ (∃ free, e = EAlloc free) ∨ e = EEgress → do_event e y = Some y' →
           (alive (ingress_tid y) ∧ ¬ alive (ingress_tid y')) ∨ (alive (egress_tid y) ∧ ¬ alive (egress_tid y')) →
           get_state y = XSTACK_DYING) ∧
  (get_state y = XSTACK_RUNNING → ∀ handle, do_event (EStart handle) y = Some (set_handle handle y)).
Proof.
  destruct (reachable_ok y Hy) as [Hok _]. destruct y as [s i g h p]. clear Hy. split_and!.
  - simpl. intros ->. destruct p; unfold sys_ok in Hok; simpl in Hok; naive_solver.
  - simpl. intros -> ->. unfold sys_ok, alive in *. simpl in Hok. naive_solver.
  - intros e y' [->|[->|[[[] ->]| ->]]] He Hex; clear Hok; unfold alive in *; simpl in *;
      [destruct i..|destruct g]; simplify_eq/=; try case_bool_decide; simplify_eq/=; naive_solver.
  - simpl. intros -> handle. destruct p; unfold sys_ok in Hok; simpl in Hok; naive_solver.
Qed.

(** C17: when [xstack_stop] returns.  From the moment it has marked a running
    stack as dying, with the ring of the socket (two blocks or more,
    the code's has four) in any state, let the two threads,
    the main thread and an application that reads go on in any interleaving.  All
    of this together takes at most nine steps more than there are datagrams in the
    ring, failed attempts of [queue_alloc] not counted, which change nothing.  Until
    both threads are joined and the state is STOPPED, the stack can take such a step
    by itself, with one exception: the ingress thread waits for a block of the full
    ring.  Then the join does not return as long as nobody reads, however long the
    threads run; one call of [xstack_recvfrom] lets the thread go on. *)
Theorem stop_terminates (y y0 : sys) (q0 : queue_cb) (Hy : reachable_sys y)
    (Hrun : get_state y = XSTACK_RUNNING) (Hstop : do_event EStop y = Some y0) (Hq : ring_ok q0) :
  ∀ n c, nsteps progress n (y0, q0) c →
    n ≤ 9 + length (occupied q0) ∧
    (stopped c.1 ∨ (∃ c', unread c c' ∧ c' ≠ c) ∨ blocked c) ∧
    (blocked c →
      (∀ c', rtc unread c c' → blocked c') ∧
      ∃ c1 c2, act Recv c = Some c1 ∧ act (Run (EAlloc true)) c1 = Some c2 ∧ ingress_tid c2.1 = Checking).
Proof.
  intros n c Hn. destruct (running_stop y y0 Hy Hrun Hstop) as [Hst Hw].
  destruct (stopping_runs n (y0, q0) c Hst Hq Hn) as (Hst' & Hq' & Hle). unfold stop_weight in Hle. simpl in Hle.
  split; [lia|]. split; [by apply stopping_progress|]. intros Hb. split; [|by apply blocked_read].
  intros c'. by apply blocked_runs.
Qed.

(** ** Witnesses *)

(** The states a list of events leads to. *)
Definition run_events (l : list event) (y : sys) : option sys := foldl (fun o e => y ← o; do_event e y) (Some y) l.

Lemma run_events_none l : foldl (fun o e => y ← o; do_event e y) None l = None.
Proof. induction l; done. Qed.

Lemma run_events_rtc l y y' : run_events l y = Some y' → rtc step y y'.
Proof.
  unfold run_events. revert y. induction l as [|e l IH]; intros y H; simpl in H; [by simplify_eq|].
  destruct (do_event e y) as [y1|] eqn:He; [|by rewrite run_events_none in H].
  apply (rtc_l _ _ y1); [by exists e|by apply IH].
Qed.

Definition start_events : list event :=
  [EStart 0; EInit; ECreateIngress true; EIngress; ECreateEgress true; EIngress; EEgress; ERunning].

Definition demo_running : sys := Sys XSTACK_RUNNING Working Checking 0 Idle.

Lemma threads_match_state_witness :
  reachable_sys demo_running ∧
  (get_state demo_running = XSTACK_RUNNING →
    pc demo_running = Idle ∧ alive (ingress_tid demo_running) ∧ alive (egress_tid demo_running)).
Proof.
  assert (H : reachable_sys demo_running).
  { apply (run_events_rtc start_events). reflexivity. }
  split; [exact H|]. apply (threads_match_state demo_running H).
Defined.

(** The last state of a list of actions all of which change something. *)
Fixpoint act_all (l : list action) (c : conf) : option conf :=
  match l with
  | [] => Some c
  | a :: l => c' ← act a c; if bool_decide (c' = c) then None else act_all l c'
  end.

Lemma act_all_nsteps l : ∀ c c', act_all l c = Some c' → nsteps progress (length l) c c'.
Proof.
  induction l as [|a l IH]; intros c c' H; cbn [act_all] in H; [simplify_eq; constructor|].
  apply bind_Some in H as (c1 & Ha & H). case_bool_decide as Hne; [done|].
  apply nsteps_l with c1; [by exists a|by apply IH].
Qed.

(** The stop of a stack whose ingress thread has just received a datagram, for a
    socket with a full ring: to the wait, and from there with one call of
    [xstack_recvfrom] to the end. *)
Definition demo_stop : sys := Sys XSTACK_DYING Working Checking 0 StopIngress.
Definition demo_full : queue_cb := QueueCb 4096 4 1 2.
Definition demo_wait : list action := [Run EEgress; Run EDatagram].
Definition demo_freed : list action :=
  demo_wait ++ [Recv; Run (EAlloc true); Run EIngress; Run EJoinIngress; Run EJoinEgress; Run EStopped].

Lemma stop_terminates_witness :
  ∃ c c', nsteps progress 2 (demo_stop, demo_full) c ∧ blocked c ∧ (∀ c1, rtc unread c c1 → blocked c1) ∧
    nsteps progress 8 (demo_stop, demo_full) c' ∧ stopped c'.1 ∧ 8 ≤ 9 + length (occupied demo_full).
Proof.
  assert (Hr : reachable_sys demo_running) by (apply (run_events_rtc start_events); reflexivity).
  assert (Hq : ring_ok demo_full) by (split; [split_and!|]; simpl; lia).
  assert (Hn : nsteps progress 2 (demo_stop, demo_full) (Sys XSTACK_DYING Waiting Exited 0 StopIngress, demo_full)).
  { apply (act_all_nsteps demo_wait). by vm_compute. }
  assert (Hn' : nsteps progress 8 (demo_stop, demo_full) (Sys XSTACK_STOPPED NoThread NoThread 0 Idle, QueueCb 4096 4 2 3)).
  { apply (act_all_nsteps demo_freed). by vm_compute. }
  eexists _, _. split; [exact Hn|].
  assert (Hb : blocked (Sys XSTACK_DYING Waiting Exited 0 StopIngress, demo_full)) by (repeat split; by vm_compute).
  split; [exact Hb|].
  destruct (stop_terminates demo_running demo_stop demo_full Hr eq_refl eq_refl Hq _ _ Hn) as (_ & _ & Hw).
  split; [exact (proj1 (Hw Hb))|]. split; [exact Hn'|]. split; [repeat split|].
  apply (stop_terminates demo_running demo_stop demo_full Hr eq_refl eq_refl Hq _ _ Hn').
Defined.
