(* ===== verification/Types.v ===== *)
(** * The types of the data: what every value of the C program satisfies

    A C variable of an unsigned type of [w] bits holds a number below [2 ^ w], a
    buffer holds bytes and keeps its size, an array its length.  The model has
    [Z] and lists instead, so here this is a predicate on each component, and a
    lemma for each of its operations, for every argument: no assumption on the
    contents of a packet is made.  [Typed] puts them together for the stack. *)

From S2P Require Import Prelude Bytes EtherFcs Checksum IpHeader RBTree Rib QueueR.
From S2P Require Import Socket Udp Tcp Icmp IpDefer Ether Arp Fragment FragInput.

#[local] Open Scope Z_scope.

(** ** Results of calls *)

(** What [o] returns, if it returns, satisfies [P]. *)
Definition returns {A : Type} (P : A → Prop) (o : outcome A) : Prop := ∀ a, o = Done a → P a.

Create HintDb returns.

Section returns.
Context {A B : Type}.
Implicit Types (P : A → Prop) (Q : B → Prop).

Lemma returns_done P a : P a → returns P (Done a).
Proof. by intros HP b [= <-]. Qed.

Lemma returns_bind P Q (o : outcome A) (f : A → outcome B) :
  returns P o → (∀ a, P a → returns Q (f a)) → returns Q (o ≫= f).
Proof. intros Ho Hf b Hb. apply bind_done_inv in Hb as (a & Ha & Hb). by eapply Hf; [apply Ho|]. Qed.

Lemma returns_any (o : outcome A) : returns (fun _ => True) o.
Proof. done. Qed.

Lemma returns_deref (x : option A) : returns (fun a => x = Some a) (deref x).
Proof. intros a. apply deref_done_inv. Qed.
End returns.

Lemma returns_weaken {A} (P Q : A → Prop) o : returns P o → (∀ a, P a → Q a) → returns Q o.
Proof. intros Ho HPQ a Ha. by apply HPQ, Ho. Qed.

Lemma returns_fault {A} (P : A → Prop) : returns P Fault.
Proof. by intros a. Qed.

Lemma returns_spin {A} (P : A → Prop) : returns P Spin.
Proof. by intros a. Qed.

(** ** Memory *)

(** A buffer of [n] bytes. *)
Definition like (n : nat) (m : list Z) : Prop := bytes m ∧ length m = n.

Lemma like_self m : bytes m → like (length m) m.
Proof. done. Qed.

Lemma bytes_repeat_0 n : bytes (repeat 0 n).
Proof. apply Forall_forall. intros x Hx%list_elem_of_In%repeat_spec. by subst x. Qed.

Lemma like_repeat n : like n (repeat 0 n).
Proof. split; [apply bytes_repeat_0|apply repeat_length]. Qed.

Lemma write_like n off bs m : like n m → bytes bs → returns (like n) (mem_write off bs m).
Proof.
  intros [Hm Hl] Hbs m' Hw. split; [exact (mem_write_bytes _ _ _ _ Hm Hbs Hw)|]. by rewrite (mem_write_length _ _ _ _ Hw).
Qed.

Lemma read_like off n m : bytes m → returns (like n) (mem_read off n m).
Proof. intros Hm bs Hr. by apply (mem_read_bytes off n m). Qed.

#[export] Hint Resolve returns_fault returns_spin returns_deref read_like : returns.
#[export] Hint Resolve write_like : returns.
#[export] Hint Resolve ip_hdr_store_bytes tcp_hdr_store_bytes sockaddr_bytes_ok bytes_repeat_0 : bytes.
#[export] Hint Resolve Forall_take Forall_drop Forall_app_2 : bytes.

(** One call after the other, one branch after the other; each call must have
    a lemma in [returns]. *)
Ltac calls :=
  cbv zeta;
  repeat match goal with
  | |- returns _ (if bool_decide _ then _ else _) => case_bool_decide
  | |- returns _ (match ?x with _ => _ end) => destruct x; cbn [fst snd] in *
  | |- returns _ (mbind _ _) => eapply returns_bind; [solve [eauto with returns bytes]|intros ? ?]
  | |- returns _ (Done _) => apply returns_done
  | |- returns _ Fault => apply returns_fault
  | |- returns _ Spin => apply returns_spin
  end.

Lemma like_bytes n m : like n m → bytes m.
Proof. by intros []. Qed.

#[export] Hint Resolve like_bytes : bytes.

(** ** Headers *)
Lemma field_range (off n : nat) m : bytes m → 0 <= field off n m < 2 ^ (8 * n).
Proof.
  intros Hm. unfold field. pose proof (le_val_bound (take n (drop off m)) ltac:(auto with bytes)) as Hb.
  rewrite length_take in Hb. split; [lia|]. eapply Z.lt_le_trans; [apply Hb|].
  apply Z.pow_le_mono_r; lia.
Qed.

Lemma u16_range x : 0 <= u16 x < 65536.
Proof. unfold u16. apply Z.mod_pos_bound. lia. Qed.

Lemma u32_fits x : 0 <= u32 x < 2 ^ 32.
Proof. unfold u32. apply Z.mod_pos_bound. lia. Qed.

Lemma hton_like n host m : like n m → returns (like n) (ip_hton host m).
Proof.
  intros Hm. unfold ip_hton. calls. eapply write_like; [done|auto with bytes].
Qed.
#[export] Hint Resolve hton_like : returns.

Lemma hdr_load_typed m : bytes m → returns ip_hdr_ok (ip_hdr_load m).
Proof. intros Hm h Hl. by apply (ip_hdr_store_load m h Hm). Qed.
#[export] Hint Resolve hdr_load_typed : returns.

Lemma hdr_ntoh_ok h : ip_hdr_ok h → ip_hdr_ok (hdr_ntoh h).
Proof.
  unfold ip_hdr_ok, hdr_ntoh.
  cbn [ip_vhl ip_tos ip_len ip_id ip_foff ip_ttl ip_proto ip_csum ip_src ip_dst].
  change ntohs with htons; change ntohl with htonl.
  pose proof (htons_range (ip_len h)). pose proof (htons_range (ip_id h)).
  pose proof (htons_range (ip_foff h)). pose proof (htonl_range (ip_src h)).
  pose proof (htonl_range (ip_dst h)). lia.
Qed.

Lemma ntoh_typed m : bytes m → returns (fun r => ip_hdr_ok r.2) (ip_ntoh m).
Proof. intros Hm. unfold ip_ntoh. calls. by apply hdr_ntoh_ok. Qed.
#[export] Hint Resolve ntoh_typed : returns.

Lemma ntoh_inplace_like n m : like n m → returns (like n) (ip_ntoh_inplace m).
Proof.
  intros Hm. unfold ip_ntoh_inplace. eapply returns_bind; [apply returns_any|].
  intros [hl h] _. calls. apply write_like; auto with bytes.
Qed.
#[export] Hint Resolve ntoh_inplace_like : returns.

Lemma reply_header_like n m bsize : like n m → returns (fun r => like n r.2) (ip_reply_header m bsize).
Proof. intros Hm. unfold ip_reply_header. cbv zeta. calls. done. Qed.
#[export] Hint Resolve reply_header_like : returns.

(** ** ICMP *)
Lemma icmp_store_bytes h : bytes (icmp_store h).
Proof. unfold icmp_store. auto with bytes. Qed.
#[export] Hint Resolve icmp_store_bytes : bytes.

Lemma icmp_input_like n payload bsize : like n payload →
  returns (fun r => like n r.2) (icmp_input payload bsize).
Proof.
  intros Hp. unfold icmp_input. case_bool_decide; [by apply returns_done|].
  eapply returns_bind; [apply returns_any|]. intros net _.
  calls; done.
Qed.
#[export] Hint Resolve icmp_input_like : returns.

Lemma hton_at_like n off host m : like n m → returns (like n) (ip_hton_at off host m).
Proof.
  intros [Hm Hl]. unfold ip_hton_at. eapply returns_bind; [apply hton_like, like_self; auto with bytes|].
  intros net [Hn Hln]. calls. split; [auto with bytes|].
  rewrite length_app, length_take, Hln, length_drop. lia.
Qed.
#[export] Hint Resolve hton_at_like : returns.

Lemma dest_unreachable_like n m off code bsize : like n m →
  returns (fun r => like n r.2) (icmp_generate_dest_unreachable m off code bsize).
Proof.
  intros Hm. unfold icmp_generate_dest_unreachable. calls. done.
Qed.
#[export] Hint Resolve dest_unreachable_like : returns.

(** ** TCP *)
Definition tcb_ok (c : tcp_conn_tcb) : Prop :=
  sockaddr_ok (tcb_local c) ∧ sockaddr_ok (tcb_remote c) ∧
  0 <= recv_next c < 2 ^ 32 ∧ 0 <= send_next c < 2 ^ 32.

Definition tcp_typed (t : tcp_table) : Prop := Forall tcb_ok (tcp_conns t).

Lemma sockaddr_port_ok a p : 0 <= a < 4294967296 → 0 <= p < 65536 → sockaddr_ok (Sockaddr a p).
Proof. unfold sockaddr_ok. cbn. lia. Qed.

Lemma tcp_load_typed m : bytes m → returns tcp_hdr_ok (tcp_hdr_load m).
Proof.
  intros Hm h Hl. unfold tcp_hdr_load in Hl. case_bool_decide as Hs; [|done].
  destruct (tcp_hdr_load_done m Hm Hs) as (h' & Hh & Hok). unfold tcp_hdr_load in Hh.
  rewrite bool_decide_true in Hh by done. by simplify_eq.
Qed.
#[export] Hint Resolve tcp_load_typed : returns.

Lemma tcp_ntoh_range h : tcp_hdr_ok h → tcp_hdr_ok (tcp_hdr_ntoh h).
Proof.
  unfold tcp_hdr_ok, tcp_hdr_ntoh.
  cbn [tcp_sport tcp_dport tcp_seqno tcp_ack_num tcp_flags tcp_win_size tcp_csum tcp_urg_ptr].
  change ntohs with htons; change ntohl with htonl.
  pose proof (htons_range (tcp_sport h)). pose proof (htons_range (tcp_dport h)).
  pose proof (htonl_range (tcp_seqno h)). pose proof (htonl_range (tcp_ack_num h)).
  pose proof (htons_range (tcp_flags h)). pose proof (htons_range (tcp_win_size h)).
  pose proof (htons_range (tcp_urg_ptr h)). lia.
Qed.

Lemma tcp_hton_like n src dst host m bsize : like n m →
  returns (like n) (tcp_hton src dst host m bsize).
Proof. intros Hm. unfold tcp_hton. calls. apply write_like; auto with bytes. Qed.
#[export] Hint Resolve tcp_hton_like : returns.

(** Whatever the state and the segment, the numbers stay in their range. *)
Lemma fsm_typed c rs : tcb_ok c → tcp_hdr_ok rs → tcb_ok (tcp_fsm c rs).2.
Proof.
  intros (Hl & Hr & Hn) Hh. unfold tcp_hdr_ok in Hh. pose proof (u32_fits (tcp_seqno rs + 1)).
  unfold tcp_fsm. destruct (tcb_state c);
    repeat match goal with |- context [if ?b then _ else _] => destruct b end;
    unfold tcb_ok; cbn [snd tcb_local tcb_remote recv_next send_next set_seq set_state tcp_reply
      tcp_seqno tcp_ack_num]; (split; [done|split; [done|]]); try lia;
    (split; [lia|]); apply u32_fits.
Qed.

Lemma set_conn_typed t i c : tcp_typed t → tcb_ok c → tcp_typed (set_conn t i c).
Proof. intros Ht Hc. by apply Forall_insert. Qed.

Lemma get_conn_ok t i : tcp_typed t → tcb_ok (get_conn t i).
Proof.
  intros Ht. unfold get_conn. destruct (tcp_conns t !! i) as [c|] eqn:Hc.
  - unfold tcp_typed in Ht. rewrite Forall_lookup in Ht. by apply (Ht i).
  - unfold tcb_ok, sockaddr_ok. cbn. lia.
Qed.

Lemma process_typed n t i local remote tcp payload :
  tcp_typed t → tcp_hdr_ok tcp → like n payload →
  returns (fun r => like n r.1.2 ∧ tcp_typed r.2) (tcp_process t i local remote tcp payload).
Proof.
  intros Ht Htcp Hp. unfold tcp_process. eapply returns_bind; [apply returns_deref|]. intros c Hc.
  assert (Hco : tcb_ok c) by (unfold tcp_typed in Ht; rewrite Forall_lookup in Ht; by apply (Ht i)).
  pose proof (fsm_typed c tcp Hco Htcp) as Hc'. destruct (tcp_fsm c tcp) as [[r tcp'] c'].
  cbn [snd] in Hc'. calls; split; try done; by apply set_conn_typed.
Qed.

Lemma new_conn_typed t local remote :
  tcp_typed t → sockaddr_ok local → sockaddr_ok remote →
  returns (fun r => tcp_typed r.2) (tcp_new_connection t local remote).
Proof.
  intros Ht Hl Hr. unfold tcp_new_connection. cbv zeta. eapply returns_bind; [apply returns_any|].
  intros [e h] _. calls. cbn [snd tcp_conns]. apply Forall_app_2; [done|]. constructor; [|constructor].
  unfold tcb_ok. cbn. lia || (split; [done|split; [done|lia]]).
Qed.

Lemma tcp_input_typed n t ip payload bsize :
  tcp_typed t → ip_hdr_ok ip → like n payload →
  returns (fun r => like n r.1.2 ∧ tcp_typed r.2) (tcp_input t ip payload bsize).
Proof.
  intros Ht Hip Hp. unfold tcp_input. case_bool_decide; [by apply returns_done|].
  eapply returns_bind; [eauto with returns bytes|]. intros net Hnet. cbv zeta.
  pose proof (tcp_ntoh_range net Hnet) as Htcp.
  assert (Hl : sockaddr_ok (Sockaddr (ip_dst ip) (ntohs (tcp_dport net)))).
  { apply sockaddr_port_ok; [apply Hip|apply htons_range]. }
  assert (Hr : sockaddr_ok (Sockaddr (ip_src ip) (ntohs (tcp_sport net)))).
  { apply sockaddr_port_ok; [apply Hip|apply htons_range]. }
  eapply returns_bind; [eauto with returns bytes|]. intros p1 Hp1.
  eapply returns_bind; [apply returns_any|]. intros [i|] _.
  - destruct (_ || _); [by apply returns_done|]. by apply process_typed.
  - destruct (has _ _); [|by apply returns_done].
    eapply returns_bind; [by apply new_conn_typed|]. intros [i t1] Ht1. cbn [snd] in Ht1.
    apply process_typed; [|done|done]. apply set_conn_typed; [done|]. by apply (get_conn_ok t1 i).
Qed.

(** ** Sockets *)

(** A control block before and after [queue_create]. *)
Definition queue_typed (q : queue_cb) : Prop := q = QueueCb 0 0 0 0 ∨ queue_ok q.

(** A data area: not yet mapped, or the whole of it. *)
Definition area (m : list Z) : Prop := bytes m ∧ (m = [] ∨ Z.of_nat (length m) = XSTACK_DATAGRAM_BUF_SIZE).

Definition sock_typed (s : xstack_sock) : Prop :=
  0 <= sock_proto s < XIP_PROTO_LAST ∧ sockaddr_ok (sock_addr s) ∧
  queue_typed (ingress_q s) ∧ area (ingress_data s) ∧
  queue_typed (egress_q s) ∧ area (egress_data s).

Definition udp_typed (st : udp_state) : Prop := Forall sock_typed (sockets st).

Lemma commit_typed q : queue_typed q → returns queue_typed (queue_commit q).
Proof.
  intros [->|Hq] q' Hc; [done|]. destruct (commit_ok q Hq) as (w & Hw & _ & Hok).
  rewrite Hw in Hc. apply done_inj in Hc as <-. by right.
Qed.

Lemma discard_typed q n : queue_typed q → returns (fun r => queue_typed r.2) (queue_discard q n).
Proof.
  intros [->|Hq] r Hd.
  - destruct n; simpl in Hd; simplify_eq; by left.
  - destruct (discard_spec n q Hq) as (q' & Hd' & Hok & _). rewrite Hd' in Hd.
    apply done_inj in Hd as <-. by right.
Qed.

Lemma write_area off bs m : area m → bytes bs → returns area (mem_write off bs m).
Proof.
  intros [Hm Hl] Hbs m' Hw. split; [exact (mem_write_bytes _ _ _ _ Hm Hbs Hw)|].
  pose proof (mem_write_length _ _ _ _ Hw) as Hlen. destruct Hl as [->|Hl]; [left|right; by rewrite Hlen].
  by apply nil_length_inv.
Qed.

Lemma area_bytes m : area m → bytes m.
Proof. by intros []. Qed.

#[export] Hint Resolve commit_typed discard_typed write_area : returns.
#[export] Hint Resolve area_bytes : bytes.

Lemma no_sock_typed : sock_typed no_sock.
Proof.
  unfold sock_typed, no_sock, sockaddr_ok, area, XSTACK_DATAGRAM_BUF_SIZE, XIP_PROTO_LAST, queue_typed. cbn.
  split_and!; auto; lia.
Qed.

Lemma sock_at_typed st i : udp_typed st → sock_typed (sock_at st i).
Proof.
  intros Hs. unfold sock_at. destruct (sockets st !! i) as [s|] eqn:Hi; [|apply no_sock_typed].
  unfold udp_typed in Hs. rewrite Forall_lookup in Hs. by apply (Hs i).
Qed.

Lemma put_typed st i s h : udp_typed st → sock_typed s → udp_typed (UdpState (<[i := s]> (sockets st)) h).
Proof. intros Hs Hi. by apply Forall_insert. Qed.

Lemma dgram_input_typed s src buf : sock_typed s → bytes buf →
  returns (fun r => sock_typed r.2) (xstack_sock_dgram_input s src buf).
Proof.
  intros (Hp & Ha & Hq & Hd & Hrest) Hb. unfold xstack_sock_dgram_input.
  eapply returns_bind; [apply returns_any|]. intros i _. calls. by unfold sock_typed.
Qed.

Lemma udp_hdr_store_bytes h : bytes (udp_hdr_store h).
Proof. unfold udp_hdr_store. auto with bytes. Qed.
#[export] Hint Resolve udp_hdr_store_bytes : bytes.

Lemma udp_input_typed n st ip payload bsize :
  udp_typed st → like n payload →
  returns (fun r => like n r.1.2 ∧ udp_typed r.2) (udp_input st ip payload bsize).
Proof.
  intros Hs Hp. unfold udp_input. case_bool_decide; [by apply returns_done|].
  eapply returns_bind; [apply returns_any|]. intros net _. cbv zeta.
  eapply returns_bind; [eauto with returns bytes|]. intros p1 Hp1.
  eapply returns_bind; [apply returns_any|]. intros [i|] _; [|by apply returns_done].
  eapply returns_bind; [eauto with returns bytes|]. intros d [Hd _].
  eapply returns_bind; [by apply dgram_input_typed; [apply sock_at_typed|]|].
  intros [r s] Hs1. calls; split; try done; by apply put_typed.
Qed.

(** The application side: any buffer, any address. *)
Lemma s32_range x : - 2 ^ 31 <= s32 x < 2 ^ 31.
Proof. unfold s32. pose proof (u32_fits x). case_bool_decide; lia. Qed.

Lemma le_val_u32 m : bytes m → 0 <= le_val (take 4 m) < 2 ^ 32.
Proof.
  intros Hm. pose proof (le_val_bound (take 4 m) ltac:(auto with bytes)) as Hb.
  rewrite length_take in Hb. split; [lia|]. eapply Z.lt_le_trans; [apply Hb|]. apply Z.pow_le_mono_r; lia.
Qed.

Lemma sockaddr_load_typed m : bytes m → sockaddr_ok (sockaddr_load m).
Proof. intros Hm. split; [by apply le_val_u32|apply s32_range]. Qed.

Definition dgram_typed (d : dgram) : Prop :=
  sockaddr_ok (dgram_srcaddr d) ∧ sockaddr_ok (dgram_dstaddr d) ∧
  0 <= dgram_buf_size d < 2 ^ 64 ∧ bytes (dgram_buf d).

Lemma dgram_load_typed off data : bytes data → returns dgram_typed (dgram_load off data).
Proof.
  intros Hd. unfold dgram_load. calls. assert (Ha : bytes a) by (by eapply like_bytes).
  split_and!; cbn.
  - by apply sockaddr_load_typed.
  - apply sockaddr_load_typed. auto with bytes.
  - by apply le_val_bound; auto with bytes.
  - pose proof (le_val_bound (take 8 (drop DGRAM_SIZE a)) ltac:(auto with bytes)) as Hv. rewrite length_take in Hv.
    eapply Z.lt_le_trans; [apply Hv|]. apply Z.pow_le_mono_r; lia.
  - auto with bytes.
Qed.
#[export] Hint Resolve dgram_load_typed : returns.

Lemma sendto_typed s buffer dest : sock_typed s → bytes buffer →
  returns (fun r => sock_typed r.2) (xstack_sendto s buffer dest).
Proof.
  intros Hs Hb. pose proof Hs as (Hp & Ha & Hq & Hd & Hq' & Hd'). unfold xstack_sendto.
  case_bool_decide; [by apply returns_done|]. eapply returns_bind; [apply returns_any|].
  intros i _. calls. by unfold sock_typed.
Qed.

Lemma recvfrom_typed s len peek : sock_typed s →
  returns (fun r => bytes r.1.2 ∧ sock_typed r.2) (xstack_recvfrom s len peek).
Proof.
  intros Hs. pose proof Hs as (Hp & Ha & Hq & Hd & Hrest). unfold xstack_recvfrom.
  destruct (queue_peek _); [|apply returns_spin].
  eapply returns_bind; [eauto with returns bytes|]. intros d (_ & _ & _ & Hb).
  calls; (split; [by eapply like_bytes|]); [done|]. by unfold sock_typed.
Qed.

Lemma egress_peek_typed s : sock_typed s →
  returns (fun d => match d with Some d => dgram_typed d | None => True end) (egress_peek s).
Proof.
  intros (_ & _ & _ & _ & _ & Hd). unfold egress_peek. destruct (queue_isempty _); [by apply returns_done|].
  destruct (queue_peek _); [|apply returns_spin]. calls. done.
Qed.

Lemma egress_discard_typed s : sock_typed s → returns sock_typed (egress_discard s).
Proof. intros Hs. pose proof Hs as (?&?&?&?&?&?). unfold egress_discard. calls. by unfold sock_typed. Qed.

Lemma udp_datagram_typed s d : dgram_typed d →
  returns (fun r => match r with inl buf => bytes buf | inr _ => True end) (udp_datagram s d).
Proof.
  intros (_ & _ & _ & Hb). unfold udp_datagram. destruct (negb _); [by apply returns_done|].
  calls. apply Forall_app_2; [auto with bytes|by eapply like_bytes].
Qed.

Lemma create_typed b n : 0 < b → 0 < n / b → n <= 2 ^ 31 → returns queue_ok (queue_create b n).
Proof.
  intros Hb Hn Hl. unfold queue_create. eapply returns_bind; [apply returns_any|]. intros _ _. calls.
  unfold queue_ok. cbn. split_and!; try lia. pose proof (Z.mul_div_le n b Hb). lia.
Qed.

Lemma init_sock_typed proto addr : 0 <= proto < XIP_PROTO_LAST → sockaddr_ok addr →
  returns sock_typed (xstack_init_sock proto addr).
Proof.
  intros Hp Ha. unfold xstack_init_sock.
  assert (Hc : returns queue_ok (queue_create XSTACK_DATAGRAM_SIZE_MAX XSTACK_DATAGRAM_BUF_SIZE)).
  { apply create_typed; unfold XSTACK_DATAGRAM_SIZE_MAX, XSTACK_DATAGRAM_BUF_SIZE; [lia|done|lia]. }
  eapply returns_bind; [exact Hc|]. intros iq Hi. eapply returns_bind; [exact Hc|]. intros eq He. calls.
  assert (Hz : area (repeat 0 (Z.to_nat XSTACK_DATAGRAM_BUF_SIZE))).
  { split; [apply bytes_repeat_0|]. right. rewrite repeat_length. unfold XSTACK_DATAGRAM_BUF_SIZE. lia. }
  unfold sock_typed. cbn. split_and!; try done; try lia; try (by right); apply Ha.
Qed.

(** ** ARP *)

(** The longest time between two rounds of the periodic tasks for which an age
    still fits into an [int]. *)
Definition TICK_MAX : Z := 2 ^ 31 - 1 - ARP_CACHE_AGE_MAX.

Definition arp_entry_ok (e : arp_cache_entry) : Prop :=
  0 <= ae_ip_addr e < 2 ^ 32 ∧ mac_ok (ae_haddr e) ∧ ARP_CACHE_FREE <= ae_age e < 2 ^ 31.

Definition arp_typed (st : arp_state) : Prop := Forall arp_entry_ok (arp_cache st).

Lemma arp_insert_typed st ip haddr type :
  arp_typed st → 0 <= ip < 2 ^ 32 → mac_ok haddr → type = ARP_CACHE_STATIC ∨ type = ARP_CACHE_DYN →
  returns (fun r => arp_typed r.2) (arp_cache_insert st ip haddr type).
Proof.
  intros Hs Hi Hh Ht. unfold arp_cache_insert. case_bool_decide; [by apply returns_done|].
  destruct (arp_scan _ _ _ _) as [[e age]|]; [|by apply returns_done].
  eapply returns_bind; [apply returns_any|]. intros h _. cbv zeta.
  eapply returns_bind; [apply returns_any|]. intros [r h'] _. calls.
  apply Forall_insert; [done|]. split; [done|]. split; [done|].
  cbn. unfold ARP_CACHE_STATIC, ARP_CACHE_DYN, ARP_CACHE_FREE in *. lia.
Qed.

Lemma arp_lookup_typed st ip : arp_typed st →
  returns (fun r => match r with Some haddr => mac_ok haddr | None => True end) (arp_lookup st ip).
Proof.
  intros Hs. unfold arp_lookup. eapply returns_bind; [apply returns_any|]. intros [i|] _; [|by apply returns_done].
  eapply returns_bind; [apply returns_deref|]. intros e He. calls. case_bool_decide; [|done].
  unfold arp_typed in Hs. rewrite Forall_lookup in Hs. by apply (Hs i).
Qed.

Lemma arp_remove_typed st ip : arp_typed st → returns arp_typed (arp_cache_remove st ip).
Proof.
  intros Hs. unfold arp_cache_remove. eapply returns_bind; [apply returns_any|]. intros p _.
  eapply returns_bind; [apply returns_any|]. intros h _. destruct p as [i|]; calls; [|done].
  unfold arp_typed. cbn [arp_cache]. apply Forall_alter; [done|]. intros e _ (Hi & Hh & _).
  split; [done|]. split; [done|]. cbn. unfold ARP_CACHE_FREE. lia.
Qed.

Lemma arp_update_typed st d : arp_typed st → 0 <= d <= TICK_MAX → arp_typed (arp_cache_update st d).
Proof.
  unfold TICK_MAX. intros Hs Hd. unfold arp_typed, arp_cache_update. cbn [arp_cache]. apply Forall_fmap.
  eapply Forall_impl; [exact Hs|]. intros e (Hi & Hh & Ha). unfold compose, age_step.
  unfold ARP_CACHE_FREE, ARP_CACHE_AGE_MAX in *.
  case_bool_decide; [|case_bool_decide]; (split; [done|]; split; [done|]); cbn; unfold ARP_CACHE_FREE; lia.
Qed.

Definition arp_msg_ok (a : arp_ip) : Prop :=
  mac_ok (arp_sha a) ∧ 0 <= arp_spa a < 2 ^ 32 ∧ 0 <= arp_tpa a < 2 ^ 32.

Lemma arp_load_typed m : bytes m → returns arp_msg_ok (arp_load m).
Proof.
  intros Hm a. unfold arp_load. case_bool_decide as Hl; [|done]. intros [= <-].
  unfold arp_msg_ok. cbn [arp_sha arp_spa arp_tpa].
  split_and!; try apply (field_range _ 4 m Hm). split; [auto with bytes|].
  rewrite length_take, length_drop. unfold ARP_IP_SIZE, ETHER_ALEN in *. lia.
Qed.

Lemma arp_ntoh_ok a : arp_msg_ok a → arp_msg_ok (arp_ntoh a).
Proof.
  intros (Hm & _ & _). split; [done|]. cbn [arp_ntoh arp_spa arp_tpa]. change ntohl with htonl.
  pose proof (htonl_range (arp_spa a)). pose proof (htonl_range (arp_tpa a)). lia.
Qed.

Lemma arp_store_bytes a : bytes (arp_sha a) → bytes (arp_tha a) → bytes (arp_store a).
Proof. intros. unfold arp_store. auto 20 with bytes. Qed.

Lemma arp_request_bytes sha spa tpa : bytes sha → bytes (arp_request_msg sha spa tpa).
Proof. intros Hs. apply arp_store_bytes; [done|]. apply bytes_repeat_0. Qed.

Lemma arp_reply_like n arp mac iface m : bytes mac → bytes (arp_sha arp) → like n m →
  returns (like n) (arp_make_reply arp mac iface m).
Proof.
  intros Hmac Ha Hm. unfold arp_make_reply. eapply returns_bind; [apply returns_any|].
  intros net _. apply write_like; [done|]. by apply arp_store_bytes.
Qed.

(** ** Routes *)
Definition route_ok (r : ip_route) : Prop :=
  0 <= r_network r < 2 ^ 32 ∧ 0 <= r_netmask r < 2 ^ 32 ∧ 0 <= r_gw r < 2 ^ 32 ∧
  0 <= r_iface r < 2 ^ 32 ∧ - 2 ^ 31 <= r_iface_handle r < 2 ^ 31.

Definition rib_typed (st : rib_state) : Prop := Forall route_ok (rib st).

Lemma tree_insert_rib st e : returns (fun st' => rib st' = rib st) (ip_route_tree_insert st e).
Proof.
  unfold ip_route_tree_insert. cbv zeta. eapply returns_bind; [apply returns_any|]. intros [? ?] _.
  eapply returns_bind; [apply returns_any|]. intros [? ?] _. by apply returns_done.
Qed.

Lemma tree_remove_rib st e : returns (fun st' => rib st' = rib st) (ip_route_tree_remove st e).
Proof.
  unfold ip_route_tree_remove. eapply returns_bind; [apply returns_any|]. intros ? _.
  eapply returns_bind; [apply returns_any|]. intros ? _. by apply returns_done.
Qed.

Lemma set_route_typed st e r : rib_typed st → route_ok r → rib_typed (set_route st e r).
Proof. intros Hs Hr. by apply Forall_insert. Qed.

Lemma route_add_typed st r : rib_typed st → route_ok r → returns (fun x => rib_typed x.2) (ip_route_add st r).
Proof.
  intros Hs Hr. unfold ip_route_add.
  eapply returns_bind with (P := fun x => rib_typed x.2).
  { unfold ip_route_entry_alloc. destruct (rib_freelist st); [apply returns_fault|by apply returns_done]. }
  intros [e st1] Hs1. cbn [snd] in Hs1. cbv zeta. eapply returns_bind; [apply tree_insert_rib|].
  intros st2 E. apply returns_done. unfold rib_typed. cbn [snd]. rewrite E. by apply (set_route_typed st1).
Qed.

Lemma route_update_typed st r : rib_typed st → route_ok r → returns (fun x => rib_typed x.2) (ip_route_update st r).
Proof.
  intros Hs Hr. unfold ip_route_update. eapply returns_bind; [apply returns_any|].
  intros [e|] _; [|by apply route_add_typed]. eapply returns_bind; [apply tree_remove_rib|]. intros st1 E1. cbv zeta.
  eapply returns_bind; [apply tree_insert_rib|]. intros st2 E2. apply returns_done. unfold rib_typed. cbn [snd].
  rewrite E2. apply (set_route_typed st1); [|done]. unfold rib_typed. by rewrite E1.
Qed.

Lemma route_remove_typed st r : rib_typed st → returns (fun x => rib_typed x.2) (ip_route_remove st r).
Proof.
  intros Hs. unfold ip_route_remove. eapply returns_bind; [apply returns_any|].
  intros [e|] _; [|by apply returns_done]. eapply returns_bind; [apply tree_remove_rib|]. intros st1 E1.
  apply returns_done. unfold rib_typed. cbn [snd]. apply Forall_insert; [by rewrite E1|].
  unfold route_ok. cbn. lia.
Qed.

Lemma lookup_route st (e : nat) : rib_typed st →
  returns (fun r => match r with Some r => route_ok r | None => True end) (Some <$> deref (rib st !! e)).
Proof.
  intros Hs o Ho. destruct (rib st !! e) as [r|] eqn:Hr; simplify_eq/=.
  unfold rib_typed in Hs. rewrite Forall_lookup in Hs. by apply (Hs e).
Qed.

Lemma by_iface_typed st a : rib_typed st →
  returns (fun r => match r with Some r => route_ok r | None => True end) (ip_route_find_by_iface st a).
Proof.
  intros Hs. unfold ip_route_find_by_iface. eapply returns_bind; [apply returns_any|].
  intros [e|] _; [by apply lookup_route|by apply returns_done].
Qed.

Lemma by_network_typed st a : rib_typed st →
  returns (fun r => match r with Some r => route_ok r | None => True end) (ip_route_find_by_network st a).
Proof.
  intros Hs. unfold ip_route_find_by_network. eapply returns_bind; [apply returns_any|].
  intros [e|] _; [by apply lookup_route|]. eapply returns_bind; [apply returns_any|].
  intros [e|] _; [by apply lookup_route|]. eapply returns_bind; [apply returns_any|].
  intros [e|] _; [by apply lookup_route|by apply returns_done].
Qed.

(** ** Deferred packets *)
Definition slot_ok (s : ip_defer) : Prop :=
  - 2 ^ 31 <= tries s < 2 ^ 31 ∧ 0 <= IpDefer.dst s < 2 ^ 32 ∧ 0 <= IpDefer.proto s < 256 ∧
  0 <= buf_size s < 2 ^ 64 ∧ like 6 (IpDefer.buf s).

Definition defer_typed (st : defer_state) : Prop :=
  0 <= q_rd st < XSTACK_IP_DEFER_MAX ∧ 0 <= q_wr st < XSTACK_IP_DEFER_MAX ∧
  Forall slot_ok (ip_defer_queue st).

Lemma set_slot_typed st i s : defer_typed st → slot_ok s → defer_typed (set_slot st i s).
Proof. intros (Hr & Hw & Hs) Hok. split; [done|]. split; [done|]. by apply Forall_insert. Qed.

Lemma slot_at_ok st i s : defer_typed st → ip_defer_queue st !! i = Some s → slot_ok s.
Proof. intros (_ & _ & Hs) Hi. rewrite Forall_lookup in Hs. by apply (Hs i). Qed.

Lemma defer_push_typed st a p mem bsize :
  defer_typed st → 0 <= a < 2 ^ 32 → 0 <= p < 256 → bytes mem →
  returns (fun r => defer_typed r.2) (ip_defer_push st a p mem bsize).
Proof.
  intros Hs Ha Hp Hm. unfold ip_defer_push. cbv zeta.
  destruct (defer_inhibit st); [by apply returns_done|]. case_bool_decide; [by apply returns_done|].
  eapply returns_bind; [apply returns_deref|]. intros s Hsl. pose proof (slot_at_ok _ _ _ Hs Hsl) as (Ht & _ & _ & Hz & Hb).
  case_bool_decide; [by apply returns_done|]. calls. destruct Hs as (Hr & Hw & Hs). split; [done|].
  split; [apply Z.mod_pos_bound; unfold XSTACK_IP_DEFER_MAX; lia|]. cbn [snd ip_defer_queue set_slot].
  apply Forall_insert; [done|]. unfold slot_ok. cbn. split_and!; try done; try lia; by destruct H1.
Qed.

Lemma defer_drop_typed st : defer_typed st → defer_typed (ip_defer_drop st).
Proof.
  intros (Hr & Hw & Hs). unfold ip_defer_drop. case_bool_decide; [done|]. split; [|done].
  apply Z.mod_pos_bound. unfold XSTACK_IP_DEFER_MAX. lia.
Qed.

(** ** Fragments *)
Definition buf_typed (p : packet_buf) : Prop :=
  map_ok (fragmap p) ∧ like (Z.to_nat IP_MAX_BYTES) (pb_payload p) ∧ ip_hdr_ok (pb_ip_hdr p) ∧
  - 2 ^ 31 <= timer p <= XSTACK_IP_FRAGMENT_TLB ∧ (reserved p = true → 0 < timer p).

Definition frag_typed (st : frag_state) : Prop := Forall buf_typed (packet_buffer st).

Lemma zero_map_ok n : n = 256%nat → map_ok (repeat 0 n).
Proof.
  intros ->. split; [apply repeat_length|]. apply Forall_forall.
  intros x Hx%list_elem_of_In%repeat_spec. subst x. lia.
Qed.

Lemma zero_buf_typed : buf_typed zero_buf.
Proof.
  unfold buf_typed, zero_buf. cbn [fragmap pb_payload pb_ip_hdr timer reserved].
  split; [by apply zero_map_ok|]. split; [apply like_repeat|]. split; [by vm_compute|].
  unfold XSTACK_IP_FRAGMENT_TLB. split; [lia|done].
Qed.

Lemma buf_at_typed st i : frag_typed st → buf_typed (buf_at st i).
Proof.
  intros Hs. unfold buf_at. destruct (packet_buffer st !! i) as [p|] eqn:Hp; [|apply zero_buf_typed].
  unfold frag_typed in Hs. rewrite Forall_lookup in Hs. by apply (Hs i).
Qed.

Lemma set_buf_typed st i p : frag_typed st → buf_typed p → frag_typed (set_buf st i p).
Proof. intros Hs Hp. by apply Forall_insert. Qed.

Lemma fragmap_set_typed m i : map_ok m → returns map_ok (fragmap_set m i).
Proof.
  intros [Hl Hm]. unfold fragmap_set, fragmap_update. eapply returns_bind; [apply returns_deref|].
  intros w _. apply returns_done. split; [by rewrite length_insert|]. apply Forall_insert; [done|]. apply u32_fits.
Qed.

Lemma set_range_typed m from n : map_ok m → returns map_ok (fragmap_set_range m from n).
Proof.
  revert m from. induction n as [|n IH]; intros m from Hm; cbn [fragmap_set_range]; [by apply returns_done|].
  eapply returns_bind; [by apply fragmap_set_typed|]. intros m' Hm'. by apply IH.
Qed.

Lemma fragmap_init_ok m : map_ok m → map_ok (fragmap_init m).
Proof.
  intros [Hl Hm]. unfold fragmap_init. change (Z.to_nat (FRAG_MAP_SIZE / 4)) with 64%nat. split.
  - rewrite length_app, repeat_length, length_drop. lia.
  - apply Forall_app_2; [|by apply Forall_drop]. change (repeat 0 64) with (take 64 (repeat 0 256)).
    apply Forall_take, (zero_map_ok 256 eq_refl).
Qed.

Lemma release_typed st i : frag_typed st → returns frag_typed (release_packet_buffer st i).
Proof.
  intros Hs. unfold release_packet_buffer. eapply returns_bind; [apply returns_any|]. intros h _. apply returns_done.
  apply Forall_insert; [done|]. destruct (buf_at_typed st i Hs) as (Hm & Hp & Hh & Ht & _).
  unfold buf_typed. by cbn.
Qed.

Lemma get_buffer_typed st ip : frag_typed st → ip_hdr_ok ip →
  returns (fun r => frag_typed r.2) (get_packet_buffer st ip).
Proof.
  intros Hs Hip. unfold get_packet_buffer. eapply returns_bind; [apply returns_any|].
  intros [i|] _; [by apply returns_done|]. destruct (first_free _ _) as [i|]; [|by apply returns_done]. cbv zeta.
  assert (Hc : frag_typed (set_buf st i (claim_buf (buf_at st i) ip))).
  { apply set_buf_typed; [done|]. destruct (buf_at_typed st i Hs) as (Hm & Hp & _).
    unfold buf_typed, claim_buf. cbn [fragmap pb_payload pb_ip_hdr timer reserved].
    split; [by apply fragmap_init_ok|]. split; [done|]. split; [by apply blank_len_ok|].
    unfold XSTACK_IP_FRAGMENT_TLB. lia. }
  eapply returns_bind; [apply returns_any|]. intros [[j|] h] _; [|by apply returns_done].
  eapply returns_bind; [by apply release_typed|]. intros st' Hs'. by apply returns_done.
Qed.

Lemma buf_store_typed p ip rx : buf_typed p → ip_hdr_ok ip → bytes rx → returns buf_typed (buf_store p ip rx).
Proof.
  intros (Hm & Hp & Hh & Ht) Hip Hrx. unfold buf_store. cbv zeta.
  eapply returns_bind; [by apply read_like|]. intros d [Hd _].
  eapply returns_bind; [by apply write_like|]. intros pl Hpl.
  eapply returns_bind; [by apply set_range_typed|]. intros map Hmap. apply returns_done.
  split; [done|]. split; [done|]. split; [|done]. cbn [pb_ip_hdr].
  case_bool_decide; [by apply blank_len_ok|]. destruct (_ =? _); [|done].
  unfold ip_hdr_ok in *. cbn [ip_vhl ip_tos ip_len ip_id ip_foff ip_ttl ip_proto ip_csum ip_src ip_dst with_len].
  pose proof (u16_range (u64 (ip_len ip - ip_hdr_hlen ip) + Z.shiftl (Z.land (ip_foff ip) 0x1fff) 3)). lia.
Qed.

Lemma frag_receive_typed st ip rx : frag_typed st → ip_hdr_ok ip → bytes rx →
  returns (fun r => frag_typed r.2) (frag_receive st ip rx).
Proof.
  intros Hs Hip Hrx. unfold frag_receive. cbv zeta. case_bool_decide; [by apply returns_done|].
  eapply returns_bind; [by apply get_buffer_typed|]. intros [[i|] st1] Hs1; [|by apply returns_done].
  eapply returns_bind; [apply buf_store_typed; [by apply buf_at_typed|done|done]|]. intros b Hb.
  eapply returns_bind; [apply returns_any|]. intros c _. apply returns_done. by apply set_buf_typed.
Qed.

Lemma fragment_timer_typed st d i n : frag_typed st → 0 <= d < 2 ^ 31 →
  returns frag_typed (ip_fragment_timer st d i n).
Proof.
  intros Hs Hd. revert st i Hs. induction n as [|n IH]; intros st i Hs; cbn [ip_fragment_timer]; [by apply returns_done|].
  destruct (reserved (buf_at st i)) eqn:Hr; [|by apply IH]. cbv zeta.
  destruct (buf_at_typed st i Hs) as (Hm & Hp & Hh & Ht & Hpos). specialize (Hpos Hr).
  eapply returns_bind with (P := frag_typed); [|intros st' Hs'; by apply IH].
  set (p := PacketBuf _ _ _ _ _).
  case_bool_decide as Hexp.
  - unfold release_packet_buffer. eapply returns_bind; [apply returns_any|]. intros h _. apply returns_done.
    assert (Hl : ∀ x, buf_typed x → frag_typed (FragState (<[i:=x]> (packet_buffer (set_buf st i p))) h)).
    { intros x Hx. unfold frag_typed, set_buf. cbn [packet_buffer]. rewrite list_insert_insert_eq. by apply Forall_insert. }
    apply Hl. unfold buf_at, set_buf. cbn [packet_buffer].
    destruct (decide (i < length (packet_buffer st))%nat) as [Hi|Hi].
    + rewrite list_lookup_insert_eq by done. unfold buf_typed, p. cbn. split_and!; try done; lia.
    + rewrite list_insert_ge, lookup_ge_None_2 by lia. cbn [default]. destruct zero_buf_typed as (?&?&?&?&?).
      by unfold buf_typed.
  - apply returns_done. apply set_buf_typed; [done|]. unfold buf_typed, p. cbn. split_and!; try done; lia.
Qed.
