(* ===== verification/Typed.v ===== *)
(** * The stack keeps its types

    The state of the whole process is well typed: every integer in the range of
    its C type, every buffer made of bytes and of its own size, every frame handed
    to the kernel of a legal length.  Every function of the input path, of the
    output path and of the periodic tasks keeps it so, for arbitrary frames,
    arbitrary answers of the kernel and arbitrary calls of the applications, as
    long as it returns. *)

From S2P Require Import Prelude Bytes EtherFcs Checksum IpHeader RBTree Rib QueueR.
From S2P Require Import Socket Udp Tcp Icmp IpDefer Ether Arp Fragment FragInput.
From S2P Require Import World Output IpFragments Config IpSend Input IpInput Stack System Types Keeps.

#[local] Open Scope Z_scope.

(** ** The state *)

(** A frame as [sendto] takes it: at most [ETHER_MAXLEN + ETHER_FCS_LEN] bytes. *)
Definition frame_ok (f : list Z) : Prop := bytes f ∧ 74 <= Z.of_nat (length f) <= 1518.

Record world_typed (w : world) : Prop := WorldTyped {
  wt_errno : - 2 ^ 31 <= errno w < 2 ^ 31;
  wt_macs : Forall mac_ok (ether_if w);
  wt_tx : Forall frame_ok (tx w);
  wt_rib : rib_typed (w_rib w);
  wt_arp : arp_typed (w_arp w);
  wt_defer : defer_typed (w_defer w);
  wt_id : 0 <= ip_global_id w < 2 ^ 32;
  wt_udp : udp_typed (w_udp w);
  wt_tcp : tcp_typed (w_tcp w);
  wt_frag : frag_typed (w_frag w)
}.

(** ** Typed computations *)
Definition typed {A : Type} (P : A → Prop) (c : M A) : Prop :=
  ∀ w a w', world_typed w → c w = Done (a, w') → world_typed w' ∧ P a.

Create HintDb typed.

Section typed.
Context {A B : Type}.
Implicit Types (P : A → Prop) (Q : B → Prop).

Lemma typed_ret P a : P a → typed P (mret a).
Proof. intros HP w b w' Hw [= <- <-]. done. Qed.

Lemma typed_bind P Q (c : M A) (f : A → M B) :
  typed P c → (∀ a, P a → typed Q (f a)) → typed Q (c ≫= f).
Proof.
  intros Hc Hf w b w' Hw Hrun. unfold mbind, M_bind in Hrun. destruct (c w) as [[a w1]| |] eqn:Ha; [|done..].
  destruct (Hc w a w1 Hw Ha) as [Hw1 HP]. by apply (Hf a HP w1).
Qed.

Lemma typed_lift P (o : outcome A) : returns P o → typed P (lift o).
Proof. intros Ho w a w' Hw Hrun. unfold lift in Hrun. destruct o; [|done..]. injection Hrun as <- <-. split; [done|]. by apply Ho. Qed.

Lemma typed_gets P (f : world → A) : (∀ w, world_typed w → P (f w)) → typed P (gets f).
Proof. intros Hf w a w' Hw [= <- <-]. auto. Qed.

Lemma typed_weaken P (P' : A → Prop) c : typed P c → (∀ a, P a → P' a) → typed P' c.
Proof. intros Hc HP w a w' Hw Hrun. destruct (Hc w a w' Hw Hrun). auto. Qed.

(** A component's function whose argument is typed keeps the component typed. *)
Lemma typed_on {S : Type} P (T : S → Prop) get set (f : S → outcome (A * S)) :
  (∀ w, world_typed w → T (get w)) → (∀ s w, T s → world_typed w → world_typed (set s w)) →
  (∀ s, T s → returns (fun r => T r.2 ∧ P r.1) (f s)) → typed P (on get set f).
Proof.
  intros Hg Hs Hf w a w' Hw Hrun. unfold on in Hrun. destruct (f (get w)) as [[b s]| |] eqn:Hb; [|done..].
  injection Hrun as <- <-. destruct (Hf _ (Hg w Hw) _ Hb). auto.
Qed.
End typed.

Lemma typed_modify f : (∀ w, world_typed w → world_typed (f w)) → typed (fun _ => True) (modify f).
Proof. intros Hf w a w' Hw [= <- <-]. auto. Qed.

Lemma typed_lift_any {A} (o : outcome A) : typed (fun _ => True) (lift o).
Proof. by apply typed_lift. Qed.

(** Replacing a component. *)
Lemma set_errno_typed e : typed (fun _ => True) (set_errno e).
Proof. apply typed_modify. intros w []. split; try done. apply s32_range. Qed.

Lemma log_tx_typed f : frame_ok f → typed (fun _ => True) (log_tx f).
Proof.
  intros Hf. apply typed_modify. intros w []. split; try done. cbn [tx]. apply Forall_app_2; [done|by constructor].
Qed.

Lemma set_rib_typed s w : rib_typed s → world_typed w → world_typed (set_rib s w).
Proof. intros Hs []. by split. Qed.

Lemma set_arp_typed s w : arp_typed s → world_typed w → world_typed (set_arp s w).
Proof. intros Hs []. by split. Qed.

Lemma set_defer_typed s w : defer_typed s → world_typed w → world_typed (set_defer s w).
Proof. intros Hs []. by split. Qed.

Lemma set_id_typed n w : 0 <= n < 2 ^ 32 → world_typed w → world_typed (set_ip_id n w).
Proof. intros Hs []. by split. Qed.

Lemma set_udp_typed s w : udp_typed s → world_typed w → world_typed (set_udp s w).
Proof. intros Hs []. by split. Qed.

Lemma set_tcp_typed s w : tcp_typed s → world_typed w → world_typed (set_tcp s w).
Proof. intros Hs []. by split. Qed.

Lemma set_frag_typed s w : frag_typed s → world_typed w → world_typed (set_frag s w).
Proof. intros Hs []. by split. Qed.

#[export] Hint Resolve wt_errno wt_macs wt_tx wt_rib wt_arp wt_defer wt_id wt_udp wt_tcp wt_frag : typed.
#[export] Hint Resolve set_errno_typed set_rib_typed set_arp_typed set_defer_typed set_udp_typed
  set_tcp_typed set_frag_typed set_id_typed : typed.

(** One call after the other, one branch after the other. *)
Ltac typed_calls :=
  cbv zeta;
  repeat match goal with
  | |- typed _ (if bool_decide _ then _ else _) => case_bool_decide
  | |- typed _ (match ?x with _ => _ end) => destruct x; cbn [fst snd] in *
  | |- typed _ (mret _) => apply typed_ret
  | |- typed _ (mbind _ _) => eapply typed_bind; [solve [eauto with typed]|intros ? ?]
  end.

(** ** The output path *)
Lemma handle2eth_typed h :
  typed (fun r => match r with Some mac => mac_ok mac | None => True end) (ether_handle2eth h).
Proof.
  unfold ether_handle2eth. case_bool_decide.
  - eapply typed_bind; [apply set_errno_typed|]. intros _ _. by apply typed_ret.
  - eapply typed_bind; [apply typed_lift_any|]. intros _ _.
    eapply typed_bind; [apply (typed_gets (Forall mac_ok)); auto with typed|]. intros eths He.
    eapply typed_bind with (P := mac_ok); [|intros mac Hm; by apply typed_ret].
    apply typed_lift. intros mac Hm%deref_done_inv. rewrite Forall_lookup in He. by eapply He.
Qed.
#[export] Hint Resolve handle2eth_typed : typed.

Lemma handle2addr_typed h :
  typed (fun r => match r with Some mac => mac_ok mac | None => True end) (ether_handle2addr h).
Proof.
  unfold ether_handle2addr. eapply typed_bind; [apply handle2eth_typed|]. intros [mac|] Hm.
  - by apply typed_ret.
  - eapply typed_bind; [apply set_errno_typed|]. intros _ _. by apply typed_ret.
Qed.
#[export] Hint Resolve handle2addr_typed : typed.

(** A frame that is not too big is a legal frame. *)
Lemma ether_frame_ok src dst proto buf :
  mac_ok src → mac_ok dst → bytes buf → Z.of_nat (length buf) < 2 ^ 32 →
  frame_too_big (length buf) = false → frame_ok (ether_frame src dst proto buf).
Proof.
  intros Hs Hd Hb Hl Hbig. rewrite frame_too_big_iff in Hbig by lia. apply bool_decide_eq_false in Hbig.
  unfold ether_frame. cbv zeta. split.
  - apply Forall_app_2; [by apply frame_body_bytes|apply le_bytes_bytes].
  - pose proof (frame_body_length src dst proto buf Hs Hd Hl). rewrite length_app, le_bytes_length. lia.
Qed.

Section kernel.
Context `{Kernel}.

Lemma ether_send_typed h dst proto buf : mac_ok dst → bytes buf → Z.of_nat (length buf) < 2 ^ 32 →
  typed (fun _ => True) (ether_send h dst proto buf).
Proof.
  intros Hd Hb Hl. unfold ether_send. destruct (frame_too_big _) eqn:Hbig; [by apply typed_ret|].
  eapply typed_bind; [apply handle2eth_typed|]. intros [mac|] Hm.
  - eapply typed_bind; [by apply (typed_gets (fun _ => True))|]. intros sent _. cbv zeta.
    eapply typed_bind; [by apply log_tx_typed, ether_frame_ok|]. intros _ _. case_bool_decide; [|by apply typed_ret].
    eapply typed_bind; [apply set_errno_typed|]. intros _ _. by apply typed_ret.
  - eapply typed_bind; [by apply (typed_gets (fun _ => True))|]. intros e _. by apply typed_ret.
Qed.

Lemma broadcast_ok : mac_ok mac_broadcast_addr.
Proof. split; [by repeat constructor|done]. Qed.

Lemma sha_ok (o : option (list Z)) :
  match o with Some mac => mac_ok mac | None => True end → mac_ok (default (repeat 0 6) o).
Proof. destruct o; [done|]. intros _. split; [by repeat constructor|done]. Qed.

Lemma announce_typed h (sha : option (list Z)) spa tpa :
  match sha with Some mac => mac_ok mac | None => True end →
  typed (fun _ => True) (ether_send h mac_broadcast_addr ETHER_PROTO_ARP
    (arp_request_msg (default (repeat 0 6) sha) spa tpa)).
Proof.
  intros Hs. pose proof (sha_ok sha Hs) as Hm. apply ether_send_typed.
  - apply broadcast_ok.
  - apply arp_request_bytes, Hm.
  - rewrite arp_msg_length by done. lia.
Qed.

Lemma arp_request_typed h spa tpa : typed (fun _ => True) (arp_request h spa tpa).
Proof.
  unfold arp_request. eapply typed_bind; [apply handle2addr_typed|]. intros sha Hs.
  eapply typed_bind; [by apply announce_typed|]. intros r _. by apply typed_ret.
Qed.

Lemma arp_gratuitous_typed h spa : typed (fun _ => True) (arp_gratuitous h spa).
Proof.
  unfold arp_gratuitous. eapply typed_bind; [apply handle2addr_typed|]. intros sha Hs.
  eapply typed_bind; [by apply announce_typed|]. intros r _. by apply typed_ret.
Qed.
#[local] Hint Resolve arp_request_typed arp_gratuitous_typed : typed.

Lemma get_rib_typed : typed rib_typed (gets w_rib).
Proof. apply typed_gets. auto with typed. Qed.

Lemma find_by_iface_typed a : typed (fun _ => True) (find_by_iface a).
Proof.
  unfold find_by_iface. eapply typed_bind; [apply get_rib_typed|]. intros rib Hr.
  eapply typed_bind; [apply typed_lift_any|]. intros [route|] _; [by apply typed_ret|].
  eapply typed_bind; [apply set_errno_typed|]. intros _ _. by apply typed_ret.
Qed.

Lemma get_haddr_typed iface a :
  typed (fun r => match r with Some mac => mac_ok mac | None => True end) (arp_cache_get_haddr iface a).
Proof.
  unfold arp_cache_get_haddr. eapply typed_bind; [apply (typed_gets arp_typed); auto with typed|].
  intros arp Ha. eapply typed_bind; [by apply typed_lift, arp_lookup_typed|]. intros [haddr|] Hh; [by apply typed_ret|].
  eapply typed_bind; [apply find_by_iface_typed|]. intros [route|] _; [|by apply typed_ret].
  eapply typed_bind; [apply arp_request_typed|]. intros r _. case_bool_decide; [|by apply typed_ret].
  eapply typed_bind; [apply set_errno_typed|]. intros _ _. by apply typed_ret.
Qed.
#[local] Hint Resolve get_haddr_typed : typed.

Lemma fragments_loop_typed fuel h dst ip payload bytes offset retval n :
  mac_ok dst → like n payload →
  typed (fun _ => True) (send_fragments_loop fuel h dst ip payload bytes offset retval).
Proof.
  intros Hd. revert ip payload bytes offset retval. induction fuel as [|fuel IH]; intros ip payload bs offset retval Hp;
    cbn [send_fragments_loop]; [apply typed_lift_any|]. cbv zeta. set (ip' := fragment_hdr _ _ _ _).
  eapply typed_bind; [by apply typed_lift, hton_like|]. intros p1 Hp1.
  eapply typed_bind; [apply typed_lift, read_like, Hp1|]. intros d [Hdb _].
  eapply typed_bind; [by apply typed_lift, write_like|]. intros p2 Hp2.
  eapply typed_bind; [apply typed_lift, read_like, Hp2|]. intros f [Hf Hfl].
  assert (Hlen : Z.of_nat (length f) < 2 ^ 32).
  { rewrite Hfl. pose proof (u16_range (ip_hdr_hlen ip + next_fragment_size bs (ip_hdr_hlen ip) ETHER_DATA_LEN)) as Hr.
    unfold ip'. cbn [ip_len fragment_hdr]. rewrite Z2Nat.id by apply Hr. lia. }
  eapply typed_bind; [by apply ether_send_typed|]. intros r _. case_bool_decide; [by apply typed_ret|].
  case_bool_decide; [by apply IH|by apply typed_ret].
Qed.

Lemma send_fragments_typed h dst payload bsize : mac_ok dst → bytes payload →
  typed (fun _ => True) (ip_send_fragments h dst payload bsize).
Proof.
  intros Hd Hp. unfold ip_send_fragments. eapply typed_bind; [apply typed_lift_any|]. intros [hl ip] _.
  by apply (fragments_loop_typed _ _ _ _ _ _ _ _ (length payload)).
Qed.

Lemma ip_packet_typed src dst proto id buf : bytes buf →
  returns (like (20 + length buf)) (ip_packet src dst proto id buf).
Proof.
  intros Hb. unfold ip_packet. apply hton_like. split; [auto with bytes|].
  by rewrite length_app, ip_hdr_store_length.
Qed.

Lemma defer_push_result st a p mem bsize : returns (fun r => r.1 <= 0) (ip_defer_push st a p mem bsize).
Proof.
  unfold ip_defer_push. cbv zeta. destruct (defer_inhibit st); [by apply returns_done|].
  case_bool_decide; [by apply returns_done|]. eapply returns_bind; [apply returns_any|]. intros s _.
  case_bool_decide; [by apply returns_done|]. eapply returns_bind; [apply returns_any|]. intros d _.
  eapply returns_bind; [apply returns_any|]. intros bs _. by apply returns_done.
Qed.

Lemma defer_on_typed a p mem bsize : 0 <= a < 2 ^ 32 → 0 <= p < 256 → bytes mem →
  typed (fun r => r <= 0) (on w_defer set_defer (fun d => ip_defer_push d a p mem bsize)).
Proof.
  intros Ha Hp Hm. apply (typed_on _ defer_typed); [auto with typed..|]. intros s Hs r Hr. split.
  - exact (defer_push_typed s a p mem bsize Hs Ha Hp Hm r Hr).
  - exact (defer_push_result s a p mem bsize r Hr).
Qed.

Lemma ip_send_typed dst proto buf bsize : 0 <= dst < 2 ^ 32 → 0 <= proto < 256 → bytes buf →
  typed (fun _ => True) (ip_send dst proto buf bsize).
Proof.
  intros Hd Hp Hb. unfold ip_send. eapply typed_bind; [apply get_rib_typed|]. intros rib Hr.
  eapply typed_bind; [apply typed_lift_any|]. intros [route|] _.
  2:{ eapply typed_bind; [apply set_errno_typed|]. intros _ _. by apply typed_ret. }
  eapply typed_bind; [apply get_haddr_typed|]. intros [mac|] Hm.
  - eapply typed_bind; [by apply (typed_gets (fun _ => True))|]. intros id _.
    eapply typed_bind; [apply typed_modify; intros w Hw; apply set_id_typed; [apply u32_fits|done]|]. intros _ _.
    eapply typed_bind; [by apply typed_lift, read_like|]. intros data [Hdb Hdl].
    eapply typed_bind; [by apply typed_lift, ip_packet_typed|]. intros pkt [Hpb Hpl]. case_bool_decide as Hle.
    + apply ether_send_typed; [done|done|]. unfold ETHER_DATA_LEN in Hle. lia.
    + eapply typed_bind; [by apply send_fragments_typed|]. intros r _. case_bool_decide; [|by apply typed_ret].
      eapply typed_bind; [apply set_errno_typed|]. intros _ _. by apply typed_ret.
  - eapply typed_bind; [by apply (typed_gets (fun _ => True))|]. intros e _. case_bool_decide; [|by apply typed_ret].
    eapply typed_bind; [by apply defer_on_typed|]. intros r Hle. cbv beta in Hle. destruct (_ || _); [by apply typed_ret|].
    eapply typed_bind; [apply set_errno_typed|]. intros _ _. by apply typed_ret.
Qed.

(** ** Deferred packets *)
Lemma defer_modify_typed f : (∀ d, defer_typed d → defer_typed (f d)) →
  typed (fun _ => True) (modify (fun w => set_defer (f (w_defer w)) w)).
Proof. intros Hf. apply typed_modify. intros w Hw. apply set_defer_typed; [|done]. apply Hf. auto with typed. Qed.

Lemma add_try_ok s : slot_ok s → slot_ok (add_try s).
Proof. intros (Ht & Hs). split; [apply s32_range|done]. Qed.

Lemma defer_loop_typed fuel : typed (fun _ => True) (defer_loop fuel).
Proof.
  induction fuel as [|fuel IH]; cbn [defer_loop]; [apply typed_lift_any|].
  assert (Hdrop : typed (fun _ => True)
    (_ ← modify (fun w => set_defer (ip_defer_drop (w_defer w)) w); defer_loop fuel)).
  { eapply typed_bind; [by apply defer_modify_typed, defer_drop_typed|]. by intros _ _. }
  eapply typed_bind; [apply (typed_gets defer_typed); auto with typed|]. intros d Hd.
  destruct (ip_defer_peek d) as [i|]; [|by apply typed_ret].
  eapply typed_bind; [apply (typed_lift slot_ok)|].
  { intros s Hs%deref_done_inv. exact (slot_at_ok d _ s Hd Hs). }
  intros s Hs. pose proof Hs as (_ & Ha & Hp & _ & [Hb _]). eapply typed_bind.
  { apply typed_modify. intros w Hw. apply set_defer_typed; [|done]. apply set_slot_typed; [done|by apply add_try_ok]. }
  intros _ _. case_bool_decide; [done|].
  eapply typed_bind; [by apply ip_send_typed|]. intros r _.
  eapply typed_bind; [by apply (typed_gets (fun _ => True))|]. intros e _. destruct (_ && _); [|done].
  apply (defer_modify_typed (fun d => set_slot d i (add_try (add_try s)))). intros d' Hd'.
  apply set_slot_typed; [done|by do 2 apply add_try_ok].
Qed.

Lemma defer_handler_typed delta : typed (fun _ => True) (ip_defer_handler delta).
Proof.
  unfold ip_defer_handler. eapply typed_bind; [by apply (defer_modify_typed (set_inhibit true))|].
  intros _ _. apply defer_loop_typed.
Qed.

(** ** The input path *)
Lemma handlers_typed id fn ip payload bsize n :
  find_handler id ip_proto_handlers = Some fn → ip_hdr_ok ip → like n payload →
  typed (fun r => like n r.2) (fn ip payload bsize).
Proof.
  intros Hf Hip Hp. cbn [find_handler ip_proto_handlers] in Hf.
  repeat (case_bool_decide; [injection Hf as <-|]); [..|done].
  - by apply typed_lift, icmp_input_like.
  - apply (typed_on _ tcp_typed); [auto with typed..|]. intros s Hs r Hr.
    destruct (tcp_input_typed n s ip payload bsize Hs Hip Hp r Hr). done.
  - apply (typed_on _ udp_typed); [auto with typed..|]. intros s Hs r Hr.
    destruct (udp_input_typed n s ip payload bsize Hs Hp r Hr). done.
Qed.

Lemma like_split n k m m' : like n m → like (length (drop k m)) m' → like n (take k m ++ m').
Proof.
  intros [Hm Hl] [Hm' Hl']. split; [auto with bytes|].
  rewrite length_app, Hl', length_take, length_drop. lia.
Qed.

Lemma ip_deliver_typed ip m bsize n : ip_hdr_ok ip → like n m →
  typed (fun r => like n r.2) (ip_deliver ip m bsize).
Proof.
  intros Hip Hm. unfold ip_deliver. cbv zeta. set (hlen := Z.to_nat (ip_hdr_hlen ip)).
  destruct (find_handler _ _) as [fn|] eqn:Hf; [|by apply typed_lift, dest_unreachable_like].
  eapply typed_bind.
  { apply (handlers_typed _ fn ip _ _ (length (drop hlen m)) Hf Hip). apply like_self. destruct Hm. auto with bytes. }
  intros [r p] Hp. cbn [snd] in Hp. pose proof (like_split n hlen m p Hm Hp) as Hm'.
  eapply typed_bind with (P := fun r => like n r.2).
  { case_bool_decide; [|by apply typed_ret].
    eapply typed_bind; [by apply typed_lift, reply_header_like|]. intros [k m'] Hm1. by apply typed_ret. }
  intros [r' m'] Hm1. cbn [snd] in Hm1. case_bool_decide; [|by apply typed_ret].
  by apply typed_lift, dest_unreachable_like.
Qed.

Lemma fragment_input_typed input ip rx :
  (∀ n m k, like n m → typed (fun r => like n r.2) (input m k)) → ip_hdr_ok ip → bytes rx →
  typed (fun _ => True) (ip_fragment_input input ip rx).
Proof.
  intros Hin Hip Hrx. unfold ip_fragment_input.
  eapply typed_bind with (P := fun _ => True).
  { apply (typed_on _ frag_typed); [auto with typed..|]. intros s Hs r Hr. split; [|done].
    by apply (frag_receive_typed s ip rx Hs Hip Hrx). }
  intros [e|[i [|]]] _; [by apply typed_ret| |by apply typed_ret].
  eapply typed_bind; [apply (typed_gets buf_typed); intros w Hw; apply buf_at_typed; auto with typed|].
  intros p (Hm & [Hpb Hpl] & Hh & Ht). eapply typed_bind.
  { apply (Hin (20 + Z.to_nat IP_MAX_BYTES)%nat). split; [auto with bytes|].
    by rewrite length_app, ip_hdr_store_length, Hpl. }
  intros [r m] [Hmb Hml]. cbn [snd] in Hmb, Hml. eapply typed_bind; [by apply typed_lift, ntoh_typed|].
  intros [hl hd] Hhd. cbn [snd] in Hhd. cbv zeta. set (p' := PacketBuf _ _ _ _ _).
  assert (Hp' : buf_typed p').
  { split; [done|]. split; [|done]. split; [cbn; auto with bytes|]. cbn [pb_payload p'].
    rewrite length_drop, Hml. unfold IP_HDR_SIZE. lia. }
  eapply typed_bind.
  { apply typed_modify. intros w Hw. apply set_frag_typed; [|done]. apply set_buf_typed; [auto with typed|done]. }
  intros _ _. eapply typed_bind; [apply ip_send_typed; [apply Hhd|apply Hhd|apply Hp']|]. intros s _.
  eapply typed_bind; [apply (typed_gets frag_typed); auto with typed|]. intros st Hst.
  eapply typed_bind; [by apply typed_lift, release_typed|]. intros st' Hst'.
  eapply typed_bind; [by apply typed_modify; auto with typed|]. intros _ _. by apply typed_ret.
Qed.

Lemma arp_on_typed a haddr : 0 <= a < 2 ^ 32 → mac_ok haddr →
  typed (fun _ => True) (on w_arp set_arp (fun s => arp_cache_insert s a haddr ARP_CACHE_DYN)).
Proof.
  intros Ha Hh. apply (typed_on _ arp_typed); [auto with typed..|]. intros s Hs r Hr. split; [|done].
  exact (arp_insert_typed s a haddr _ Hs Ha Hh (or_intror eq_refl) r Hr).
Qed.

Definition eth_ok (e : option ether_hdr) : Prop := match e with Some e => mac_ok (h_src e) | None => True end.

Lemma ip_input_typed fuel : ∀ e m bsize n, eth_ok e → like n m →
  typed (fun r => like n r.2) (ip_input fuel e m bsize).
Proof.
  induction fuel as [|fuel IH]; intros e m bsize n He Hm; cbn [ip_input]; [by apply typed_lift|].
  eapply typed_bind with (P := like n).
  { destruct e; [by apply typed_lift, ntoh_inplace_like|by apply typed_ret]. }
  clear m Hm. intros m Hm. eapply typed_bind; [apply typed_lift, hdr_load_typed, Hm|]. intros ip Hip.
  destruct (negb _); [by apply typed_ret|]. case_bool_decide; [by apply typed_ret|].
  destruct (negb _); [by apply typed_ret|]. eapply typed_bind with (P := fun _ => True).
  { destruct e as [e|]; [|by apply typed_ret]. eapply typed_bind; [apply arp_on_typed; [apply Hip|apply He]|].
    intros _ _. by apply typed_ret. }
  intros _ _. eapply typed_bind; [apply find_by_iface_typed|]. intros [route|] _.
  - destruct (ip_fragment_is_frag ip); [|by apply ip_deliver_typed].
    eapply typed_bind; [apply fragment_input_typed; [|done|destruct Hm; auto with bytes]|].
    + intros k m' b Hm'. by apply IH.
    + intros _ _. by apply typed_ret.
  - destruct XSTACK_IP_SEND_HOSTUNREAC; [|by apply typed_ret]. by apply typed_lift, dest_unreachable_like.
Qed.

Lemma arp_input_typed m bsize n : like n m → typed (fun r => like n r.2) (arp_input m bsize).
Proof.
  intros Hm. unfold arp_input. eapply typed_bind; [apply typed_lift, arp_load_typed, Hm|]. intros net Hnet.
  cbv zeta. pose proof (arp_ntoh_ok net Hnet) as (Hsha & Hspa & Htpa).
  destruct (negb _); [by apply typed_ret|]. destruct (negb _); [by apply typed_ret|].
  eapply typed_bind; [by apply arp_on_typed|]. intros _ _.
  eapply typed_bind; [apply defer_handler_typed|]. intros _ _. case_bool_decide; [|by apply typed_ret].
  eapply typed_bind; [apply find_by_iface_typed|]. intros [route|] _; [|by apply typed_ret].
  eapply typed_bind; [apply handle2addr_typed|]. intros sha Hs.
  eapply typed_bind.
  { apply typed_lift, (arp_reply_like n); [destruct sha; [apply Hs|apply Hsha]|apply Hsha|done]. }
  intros m' Hm'. by apply typed_ret.
Qed.

Lemma ether_input_typed hdr m bsize n : mac_ok (h_src hdr) → like n m →
  typed (fun r => like n r.2) (ether_input hdr m bsize).
Proof.
  intros Hh Hm. unfold ether_input. cbn [find_handler ether_proto_handlers].
  assert (Hend : ∀ c : M (Z * list Z), typed (fun r => like n r.2) c → typed (fun r => like n r.2)
    ('(retval, payload) ← c;
     if bool_decide (retval < 0) then _ ← set_errno (- retval); mret (-1, payload) else mret (retval, payload))).
  { intros c Hc. eapply typed_bind; [exact Hc|]. intros [r p] Hp. case_bool_decide; [|by apply typed_ret].
    eapply typed_bind; [apply set_errno_typed|]. intros _ _. by apply typed_ret. }
  case_bool_decide; [by apply Hend, arp_input_typed|]. case_bool_decide; [by apply Hend, ip_input_typed|].
  eapply typed_bind; [apply set_errno_typed|]. intros _ _. by apply typed_ret.
Qed.

Lemma output_reply_typed h hdr m bsize : mac_ok (h_src hdr) → bytes m → Z.of_nat (length m) < 2 ^ 32 →
  typed (fun _ => True) (ether_output_reply h hdr m bsize).
Proof.
  intros Hh Hm Hl. unfold ether_output_reply. eapply typed_bind with (P := fun _ => True).
  { destruct (frame_too_big _); [by apply typed_ret|].
    eapply typed_bind with (P := fun d => bytes d ∧ Z.of_nat (length d) < 2 ^ 32).
    - apply typed_lift. intros d Hd. pose proof Hd as [Hb Hdl]%(mem_read_bytes _ _ _ _ Hm).
      apply mem_read_done in Hd as [Hle _]. split; [done|lia].
    - intros d [Hd Hdl]. by apply ether_send_typed. }
  intros r _. case_bool_decide; [|by apply typed_ret].
  eapply typed_bind; [apply set_errno_typed|]. intros _ _. by apply typed_ret.
Qed.

Lemma ingress_frame_typed h hdr m bsize n : mac_ok (h_src hdr) → like n m → Z.of_nat n < 2 ^ 32 →
  typed (like n) (ingress_frame h hdr m bsize).
Proof.
  intros Hh Hm Hn. unfold ingress_frame. eapply typed_bind; [by apply (ether_input_typed _ _ _ n)|].
  intros [r p] [Hp Hl]. cbn [snd] in Hp, Hl. case_bool_decide; [|by apply typed_ret].
  eapply typed_bind; [apply output_reply_typed; [done|done|by rewrite Hl]|]. intros _ _. by apply typed_ret.
Qed.

(** ** The threads and the applications *)
Lemma periodic_tasks_typed delta : 0 <= delta <= TICK_MAX → typed (fun _ => True) (run_periodic_tasks delta).
Proof.
  intros Hd. unfold run_periodic_tasks, periodic_tasks. cbn [run_tasks]. eapply typed_bind.
  { apply typed_modify. intros w Hw. apply set_arp_typed; [|done]. apply arp_update_typed; auto with typed. }
  intros _ _. eapply typed_bind; [apply defer_handler_typed|]. intros _ _. by apply typed_ret.
Qed.

Lemma get_sock_typed i : typed sock_typed (gets (fun w => sock_at (w_udp w) i)).
Proof. apply typed_gets. intros w Hw. apply sock_at_typed. auto with typed. Qed.

Lemma udp_send_typed s d : dgram_typed d → typed (fun _ => True) (xstack_udp_send s d).
Proof.
  intros Hd. unfold xstack_udp_send. eapply typed_bind; [by apply typed_lift, udp_datagram_typed|].
  intros [buf|e] Hb; [|by apply typed_ret]. apply ip_send_typed; [apply Hd|unfold IP_PROTO_UDP; lia|done].
Qed.

Lemma egress_socket_typed i : typed (fun _ => True) (egress_socket i).
Proof.
  unfold egress_socket. eapply typed_bind; [apply get_sock_typed|]. intros s Hs.
  eapply typed_bind; [by apply typed_lift, egress_peek_typed|]. intros [d|] Hd; [|by apply typed_ret]. cbv zeta.
  eapply typed_bind with (P := fun _ => True).
  { destruct (_ && _); [|by apply typed_ret]. unfold proto_send. case_bool_decide; [by apply typed_ret|by apply udp_send_typed]. }
  intros _ _. eapply typed_bind; [apply get_sock_typed|]. intros s1 Hs1.
  eapply typed_bind; [by apply typed_lift, egress_discard_typed|]. intros s2 Hs2. apply typed_modify.
  intros w Hw. apply set_udp_typed; [|done]. apply put_typed; auto with typed.
Qed.

Lemma egress_round_typed : typed (fun _ => True) egress_round.
Proof.
  unfold egress_round. eapply typed_bind; [by apply (typed_gets (fun _ => True))|]. intros n _.
  generalize 0%nat as i. induction n as [|n IH]; intros i; cbn [egress_sockets]; [by apply typed_ret|].
  eapply typed_bind; [apply egress_socket_typed|]. by intros _ _.
Qed.

Lemma bind_typed st i : udp_typed st → returns (fun r => udp_typed r.2) (xstack_bind st i).
Proof.
  intros Hs. unfold xstack_bind. case_bool_decide; [|by apply returns_done]. unfold xstack_udp_bind.
  cbv zeta. case_bool_decide; [by apply returns_done|]. eapply returns_bind; [apply returns_any|].
  intros [j|] _; [by apply returns_done|]. eapply returns_bind; [apply returns_any|].
  intros [r h] _. by apply returns_done.
Qed.

Lemma init_loop_typed n : ∀ st i, udp_typed st → returns (fun r => udp_typed r.2) (xstack_init_loop st i n).
Proof.
  induction n as [|n IH]; intros st i Hs; cbn [xstack_init_loop]; [by apply returns_done|].
  destruct (sock_at_typed st i Hs) as (Hp & Ha & _). eapply returns_bind; [by apply init_sock_typed|]. intros s Hss.
  eapply returns_bind; [by apply bind_typed, put_typed|]. intros [[e|] st1] Hs1; [by apply returns_done|by apply IH].
Qed.

Lemma boot_typed h : - 2 ^ 31 <= h < 2 ^ 31 → typed (fun _ => True) (boot h).
Proof.
  intros Hh. unfold boot, ip_config. eapply typed_bind with (P := fun _ => True).
  { cbv zeta. eapply typed_bind; [apply handle2addr_typed|]. intros mac Hm.
    eapply typed_bind with (P := mac_ok).
    { apply typed_lift. intros m Hd%deref_done_inv. by subst mac. }
    clear mac Hm. intros mac Hm. eapply typed_bind with (P := fun _ => True).
    { apply (typed_on _ arp_typed); [auto with typed..|]. intros s Hs r Hr. split; [|done].
      refine (arp_insert_typed s 167772162 mac _ Hs _ Hm (or_introl eq_refl) r Hr). lia. }
    intros _ _. eapply typed_bind with (P := fun _ => True).
    { apply (typed_on _ rib_typed); [auto with typed..|]. intros s Hs r Hr. split; [|done].
      refine (route_update_typed s _ Hs _ r Hr). unfold route_ok. cbn [r_network r_netmask r_gw r_iface r_iface_handle].
      change (Z.land 167772162 4294967040) with 167772160. lia. }
    intros _ _. do 3 (eapply typed_bind; [apply arp_gratuitous_typed|]; intros _ _). by apply typed_ret. }
  intros _ _. apply (typed_on _ udp_typed); [auto with typed..|]. intros s Hs r Hr. split; [|done].
  by apply (init_loop_typed (length (sockets s)) s 0 Hs).
Qed.

Lemma initial_typed mac addrs : mac_ok mac → Forall sockaddr_ok addrs →
  world_typed (initial_world mac (static_sockets addrs)).
Proof.
  intros Hm Ha. split; cbn [errno ether_if tx w_rib w_arp w_defer ip_global_id w_udp w_tcp w_frag initial_world].
  - lia.
  - by constructor.
  - constructor.
  - apply Forall_forall. intros r Hr%list_elem_of_In%repeat_spec. subst r. unfold route_ok. cbn. lia.
  - apply Forall_forall. intros e He%list_elem_of_In%repeat_spec. subst e. unfold arp_entry_ok. cbn.
    unfold ARP_CACHE_FREE. split; [lia|]. split; [|lia]. split; [by repeat constructor|done].
  - unfold defer_typed, XSTACK_IP_DEFER_MAX. cbn. split; [lia|]. split; [lia|].
    apply (Forall_forall slot_ok (repeat zero_slot 20)). intros s Hs%list_elem_of_In%repeat_spec. subst s.
    unfold slot_ok. cbn. split_and!; try lia. split; [by repeat constructor|done].
  - lia.
  - unfold udp_typed, static_sockets. cbn [sockets]. apply Forall_fmap. eapply Forall_impl; [exact Ha|].
    intros a Hok. unfold compose, sock_typed, static_sock, area, queue_typed, XIP_PROTO_UDP, XIP_PROTO_LAST, XSTACK_DATAGRAM_BUF_SIZE.
    cbn. split_and!; try apply Hok; auto; lia.
  - constructor.
  - apply Forall_forall. intros p Hp%list_elem_of_In%repeat_spec. subst p. apply zero_buf_typed.
Qed.

(** What may happen at all: any bytes from the link, any time that fits in the
    ages, any call of an application. *)
Definition turn_typed (ev : turn_event) : Prop :=
  match ev with
  | Frame hdr m n => mac_ok (h_src hdr) ∧ bytes m ∧ Z.of_nat (length m) < 2 ^ 32
  | Tick delta => 0 <= delta <= TICK_MAX
  | EgressTurn => True
  | AppSend _ buffer _ => bytes buffer
  | AppRecv _ _ _ => True
  end.

Lemma take_turn_typed ev : turn_typed ev → typed (fun _ => True) (take_turn ev).
Proof.
  destruct ev as [hdr m n|delta| |i buffer dest|i len peek]; intros Hok; cbn [take_turn turn_typed] in *.
  - destruct Hok as (Hh & Hm & Hl). eapply typed_bind; [by apply (ingress_frame_typed _ _ _ _ (length m))|].
    intros _ _. by apply typed_ret.
  - by apply periodic_tasks_typed.
  - apply egress_round_typed.
  - apply (typed_on _ udp_typed); [auto with typed..|]. intros s Hs. unfold app_sendto.
    eapply returns_bind; [by apply sendto_typed; [apply sock_at_typed|]|]. intros [r s'] Hs'.
    apply returns_done. split; [|done]. by apply put_typed.
  - apply (typed_on _ udp_typed); [auto with typed..|]. intros s Hs. unfold app_recvfrom.
    eapply returns_bind; [by apply recvfrom_typed, sock_at_typed|]. intros [r s'] [_ Hs'].
    apply returns_done. split; [|done]. by apply put_typed.
Qed.

(** *** The data areas are mapped and keep their size *)
Definition sizes (s : xstack_sock) : nat * nat := (length (ingress_data s), length (egress_data s)).

Definition mapped (s : xstack_sock) : Prop :=
  Z.of_nat (length (ingress_data s)) = XSTACK_DATAGRAM_BUF_SIZE ∧
  Z.of_nat (length (egress_data s)) = XSTACK_DATAGRAM_BUF_SIZE.

Ltac call_by_call Hrun :=
  repeat match type of Hrun with
  | mbind _ _ = Done _ => let Hw := fresh "Hw" in apply bind_done_inv in Hrun as (? & Hw & Hrun); try apply mem_write_length in Hw
  | (if bool_decide _ then _ else _) = Done _ => case_bool_decide; [first [done|by injection Hrun as <- <-|by injection Hrun as <-]|]
  end.

Lemma dgram_input_sizes s src buf r s' : xstack_sock_dgram_input s src buf = Done (r, s') → sizes s' = sizes s.
Proof.
  unfold xstack_sock_dgram_input. cbv zeta. intros Hrun. call_by_call Hrun. injection Hrun as _ <-.
  unfold sizes. cbn. congruence.
Qed.

Lemma sendto_sizes s buffer dest r s' : xstack_sendto s buffer dest = Done (r, s') → sizes s' = sizes s.
Proof.
  unfold xstack_sendto. cbv zeta. intros Hrun. call_by_call Hrun. injection Hrun as _ <-.
  unfold sizes. cbn. congruence.
Qed.

Lemma recvfrom_sizes s len peek r s' : xstack_recvfrom s len peek = Done (r, s') → sizes s' = sizes s.
Proof.
  unfold xstack_recvfrom. cbv zeta. intros Hrun. destruct (queue_peek _); [|done]. call_by_call Hrun.
  destruct peek; [by injection Hrun as _ <-|]. apply bind_done_inv in Hrun as ([? ?] & _ & Hrun). by injection Hrun as _ <-.
Qed.

Lemma egress_discard_sizes s s' : egress_discard s = Done s' → sizes s' = sizes s.
Proof.
  unfold egress_discard. intros Hrun. apply bind_done_inv in Hrun as ([? ?] & _ & Hrun). by injection Hrun as <-.
Qed.

Abbreviation keeps_sizes := (Keeps.keeps (of_sockets sizes)).

Lemma egress_socket_sizes i : keeps_sizes (egress_socket i).
Proof.
  unfold egress_socket. apply keeps_bind; [apply keeps_gets|]. intros s. apply keeps_bind; [apply keeps_lift|].
  intros [d|]; [|apply keeps_ret]. cbv zeta. apply keeps_bind.
  { unfold proto_send, xstack_udp_send. destruct (_ && _); [|apply keeps_ret]. case_bool_decide; [apply keeps_ret|keeps_calls]. }
  intros _ w a w' Hrun. apply M_bind_inv in Hrun as (s1 & w1 & Hg & Hrun). injection Hg as <- <-.
  apply M_bind_inv in Hrun as (s2 & w2 & Hd & Hrun). apply lift_inv in Hd as [Hd ->]. injection Hrun as _ <-.
  apply egress_discard_sizes in Hd. exact (insert_part sizes (w_udp w) i s2 Hd).
Qed.

Lemma take_turn_sizes ev : keeps_sizes (take_turn ev).
Proof.
  destruct ev as [hdr m n|delta| |i buffer dest|i len peek]; cbn [take_turn].
  - apply keeps_bind; [|intros _; apply keeps_ret]. apply keeps_ingress_frame, dgram_input_sizes.
  - apply keeps_periodic_tasks.
  - unfold egress_round. apply keeps_bind; [apply keeps_gets|]. intros n. generalize 0%nat as i.
    induction n as [|n IH]; intros i; cbn [egress_sockets]; [apply keeps_ret|].
    apply keeps_bind; [apply egress_socket_sizes|]. by intros _.
  - intros w a w' Hrun. unfold on in Hrun. destruct (app_sendto _ _ _ _) as [[u st]| |] eqn:Ha; [|done..].
    injection Hrun as _ <-. unfold app_sendto in Ha. apply bind_done_inv in Ha as ([r s'] & Hs & Ha).
    injection Ha as _ <-. apply sendto_sizes in Hs. exact (insert_part sizes (w_udp w) i s' Hs).
  - intros w a w' Hrun. unfold on in Hrun. destruct (app_recvfrom _ _ _ _) as [[u st]| |] eqn:Ha; [|done..].
    injection Hrun as _ <-. unfold app_recvfrom in Ha. apply bind_done_inv in Ha as ([r s'] & Hs & Ha).
    injection Ha as _ <-. apply recvfrom_sizes in Hs. exact (insert_part sizes (w_udp w) i s' Hs).
Qed.

Lemma mapped_sizes w w' : of_sockets sizes w' = of_sockets sizes w → Forall mapped (sockets (w_udp w)) →
  Forall mapped (sockets (w_udp w')).
Proof.
  intros Hs Hm. rewrite Forall_lookup in Hm. apply Forall_lookup. intros i s Hi.
  assert (Hl : of_sockets sizes w !! i = Some (sizes s)) by (rewrite <-Hs; unfold of_sockets; by rewrite list_lookup_fmap, Hi).
  unfold of_sockets in Hl. rewrite list_lookup_fmap in Hl. destruct (sockets (w_udp w) !! i) as [s0|] eqn:H0; [|done].
  injection Hl as E1 E2. destruct (Hm i s0 H0). unfold mapped. by rewrite <-E1, <-E2.
Qed.

Lemma init_sock_mapped proto addr s : xstack_init_sock proto addr = Done s → mapped s.
Proof.
  unfold xstack_init_sock, mapped. intros Hrun. do 2 apply bind_done_inv in Hrun as (? & _ & Hrun).
  assert (Hl : Z.of_nat (length (repeat 0 (Z.to_nat XSTACK_DATAGRAM_BUF_SIZE))) = XSTACK_DATAGRAM_BUF_SIZE).
  { rewrite repeat_length. apply Z2Nat.id. unfold XSTACK_DATAGRAM_BUF_SIZE. lia. }
  revert Hrun Hl. generalize (repeat 0 (Z.to_nat XSTACK_DATAGRAM_BUF_SIZE)). intros zeros [= <-] Hl. by split.
Qed.

Lemma bind_sockets st i r st' : xstack_bind st i = Done (r, st') → sockets st' = sockets st.
Proof.
  unfold xstack_bind, xstack_udp_bind. cbv zeta. intros Hrun. case_bool_decide; [|by injection Hrun as _ <-].
  case_bool_decide; [by injection Hrun as _ <-|]. apply bind_done_inv in Hrun as ([j|] & _ & Hrun); [by injection Hrun as _ <-|].
  apply bind_done_inv in Hrun as ([? ?] & _ & Hrun). by injection Hrun as _ <-.
Qed.

Lemma init_loop_mapped n : ∀ st i st', xstack_init_loop st i n = Done (None, st') →
  Forall mapped (take i (sockets st)) → length (sockets st) = (i + n)%nat → Forall mapped (sockets st').
Proof.
  induction n as [|n IH]; intros st i st' Hrun Hm Hl; cbn [xstack_init_loop] in Hrun.
  { injection Hrun as <-. by rewrite take_ge in Hm by lia. }
  apply bind_done_inv in Hrun as (s & Hs & Hrun). apply bind_done_inv in Hrun as ([[e|] st1] & Hb & Hrun); [done|].
  apply bind_sockets in Hb. cbn [put_sock sockets] in Hb.
  apply (IH _ _ _ Hrun); rewrite Hb; [|by rewrite length_insert, Hl; lia].
  rewrite (take_S_r _ _ s) by (by rewrite list_lookup_insert_eq by lia). rewrite take_insert_ge by lia.
  apply Forall_app_2; [done|]. constructor; [|constructor]. by eapply init_sock_mapped.
Qed.

Lemma boot_mapped h w w' : boot h w = Done (None, w') → Forall mapped (sockets (w_udp w')).
Proof.
  unfold boot. intros Hrun. apply M_bind_inv in Hrun as (r & w1 & _ & Hrun). unfold on in Hrun.
  destruct (xstack_init (w_udp w1)) as [[e st]| |] eqn:Hi; [|done..]. injection Hrun as -> <-.
  by apply (init_loop_mapped _ (w_udp w1) 0 st Hi); [constructor|].
Qed.

(** The states that [main] and any turns lead to, once [xstack_init] has
    succeeded (when it fails the program exits). *)
Inductive reachable_by_turns (mac : list Z) (addrs : list sockaddr) : world → Prop :=
| turns_boot w : boot 0 (initial_world mac (static_sockets addrs)) = Done (None, w) → reachable_by_turns mac addrs w
| turns_step ev w w' :
    reachable_by_turns mac addrs w → turn_typed ev → take_turn ev w = Done (tt, w') → reachable_by_turns mac addrs w'.
End kernel.

(** ** Property *)

(** C12: Types.  For any hardware address and any table of sockets, whatever
    arrives from the link (any bytes at all), whatever the kernel answers to
    [sendto], whatever the applications send and receive, and whatever time passes
    between two ticks (as long as an age of the ARP cache plus it fits in an [int]),
    in every state that is reached once [xstack_init] has succeeded the data of the
    whole stack are well typed: [errno] and the other integers are in the range of
    their C types, buffers hold bytes, both data areas of every socket are
    mapped and have their full size, the other buffers have theirs, queue indices are in
    range, and every frame that was handed to the kernel has 74 to 1518 bytes. *)
Theorem stack_well_typed `{Kernel} mac addrs w :
  mac_ok mac → Forall sockaddr_ok addrs → reachable_by_turns mac addrs w →
  world_typed w ∧ Forall mapped (sockets (w_udp w)).
Proof.
  intros Hm Ha Hr. induction Hr as [w Hb|ev w w' Hr [IHt IHm] Hev Hrun]; split.
  - by apply (boot_typed 0 ltac:(lia) _ _ _ (initial_typed mac addrs Hm Ha) Hb).
  - by eapply boot_mapped.
  - by apply (take_turn_typed ev Hev w tt w' IHt Hrun).
  - by apply (mapped_sizes w); [apply (take_turn_sizes ev w tt)|].
Qed.

(** Sixty bytes that are no packet. *)
Definition demo_junk : turn_event := Frame demo_ether (repeat 0x45 60) 60.

Lemma stack_well_typed_witness :
  ∃ w w', @reachable_by_turns accept_all mac_a stack_sockets w ∧
    @take_turn accept_all demo_junk w = Done (tt, w') ∧ world_typed w' ∧ Forall mapped (sockets (w_udp w')).
Proof.
  destruct (@boot_done accept_all accept_all_reliable mac_a mac_a_ok) as (w & Hw & _).
  assert (Hb : @reachable_by_turns accept_all mac_a stack_sockets w) by (exact (turns_boot mac_a stack_sockets w Hw)).
  assert (Hr : @take_turn accept_all demo_junk w = Done (tt, w)) by (vm_compute; reflexivity).
  exists w, w. split; [exact Hb|]. split; [exact Hr|].
  apply (@stack_well_typed accept_all mac_a stack_sockets w).
  - apply mac_a_ok.
  - constructor; [|constructor]. unfold sockaddr_ok, stack_sockets. simpl. lia.
  - apply (turns_step mac_a stack_sockets demo_junk w w Hb); [|exact Hr].
    split; [apply mac_b_ok|]. split; [|simpl; lia]. apply (bool_decide_unpack _). vm_compute. exact I.
Defined.
