(* ===== verification/FragTable.v ===== *)
(** * Several fragmented datagrams at once, [src/ip_fragment.c]

    The four packet buffers and their tree refine a table of datagrams in
    progress, by source, destination, protocol and identification: fragments of
    any datagrams arrive interleaved, each is added to the entry of its datagram,
    an entry is opened when there is room, closed when its datagram is complete
    (the buffer is handed on, comes back with other contents and is used again),
    and [ip_fragment_timer] closes those that took too long.  The refinement holds
    for datagrams of up to 16384 bytes, the part of the bit map that
    [fragmap_init] clears. *)

From S2P Require Import Prelude Bytes IpHeader RBTree RBIndex RBMap Fragment.

#[local] Open Scope Z_scope.

(** ** The specification *)

(** RFC 791 calls it the buffer identifier. *)
Definition dgram_key (h : ip_hdr) : Z := be_val (bufid h).

(** A datagram in progress: its header, its data, the fragments that have
    arrived and the seconds that are left. *)
Record entry : Type := Entry {
  e_ip : ip_hdr;
  e_data : list Z;
  e_seen : list fragment;
  e_left : Z
}.

Abbreviation table := (gmap Z entry).

Inductive frag_event : Type :=
| Arrives (h : ip_hdr) (data : list Z) (a : arrival)     (* a fragment of the datagram [data] *)
| Elapsed (delta : Z).                                    (* [ip_fragment_timer] is called *)

Inductive frag_answer : Type :=
| Refused (e : Z)
| Stored
| Whole (h : ip_hdr) (data : list Z).

(** The header of a reassembled datagram, its checksum apart. *)
Definition whole_hdr (h : ip_hdr) (data : list Z) : ip_hdr :=
  set_csum 0 (with_len (length data) (blank_len h)).

Definition tab_add (t : table) (e : entry) (f : fragment) : frag_answer * table :=
  let seen := f :: e_seen e in
  let k := dgram_key (e_ip e) in
  if all_seen (e_data e) seen then (Whole (whole_hdr (e_ip e) (e_data e)) (e_data e), delete k t)
  else (Stored, <[k := Entry (e_ip e) (e_data e) seen (e_left e)]> t).

Definition e_tick (delta : Z) (e : entry) : option entry :=
  let left := e_left e - delta in
  if bool_decide (left <= 0) then None else Some (Entry (e_ip e) (e_data e) (e_seen e) left).

Definition tab_step (t : table) (ev : frag_event) : frag_answer * table :=
  match ev with
  | Arrives h data a =>
      match t !! dgram_key h with
      | Some e => tab_add t e (fragment_of a)
      | None =>
          if bool_decide (size t < PACKET_BUFFERS)%nat
          then tab_add t (Entry h data [] XSTACK_IP_FRAGMENT_TLB) (fragment_of a)
          else (Refused (- ENOBUFS), t)
      end
  | Elapsed delta => (Stored, omap (e_tick delta) t)
  end.

Lemma tab_add_open t e e0 f : tab_add (<[dgram_key (e_ip e) := e0]> t) e f = tab_add t e f.
Proof. unfold tab_add. cbv zeta. by rewrite delete_insert_eq, insert_insert_eq. Qed.

Fixpoint tab_run (t : table) (evs : list frag_event) : list frag_answer * table :=
  match evs with
  | [] => ([], t)
  | ev :: evs =>
      let (r, t) := tab_step t ev in
      let (rs, t) := tab_run t evs in (r :: rs, t)
  end.

(** *** Well-formed events *)
Definition dgram_ok (h : ip_hdr) (data : list Z) : Prop :=
  data_ok data ∧ Z.of_nat (length data) <= 16384 ∧ 20 <= ip_hdr_hlen h.

(** A fragment belongs to the datagram in progress with its key. *)
Definition event_ok (t : table) (ev : frag_event) : Prop :=
  match ev with
  | Arrives h data a =>
      dgram_ok h data ∧ frag_ok h data (fragment_of a) ∧
      ∀ e, t !! dgram_key h = Some e →
        e_ip e = h ∧ e_data e = data
  | Elapsed delta => 0 <= delta
  end.

Fixpoint session_ok (t : table) (evs : list frag_event) : Prop :=
  match evs with
  | [] => True
  | ev :: evs => event_ok t ev ∧ session_ok (tab_step t ev).2 evs
  end.

(** ** The code *)

(** What becomes of a complete packet is not the business of this file: [handed]
    is the contents of its buffer when it comes back. *)
Section handed.
Context (handed : packet_buf → ip_hdr * list Z).

Definition hand_back (p : packet_buf) : packet_buf :=
  PacketBuf (reserved p) (timer p) (fragmap p) (handed p).1 (handed p).2.

(** What follows [frag_receive] in [ip_fragment_input], without the calls of
    [ip_input] and [ip_send]. *)
Definition frag_hand (r : Z + nat * bool) (st : frag_state) : outcome (frag_answer * frag_state) :=
  match r with
  | inl e => Done (Refused e, st)
  | inr (_, false) => Done (Stored, st)
  | inr (i, true) =>
      let p := buf_at st i in
      st ← release_packet_buffer (set_buf st i (hand_back p)) i;
      Done (Whole (set_csum 0 (pb_ip_hdr p)) (take (Z.to_nat (ip_len (pb_ip_hdr p))) (pb_payload p)), st)
  end.

Definition frag_step (st : frag_state) (ev : frag_event) : outcome (frag_answer * frag_state) :=
  match ev with
  | Arrives h data (f, c, junk) =>
      '(r, st) ← frag_receive st (set_csum c (frag_ip h data f)) (chunk data f ++ junk);
      frag_hand r st
  | Elapsed delta => st ← ip_fragment_timer st delta 0 PACKET_BUFFERS; Done (Stored, st)
  end.

Fixpoint frag_session (st : frag_state) (evs : list frag_event) : outcome (list frag_answer * frag_state) :=
  match evs with
  | [] => Done ([], st)
  | ev :: evs =>
      '(r, st) ← frag_step st ev;
      '(rs, st) ← frag_session st evs;
      Done (r :: rs, st)
  end.
End handed.

(** ** The simulation relation *)

(** A buffer that is not in use: [fragmap_init] will clear its bit map. *)
Definition buf_free (p : packet_buf) : Prop :=
  reserved p = false ∧ map_ok (fragmap p) ∧ (∀ j, 2048 <= j < 8192 → bit (fragmap p) j = false) ∧
  Z.of_nat (length (pb_payload p)) = IP_MAX_BYTES.

Definition buf_entry (e : entry) (p : packet_buf) : Prop :=
  buf_holds (e_ip e) (e_data e) p (e_seen e) ∧ timer p = e_left e ∧
  dgram_ok (e_ip e) (e_data e) ∧ Forall (frag_ok (e_ip e) (e_data e)) (e_seen e).

Section table.
Context `{!OrderedIndex rb_head indexes nodes RB_FIND RB_INSERT RB_REMOVE RB_FOREACH_FIND}.

(** [s] are the buffers in use. *)
Record table_holds (t : table) (s : gset nat) (st : frag_state) : Prop := TableHolds {
  th_length : length (packet_buffer st) = PACKET_BUFFERS;
  th_tree : indexes (buf_key st) (packet_buffer_head st) s;
  th_nodes i : (i < PACKET_BUFFERS)%nat → i ∈ nodes (packet_buffer_head st);
  th_range i : i ∈ s → (i < PACKET_BUFFERS)%nat;
  th_used i : i ∈ s → ∃ e, t !! buf_key st i = Some e ∧ buf_entry e (buf_at st i);
  th_free i : (i < PACKET_BUFFERS)%nat → i ∉ s → buf_free (buf_at st i);
  th_all k e : t !! k = Some e → ∃ i, i ∈ s ∧ buf_key st i = k;
  th_size : size t = size s
}.

Lemma entry_key e p : buf_entry e p → be_val (bufid (pb_ip_hdr p)) = dgram_key (e_ip e).
Proof. intros ((_ & _ & _ & _ & _ & c & ->) & _). done. Qed.

Lemma used_key t s st i e : table_holds t s st → i ∈ s → t !! buf_key st i = Some e →
  buf_entry e (buf_at st i) ∧ buf_key st i = dgram_key (e_ip e).
Proof.
  intros Ht Hi He. destruct (th_used _ _ _ Ht i Hi) as (e' & He' & Hb).
  rewrite He in He'. injection He' as <-. split; [done|]. unfold buf_key. by apply entry_key.
Qed.

Lemma buf_at_set st i p : (i < length (packet_buffer st))%nat → buf_at (set_buf st i p) i = p.
Proof. intros Hi. unfold buf_at, set_buf. cbn [packet_buffer]. by rewrite list_lookup_insert_eq. Qed.

Lemma buf_at_other st i j p : j ≠ i → buf_at (set_buf st i p) j = buf_at st j.
Proof. intros Hj. unfold buf_at, set_buf. cbn [packet_buffer]. by rewrite list_lookup_insert_ne. Qed.

(** The table does not change where the keys of [s] do not. *)
Lemma key_other st i j p : j ≠ i → buf_key (set_buf st i p) j = buf_key st j.
Proof. intros Hj. unfold buf_key. by rewrite buf_at_other. Qed.

(** *** Searching *)
Lemma find_key t s st h :
  table_holds t s st →
  ∃ res, find_packet_buffer st h = Done res ∧
    match res with
    | Some i => i ∈ s ∧ buf_key st i = dgram_key h
    | None => t !! dgram_key h = None
    end.
Proof.
  intros Ht. unfold find_packet_buffer.
  destruct (ix_find _ _ _ _ _ (th_tree _ _ _ Ht) (buf_compares st h s)) as (res & Hr & Hf).
  exists res. split; [done|]. destruct res as [i|]; [done|]. apply eq_None_not_Some. intros [e He].
  destruct (th_all _ _ _ Ht _ _ He) as (i & Hi & Hk). by apply (Hf i Hi).
Qed.

(** *** Allocation *)
Lemma first_free_spec l i :
  match first_free l i with
  | Some j => (i <= j < i + length l)%nat ∧ ∃ p, l !! (j - i)%nat = Some p ∧ reserved p = false
  | None => Forall (fun p => reserved p = true) l
  end.
Proof.
  revert i. induction l as [|p l IH]; intros i; cbn [first_free]; [constructor|].
  destruct (reserved p) eqn:Hr.
  - specialize (IH (S i)). destruct (first_free l (S i)) as [j|]; [|by constructor].
    destruct IH as (Hj & q & Hq & Hrq). cbn [length]. split; [lia|]. exists q. split; [|done].
    replace (j - i)%nat with (S (j - S i)) by lia. done.
  - cbn [length]. split; [lia|]. exists p. by rewrite Nat.sub_diag.
Qed.

Lemma used_reserved t s st i : table_holds t s st → (i < PACKET_BUFFERS)%nat →
  reserved (buf_at st i) = bool_decide (i ∈ s).
Proof.
  intros Ht Hi. case_bool_decide as Hs.
  - destruct (th_used _ _ _ Ht i Hs) as (e & _ & (Hr & _) & _). done.
  - by destruct (th_free _ _ _ Ht i Hi Hs).
Qed.

Lemma all_buffers_size : size (set_seq 0 PACKET_BUFFERS : gset nat) = PACKET_BUFFERS.
Proof. by vm_compute. Qed.

Lemma free_buffer t s st : table_holds t s st →
  match first_free (packet_buffer st) 0 with
  | Some i => (i < PACKET_BUFFERS)%nat ∧ i ∉ s ∧ (size t < PACKET_BUFFERS)%nat
  | None => size t = PACKET_BUFFERS
  end.
Proof.
  intros Ht. pose proof (first_free_spec (packet_buffer st) 0) as Hf. pose proof (th_length _ _ _ Ht) as Hl.
  assert (Hsub : s ⊆ set_seq 0 PACKET_BUFFERS).
  { intros i Hi. apply elem_of_set_seq. pose proof (th_range _ _ _ Ht i Hi). lia. }
  rewrite (th_size _ _ _ Ht). destruct (first_free _ _) as [i|].
  - rewrite Hl in Hf. destruct Hf as (Hi & p & Hp & Hr). rewrite Nat.sub_0_r in Hp.
    assert (Hn : i ∉ s).
    { intros Hs. pose proof (used_reserved t s st i Ht ltac:(lia)) as Hu. rewrite bool_decide_true in Hu by done.
      unfold buf_at in Hu. rewrite Hp in Hu. cbn in Hu. congruence. }
    split; [lia|]. split; [done|]. assert (Hsub' : {[i]} ∪ s ⊆ set_seq 0 PACKET_BUFFERS).
    { apply union_subseteq. split; [|done]. intros j ->%elem_of_singleton. apply elem_of_set_seq. lia. }
    apply subseteq_size in Hsub'. rewrite all_buffers_size, size_union, size_singleton in Hsub' by set_solver. lia.
  - apply Nat.le_antisymm; [apply subseteq_size in Hsub; by rewrite all_buffers_size in Hsub|].
    rewrite <-all_buffers_size. apply subseteq_size. intros i Hi%elem_of_set_seq.
    pose proof (used_reserved t s st i Ht ltac:(lia)) as Hu.
    destruct (lookup_lt_is_Some_2 (packet_buffer st) i ltac:(lia)) as [p Hp].
    rewrite Forall_lookup in Hf. unfold buf_at in Hu. rewrite Hp in Hu. cbn in Hu. rewrite (Hf i p Hp) in Hu.
    symmetry in Hu. by apply bool_decide_eq_true in Hu.
Qed.

(** *** A fragment for a buffer in use *)
Lemma buf_store_timer p ip rx b : buf_store p ip rx = Done b → timer b = timer p.
Proof.
  unfold buf_store. cbv zeta. intros Hs. apply bind_done_inv in Hs as (d & _ & Hs).
  apply bind_done_inv in Hs as (pl & _ & Hs). apply bind_done_inv in Hs as (m & _ & Hs).
  by apply done_inj in Hs as <-.
Qed.

Lemma store_entry e p f c junk :
  buf_entry e p → frag_ok (e_ip e) (e_data e) f →
  ∃ b, buf_store p (set_csum c (frag_ip (e_ip e) (e_data e) f)) (chunk (e_data e) f ++ junk) = Done b ∧
    buf_complete b = Done (all_seen (e_data e) (f :: e_seen e)) ∧
    buf_entry (Entry (e_ip e) (e_data e) (f :: e_seen e) (e_left e)) b.
Proof.
  intros (Hh & Ht & Hd & Hs) Hf. destruct Hd as (Hdk & Hsmall & Hhl).
  destruct (buf_store_spec _ _ p _ f c junk Hdk Hhl Hh Hf) as (b & Hb & Hh').
  exists b. split; [done|]. split; [by eapply buf_complete_spec|].
  split; [done|]. split; [by rewrite (buf_store_timer _ _ _ _ Hb)|]. split; [done|]. by constructor.
Qed.

Lemma holds_update t s st i e p :
  table_holds t s st → i ∈ s → buf_entry e p → dgram_key (e_ip e) = buf_key st i →
  table_holds (<[buf_key st i := e]> t) s (set_buf st i p).
Proof.
  intros Ht Hi Hb Hk. pose proof (th_range _ _ _ Ht i Hi) as Hlt. pose proof (th_length _ _ _ Ht) as Hl.
  assert (Hkey : ∀ j, buf_key (set_buf st i p) j = buf_key st j).
  { intros j. destruct (decide (j = i)) as [->|Hj]; [|by apply key_other].
    unfold buf_key at 1. rewrite buf_at_set by lia. by rewrite (entry_key e p Hb). }
  destruct (th_used _ _ _ Ht i Hi) as (e0 & He0 & _). split.
  - unfold set_buf. cbn [packet_buffer]. by rewrite length_insert.
  - apply (ix_ext (buf_key st)); [apply Ht|]. intros j _. apply Hkey.
  - apply Ht.
  - apply Ht.
  - intros j Hj. rewrite Hkey. destruct (decide (j = i)) as [->|Hne].
    + exists e. by rewrite lookup_insert_eq, buf_at_set by lia.
    + rewrite buf_at_other, lookup_insert_ne by (done || intros E; by apply Hne, (ix_inj _ _ _ _ _ (th_tree _ _ _ Ht))).
      by apply (th_used _ _ _ Ht).
  - intros j Hj Hjs. rewrite buf_at_other by set_solver. by apply (th_free _ _ _ Ht).
  - intros k e1. rewrite lookup_insert. case_decide as Hkk.
    + intros _. exists i. by rewrite Hkey.
    + intros He1. destruct (th_all _ _ _ Ht k e1 He1) as (j & Hj & <-). exists j. by rewrite Hkey.
  - rewrite map_size_insert, He0. apply Ht.
Qed.

(** *** Release *)
Lemma covered_small e j : dgram_ok (e_ip e) (e_data e) → Forall (frag_ok (e_ip e) (e_data e)) (e_seen e) →
  2048 <= j → covered (e_seen e) j = false.
Proof.
  intros (_ & Hsmall & _) Hs Hj. unfold covered. apply not_true_iff_false. intros Hex.
  apply existsb_exists in Hex as (f & Hf & Hc). apply list_elem_of_In in Hf. rewrite Forall_forall in Hs.
  destruct (Hs f Hf) as (H0 & H1 & H2 & _). unfold covers_block in Hc. apply bool_decide_eq_true in Hc. dlia.
Qed.

Lemma holds_release t s st i p :
  table_holds t s st → i ∈ s → fragmap p = fragmap (buf_at st i) →
  length (pb_payload p) = length (pb_payload (buf_at st i)) →
  ∃ st', release_packet_buffer (set_buf st i p) i = Done st' ∧
    table_holds (delete (buf_key st i) t) (s ∖ {[i]}) st' ∧
    ∀ j, j ≠ i → buf_at st' j = buf_at st j.
Proof.
  intros Ht Hi Hm Hp. pose proof (th_range _ _ _ Ht i Hi) as Hlt. pose proof (th_length _ _ _ Ht) as Hl.
  destruct (th_used _ _ _ Ht i Hi) as (e & He & (Hh & _ & Hd & Hs)).
  destruct (ix_remove _ _ _ i (th_tree _ _ _ Ht) Hi) as (h & Hr & Hix & Hn).
  unfold release_packet_buffer. change (packet_buffer_head (set_buf st i p)) with (packet_buffer_head st).
  rewrite Hr, bind_done, buf_at_set by lia. eexists. split; [done|].
  set (q := with_reserved false p). change (packet_buffer (set_buf st i p)) with (<[i:=p]> (packet_buffer st)).
  rewrite list_insert_insert_eq.
  assert (Hat : ∀ j, j ≠ i → buf_at (FragState (<[i:=q]> (packet_buffer st)) h) j = buf_at st j).
  { intros j Hj. unfold buf_at. cbn [packet_buffer]. by rewrite list_lookup_insert_ne. }
  assert (Hki : ∀ j, j ∈ s → j ≠ i → buf_key st j ≠ buf_key st i).
  { intros j Hj Hne E. by apply Hne, (ix_inj _ _ _ _ _ (th_tree _ _ _ Ht)). }
  split; [|done]. split.
  - cbn [packet_buffer]. by rewrite length_insert.
  - cbn [packet_buffer_head]. apply (ix_ext (buf_key st)); [done|]. intros j [Hj Hne]%elem_of_difference.
    unfold buf_key. by rewrite Hat by set_solver.
  - intros j Hj. cbn [packet_buffer_head]. rewrite Hn. by apply (th_nodes _ _ _ Ht).
  - intros j [Hj _]%elem_of_difference. by apply (th_range _ _ _ Ht).
  - intros j [Hj Hne]%elem_of_difference. unfold buf_key. rewrite Hat by set_solver.
    rewrite lookup_delete_ne by (intros E; symmetry in E; by apply (Hki j Hj ltac:(set_solver))).
    by apply (th_used _ _ _ Ht).
  - intros j Hj Hns. destruct (decide (j = i)) as [->|Hne].
    + unfold buf_at. cbn [packet_buffer]. rewrite list_lookup_insert_eq by lia. change (buf_free q).
      destruct Hh as (_ & Hmap & Hbits & Hlen & _). unfold buf_free, q. cbn [reserved fragmap pb_payload with_reserved].
      rewrite Hm, Hp. split; [done|]. split; [done|]. split; [|done].
      intros b Hb. rewrite Hbits by lia. apply (covered_small e); [done|done|lia].
    + rewrite Hat by done. apply (th_free _ _ _ Ht); [done|]. set_solver.
  - intros k e1 [Hk He1]%lookup_delete_Some. destruct (th_all _ _ _ Ht k e1 He1) as (j & Hj & <-).
    assert (Hne : j ≠ i) by (by intros ->). exists j. split; [set_solver|]. unfold buf_key. rewrite (Hat j Hne). reflexivity.
  - rewrite map_size_delete, He, size_difference, size_singleton, (th_size _ _ _ Ht) by set_solver. lia.
Qed.

(** *** Claiming a free buffer *)
Lemma init_clears m : map_ok m → (∀ j, 2048 <= j < 8192 → bit m j = false) →
  map_ok (fragmap_init m) ∧ ∀ j, 0 <= j < 8192 → bit (fragmap_init m) j = false.
Proof.
  intros [Hl Hw] Hhigh. unfold fragmap_init. change (Z.to_nat (FRAG_MAP_SIZE / 4)) with 64%nat.
  assert (Hz : ∀ x, x ∈ repeat 0 64 → x = 0) by (intros x Hx; by apply list_elem_of_In, repeat_spec in Hx).
  split; [split|].
  - rewrite length_app, repeat_length, length_drop. lia.
  - apply Forall_app_2; [|by apply Forall_drop]. apply Forall_forall. intros x Hx. rewrite (Hz x Hx). lia.
  - intros j Hj. pose proof (map_index j Hj) as (Ha & Hb & He). unfold bit.
    destruct (decide (j < 2048)) as [Hlow|Hge].
    + rewrite lookup_app_l by (rewrite repeat_length; lia).
      destruct (repeat 0 64 !! _) as [w|] eqn:Hx; [|apply Z.testbit_0_l].
      apply list_elem_of_lookup_2 in Hx. cbn. rewrite (Hz w Hx). apply Z.testbit_0_l.
    + rewrite lookup_app_r by (rewrite repeat_length; lia). rewrite repeat_length, lookup_drop.
      replace (64 + (Z.to_nat (FRAG_MAP_AI j) - 64))%nat with (Z.to_nat (FRAG_MAP_AI j)) by lia.
      apply Hhigh. lia.
Qed.

Lemma claim_entry p h data f c :
  buf_free p → dgram_ok h data →
  buf_entry (Entry h data [] XSTACK_IP_FRAGMENT_TLB) (claim_buf p (set_csum c (frag_ip h data f))).
Proof.
  intros (Hr & Hm & Hhigh & Hlen) Hd. destruct (init_clears _ Hm Hhigh) as [Hm' Hbits].
  split; [|done]. unfold claim_buf. split_and!; cbn [e_ip e_data e_seen reserved fragmap pb_payload pb_ip_hdr]; try done.
  by exists c.
Qed.

Lemma holds_claim t s st i h data f c :
  table_holds t s st → (i < PACKET_BUFFERS)%nat → i ∉ s → t !! dgram_key h = None → dgram_ok h data →
  let hdr := set_csum c (frag_ip h data f) in
  ∃ hd, RB_INSERT (fun j => packet_buf_cmp (blank_len hdr)
          (pb_ip_hdr (buf_at (set_buf st i (claim_buf (buf_at st i) hdr)) j))) (packet_buffer_head st) i = Done (None, hd) ∧
    let st' := FragState (packet_buffer (set_buf st i (claim_buf (buf_at st i) hdr))) hd in
    buf_key st' i = dgram_key h ∧
    table_holds (<[dgram_key h := Entry h data [] XSTACK_IP_FRAGMENT_TLB]> t) ({[i]} ∪ s) st'.
Proof.
  intros Ht Hi Hns Hk Hd hdr. pose proof (th_length _ _ _ Ht) as Hl.
  pose proof (claim_entry (buf_at st i) h data f c (th_free _ _ _ Ht i Hi Hns) Hd) as Hb. fold hdr in Hb.
  set (p := claim_buf (buf_at st i) hdr) in *. set (st1 := set_buf st i p).
  assert (Hki : buf_key st1 i = dgram_key h).
  { unfold buf_key, st1. rewrite buf_at_set by lia. apply (entry_key _ _ Hb). }
  assert (Hkj : ∀ j, j ∈ s → buf_key st1 j = buf_key st j) by (intros j Hj; apply key_other; by intros ->).
  assert (Hix : indexes (buf_key st1) (packet_buffer_head st) s) by (apply (ix_ext (buf_key st)); [apply Ht|done]).
  assert (Hcmp : compares (buf_key st1) (buf_key st1 i)
    (fun j => packet_buf_cmp (blank_len hdr) (pb_ip_hdr (buf_at st1 j))) s).
  { rewrite Hki. exact (buf_compares st1 (blank_len hdr) s). }
  destruct (ix_insert _ _ _ i _ Hix Hcmp (th_nodes _ _ _ Ht i Hi) Hns) as (res & hd & -> & Hf & Hn & Hres).
  destruct res as [j|].
  { exfalso. destruct Hf as [Hj Hjk]. rewrite Hki, (Hkj j Hj) in Hjk.
    destruct (th_used _ _ _ Ht j Hj) as (e & He & _). by rewrite Hjk, Hk in He. }
  exists hd. split; [done|]. intros st'.
  assert (Hat : ∀ j, buf_at st' j = buf_at st1 j) by done. split; [exact Hki|]. split.
  - unfold st', st1, set_buf. cbn [packet_buffer]. by rewrite length_insert.
  - apply (ix_ext (buf_key st1)); [done|]. done.
  - intros j Hj. cbn [packet_buffer_head st']. rewrite Hn. by apply (th_nodes _ _ _ Ht).
  - intros j [->%elem_of_singleton|Hj]%elem_of_union; [done|by apply (th_range _ _ _ Ht)].
  - intros j [->%elem_of_singleton|Hj]%elem_of_union.
    + change (buf_key st' i) with (buf_key st1 i). rewrite Hki, lookup_insert_eq, Hat. eexists. split; [done|].
      unfold st1. by rewrite buf_at_set by lia.
    + change (buf_key st' j) with (buf_key st1 j). rewrite (Hkj j Hj), Hat. unfold st1. rewrite buf_at_other by (by intros ->).
      destruct (th_used _ _ _ Ht j Hj) as (e & He & Hbe). exists e. split; [|done].
      rewrite lookup_insert_ne; [done|]. intros E. by rewrite <-E, Hk in He.
  - intros j Hj Hnj. rewrite Hat. unfold st1. rewrite buf_at_other by set_solver. apply (th_free _ _ _ Ht); [done|set_solver].
  - intros k e. rewrite lookup_insert. case_decide as E.
    + intros _. exists i. split; [set_solver|]. by rewrite <-E.
    + intros He. destruct (th_all _ _ _ Ht k e He) as (j & Hj & <-). exists j. split; [set_solver|]. by apply Hkj.
  - rewrite map_size_insert, Hk, size_union, size_singleton, (th_size _ _ _ Ht) by set_solver. done.
Qed.

(** *** [ip_fragment_timer] *)
Section timer.
Context (delta : Z).

(** The table when the buffers from [i] on are still to be looked at. *)
Definition tick_from (st : frag_state) (i n : nat) (t : table) : table :=
  map_imap (fun k e =>
    if existsb (fun j => reserved (buf_at st j) && bool_decide (buf_key st j = k)) (seq i n)
    then e_tick delta e else Some e) t.

Lemma tick_one t s st i e : table_holds t s st → i ∈ s → t !! buf_key st i = Some e →
  let p := buf_at st i in
  let left := timer p - delta in
  let st1 := set_buf st i (PacketBuf true left (fragmap p) (pb_ip_hdr p) (pb_payload p)) in
  ∃ st' s', (if bool_decide (left <= 0) then release_packet_buffer st1 i else Done st1) = Done st' ∧
    table_holds (partial_alter (fun _ => e_tick delta e) (buf_key st i) t) s' st' ∧
    (∀ j, j ≠ i → buf_at st' j = buf_at st j) ∧ (i ∈ s' → buf_key st' i = buf_key st i).
Proof.
  intros Ht Hi He p left st1. destruct (used_key t s st i e Ht Hi He) as [Hb Hk].
  pose proof Hb as (Hh & Htm & Hd & Hs). unfold e_tick. rewrite <-Htm. fold p left.
  pose proof (th_range _ _ _ Ht i Hi) as Hlt. pose proof (th_length _ _ _ Ht) as Hl.
  case_bool_decide as Hexp.
  - destruct (holds_release t s st i (PacketBuf true left (fragmap p) (pb_ip_hdr p) (pb_payload p)) Ht Hi)
      as (st' & Hr & Hst' & Hat); [done..|].
    exists st', (s ∖ {[i]}). split; [exact Hr|]. split; [exact Hst'|]. split; [done|]. set_solver.
  - exists st1, s. split; [done|].
    assert (Hb1 : buf_entry (Entry (e_ip e) (e_data e) (e_seen e) left) (PacketBuf true left (fragmap p) (pb_ip_hdr p) (pb_payload p))).
    { split; [|done]. destruct Hh as (_ & Hh). split; [done|exact Hh]. }
    split; [exact (holds_update t s st i _ _ Ht Hi Hb1 (eq_sym Hk))|].
    split; [intros j Hj; by apply buf_at_other|]. intros _. unfold buf_key, st1. by rewrite buf_at_set by lia.
Qed.

Lemma existsb_ext_in {A} (f g : A → bool) l : (∀ x, x ∈ l → f x = g x) → existsb f l = existsb g l.
Proof.
  induction l as [|x l IH]; intros Hfg; [done|]. cbn [existsb]. rewrite Hfg, IH; [done| |by left].
  intros y Hy. apply Hfg. by right.
Qed.

Lemma timer_holds n : ∀ t s st i, table_holds t s st → (i + n = PACKET_BUFFERS)%nat →
  ∃ st' s', ip_fragment_timer st delta i n = Done st' ∧ table_holds (tick_from st i n t) s' st'.
Proof.
  induction n as [|n IH]; intros t s st i Ht Hn; cbn [ip_fragment_timer].
  { exists st, s. split; [done|]. replace (tick_from st i 0 t) with t; [done|]. apply map_eq. intros k.
    unfold tick_from. rewrite map_lookup_imap. by destruct (t !! k). }
  rewrite (used_reserved t s st i Ht) by lia. case_bool_decide as Hi.
  - destruct (th_used _ _ _ Ht i Hi) as (e & He & _). cbv zeta.
    destruct (tick_one t s st i e Ht Hi He) as (st1 & s1 & -> & Ht1 & Hat & Hkey). rewrite bind_done.
    destruct (IH _ s1 st1 (S i) Ht1 ltac:(lia)) as (st2 & s2 & Hrun & Ht2). exists st2, s2. split; [done|].
    replace (tick_from st i (S n) t) with
      (tick_from st1 (S i) n (partial_alter (fun _ => e_tick delta e) (buf_key st i) t)); [done|].
    apply map_eq. intros k. unfold tick_from. rewrite !map_lookup_imap. cbn [seq existsb].
    rewrite (used_reserved t s st i Ht), (bool_decide_true (i ∈ s)) by (done || lia). cbn [andb].
    destruct (decide (k = buf_key st i)) as [->|Hk].
    + rewrite lookup_partial_alter_eq, He, bool_decide_true by done. cbn [orb mbind option_bind].
      destruct (e_tick delta e) as [e1|] eqn:He1; [|done]. cbn [mbind option_bind].
      destruct (existsb _ _) eqn:Hex; [|done]. apply existsb_exists in Hex as (j & Hj%list_elem_of_In%elem_of_seq & Hb).
      apply andb_true_iff in Hb as [Hr Hkj%bool_decide_eq_true]. exfalso.
      rewrite (used_reserved _ s1 st1 j Ht1) in Hr by lia. apply bool_decide_eq_true in Hr.
      assert (Hl1 : partial_alter (λ _, Some e1) (buf_key st i) t !! buf_key st i = Some e1).
      { by rewrite lookup_partial_alter_eq. }
      destruct (th_all _ _ _ Ht1 _ _ Hl1) as (x & Hx & Hxk).
      assert (x = j) as -> by (apply (ix_inj _ _ _ _ _ (th_tree _ _ _ Ht1) Hx Hr); congruence).
      assert (Hjs : buf_key st1 j = buf_key st j) by (unfold buf_key; rewrite Hat by lia; done).
      assert (Hjs' : j ∈ s).
      { pose proof (used_reserved _ s1 st1 j Ht1 ltac:(lia)) as Hu. rewrite bool_decide_true, Hat in Hu by (done || lia).
        rewrite (used_reserved t s st j Ht) in Hu by lia. by apply bool_decide_eq_true in Hu. }
      assert (j = i); [|lia]. apply (ix_inj _ _ _ _ _ (th_tree _ _ _ Ht) Hjs' Hi). congruence.
    + rewrite lookup_partial_alter_ne by done. destruct (t !! k) as [e1|]; [|done]. cbn [mbind option_bind].
      rewrite (bool_decide_false (buf_key st i = k)) by done. cbn [orb].
      erewrite existsb_ext_in; [reflexivity|]. intros j Hj%elem_of_seq. unfold buf_key. by rewrite Hat by lia.
  - destruct (IH t s st (S i) Ht ltac:(lia)) as (st2 & s2 & Hrun & Ht2). exists st2, s2. split; [done|].
    unfold tick_from. cbn [seq existsb]. rewrite (used_reserved t s st i Ht), bool_decide_false by (done || lia).
    exact Ht2.
Qed.

Lemma elapsed_holds t s st : table_holds t s st →
  ∃ st' s', ip_fragment_timer st delta 0 PACKET_BUFFERS = Done st' ∧ table_holds (omap (e_tick delta) t) s' st'.
Proof.
  intros Ht. destruct (timer_holds PACKET_BUFFERS t s st 0 Ht eq_refl) as (st' & s' & Hr & Ht').
  exists st', s'. split; [done|]. replace (omap (e_tick delta) t) with (tick_from st 0 PACKET_BUFFERS t); [done|].
  apply map_eq. intros k. unfold tick_from. rewrite map_lookup_imap, lookup_omap.
  destruct (t !! k) as [e|] eqn:He; [|done]. cbn [mbind option_bind].
  destruct (th_all _ _ _ Ht k e He) as (i & Hi & Hk). pose proof (th_range _ _ _ Ht i Hi) as Hlt.
  rewrite (proj2 (existsb_exists _ _)); [done|]. exists i. split; [apply list_elem_of_In, elem_of_seq; lia|].
  by rewrite (used_reserved t s st i Ht), !bool_decide_true by done.
Qed.
End timer.

(** *** One event *)

(** A fragment joins its datagram; when it is complete the buffer is handed on,
    with a header that is not that of a fragment, and released whatever comes
    back in it. *)
Lemma add_holds t s st i e f c junk :
  table_holds t s st → i ∈ s → t !! buf_key st i = Some e → frag_ok (e_ip e) (e_data e) f →
  ∃ b complete,
    buf_store (buf_at st i) (set_csum c (frag_ip (e_ip e) (e_data e) f)) (chunk (e_data e) f ++ junk) = Done b ∧
    buf_complete b = Done complete ∧ buf_at (set_buf st i b) i = b ∧ ip_foff (pb_ip_hdr b) = 0 ∧
    ∀ handed, length (handed b).2 = length (pb_payload b) →
      ∃ st' s', frag_hand handed (inr (i, complete)) (set_buf st i b) = Done ((tab_add t e f).1, st') ∧
        table_holds (tab_add t e f).2 s' st'.
Proof.
  intros Ht Hi He Hf. destruct (used_key t s st i e Ht Hi He) as [Hb Hk].
  destruct (store_entry e (buf_at st i) f c junk Hb Hf) as (b & Hst & Hc & Hb').
  exists b, (all_seen (e_data e) (f :: e_seen e)).
  pose proof (holds_update t s st i _ _ Ht Hi Hb' (eq_sym Hk)) as Ht1. rewrite Hk in Ht1.
  pose proof (th_range _ _ _ Ht i Hi) as Hlt. pose proof (th_length _ _ _ Ht) as Hl.
  assert (Hat : buf_at (set_buf st i b) i = b) by by apply buf_at_set; lia.
  do 3 (split; [done|]). split; [destruct Hb' as ((_ & _ & _ & _ & _ & ch & ->) & _); done|].
  intros handed Hh. unfold tab_add. cbv zeta. destruct (all_seen (e_data e) (f :: e_seen e)) eqn:Hall.
  - destruct (holds_release _ s _ i (hand_back handed b) Ht1 Hi) as (st' & Hr & Ht' & _);
      [by rewrite Hat|by rewrite Hat|].
    exists st', (s ∖ {[i]}). unfold frag_hand. cbv zeta.
    rewrite Hat, Hr, bind_done. destruct Hb' as (Hh' & _ & Hd & _). cbn [e_ip e_data e_seen] in Hh', Hd.
    destruct (all_seen_payload _ _ _ _ (proj1 Hd) Hh' Hall) as (Hpay & ch & Hhdr). split.
    + rewrite Hhdr. cbn [ip_len set_csum with_len]. rewrite Nat2Z.id, Hpay. done.
    + assert (Hki : buf_key (set_buf st i b) i = dgram_key (e_ip e)).
      { unfold buf_key. rewrite Hat, Hhdr. done. }
      rewrite Hki, delete_insert_eq in Ht'. exact Ht'.
  - exists (set_buf st i b), s. done.
Qed.

(** What [frag_receive] leaves to [ip_fragment_input]. *)
Definition received (t : table) (ev : frag_event) (r : Z + nat * bool) (st : frag_state) : Prop :=
  match r with inr (i, _) => ip_foff (pb_ip_hdr (buf_at st i)) = 0 | inl _ => True end ∧
  ∀ handed, match r with inr (i, _) => length (handed (buf_at st i)).2 = length (pb_payload (buf_at st i)) | inl _ => True end →
    ∃ st' s', frag_hand handed r st = Done ((tab_step t ev).1, st') ∧ table_holds (tab_step t ev).2 s' st'.

Lemma receive_holds t s st h data f c junk :
  table_holds t s st → event_ok t (Arrives h data (f, c, junk)) →
  ∃ r st1, frag_receive st (set_csum c (frag_ip h data f)) (chunk data f ++ junk) = Done (r, st1) ∧
    received t (Arrives h data (f, c, junk)) r st1.
Proof.
  intros Ht (Hd & Hf & He0). cbn [fragment_of fst] in *. unfold frag_receive, received. cbv zeta.
  pose proof (block_in_range h data f (proj1 Hd) Hf) as Hoff. rewrite bool_decide_false by (simpl in *; lia).
  unfold get_packet_buffer. set (hdr := set_csum c (frag_ip h data f)).
  destruct (find_key t s st hdr Ht) as (res & Hfind & Hres). rewrite Hfind, bind_done.
  change (dgram_key hdr) with (dgram_key h) in Hres. cbn [tab_step fragment_of fst]. destruct res as [i|].
  - destruct Hres as [Hi Hk]. destruct (th_used _ _ _ Ht i Hi) as (e & He & Hbe). rewrite Hk in He.
    rewrite He, bind_done. destruct (He0 e He) as (<- & <-). rewrite <-Hk in He.
    destruct (add_holds t s st i e f c junk Ht Hi He Hf) as (b & cpl & Hb & Hc & Hat & Hz & Hr).
    exists (inr (i, cpl)), (set_buf st i b). fold hdr in Hb. rewrite Hb, bind_done, Hc, bind_done, Hat. by split.
  - rewrite Hres. pose proof (free_buffer t s st Ht) as Hfree. destruct (first_free _ _) as [i|].
    + destruct Hfree as (Hi & Hns & Hsz). rewrite bool_decide_true by done.
      destruct (holds_claim t s st i h data f c Ht Hi Hns Hres Hd) as (hd & Hins & Hk1 & Ht1).
      fold hdr in Hins, Hk1, Ht1. cbv zeta. cbn [packet_buffer_head set_buf].
      rewrite Hins, bind_done, bind_done.
      set (st1 := FragState _ hd) in *.
      destruct (add_holds _ _ st1 i (Entry h data [] XSTACK_IP_FRAGMENT_TLB) f c junk Ht1)
        as (b & cpl & Hb & Hc & Hat & Hz & Hr); [set_solver| |done|].
      { by rewrite Hk1, lookup_insert_eq. }
      cbn [e_ip e_data] in Hb. fold hdr in Hb.
      exists (inr (i, cpl)), (set_buf st1 i b). rewrite Hb, bind_done, Hc, bind_done, Hat. split; [done|]. split; [done|].
      intros handed Hh. rewrite <-(tab_add_open t (Entry h data [] XSTACK_IP_FRAGMENT_TLB) (Entry h data [] XSTACK_IP_FRAGMENT_TLB)).
      by apply Hr.
    + exists (inl (- ENOBUFS)), st. rewrite Hfree, bool_decide_false by lia. split; [done|]. split; [done|].
      intros handed _. by exists st, s.
Qed.

Section handed.
Context (handed : packet_buf → ip_hdr * list Z).
Context (Hhanded : ∀ p, length (handed p).2 = length (pb_payload p)).

Lemma step_holds t s st ev : table_holds t s st → event_ok t ev →
  ∃ st' s', frag_step handed st ev = Done ((tab_step t ev).1, st') ∧ table_holds (tab_step t ev).2 s' st'.
Proof.
  intros Ht Hok. destruct ev as [h data [[f c] junk]|delta]; cbn [frag_step].
  - destruct (receive_holds t s st h data f c junk Ht Hok) as (r & st1 & Hr & _ & Hh). rewrite Hr, bind_done.
    apply Hh. by destruct r as [|[]].
  - cbn [tab_step]. destruct (elapsed_holds delta t s st Ht) as (st' & s' & Hr & Ht'). exists st', s'. by rewrite Hr.
Qed.

Lemma session_holds evs : ∀ t s st, table_holds t s st → session_ok t evs →
  ∃ st' s', frag_session handed st evs = Done ((tab_run t evs).1, st') ∧ table_holds (tab_run t evs).2 s' st'.
Proof.
  induction evs as [|ev evs IH]; intros t s st Ht Hok; [by exists st, s|].
  destruct Hok as [Hev Hok]. destruct (step_holds t s st ev Ht Hev) as (st1 & s1 & Hr & Ht1).
  destruct (IH _ s1 st1 Ht1 Hok) as (st2 & s2 & Hrun & Ht2). exists st2, s2.
  cbn [frag_session tab_run]. rewrite Hr, bind_done, Hrun, bind_done.
  destruct (tab_step t ev) as [r t1]. cbn [fst snd] in *. by destruct (tab_run t1 evs).
Qed.
End handed.
End table.

Lemma init_holds : table_holds ∅ ∅ frag_init.
Proof.
  split.
  - done.
  - apply indexes_init.
  - intros i Hi. by apply nodes_init.
  - set_solver.
  - set_solver.
  - intros i Hi _. assert (Hz : buf_at frag_init i = zero_buf).
    { unfold buf_at, frag_init. cbn [packet_buffer]. destruct (repeat _ _ !! i) as [p|] eqn:Hp; [|done].
      by apply list_elem_of_lookup_2, list_elem_of_In, repeat_spec in Hp. }
    rewrite Hz. split; [done|]. split; [apply map_zero_ok|]. split; [intros j _; apply bit_zero|].
    unfold zero_buf. cbn [pb_payload]. by rewrite repeat_length, Z2Nat.id.
  - intros k e He. by rewrite lookup_empty in He.
  - by rewrite map_size_empty, size_empty.
Qed.

(** C5: Reassembly of several datagrams at once.  The fragments of any number of
    datagrams arrive in any order, interleaved, duplicated, overlapping, and the
    timer runs at any time.  The buffers and their tree give the answers of a
    table of datagrams in progress: a fragment is stored with the others of its
    source, destination, protocol and identification and with no others; the
    fragment after which every block of its datagram has arrived, and a last fragment
    that no first fragment followed (a later first fragment clears the length), hands
    on exactly the data of the datagram, whatever comes back in the buffer; the
    buffer is then used for another datagram; a datagram that would need a fifth
    buffer is refused with [-ENOBUFS]; one that takes too long is given up.  The
    fragments are such as a sender makes (not empty, inside of the data, whole
    blocks but for the last); the datagrams have at most 16384 bytes, the blocks
    [fragmap_init] clears; and two of them with the same identifier are not in
    progress at once. *)
Theorem frag_table_refined handed evs :
  (∀ p, length (handed p).2 = length (pb_payload p)) → session_ok ∅ evs →
  ∃ st s, frag_session handed frag_init evs = Done ((tab_run ∅ evs).1, st) ∧
    table_holds (tab_run ∅ evs).2 s st.
Proof. intros Hh Hok. apply (session_holds handed Hh evs ∅ ∅ frag_init); [apply init_holds|done]. Qed.

(** Two datagrams of twenty bytes, each in two fragments, interleaved. *)
Definition demo_ip2 : ip_hdr := IpHdr 0x45 0 0 78 0 64 17 0 0x0A000003 0x0A000002.

Definition demo_two : list frag_event :=
  [Arrives demo_ip demo_data (Frag 0 16, 11, []); Arrives demo_ip2 demo_data (Frag 0 16, 12, [1]);
   Elapsed 5;
   Arrives demo_ip2 demo_data (Frag 2 4, 13, []); Arrives demo_ip demo_data (Frag 2 4, 14, [])].

Lemma demo_two_frag f h : ip_hdr_hlen h = 20 → f = Frag 0 16 ∨ f = Frag 2 4 → frag_ok h demo_data f.
Proof.
  intros Hh Hf. assert (Hl : length demo_data = 20%nat) by reflexivity. unfold frag_ok, more. rewrite Hh, Hl.
  destruct Hf as [-> | ->]; cbn [f_block f_size]; split_and!; try lia; intros E; try reflexivity; done.
Qed.

Lemma demo_dgram_ok h : ip_hdr_hlen h = 20 → dgram_ok h demo_data.
Proof. intros Hh. unfold dgram_ok, data_ok. rewrite Hh. change (length demo_data) with 20%nat. lia. Qed.

Lemma frag_table_refined_witness :
  (tab_run ∅ demo_two).1 =
    [Stored; Stored; Stored; Whole (whole_hdr demo_ip2 demo_data) demo_data; Whole (whole_hdr demo_ip demo_data) demo_data] ∧
  ∃ st s, frag_session (fun p => (zero_hdr, pb_payload p)) frag_init demo_two = Done ((tab_run ∅ demo_two).1, st) ∧
    table_holds (tab_run ∅ demo_two).2 s st.
Proof.
  split; [vm_compute; reflexivity|]. apply (frag_table_refined (fun p => (zero_hdr, pb_payload p)) demo_two).
  - intros p. reflexivity.
  - unfold demo_two. cbn [session_ok].
    split; [split; [by apply demo_dgram_ok|split; [apply demo_two_frag; [done|by left]|intros e He; vm_compute in He; discriminate He]]|].
    split; [split; [by apply demo_dgram_ok|split; [apply demo_two_frag; [done|by left]|intros e He; vm_compute in He; discriminate He]]|].
    split; [cbn; lia|].
    split; [split; [by apply demo_dgram_ok|split; [apply demo_two_frag; [done|by right]|]]|].
    { intros e He. vm_compute in He. injection He as <-. by split. }
    split; [|exact I]. split; [by apply demo_dgram_ok|split; [apply demo_two_frag; [done|by right]|]].
    intros e He. vm_compute in He. injection He as <-. by split.
Defined.
