(* ===== verification/FragStack.v ===== *)
(** * Reassembly in the running stack

    The theorem of [FragTable] is about the buffers alone, with an arbitrary
    function for what becomes of a complete packet.  Here [ip_fragment_input] is the
    one of the stack, which calls [ip_input] and [ip_send] on it: whatever else
    the threads, the timer and the applications do between two fragments, the
    buffers of the stack hold the table of datagrams in progress. *)

From S2P Require Import Prelude Bytes Checksum IpHeader RBTree RBIndex Rib QueueR Socket Udp Tcp Icmp.
From S2P Require Import IpDefer Ether Arp Fragment World Output IpFragments Config Input IpInput FragInput.
From S2P Require Import Stack Egress System Keeps Types Typed FragTable.

#[local] Open Scope Z_scope.

Abbreviation keeps := (Keeps.keeps w_frag).

Section kernel.
Context `{Kernel}.

(** ** What does not touch the buffers *)
Lemma handlers_keep_frag id fn ip payload bsize :
  find_handler id ip_proto_handlers = Some fn → keeps (fn ip payload bsize).
Proof.
  intros Hf. cbn [find_handler ip_proto_handlers] in Hf.
  repeat (case_bool_decide; [injection Hf as <-; auto with keeps|]). done.
Qed.

Lemma deliver_keeps_frag ip m bsize : keeps (ip_deliver ip m bsize).
Proof.
  unfold ip_deliver. destruct (find_handler _ _) as [fn|] eqn:Hf; [|keeps_calls]. cbv zeta.
  apply keeps_bind; [by eapply handlers_keep_frag|]. intros [r p]. keeps_calls.
Qed.
#[local] Hint Resolve deliver_keeps_frag : keeps.

(** The header [ip_input] looks at is not that of a fragment. *)
Definition plain_packet (e_hdr : option ether_hdr) (m : list Z) : Prop :=
  ∀ m' ip, (match e_hdr with Some _ => ip_ntoh_inplace m | None => Done m end) = Done m' →
    ip_hdr_load m' = Done ip → ip_fragment_is_frag ip = false.

Lemma input_keeps_frag fuel e m bsize : plain_packet e m → keeps (ip_input fuel e m bsize).
Proof.
  intros Hp. destruct fuel as [|fuel]; cbn [ip_input]; [auto with keeps|].
  destruct e as [e|]; [|change (mret m) with (lift (Done m))];
    (apply keeps_bind_lift; intros m' Hm'; apply keeps_bind_lift; intros ip Hip;
     rewrite (Hp m' ip Hm' Hip); keeps_calls).
Qed.

Lemma arp_keeps_frag m bsize : keeps (arp_input m bsize).
Proof. unfold arp_input. cbv zeta. keeps_calls. Qed.
#[local] Hint Resolve arp_keeps_frag : keeps.

(** ** Turns *)

(** A turn that brings no fragment. *)
Definition no_fragment (ev : turn_event) : Prop :=
  match ev with
  | Frame hdr m _ => h_proto hdr = ETHER_PROTO_IPV4 → plain_packet (Some hdr) m
  | _ => True
  end.

Lemma frame_keeps_frag h hdr m bsize : (h_proto hdr = ETHER_PROTO_IPV4 → plain_packet (Some hdr) m) →
  keeps (ingress_frame h hdr m bsize).
Proof.
  intros Hp. unfold ingress_frame. apply keeps_bind.
  - unfold ether_input. cbn [find_handler ether_proto_handlers].
    case_bool_decide as Ha; [keeps_calls|]. case_bool_decide as Hi; [|keeps_calls].
    apply keeps_bind; [by apply input_keeps_frag, Hp|]. intros [r p]. keeps_calls.
  - intros [r p]. unfold ether_output_reply. keeps_calls.
Qed.

Lemma egress_keeps_frag : keeps egress_round.
Proof.
  unfold egress_round. apply keeps_bind; [auto with keeps|]. intros n. generalize 0%nat as i.
  induction n as [|n IH]; intros i; cbn [egress_sockets]; [auto with keeps|].
  apply keeps_bind; [|intros _; apply IH].
  unfold egress_socket, proto_send, xstack_udp_send. cbv zeta. keeps_calls.
  case_bool_decide; [apply keeps_ret|keeps_calls].
Qed.

Lemma turn_keeps_frag ev : no_fragment ev → keeps (take_turn ev).
Proof.
  destruct ev as [hdr m n|delta| | |]; intros Hn; cbn [take_turn no_fragment] in *.
  - apply keeps_bind; [by apply frame_keeps_frag|]. intros _. auto with keeps.
  - unfold run_periodic_tasks, periodic_tasks. cbn [run_tasks]. keeps_calls.
  - apply egress_keeps_frag.
  - auto with keeps.
  - auto with keeps.
Qed.
(** *** A fragment *)

(** What becomes of the rest of the state: a fragment that is stored or refused
    changes the buffers alone; a packet that is whole goes through [ip_input], as
    it is in its buffer, and what that leaves there through [ip_send]. *)
Definition handed_on (ans : frag_answer) (w w' : world) : Prop :=
  match ans with
  | Whole h data =>
      ∃ c tail fr1 r m w1 len hdr fr2 sent w2 fr3,
        ip_input 1 None (ip_hdr_store (set_csum c h) ++ data ++ tail) (length data) (set_frag fr1 w) = Done ((r, m), w1) ∧
        ip_ntoh m = Done (len, hdr) ∧
        ip_send (ip_dst hdr) (ip_proto hdr) (drop IP_HDR_SIZE m) (u64 r) (set_frag fr2 w1) = Done (sent, w2) ∧
        w' = set_frag fr3 w2
  | Stored | Refused _ => ∃ fr, w' = set_frag fr w
  end.

Lemma set_csum_back h : set_csum (ip_csum h) (set_csum 0 h) = h.
Proof. by destruct h. Qed.

(** What [ip_fragment_input] does to the buffers is a step of [FragTable], with
    what [ip_input] left in the buffer. *)
Lemma fragment_input_step t s h data f c junk w r w' :
  world_typed w → table_holds t s (w_frag w) → event_ok t (Arrives h data (f, c, junk)) →
  ip_hdr_ok h → ip_hdr_hlen h = 20 → 0 <= c < 65536 → bytes data → bytes junk →
  ip_fragment_input (ip_input 1 None) (set_csum c (frag_ip h data f)) (chunk data f ++ junk) w = Done (r, w') →
  (∃ s', table_holds (tab_step t (Arrives h data (f, c, junk))).2 s' (w_frag w')) ∧
  handed_on (tab_step t (Arrives h data (f, c, junk))).1 w w'.
Proof.
  intros Hw Ht Hok Hh Hhl Hc Hd Hj Hrun. destruct (receive_holds t s _ h data f c junk Ht Hok) as (res & st1 & Hr & Hz & Hh1).
  revert Hh1. generalize (tab_step t (Arrives h data (f, c, junk))) as ts. intros ts Hh1.
  assert (Hty : returns (λ r, frag_typed r.2) (frag_receive (w_frag w) (set_csum c (frag_ip h data f)) (chunk data f ++ junk))).
  { destruct Hok as ((Hdk & _) & Hf & _). apply frag_receive_typed; [apply Hw|by apply set_csum_ok, frag_ip_ok|].
    apply Forall_app_2; [|done]. unfold chunk. by apply Forall_take, Forall_drop. }
  pose proof (Hty _ Hr) as Hst1. cbn [snd] in Hst1.
  unfold ip_fragment_input in Hrun. apply M_bind_inv in Hrun as (res' & w1 & Hon & Hrun).
  unfold on in Hon. rewrite Hr in Hon. injection Hon as <- <-.
  assert (Hw1 : world_typed (set_frag st1 w)) by auto with typed.
  destruct res as [e|[i [|]]].
  - destruct (Hh1 (λ p, (zero_hdr, pb_payload p)) I) as (st' & s' & Hs & Ht'). injection Hs as <- <-.
    injection Hrun as _ <-. split; [by exists s'|]. by eexists.
  - apply M_bind_inv in Hrun as (p & w2 & [= <- <-] & Hrun). cbn [w_frag set_frag] in Hrun.
    apply M_bind_inv in Hrun as ([retval m] & w2 & Hin & Hrun).
    set (p := buf_at st1 i) in *. destruct (buf_at_typed st1 i Hst1) as (_ & [Hpb Hpl] & Hph & _). fold p in Hpb, Hpl, Hph.
    pose proof (ip_hdr_store_length (pb_ip_hdr p)) as Hsl.
    assert (Hlike : like (20 + length (pb_payload p)) (ip_hdr_store (pb_ip_hdr p) ++ pb_payload p)).
    { split; [apply Forall_app_2; [by apply ip_hdr_store_bytes|done]|]. by rewrite length_app, Hsl. }
    destruct (ip_input_typed 1 None _ _ _ I Hlike _ _ _ Hw1 Hin) as [Hw2 [Hmb Hml]]. cbn [snd] in Hmb, Hml.
    assert (Hplain : plain_packet None (ip_hdr_store (pb_ip_hdr p) ++ pb_payload p)).
    { intros m' ip Hm' Hl. apply done_inj in Hm'. subst m'.
      rewrite ip_hdr_load_store in Hl by done. apply done_inj in Hl. subst ip.
      unfold ip_fragment_is_frag. by rewrite Hz. }
    pose proof (input_keeps_frag 1 None _ (ip_len (pb_ip_hdr p)) Hplain _ _ _ Hin) as Hk. cbn [w_frag set_frag] in Hk.
    apply M_bind_inv in Hrun as ([q hdr] & w3 & Hn & Hrun). apply lift_inv in Hn as [Hn ->].
    apply M_bind_inv in Hrun as ([] & w4 & [= <-] & Hrun). cbn [pb_payload] in Hrun.
    apply M_bind_inv in Hrun as (r5 & w5 & Hsend & Hrun).
    pose proof (keeps_ip_send w_frag _ _ _ _ _ _ _ Hsend) as Hk5. cbn [w_frag set_frag] in Hk5.
    apply M_bind_inv in Hrun as (st6 & w6 & [= <- <-] & Hrun).
    apply M_bind_inv in Hrun as (st7 & w7 & Hrel & Hrun). apply lift_inv in Hrel as [Hrel ->].
    apply M_bind_inv in Hrun as ([] & w8 & [= <-] & Hrun). injection Hrun as _ <-. cbn [w_frag set_frag].
    rewrite Hk5, Hk in Hrel.
    destruct (Hh1 (λ _, (hdr, drop IP_HDR_SIZE m))) as (st' & s' & Hs & Ht').
    { cbn [snd]. rewrite length_drop, Hml. unfold IP_HDR_SIZE. lia. }
    unfold frag_hand in Hs. cbv zeta in Hs. unfold hand_back in Hs. cbn [fst snd] in Hs. fold p in Hs.
    rewrite Hrel, bind_done in Hs. injection Hs as <- <-. split; [by exists s'|].
    assert (Hlen : length (take (Z.to_nat (ip_len (pb_ip_hdr p))) (pb_payload p)) = Z.to_nat (ip_len (pb_ip_hdr p))).
    { rewrite length_take, Hpl. unfold ip_hdr_ok in Hph. unfold IP_MAX_BYTES. lia. }
    unfold handed_on. rewrite Hlen, Z2Nat.id by (unfold ip_hdr_ok in Hph; lia).
    exists (ip_csum (pb_ip_hdr p)), (drop (Z.to_nat (ip_len (pb_ip_hdr p))) (pb_payload p)).
    rewrite set_csum_back, take_drop. eexists _, _, _, _, _, _, _, _, _, _.
    split; [exact Hin|]. split; [exact Hn|]. split; [exact Hsend|reflexivity].
  - injection Hrun as _ <-. destruct (Hh1 (λ p, (zero_hdr, pb_payload p)) eq_refl) as (st' & s' & Hs & Ht').
    injection Hs as <- <-. split; [by exists s'|]. by eexists.
Qed.

(** The frame of a fragment for this host. *)
Record fragment_frame (w : world) (hdr : ether_hdr) (h : ip_hdr) (data : list Z) (a : arrival) : Prop := FragmentFrame {
  ff_proto : h_proto hdr = ETHER_PROTO_IPV4;
  ff_hdr : ip_hdr_ok h;
  ff_hlen : ip_hdr_hlen h = 20;
  ff_version : Z.land (ip_vhl h) 0x40 = 0x40;
  ff_arrival : arrival_ok a;
  ff_data : bytes data;
  ff_route : ∃ route, ip_route_find_by_iface (w_rib w) (ip_dst h) = Done (Some route)
}.

(** Learning the sender. *)
Lemma learn_keeps e ip w r w' : world_typed w → 0 <= ip < 2 ^ 32 → mac_ok (h_src e) →
  (_ ← on w_arp set_arp (fun a => arp_cache_insert a ip (h_src e) ARP_CACHE_DYN); mret tt) w = Done (r, w') →
  world_typed w' ∧ w_frag w' = w_frag w ∧ w_rib w' = w_rib w ∧
  ∃ ans arp, arp_cache_insert (w_arp w) ip (h_src e) ARP_CACHE_DYN = Done (ans, arp) ∧ w' = set_arp arp w.
Proof.
  intros Hw Hip Hm Hrun. apply M_bind_inv in Hrun as (a & w1 & Hon & Hend). injection Hend as _ <-.
  split; [by apply (arp_on_typed ip (h_src e) Hip Hm _ _ _ Hw Hon)|].
  split; [by refine (keeps_on w_frag _ _ _ _ _ _ _ Hon)|]. split; [by refine (keeps_on w_rib _ _ _ _ _ _ _ Hon)|].
  unfold on in Hon. destruct (arp_cache_insert _ _ _ _) as [[ans arp]| |]; [|done..]. injection Hon as <- <-. by eexists _, _.
Qed.

(** [ip_input] on a packet that passes its tests. *)
Lemma input_passes fuel e h c rest w :
  ip_hdr_ok h → 0 <= c < 65536 → acceptable h (ip_len h) = true →
  let ip := set_csum c h in
  let m := ip_hdr_store ip ++ rest in
  let hlen := Z.to_nat (ip_hdr_hlen h) in
  ip_input (S fuel) (Some e) (wire_hdr h c ++ rest) (ip_len h) w =
  (_ ← (_ ← on w_arp set_arp (fun a => arp_cache_insert a (ip_src h) (h_src e) ARP_CACHE_DYN); mret tt);
   route ← find_by_iface (ip_dst h);
   match route with
   | Some _ =>
       if ip_fragment_is_frag h then
         _ ← ip_fragment_input (ip_input fuel None) ip (drop hlen m); mret (0, m)
       else ip_deliver ip m (ip_len h)
   | None => lift (icmp_generate_dest_unreachable m hlen ICMP_CODE_HOSTUNREAC (u64 (ip_len h - ip_hdr_hlen h)))
   end) w.
Proof.
  intros Hok Hc Ha ip m hlen. cbn [ip_input].
  rewrite (lift_bind _ _ w _ (ntoh_inplace_wire h c rest Hok Hc)).
  rewrite (lift_bind _ _ w ip) by (by apply ip_hdr_load_store, set_csum_ok).
  change (ip_vhl ip) with (ip_vhl h). change (ip_len ip) with (ip_len h).
  change (ip_hdr_hlen ip) with (ip_hdr_hlen h). change (ip_src ip) with (ip_src h).
  change (ip_dst ip) with (ip_dst h). change (ip_fragment_is_frag ip) with (ip_fragment_is_frag h).
  fold m hlen. unfold acceptable in Ha. apply andb_true_iff in Ha as [[Hv Hl]%andb_true_iff _].
  rewrite Hv. apply bool_decide_eq_true in Hl. rewrite (bool_decide_false (_ < 20)) by lia.
  by rewrite (bool_decide_true (ip_len h = ip_len h)) by done.
Qed.

Lemma input_fragment fuel e h c rest w r w' :
  world_typed w → mac_ok (h_src e) → ip_hdr_ok h → 0 <= c < 65536 → acceptable h (ip_len h) = true →
  ip_fragment_is_frag h = true → (∃ route, ip_route_find_by_iface (w_rib w) (ip_dst h) = Done (Some route)) →
  ip_input (S fuel) (Some e) (wire_hdr h c ++ rest) (ip_len h) w = Done (r, w') →
  r.1 = 0 ∧ ∃ ans arp r2, world_typed (set_arp arp w) ∧
    arp_cache_insert (w_arp w) (ip_src h) (h_src e) ARP_CACHE_DYN = Done (ans, arp) ∧
    ip_fragment_input (ip_input fuel None) (set_csum c h)
      (drop (Z.to_nat (ip_hdr_hlen h)) (ip_hdr_store (set_csum c h) ++ rest)) (set_arp arp w) = Done (r2, w').
Proof.
  intros Hw Hm Hh Hc Ha Hf [route Hroute]. rewrite (input_passes fuel e h c rest w Hh Hc Ha). cbv zeta.
  assert (Hsrc : 0 <= ip_src h < 2 ^ 32) by (unfold ip_hdr_ok in Hh; lia). intros Hin.
  apply M_bind_inv in Hin as ([] & w2 & Hlearn & Hin).
  destruct (learn_keeps _ _ _ _ _ Hw Hsrc Hm Hlearn) as (Hw2 & Hwf & Hwr & ans & arp & Harp & ->).
  assert (Hfind : find_by_iface (ip_dst h) (set_arp arp w) = Done (Some route, set_arp arp w)).
  { unfold find_by_iface. rewrite (M_bind_done _ _ _ (w_rib w) (set_arp arp w)) by done. by rewrite (lift_bind _ _ _ _ Hroute). }
  rewrite (M_bind_done _ _ _ _ _ Hfind), Hf in Hin.
  apply M_bind_inv in Hin as (r2 & w5 & Hin & Hend). injection Hend as <- <-. split; [done|]. by exists ans, arp, r2.
Qed.

Lemma frame_enters hdr m n w m' w' :
  h_proto hdr = ETHER_PROTO_IPV4 → ingress_frame 0 hdr m n w = Done (m', w') →
  ∃ r w0, ip_input 2 (Some hdr) m n w = Done (r, w0) ∧ (r.1 = 0 → w' = w0).
Proof.
  intros Hpr Hrun. unfold ingress_frame, ether_input in Hrun. rewrite (find_ipv4 hdr Hpr) in Hrun.
  apply M_bind_inv in Hrun as ([r1 m1] & w1 & Hrun & Hend).
  apply M_bind_inv in Hrun as ([r0 m0] & w0 & Hrun & Hend0). exists (r0, m0), w0. split; [done|]. cbn [fst]. intros ->.
  injection Hend0 as <- <- <-. by injection Hend.
Qed.

(** The frame of a fragment is a step of the table. *)
Lemma fragment_turn t s hdr h data a n w w' :
  world_typed w → mac_ok (h_src hdr) → table_holds t s (w_frag w) → event_ok t (Arrives h data a) →
  fragment_frame w hdr h data a → Z.of_nat n = frag_size h data a →
  take_turn (Frame hdr (frag_frame h data a) n) w = Done (tt, w') →
  (∃ s', table_holds (tab_step t (Arrives h data a)).2 s' (w_frag w')) ∧
  ∃ ans arp, arp_cache_insert (w_arp w) (ip_src h) (h_src hdr) ARP_CACHE_DYN = Done (ans, arp) ∧
    handed_on (tab_step t (Arrives h data a)).1 (set_arp arp w) w'.
Proof.
  destruct a as [[f c] junk]. intros Hw Hm Ht Hok Hff Hn Hrun.
  pose proof Hok as ((Hdk & _) & Hf & _). unfold frag_size in Hn. cbn [fragment_of fst] in Hn, Hf.
  apply M_bind_inv in Hrun as (u & w1 & Hrun & Hend). injection Hend as <-.
  destruct (frame_enters hdr _ _ w u w1 (ff_proto _ _ _ _ _ Hff) Hrun) as ([r0 m0] & w0 & Hin & Heq). rewrite Hn in Hin.
  change (frag_frame h data (f, c, junk)) with (wire_hdr (frag_ip h data f) c ++ chunk data f ++ junk) in Hin.
  destruct Hff as [_ Hh Hhl Hv [Hc Hj] Hd Hroute]. pose proof (frag_ip_ok h data f Hh Hhl Hdk Hf) as Hfo.
  assert (Ha : acceptable (frag_ip h data f) (ip_len (frag_ip h data f)) = true).
  { unfold acceptable. change (ip_vhl (frag_ip h data f)) with (ip_vhl h).
    change (ip_hdr_hlen (frag_ip h data f)) with (ip_hdr_hlen h). by rewrite Hhl, !bool_decide_true by (done || lia). }
  assert (Hisf : ip_fragment_is_frag (frag_ip h data f) = true) by exact (frag_is_frag h data f 0 Hdk Hf).
  destruct (input_fragment 1 hdr (frag_ip h data f) c _ w _ w0 Hw Hm Hfo Hc Ha Hisf Hroute Hin)
    as (Hr0 & ans & arp & r2 & Hw2 & Harp & Hrun2). rewrite (Heq Hr0).
  change (ip_hdr_hlen (frag_ip h data f)) with (ip_hdr_hlen h) in Hrun2. rewrite Hhl in Hrun2.
  change (Z.to_nat 20) with 20%nat in Hrun2. rewrite drop_app_exact in Hrun2 by apply ip_hdr_store_length.
  destruct (fragment_input_step t s h data f c junk (set_arp arp w) r2 w0) as [Hs Hho]; [done..|].
  split; [done|]. by exists ans, arp.
Qed.
Lemma boot_keeps_frag h : keeps (boot h).
Proof. unfold boot, ip_config, arp_gratuitous. cbv zeta. keeps_calls. Qed.

(** ** Runs of the stack *)

(** What a turn brings for the table. *)
Inductive brings (w : world) : turn_event → option frag_event → Prop :=
| brings_none ev : no_fragment ev → brings w ev None
| brings_fragment hdr h data a n :
    fragment_frame w hdr h data a → Z.of_nat n = frag_size h data a →
    brings w (Frame hdr (frag_frame h data a) n) (Some (Arrives h data a)).

(** The states that [main] and any turns lead to, with the fragments that have
    arrived. *)
Inductive stack_run (mac : list Z) (addrs : list sockaddr) : list frag_event → world → Prop :=
| run_boot r w : boot 0 (initial_world mac (static_sockets addrs)) = Done (r, w) → stack_run mac addrs [] w
| run_turn evs ev fe w w' :
    stack_run mac addrs evs w → turn_typed ev → brings w ev fe → take_turn ev w = Done (tt, w') →
    stack_run mac addrs (evs ++ option_list fe) w'.
End kernel.

Lemma session_ok_app t evs evs' :
  session_ok t (evs ++ evs') ↔ session_ok t evs ∧ session_ok (tab_run t evs).2 evs'.
Proof.
  revert t. induction evs as [|ev evs IH]; intros t; cbn [session_ok tab_run app]; [tauto|].
  rewrite IH. destruct (tab_step t ev) as [r t1]. cbn [snd]. destruct (tab_run t1 evs). cbn [snd]. tauto.
Qed.

Lemma tab_run_app t evs evs' : (tab_run t (evs ++ evs')).2 = (tab_run (tab_run t evs).2 evs').2.
Proof.
  revert t. induction evs as [|ev evs IH]; intros t; cbn [tab_run app]; [done|].
  destruct (tab_step t ev) as [r t1]. specialize (IH t1). destruct (tab_run t1 (evs ++ evs')) as [? ?], (tab_run t1 evs) as [? ?]. exact IH.
Qed.

Lemma run_holds `{Kernel} mac addrs evs w :
  mac_ok mac → Forall sockaddr_ok addrs → stack_run mac addrs evs w →
  world_typed w ∧ (session_ok ∅ evs → ∃ s, table_holds (tab_run ∅ evs).2 s (w_frag w)).
Proof.
  intros Hm Ha Hrun. induction Hrun as [r w Hb|evs ev fe w w' _ [Hw IH] Hev Hbr Hturn].
  - split; [exact (proj1 (boot_typed 0 ltac:(lia) _ _ _ (initial_typed mac addrs Hm Ha) Hb))|]. intros _.
    exists ∅. rewrite (boot_keeps_frag 0 _ _ _ Hb). apply init_holds.
  - split; [exact (proj1 (take_turn_typed ev Hev w tt w' Hw Hturn))|]. destruct Hbr as [ev Hn|hdr h data a n Hff Hn].
    + cbn [option_list]. rewrite app_nil_r, (turn_keeps_frag ev Hn _ _ _ Hturn). exact IH.
    + cbn [option_list]. rewrite session_ok_app, tab_run_app. intros [Hok [Hev1 _]]. destruct (IH Hok) as [s Ht].
      destruct (fragment_turn _ s hdr h data a n w w' Hw (proj1 Hev) Ht Hev1 Hff Hn Hturn) as [[s' Ht'] _].
      exists s'. revert Ht'. change (option_list (Some (Arrives h data a))) with [Arrives h data a]. cbn [tab_run]. by destruct (tab_step _ (Arrives h data a)).
Qed.

(** C6: Reassembly in the running stack.  From the start of the stack on, for any
    kernel and whatever the threads, the timer and the applications do in
    between (any other frame, announcements, egress rounds, calls; as long as each
    returns), the packet buffers of the stack hold exactly the table of the
    datagrams whose fragments have arrived.  The frame of the next fragment, when
    its turn returns, makes the step of the table, and apart from the buffers does
    this: the sender is entered into the ARP cache; if the fragment is stored or refused
    nothing else; if it makes its datagram whole, [ip_input] runs on the
    reassembled packet, with its header, its data and the length of its data, then
    [ip_send] on what [ip_input] left in the buffer, with its result as the size,
    and the state is the one these two leave.  The datagrams have at most 16384
    bytes, and fragments with the same source, destination, protocol and
    identification, while they are in progress, are of the same datagram, with the
    same header but for offset, length and checksum; order, overlaps and repetitions
    are arbitrary. *)
Theorem stack_reassembles `{Kernel} mac addrs evs w :
  mac_ok mac → Forall sockaddr_ok addrs → stack_run mac addrs evs w → session_ok ∅ evs →
  (∃ s, table_holds (tab_run ∅ evs).2 s (w_frag w)) ∧
  ∀ hdr h data a n w',
    fragment_frame w hdr h data a → Z.of_nat n = frag_size h data a → turn_typed (Frame hdr (frag_frame h data a) n) →
    event_ok (tab_run ∅ evs).2 (Arrives h data a) → take_turn (Frame hdr (frag_frame h data a) n) w = Done (tt, w') →
    (∃ s, table_holds (tab_step (tab_run ∅ evs).2 (Arrives h data a)).2 s (w_frag w')) ∧
    ∃ ans arp, arp_cache_insert (w_arp w) (ip_src h) (h_src hdr) ARP_CACHE_DYN = Done (ans, arp) ∧
      handed_on (tab_step (tab_run ∅ evs).2 (Arrives h data a)).1 (set_arp arp w) w'.
Proof.
  intros Hm Ha Hrun Hok. destruct (run_holds mac addrs evs w Hm Ha Hrun) as [Hw Ht]. destruct (Ht Hok) as [s Hs].
  split; [by exists s|]. intros hdr h data a n w' Hff Hn Hty Hev Hturn.
  by apply (fragment_turn _ s hdr h data a n w w' Hw (proj1 Hty)).
Qed.

(** ** Witness *)

(** A datagram in two fragments; the timer and the egress thread run between
    them. *)
Definition demo_hdr : ip_hdr := peer_ip IP_PROTO_UDP OWN_ADDR 0.

Definition demo_frame (a : arrival) : turn_event :=
  Frame demo_ether (frag_frame demo_hdr demo_split a) (Z.to_nat (frag_size demo_hdr demo_split a)).

(** The stack after some turns, the last one first. *)
Fixpoint demo_after (past : list turn_event) : world :=
  match past with
  | [] => match @boot accept_all 0 (initial_world mac_a (static_sockets stack_sockets)) with
          | Done (_, w) => w
          | _ => initial_world mac_a (static_sockets stack_sockets)
          end
  | ev :: past => match @take_turn accept_all ev (demo_after past) with Done (_, w) => w | _ => demo_after past end
  end.

Lemma demo_turn_done past ev : is_done (@take_turn accept_all ev (demo_after past)) = true →
  @take_turn accept_all ev (demo_after past) = Done (tt, demo_after (ev :: past)).
Proof. cbn [demo_after]. by destruct (@take_turn accept_all ev (demo_after past)) as [[[] w]| |]. Qed.

Lemma demo_fragment_frame past a : a = demo_first ∨ a = demo_second →
  (match ip_route_find_by_iface (w_rib (demo_after past)) OWN_ADDR with Done (Some _) => true | _ => false end) = true →
  fragment_frame (demo_after past) demo_ether demo_hdr demo_split a.
Proof.
  intros Ha Hr. split.
  - reflexivity.
  - unfold ip_hdr_ok, demo_hdr, peer_ip, DEMO_PEER, OWN_ADDR, IP_PROTO_UDP. simpl. lia.
  - reflexivity.
  - reflexivity.
  - destruct Ha as [-> | ->]; (split; [lia|]); repeat constructor; lia.
  - apply (bool_decide_unpack _). by vm_compute.
  - change (ip_dst demo_hdr) with OWN_ADDR. destruct (ip_route_find_by_iface _ _) as [[route|]| |]; [by exists route|done..].
Qed.

Lemma demo_event_ok t f c junk : f = Frag 0 24 ∨ f = Frag 3 24 →
  (∀ e, t !! dgram_key demo_hdr = Some e → e_ip e = demo_hdr ∧ e_data e = demo_split) →
  event_ok t (Arrives demo_hdr demo_split (f, c, junk)).
Proof.
  intros Hf He. split; [|split; [by apply demo_frag_ok|done]].
  unfold dgram_ok, data_ok. change (length demo_split) with 48%nat. change (ip_hdr_hlen demo_hdr) with 20. lia.
Qed.

Lemma demo_frame_typed a : a = demo_first ∨ a = demo_second → turn_typed (demo_frame a).
Proof.
  intros Ha. assert (Hb : bytes (frag_frame demo_hdr demo_split a) ∧ length (frag_frame demo_hdr demo_split a) < 100)
    by (destruct Ha as [-> | ->]; (split; [apply (bool_decide_unpack _); by vm_compute|by vm_compute])).
  split; [apply mac_b_ok|]. split; [apply Hb|lia].
Qed.

Definition demo_past : list turn_event := [EgressTurn; Tick 10; demo_frame demo_first].

Lemma stack_reassembles_witness :
  let t := (tab_run ∅ [Arrives demo_hdr demo_split demo_first]).2 in
  (tab_step t (Arrives demo_hdr demo_split demo_second)).1 = Whole (whole_hdr demo_hdr demo_split) demo_split ∧
  (∃ s, table_holds t s (w_frag (demo_after demo_past))) ∧
  ∃ ans arp, arp_cache_insert (w_arp (demo_after demo_past)) DEMO_PEER mac_b ARP_CACHE_DYN = Done (ans, arp) ∧
    @handed_on accept_all (tab_step t (Arrives demo_hdr demo_split demo_second)).1 (set_arp arp (demo_after demo_past))
      (demo_after (demo_frame demo_second :: demo_past)).
Proof.
  intros t. split; [vm_compute; reflexivity|].
  assert (Hrun : @stack_run accept_all mac_a stack_sockets [Arrives demo_hdr demo_split demo_first] (demo_after demo_past)).
  { assert (H0 : @stack_run accept_all mac_a stack_sockets [] (demo_after [])).
    { destruct (@boot_done accept_all accept_all_reliable mac_a mac_a_ok) as (w & Hw & _).
      cbn [demo_after]. rewrite Hw. by apply (run_boot mac_a stack_sockets None). }
    assert (H1 : @stack_run accept_all mac_a stack_sockets [Arrives demo_hdr demo_split demo_first] (demo_after [demo_frame demo_first])).
    { apply (run_turn _ _ [] _ (Some _) _ _ H0 (demo_frame_typed _ (or_introl eq_refl))); [|apply demo_turn_done; by vm_compute].
      constructor; [apply demo_fragment_frame; [by left|by vm_compute]|by vm_compute]. }
    assert (H2 : @stack_run accept_all mac_a stack_sockets [Arrives demo_hdr demo_split demo_first] (demo_after [Tick 10; demo_frame demo_first])).
    { apply (run_turn _ _ [_] (Tick 10) None _ _ H1); [split; [lia|by vm_compute]|by constructor|apply demo_turn_done; by vm_compute]. }
    apply (run_turn _ _ [_] EgressTurn None _ _ H2); [exact I|by constructor|apply demo_turn_done; by vm_compute]. }
  assert (Hso : Forall sockaddr_ok stack_sockets) by (constructor; [|constructor]; unfold sockaddr_ok, stack_sockets; simpl; lia).
  assert (Hses : session_ok ∅ [Arrives demo_hdr demo_split demo_first]).
  { split; [|exact I]. apply demo_event_ok; [by left|intros e He; vm_compute in He; discriminate He]. }
  destruct (@stack_reassembles accept_all mac_a stack_sockets _ _ mac_a_ok Hso Hrun Hses) as [Ht Hnext].
  split; [exact Ht|].
  apply (Hnext demo_ether demo_hdr demo_split demo_second (Z.to_nat (frag_size demo_hdr demo_split demo_second))).
  - apply demo_fragment_frame; [by right|by vm_compute].
  - reflexivity.
  - exact (demo_frame_typed _ (or_intror eq_refl)).
  - apply demo_event_ok; [by right|]. intros e He. vm_compute in He. injection He as <-. by split.
  - apply demo_turn_done. by vm_compute.
Defined.
