(* ===== verification/EtherInit.v ===== *)
(** * Opening and closing an interface, [src/linux/linux_ether.c]

    [ether_init], [linux_ether_bind], [linux_ether_set_rxtimeout] and
    [ether_deinit] over the system calls they make.  The kernel is the class
    [Linux]: its reply to a call, given the calls so far.  The state keeps the
    calls with their replies, so that the theorems can say which sockets are
    open. *)

From S2P Require Import Prelude Bytes Ether.

#[local] Open Scope Z_scope.

(** ** System calls *)

(** A name is the characters before its NUL. *)
Inductive call : Type :=
| Socket                                            (* AF_PACKET, SOCK_RAW, IPPROTO_RAW *)
| GetIfIndex (fd : Z) (ifr_name : list Z)           (* ioctl SIOCGIFINDEX *)
| GetHwAddr (fd : Z) (ifr_name : list Z)            (* ioctl SIOCGIFHWADDR *)
| GetFlags (fd : Z) (ifr_name : list Z)             (* ioctl SIOCGIFFLAGS *)
| SetFlags (fd : Z) (ifr_name : list Z) (flags : Z) (* ioctl SIOCSIFFLAGS *)
| SetReuse (fd : Z) (value : Z)                     (* setsockopt SO_REUSEADDR *)
| SetRxTimeout (fd : Z) (tv_sec : Z)                (* setsockopt SO_RCVTIMEO *)
| BindTo (fd : Z) (ifindex : Z) (addr : list Z)     (* bind to the interface, all protocols *)
| Close (fd : Z).

(** The return value, -1 with [errno] or not negative; what the call stores. *)
Record reply : Type := Reply {
  rc : Z;
  rc_errno : Z;
  out : Z;              (* an index, flags *)
  out_mac : list Z      (* [ifr_hwaddr.sa_data] *)
}.

Definition trace : Type := list (call * reply).

Class Linux : Type := answer : trace → call → reply.

(** The sockets that are open after a sequence of calls. *)
Definition fds_step (s : gset Z) (e : call * reply) : gset Z :=
  match e.1 with
  | Socket => if bool_decide (0 <= rc e.2) then {[rc e.2]} ∪ s else s
  | Close fd => s ∖ {[fd]}
  | _ => s
  end.

Definition open_fds (tr : trace) : gset Z := foldl fds_step ∅ tr.

(** The descriptor that [socket] returns was not open. *)
Class LinuxCalls `{Linux} : Prop :=
  socket_fresh tr : rc (answer tr Socket) ∉ open_fds tr.

(** ** State *)

(** [struct ether_linux] *)
Record ether_linux : Type := EtherLinux {
  el_fd : Z;
  el_mac : list Z;
  el_if_name : list Z;
  el_if_index : Z
}.

Record ether_state : Type := EtherState {
  ether_if : list ether_linux;
  ether_next_handle : Z;
  errno : Z;
  calls : trace
}.

Definition IFNAMSIZ : nat := 16.
Definition DEFAULT_IF : list Z := [101; 116; 104; 48].   (* "eth0" *)
Definition ETHER_MAX_IF : Z := 1.
Definition IFF_PROMISC : Z := 0x100.
Definition XSTACK_PERIODIC_EVENT_SEC : Z := 10.

Definition zero_eth : ether_linux := EtherLinux 0 (repeat 0 6) [] 0.

Definition ether_zero : ether_state := EtherState (repeat zero_eth (Z.to_nat ETHER_MAX_IF)) 0 0 [].

Definition E (A : Type) : Type := ether_state → outcome (A * ether_state).

#[export] Instance E_ret : MRet E := fun A a s => Done (a, s).

#[export] Instance E_bind : MBind E :=
  fun A B f m s => match m s with Done (a, s) => f a s | Fault => Fault | Spin => Spin end.

Definition failed (r : reply) : bool := bool_decide (rc r < 0).

Definition set_errno (e : Z) : E unit := fun s =>
  Done (tt, EtherState (ether_if s) (ether_next_handle s) e (calls s)).

Definition get_eth (i : nat) : E ether_linux := fun s =>
  match ether_if s !! i with Some eth => Done (eth, s) | None => Fault end.

Definition put_eth (i : nat) (eth : ether_linux) : E unit := fun s =>
  Done (tt, EtherState (<[i := eth]> (ether_if s)) (ether_next_handle s) (errno s) (calls s)).

(** [strcpy] into a buffer of [IFNAMSIZ] bytes, and [strncpy] of at most
    [IFNAMSIZ - 1] bytes into a cleared one. *)
Definition strcpy_name (name : list Z) : outcome (list Z) :=
  if bool_decide (length name < IFNAMSIZ)%nat then Done name else Fault.

Definition strncpy_name (name : list Z) : list Z := take (IFNAMSIZ - 1) name.

Section linux.
Context `{Linux}.

Definition sys (c : call) : E reply := fun s =>
  let r := answer (calls s) c in
  Done (r, EtherState (ether_if s) (ether_next_handle s) (if failed r then rc_errno r else errno s)
          (calls s ++ [(c, r)])).

(** ** Operations *)

(** [ether_handle2eth]: the index of the interface, or NULL with [ENODEV]; a
    negative handle is outside of the array. *)
Definition ether_handle2eth (handle : Z) : E (option nat) :=
  if bool_decide (handle >= ETHER_MAX_IF) then _ ← set_errno ENODEV; mret None
  else if bool_decide (handle < 0) then (fun _ => Fault) else mret (Some (Z.to_nat handle)).

Definition ether_addr2handle (addr : list Z) : Z := 0.

(** [sockopt] is passed without a value; the results of both [ioctl] and of
    [bind] are not looked at. *)
Definition linux_ether_bind (sockopt : Z) (i : nat) : E Z :=
  eth ← get_eth i;
  let name := strncpy_name (el_if_name eth) in
  r ← sys (GetFlags (el_fd eth) name);
  let ifr_flags := if failed r then 0 else out r in
  _ ← sys (SetFlags (el_fd eth) name (Z.lor ifr_flags IFF_PROMISC));
  retval ← sys (SetReuse (el_fd eth) sockopt);
  if failed retval then mret (-1) else
  _ ← sys (BindTo (el_fd eth) (el_if_index eth) (el_mac eth));
  mret 0.

Definition linux_ether_set_rxtimeout (i : nat) : E Z :=
  eth ← get_eth i;
  r ← sys (SetRxTimeout (el_fd eth) XSTACK_PERIODIC_EVENT_SEC);
  mret (rc r).

(** [fail:] *)
Definition ether_fail (i : nat) : E Z :=
  eth ← get_eth i;
  _ ← sys (Close (el_fd eth));
  mret (-1).

(** [ether_init] from the moment it has a socket. *)
Definition ether_setup (sockopt handle : Z) (i : nat) (if_name : list Z) (user_mac : bool) : E Z :=
  eth ← get_eth i;
  let name := strncpy_name if_name in
  _ ← put_eth i (EtherLinux (el_fd eth) (el_mac eth) name 0);
  r ← sys (GetIfIndex (el_fd eth) name);
  if failed r then ether_fail i else
  _ ← put_eth i (EtherLinux (el_fd eth) (el_mac eth) name (out r));
  if user_mac then _ ← set_errno ENOTSUP; mret (-1) else
  r' ← sys (GetHwAddr (el_fd eth) (strncpy_name if_name));
  if failed r' then ether_fail i else
  _ ← put_eth i (EtherLinux (el_fd eth) (take 6 (out_mac r')) name (out r));
  b ← linux_ether_bind sockopt i;
  if negb (bool_decide (b = 0)) then ether_fail i else
  t ← linux_ether_set_rxtimeout i;
  if negb (bool_decide (t = 0)) then ether_fail i else
  mret handle.

(** [ether_init(args)]; [args] is the array without its NULL. *)
Definition ether_init (sockopt : Z) (args : list (list Z)) : E Z := fun s =>
  let handle := ether_next_handle s in
  if bool_decide (handle >= ETHER_MAX_IF) then (_ ← set_errno EAGAIN; mret (-1)) s else
  let s := EtherState (ether_if s) (handle + 1) (errno s) (calls s) in
  let i := Z.to_nat handle in
  (if_name ← (fun s => n ← strcpy_name (default DEFAULT_IF (head args)); Done (n, s));
   eth ← get_eth i;
   r ← sys Socket;
   _ ← put_eth i (EtherLinux (rc r) (el_mac eth) (el_if_name eth) (el_if_index eth));
   if failed r then mret (-1) else
   ether_setup sockopt handle i if_name (bool_decide (1 < length args)%nat)) s.

Definition ether_deinit (handle : Z) : E unit :=
  eth ← ether_handle2eth handle;
  match eth with
  | None => mret tt
  | Some i => eth ← get_eth i; _ ← sys (Close (el_fd eth)); mret tt
  end.
End linux.

(** ** Which sockets are open *)
Lemma open_fds_app tr e : open_fds (tr ++ [e]) = fds_step (open_fds tr) e.
Proof. unfold open_fds. by rewrite foldl_app. Qed.

(** A call that neither opens nor closes. *)
Definition plain_call (c : call) : bool :=
  match c with Socket | Close _ => false | _ => true end.

Lemma open_fds_plain tr c r : plain_call c = true → open_fds (tr ++ [(c, r)]) = open_fds tr.
Proof. intros Hc. rewrite open_fds_app. by destruct c. Qed.

Lemma open_fds_close tr fd r : open_fds (tr ++ [(Close fd, r)]) = open_fds tr ∖ {[fd]}.
Proof. by rewrite open_fds_app. Qed.

Lemma open_fds_socket tr r : failed r = false → open_fds (tr ++ [(Socket, r)]) = {[rc r]} ∪ open_fds tr.
Proof.
  intros Hr. rewrite open_fds_app. unfold fds_step, failed in *. cbn.
  apply bool_decide_eq_false in Hr. by rewrite bool_decide_true by lia.
Qed.

Lemma open_fds_failed tr r : failed r = true → open_fds (tr ++ [(Socket, r)]) = open_fds tr.
Proof.
  intros Hr. rewrite open_fds_app. unfold fds_step, failed in *. cbn.
  apply bool_decide_eq_true in Hr. by rewrite bool_decide_false by lia.
Qed.

(** ** The calls of a successful [ether_init] *)
Definition name_of (args : list (list Z)) : list Z := default DEFAULT_IF (head args).

(** The interface [if_name] is opened as [eth] by the calls [new]. *)
Definition opened (sockopt : Z) (if_name : list Z) (eth : ether_linux) (new : trace) : Prop :=
  ∃ r1 r2 r3 r4 r5 r6 r7 r8,
    let fd := rc r1 in
    let mac := take 6 (out_mac r3) in
    let flags := if failed r4 then 0 else out r4 in
    new = [(Socket, r1); (GetIfIndex fd if_name, r2); (GetHwAddr fd if_name, r3); (GetFlags fd if_name, r4);
           (SetFlags fd if_name (Z.lor flags IFF_PROMISC), r5); (SetReuse fd sockopt, r6);
           (BindTo fd (out r2) mac, r7); (SetRxTimeout fd XSTACK_PERIODIC_EVENT_SEC, r8)] ∧
    eth = EtherLinux fd mac if_name (out r2) ∧
    failed r1 = false ∧ failed r2 = false ∧ failed r3 = false ∧ failed r6 = false ∧ rc r8 = 0.

Lemma strncpy_short if_name : (length if_name < IFNAMSIZ)%nat → strncpy_name if_name = if_name.
Proof. unfold strncpy_name, IFNAMSIZ. intros. apply take_ge. lia. Qed.

(** The socket is closed again. *)
Lemma close_fresh (s : gset Z) fd : fd ∉ s → ({[fd]} ∪ s) ∖ {[fd]} = s.
Proof. set_solver. Qed.

(** ** How [ether_init] ends *)

(** The state of the one interface after the handle was given out. *)
Definition taken (eth : ether_linux) (e : Z) (tr : trace) : ether_state := EtherState [eth] 1 e tr.

(** The handle with the interface open, -1 with its socket closed again, or -1
    with the socket still open. *)
Inductive init_ends (sockopt : Z) (args : list (list Z)) (tr : trace) : Z → ether_state → Prop :=
| init_opened eth e new :
    opened sockopt (name_of args) eth new →
    el_fd eth ∉ open_fds tr → open_fds (tr ++ new) = {[el_fd eth]} ∪ open_fds tr →
    init_ends sockopt args tr 0 (taken eth e (tr ++ new))
| init_closed eth e new :
    open_fds (tr ++ new) = open_fds tr → init_ends sockopt args tr (-1) (taken eth e (tr ++ new))
| init_leaked eth fd new :
    (1 < length args)%nat → fd ∉ open_fds tr → open_fds (tr ++ new) = {[fd]} ∪ open_fds tr →
    init_ends sockopt args tr (-1) (taken eth ENOTSUP (tr ++ new)).

Section steps.
Context `{Linux}.
Context {A : Type}.

Lemma get_eth_bind (f : ether_linux → E A) eth e tr :
  (get_eth 0 ≫= f) (taken eth e tr) = f eth (taken eth e tr).
Proof. done. Qed.

Lemma put_eth_bind (f : unit → E A) eth eth' e tr :
  (put_eth 0 eth' ≫= f) (taken eth e tr) = f tt (taken eth' e tr).
Proof. done. Qed.

Lemma sys_bind (f : reply → E A) c eth e tr :
  (sys c ≫= f) (taken eth e tr) =
  f (answer tr c) (taken eth (if failed (answer tr c) then rc_errno (answer tr c) else e) (tr ++ [(c, answer tr c)])).
Proof. done. Qed.

Lemma E_bind_done {B} (m : E B) (f : B → E A) s b s' : m s = Done (b, s') → (m ≫= f) s = f b s'.
Proof. intros Hm. unfold mbind, E_bind. by rewrite Hm. Qed.
End steps.

Lemma app_calls {A} (tr : list A) new c : (tr ++ new) ++ [c] = tr ++ (new ++ [c]).
Proof. by rewrite app_assoc. Qed.

Section init.
Context `{LinuxCalls}.
Context (sockopt : Z) (args : list (list Z)) (tr : trace).
Context (Hname : (length (name_of args) < IFNAMSIZ)%nat).

Let name := name_of args.

(** A call that leaves the socket as it is. *)
Lemma still_open fd new c r : plain_call c = true →
  open_fds (tr ++ new) = {[fd]} ∪ open_fds tr → open_fds (tr ++ (new ++ [(c, r)])) = {[fd]} ∪ open_fds tr.
Proof. intros Hc Ho. rewrite app_assoc, open_fds_plain by done. done. Qed.

(** Every [goto fail] closes the socket. *)
Lemma fail_closes eth e new : el_fd eth ∉ open_fds tr →
  open_fds (tr ++ new) = {[el_fd eth]} ∪ open_fds tr →
  ∃ r s, ether_fail 0 (taken eth e (tr ++ new)) = Done (r, s) ∧ init_ends sockopt args tr r s.
Proof.
  intros Hf Ho. unfold ether_fail. rewrite get_eth_bind, sys_bind. eexists _, _. split; [reflexivity|].
  rewrite (app_calls tr). apply init_closed. rewrite app_assoc, open_fds_close, Ho. by apply close_fresh.
Qed.

(** [linux_ether_bind] and what follows. *)
Lemma bind_ends fd mac idx e new r1 r2 r3 :
  fd ∉ open_fds tr → open_fds (tr ++ new) = {[fd]} ∪ open_fds tr →
  new = [(Socket, r1); (GetIfIndex fd name, r2); (GetHwAddr fd name, r3)] →
  fd = rc r1 → idx = out r2 → mac = take 6 (out_mac r3) →
  failed r1 = false → failed r2 = false → failed r3 = false →
  ∃ r s, (b ← linux_ether_bind sockopt 0;
    if negb (bool_decide (b = 0)) then ether_fail 0 else
    t ← linux_ether_set_rxtimeout 0;
    if negb (bool_decide (t = 0)) then ether_fail 0 else mret 0) (taken (EtherLinux fd mac name idx) e (tr ++ new)) = Done (r, s) ∧
    init_ends sockopt args tr r s.
Proof.
  intros Hf Ho Hnew Hfd Hidx Hmac H1 H2 H3. set (eth := EtherLinux fd mac name idx).
  assert (Hsn : strncpy_name (el_if_name eth) = name) by (by apply strncpy_short).
  assert (Hb : ∃ b e' new', linux_ether_bind sockopt 0 (taken eth e (tr ++ new)) = Done (b, taken eth e' (tr ++ new')) ∧
    open_fds (tr ++ new') = {[fd]} ∪ open_fds tr ∧
    (b = 0 → ∃ r4 r5 r6 r7, let flags := if failed r4 then 0 else out r4 in
      new' = new ++ [(GetFlags fd name, r4); (SetFlags fd name (Z.lor flags IFF_PROMISC), r5); (SetReuse fd sockopt, r6);
        (BindTo fd idx mac, r7)] ∧ failed r6 = false)).
  { unfold linux_ether_bind. rewrite get_eth_bind. cbv zeta. rewrite Hsn. cbn [el_fd eth].
    rewrite sys_bind, (app_calls tr). set (r4 := answer _ (GetFlags _ _)).
    rewrite sys_bind, (app_calls tr). set (r5 := answer _ (SetFlags _ _ _)).
    rewrite sys_bind, (app_calls tr). set (r6 := answer _ (SetReuse _ _)).
    pose proof (still_open fd new (GetFlags fd name) r4 eq_refl Ho) as Ho4.
    pose proof (still_open fd _ (SetFlags fd name (Z.lor (if failed r4 then 0 else out r4) IFF_PROMISC)) r5 eq_refl Ho4) as Ho5.
    pose proof (still_open fd _ (SetReuse fd sockopt) r6 eq_refl Ho5) as Ho6.
    destruct (failed r6) eqn:H6.
    - eexists (-1), _, _. split; [reflexivity|]. by split.
    - rewrite sys_bind, (app_calls tr). set (r7 := answer _ (BindTo _ _ _)). eexists 0, _, _. split; [reflexivity|].
      split; [by apply still_open|]. intros _. exists r4, r5, r6, r7. rewrite <-!app_assoc. by split. }
  destruct Hb as (b & e' & new' & Hrun & Ho' & Hzero). rewrite (E_bind_done _ _ _ _ _ Hrun).
  case_bool_decide as Hb0; cbn [negb]; [|by apply fail_closes].
  destruct (Hzero Hb0) as (r4 & r5 & r6 & r7 & Hnew' & H6).
  set (r8 := answer (tr ++ new') (SetRxTimeout fd XSTACK_PERIODIC_EVENT_SEC)).
  assert (Ht : ∃ e'', linux_ether_set_rxtimeout 0 (taken eth e' (tr ++ new')) =
    Done (rc r8, taken eth e'' (tr ++ (new' ++ [(SetRxTimeout fd XSTACK_PERIODIC_EVENT_SEC, r8)])))).
  { unfold linux_ether_set_rxtimeout. rewrite get_eth_bind, sys_bind, (app_calls tr). by eexists. }
  destruct Ht as (e'' & Ht). rewrite (E_bind_done _ _ _ _ _ Ht).
  case_bool_decide as Ht0; cbn [negb]; [|by apply fail_closes; [|apply still_open]].
  eexists _, _. split; [reflexivity|]. apply init_opened; [|done|by apply still_open].
  exists r1, r2, r3, r4, r5, r6, r7, r8. cbv zeta. subst. rewrite <-!app_assoc. split_and!; done.
Qed.

(** [ether_init] once it has a socket. *)
Lemma setup_ends eth e r1 user_mac :
  rc r1 ∉ open_fds tr → failed r1 = false → el_fd eth = rc r1 → user_mac = bool_decide (1 < length args)%nat →
  ∃ r s, ether_setup sockopt 0 0 name user_mac (taken eth e (tr ++ [(Socket, r1)])) = Done (r, s) ∧
    init_ends sockopt args tr r s.
Proof.
  intros Hf H1 Hfd Hu. pose proof (open_fds_socket tr r1 H1) as Ho. rewrite <-Hfd in Hf, Ho.
  unfold ether_setup. rewrite get_eth_bind. cbv zeta. rewrite (strncpy_short name) by done.
  rewrite put_eth_bind, sys_bind, (app_calls tr). set (r2 := answer _ (GetIfIndex _ _)).
  pose proof (still_open _ _ (GetIfIndex (el_fd eth) name) r2 eq_refl Ho) as Ho2.
  destruct (failed r2) eqn:H2; [by apply fail_closes|]. rewrite put_eth_bind. destruct user_mac.
  { eexists _, _. split; [reflexivity|]. apply (init_leaked _ _ _ _ (el_fd eth)); [|done|done].
    symmetry in Hu. by apply bool_decide_eq_true in Hu. }
  rewrite sys_bind, (app_calls tr). set (r3 := answer _ (GetHwAddr _ _)).
  pose proof (still_open _ _ (GetHwAddr (el_fd eth) name) r3 eq_refl Ho2) as Ho3.
  destruct (failed r3) eqn:H3; [by apply fail_closes|]. rewrite put_eth_bind.
  by eapply (bind_ends (el_fd eth) _ _ _ _ r1 r2 r3).
Qed.

Lemma init_ends_ok d e : ∃ r s, ether_init sockopt args (EtherState [d] 0 e tr) = Done (r, s) ∧ init_ends sockopt args tr r s.
Proof.
  unfold ether_init. cbn [ether_next_handle ether_if errno calls]. rewrite bool_decide_false by (unfold ETHER_MAX_IF; lia).
  cbv zeta. change (default DEFAULT_IF (head args)) with name. change (Z.to_nat 0) with 0%nat.
  change (EtherState [d] (0 + 1) e tr) with (taken d e tr).
  assert (Hcpy : strcpy_name name = Done name) by (unfold strcpy_name; by rewrite bool_decide_true).
  rewrite (E_bind_done _ _ _ name (taken d e tr)) by (by rewrite Hcpy).
  rewrite get_eth_bind, sys_bind. set (r1 := answer tr Socket). rewrite put_eth_bind.
  destruct (failed r1) eqn:H1.
  - eexists _, _. split; [reflexivity|]. apply init_closed. by apply open_fds_failed.
  - apply setup_ends; [apply socket_fresh|done|done|done].
Qed.
End init.

(** ** Properties *)

(** C24: Opening an interface, whatever the kernel replies.  For a name that fits,
    the first [ether_init] returns; either 0, and it has opened a socket, looked up
    the index and the hardware address of the interface, asked for promiscuous
    mode, bound the socket to the index and set the receive timeout to 10
    seconds, in this order; or -1, and the socket, if it got one, is closed again,
    unless a hardware address was given, when it fails with [ENOTSUP] and the
    socket stays open.  In both cases the one handle is used up: every later
    call fails with [EAGAIN] without a system call.  After a success
    [ether_deinit] leaves the sockets open that were open before. *)
Theorem ether_init_correct `{LinuxCalls} sockopt args s :
  (length (name_of args) < IFNAMSIZ)%nat → ether_next_handle s = 0 → length (ether_if s) = 1%nat →
  ∃ r s', ether_init sockopt args s = Done (r, s') ∧ init_ends sockopt args (calls s) r s' ∧
    (∀ sockopt' args', ∃ s'', ether_init sockopt' args' s' = Done (-1, s'') ∧
       errno s'' = EAGAIN ∧ calls s'' = calls s' ∧ ether_if s'' = ether_if s') ∧
    (r = 0 → ∃ s'', ether_deinit 0 s' = Done (tt, s'') ∧ open_fds (calls s'') = open_fds (calls s)).
Proof.
  intros Hn Hh Hl. destruct s as [ifs h e tr]. cbn [ether_next_handle ether_if calls] in *. subst h.
  destruct ifs as [|d [|]]; [done| |done].
  destruct (init_ends_ok sockopt args tr Hn d e) as (r & s' & Hrun & Hends). exists r, s'.
  split; [done|]. split; [done|]. split.
  - intros sockopt' args'. destruct Hends; by eexists.
  - intros ->. inversion Hends as [eth e1 new Hop Hf Ho| |]; subst. eexists. split; [reflexivity|].
    cbn [calls taken]. rewrite open_fds_close, Ho. by apply close_fresh.
Qed.

(** A kernel with one interface, index 2, that takes every call. *)
Definition next_fd (s : gset Z) : Z := foldr Z.max 2 (elements s) + 1.

Lemma next_fd_fresh s : next_fd s ∉ s.
Proof.
  assert (Hb : ∀ l x, x ∈ l → x <= foldr Z.max 2 l).
  { intros l. induction l as [|y l IH]; intros x Hx; [by apply elem_of_nil in Hx|].
    cbn. apply elem_of_cons in Hx as [->|Hx]; [lia|]. specialize (IH x Hx). lia. }
  unfold next_fd. intros Hin%elem_of_elements%Hb. lia.
Qed.

Definition demo_linux : Linux := fun tr c =>
  match c with
  | Socket => Reply (Z.max 0 (next_fd (open_fds tr))) 0 0 []
  | GetIfIndex _ _ => Reply 0 0 2 []
  | GetHwAddr _ _ => Reply 0 0 0 [2; 0; 0; 0; 0; 1; 0; 0; 0; 0; 0; 0; 0; 0]
  | GetFlags _ _ => Reply 0 0 0x1043 []
  | _ => Reply 0 0 0 []
  end.

#[export] Instance demo_linux_calls : @LinuxCalls demo_linux.
Proof.
  intros tr. cbn. assert (Hp : 0 <= next_fd (open_fds tr)).
  { unfold next_fd. assert (∀ l, 2 <= foldr Z.max 2 l); [|specialize (H (elements (open_fds tr))); lia].
    intros l. induction l; cbn; lia. }
  rewrite Z.max_r by done. apply next_fd_fresh.
Qed.

Lemma ether_init_correct_witness :
  ∃ r s', @ether_init demo_linux 0 [] ether_zero = Done (r, s') ∧ init_ends 0 [] (calls ether_zero) r s' ∧
    (∀ sockopt' args', ∃ s'', @ether_init demo_linux sockopt' args' s' = Done (-1, s'') ∧
       errno s'' = EAGAIN ∧ calls s'' = calls s' ∧ ether_if s'' = ether_if s') ∧
    (r = 0 → ∃ s'', @ether_deinit demo_linux 0 s' = Done (tt, s'') ∧
       open_fds (calls s'') = open_fds (calls ether_zero)).
Proof.
  apply (@ether_init_correct demo_linux demo_linux_calls 0 [] ether_zero).
  - cbn. unfold IFNAMSIZ. lia.
  - reflexivity.
  - reflexivity.
Defined.

(** The name on the command line is copied without a check of its length. *)
Lemma long_name_overflows `{Linux} sockopt name args s :
  ether_next_handle s = 0 → (IFNAMSIZ <= length name)%nat → ether_init sockopt (name :: args) s = Fault.
Proof.
  intros Hh Hl. unfold ether_init. rewrite Hh. rewrite (bool_decide_false (0 >= ETHER_MAX_IF)) by (unfold ETHER_MAX_IF; lia).
  cbv zeta. unfold mbind at 1, E_bind at 1. cbn [head default]. unfold strcpy_name.
  by rewrite (bool_decide_false (length name < IFNAMSIZ)%nat) by lia.
Qed.

(** Flags that cannot be read are taken for zero: the interface is set to
    promiscuous mode and to nothing else, which takes it down. *)
Definition no_flags : Linux := fun tr c =>
  match c with GetFlags _ _ => Reply (-1) ENODEV 0 [] | _ => demo_linux tr c end.

Lemma unread_flags_cleared :
  ∃ s, @ether_init no_flags 0 [] ether_zero = Done (0, s) ∧
    calls s !! 4%nat = Some (SetFlags 3 DEFAULT_IF IFF_PROMISC, Reply 0 0 0 []).
Proof. eexists. split; [vm_compute; reflexivity|]. reflexivity. Qed.
