(* ===== verification/Shm.v ===== *)
(** * The layout of the shared memory, [include/xstack_socket.h]

    The control block of a socket, its two queues and their data areas lie one
    behind the other in one mapping, which [xstack_init] clears and the macros
    [XSTACK_INGRESS_QADDR] and so on take apart.  Here the operations of [Socket]
    run on the bytes of this mapping; they do there what they do on the
    record, as long as they stay inside their area. *)

From S2P Require Import Prelude Bytes QueueR Socket.

#[local] Open Scope Z_scope.

(** ** Layout *)
Definition SOCK_CTRL_SIZE : nat := 8.    (* two [pid_t] *)
Definition QUEUE_CB_SIZE : nat := 32.    (* four [size_t] *)
Definition DATA_SIZE : nat := Z.to_nat XSTACK_DATAGRAM_BUF_SIZE.

Definition XSTACK_SHMEM_SIZE : nat := SOCK_CTRL_SIZE + 2 * QUEUE_CB_SIZE + 2 * DATA_SIZE.
Definition XSTACK_SOCK_CTRL : nat := 0.
Definition XSTACK_INGRESS_QADDR : nat := XSTACK_SOCK_CTRL + SOCK_CTRL_SIZE.
Definition XSTACK_INGRESS_DADDR : nat := XSTACK_INGRESS_QADDR + QUEUE_CB_SIZE.
Definition XSTACK_EGRESS_QADDR : nat := XSTACK_INGRESS_DADDR + DATA_SIZE.
Definition XSTACK_EGRESS_DADDR : nat := XSTACK_EGRESS_QADDR + QUEUE_CB_SIZE.

(** [struct xstack_sock_ctrl] *)
Record sock_ctrl : Type := SockCtrl { pid_inetd : Z; pid_end : Z }.

Definition ctrl_bytes (c : sock_ctrl) : list Z := le_bytes 4 (pid_inetd c) ++ le_bytes 4 (pid_end c).

Definition ctrl_load (m : list Z) : outcome sock_ctrl :=
  b ← mem_read XSTACK_SOCK_CTRL SOCK_CTRL_SIZE m;
  Done (SockCtrl (s32 (le_val (take 4 b))) (s32 (le_val (drop 4 b)))).

(** [struct queue_cb] *)
Definition cb_bytes (q : queue_cb) : list Z :=
  le_bytes 8 (b_size q) ++ le_bytes 8 (a_len q) ++ le_bytes 8 (m_write q) ++ le_bytes 8 (m_read q).

Definition cb_load (off : nat) (m : list Z) : outcome queue_cb :=
  b ← mem_read off QUEUE_CB_SIZE m;
  Done (QueueCb (le_val (take 8 b)) (le_val (take 8 (drop 8 b))) (le_val (take 8 (drop 16 b)))
          (le_val (drop 24 b))).

(** [queue_commit] stores one index, [queue_discard] the other. *)
Definition cb_commit (off : nat) (m : list Z) : outcome (list Z) :=
  q ← cb_load off m;
  q ← queue_commit q;
  mem_write (off + 16) (le_bytes 8 (m_write q)) m.

Definition cb_discard (off : nat) (m : list Z) : outcome (list Z) :=
  q ← cb_load off m;
  '(_, q) ← queue_discard q 1;
  mem_write (off + 24) (le_bytes 8 (m_read q)) m.

(** ** Operations on the mapping *)

(** [xstack_init]: [memset], the control block and the two queues. *)
Definition shm_init (mypid : Z) (m : list Z) : outcome (list Z) :=
  m ← mem_write 0 (repeat 0 XSTACK_SHMEM_SIZE) m;
  m ← mem_write XSTACK_SOCK_CTRL (ctrl_bytes (SockCtrl mypid 0)) m;
  iq ← queue_create XSTACK_DATAGRAM_SIZE_MAX XSTACK_DATAGRAM_BUF_SIZE;
  m ← mem_write XSTACK_INGRESS_QADDR (cb_bytes iq) m;
  eq ← queue_create XSTACK_DATAGRAM_SIZE_MAX XSTACK_DATAGRAM_BUF_SIZE;
  mem_write XSTACK_EGRESS_QADDR (cb_bytes eq) m.

(** [xstack_listen] on a mapping: the process id of the application. *)
Definition shm_listen (mypid : Z) (m : list Z) : outcome (list Z) :=
  mem_write (XSTACK_SOCK_CTRL + 4) (le_bytes 4 mypid) m.

(** [xstack_sock_dgram_input] *)
Definition shm_dgram_input (sock_addr srcaddr : sockaddr) (buf m : list Z) : outcome (Z * list Z) :=
  q ← cb_load XSTACK_INGRESS_QADDR m;
  dgram_index ← queue_alloc q;
  if bool_decide (dgram_index = -1) then Spin else
  let dgram := (XSTACK_INGRESS_DADDR + Z.to_nat dgram_index)%nat in
  m ← mem_write dgram (sockaddr_bytes srcaddr) m;
  m ← mem_write (dgram + DGRAM_DST) (sockaddr_bytes sock_addr) m;
  m ← mem_write (dgram + DGRAM_SIZE) (le_bytes 8 (length buf)) m;
  m ← mem_write (dgram + DGRAM_BUF) buf m;
  m ← cb_commit XSTACK_INGRESS_QADDR m;
  Done (0, m).

(** [xstack_sendto] *)
Definition shm_sendto (buffer : list Z) (dest_addr : sockaddr) (m : list Z) : outcome ((Z + Z) * list Z) :=
  if bool_decide (XSTACK_DATAGRAM_SIZE_MAX < length buffer) then Done (inr ENOBUFS, m) else
  q ← cb_load XSTACK_EGRESS_QADDR m;
  dgram_index ← queue_alloc q;
  if bool_decide (dgram_index = -1) then Spin else
  let dgram := (XSTACK_EGRESS_DADDR + Z.to_nat dgram_index)%nat in
  m ← mem_write dgram (repeat 0 8) m;
  m ← mem_write (dgram + DGRAM_DST) (sockaddr_bytes dest_addr) m;
  m ← mem_write (dgram + DGRAM_BUF) buffer m;
  m ← cb_commit XSTACK_EGRESS_QADDR m;
  Done (inl (Z.of_nat (length buffer)), m).

(** [xstack_recvfrom] *)
Definition shm_recvfrom (len : Z) (peek : bool) (m : list Z) : outcome (Z * sockaddr * list Z * list Z) :=
  q ← cb_load XSTACK_INGRESS_QADDR m;
  match queue_peek q with
  | None => Spin
  | Some dgram_index =>
      let dgram := (XSTACK_INGRESS_DADDR + Z.to_nat dgram_index)%nat in
      hdr ← mem_read dgram DGRAM_BUF m;
      let rd := smin len (le_val (take 8 (drop DGRAM_SIZE hdr))) in
      bytes ← mem_read (dgram + DGRAM_BUF) (Z.to_nat rd) m;
      if peek then Done (rd, sockaddr_load hdr, bytes, m)
      else m ← cb_discard XSTACK_INGRESS_QADDR m; Done (rd, sockaddr_load hdr, bytes, m)
  end.

(** The egress thread: the header of the datagram at the head, and its removal. *)
Definition shm_egress_peek (m : list Z) : outcome (option (sockaddr * sockaddr * Z)) :=
  q ← cb_load XSTACK_EGRESS_QADDR m;
  if queue_isempty q then Done None
  else
    match queue_peek q with
    | None => Spin
    | Some dgram_index =>
        hdr ← mem_read (XSTACK_EGRESS_DADDR + Z.to_nat dgram_index) DGRAM_BUF m;
        Done (Some (sockaddr_load hdr, sockaddr_load (drop DGRAM_DST hdr), le_val (take 8 (drop DGRAM_SIZE hdr))))
    end.

Definition shm_egress_discard (m : list Z) : outcome (list Z) := cb_discard XSTACK_EGRESS_QADDR m.

(** ** The mapping of a socket *)
Definition shm_of (c : sock_ctrl) (s : xstack_sock) : list Z :=
  ctrl_bytes c ++ cb_bytes (ingress_q s) ++ ingress_data s ++ cb_bytes (egress_q s) ++ egress_data s.

(** The sizes that [xstack_init] gives the areas and the queues. *)
Definition mapped (s : xstack_sock) : Prop :=
  length (ingress_data s) = DATA_SIZE ∧ length (egress_data s) = DATA_SIZE ∧
  queue_ok (ingress_q s) ∧ queue_ok (egress_q s).

Lemma shm_of_length c s : mapped s → length (shm_of c s) = XSTACK_SHMEM_SIZE.
Proof.
  intros (Hi & He & _). unfold shm_of. rewrite !length_app, Hi, He. unfold XSTACK_SHMEM_SIZE. cbn [length ctrl_bytes cb_bytes app le_bytes].
  unfold SOCK_CTRL_SIZE, QUEUE_CB_SIZE. lia.
Qed.

(** *** Accesses inside one area *)
Section area.
Context (pre area post : list Z).

Lemma area_read off n bs : mem_read off n area = Done bs → mem_read (length pre + off) n (pre ++ area ++ post) = Done bs.
Proof.
  intros [Hl ->]%mem_read_done. rewrite mem_read_ok by (rewrite !length_app; lia). f_equal.
  rewrite <-drop_drop, drop_app_exact by done. rewrite drop_app_le, take_app_le by (try rewrite length_drop; lia). done.
Qed.

Lemma area_write off bs area' :
  mem_write off bs area = Done area' → mem_write (length pre + off) bs (pre ++ area ++ post) = Done (pre ++ area' ++ post).
Proof.
  intros [Hl ->]%mem_write_done. rewrite mem_write_ok by (rewrite !length_app; lia). f_equal.
  rewrite take_app. rewrite take_ge by lia. replace (length pre + off - length pre)%nat with off by lia.
  rewrite take_app_le by lia. rewrite <-!app_assoc. do 3 f_equal.
  rewrite <-Nat.add_assoc, <-drop_drop, drop_app_exact by done. by rewrite drop_app_le by lia.
Qed.
End area.

(** *** The control blocks *)
Lemma queue_fields_u64 q : queue_ok q →
  0 <= b_size q < 2 ^ 64 ∧ 0 <= a_len q < 2 ^ 64 ∧ 0 <= m_write q < 2 ^ 64 ∧ 0 <= m_read q < 2 ^ 64.
Proof. unfold queue_ok. intros (Hb & Ha & Hs & Hw & Hr). assert (a_len q <= 2 ^ 31) by nia. assert (b_size q <= 2 ^ 31) by nia. lia. Qed.

Lemma le_val_8 x : 0 <= x < 2 ^ 64 → le_val (le_bytes 8 x) = x.
Proof. intros Hx. rewrite le_val_le_bytes. by apply Z.mod_small. Qed.

Lemma cb_load_at pre q post : queue_ok q → cb_load (length pre) (pre ++ cb_bytes q ++ post) = Done q.
Proof.
  intros Hq. unfold cb_load. rewrite (mem_read_mid _ _ pre (cb_bytes q) post) by done. rewrite bind_done.
  destruct (queue_fields_u64 q Hq) as (Hb & Ha & Hw & Hr). unfold cb_bytes.
  change (take 8 (le_bytes 8 (b_size q) ++ ?x)) with (le_bytes 8 (b_size q)).
  change (take 8 (drop 8 (le_bytes 8 (b_size q) ++ le_bytes 8 (a_len q) ++ ?x))) with (le_bytes 8 (a_len q)).
  change (take 8 (drop 16 (le_bytes 8 (b_size q) ++ le_bytes 8 (a_len q) ++ le_bytes 8 (m_write q) ++ ?x)))
    with (le_bytes 8 (m_write q)).
  change (drop 24 (le_bytes 8 (b_size q) ++ le_bytes 8 (a_len q) ++ le_bytes 8 (m_write q) ++ ?x)) with x.
  rewrite !le_val_8 by done. by destruct q.
Qed.

Lemma cb_commit_at pre q q' post : queue_ok q → queue_commit q = Done q' →
  cb_commit (length pre) (pre ++ cb_bytes q ++ post) = Done (pre ++ cb_bytes q' ++ post).
Proof.
  intros Hq Hc. unfold cb_commit. rewrite cb_load_at, bind_done, Hc, bind_done by done.
  destruct (commit_ok q Hq) as (w & Hw & _). rewrite Hw in Hc. apply done_inj in Hc as <-.
  apply area_write. unfold cb_bytes.
  rewrite (app_assoc (le_bytes 8 (b_size q))). by rewrite (mem_write_mid 16), <-app_assoc by done.
Qed.

Lemma cb_discard_at pre q n q' post : queue_ok q → queue_discard q 1 = Done (n, q') →
  cb_discard (length pre) (pre ++ cb_bytes q ++ post) = Done (pre ++ cb_bytes q' ++ post).
Proof.
  intros Hq Hc. unfold cb_discard. rewrite cb_load_at, bind_done, Hc, bind_done by done. apply area_write.
  assert (Hq' : q' = set_m_read (m_read q') q).
  { destruct (discard_spec 1 q Hq) as (q1 & Hd & _ & _ & Hw & Hb & Ha). rewrite Hd in Hc. injection Hc as _ <-.
    destruct q1. cbn in *. by subst. }
  rewrite Hq'. unfold cb_bytes. cbn [set_m_read b_size a_len m_write m_read].
  pose proof (mem_write_mid 24 (le_bytes 8 (b_size q) ++ le_bytes 8 (a_len q) ++ le_bytes 8 (m_write q))
    (le_bytes 8 (m_read q)) [] (le_bytes 8 (m_read q')) eq_refl eq_refl) as Hw.
  rewrite !app_nil_r, <-!app_assoc in Hw. exact Hw.
Qed.

(** *** The areas of a socket *)
Section socket.
Context (c : sock_ctrl) (s : xstack_sock) (Hs : mapped s).

Lemma ingress_split :
  shm_of c s = ctrl_bytes c ++ cb_bytes (ingress_q s) ++ (ingress_data s ++ cb_bytes (egress_q s) ++ egress_data s).
Proof. done. Qed.

Lemma egress_split :
  shm_of c s = (ctrl_bytes c ++ cb_bytes (ingress_q s) ++ ingress_data s) ++ cb_bytes (egress_q s) ++ egress_data s.
Proof. unfold shm_of. by rewrite <-!app_assoc. Qed.

Lemma egress_prefix : length (ctrl_bytes c ++ cb_bytes (ingress_q s) ++ ingress_data s) = XSTACK_EGRESS_QADDR.
Proof. destruct Hs as (Hi & _). rewrite !length_app, Hi. done. Qed.

Lemma load_ingress : cb_load XSTACK_INGRESS_QADDR (shm_of c s) = Done (ingress_q s).
Proof. rewrite ingress_split. apply (cb_load_at (ctrl_bytes c)), Hs. Qed.

Lemma load_egress : cb_load XSTACK_EGRESS_QADDR (shm_of c s) = Done (egress_q s).
Proof. rewrite egress_split, <-egress_prefix. apply cb_load_at, Hs. Qed.

Lemma commit_ingress q : queue_commit (ingress_q s) = Done q →
  cb_commit XSTACK_INGRESS_QADDR (shm_of c s) = Done (shm_of c (set_ingress s q (ingress_data s))).
Proof. intros Hq. rewrite ingress_split. apply (cb_commit_at (ctrl_bytes c)); [apply Hs|done]. Qed.

Lemma commit_egress q : queue_commit (egress_q s) = Done q →
  cb_commit XSTACK_EGRESS_QADDR (shm_of c s) = Done (shm_of c (set_egress s q (egress_data s))).
Proof.
  intros Hq. rewrite egress_split, <-egress_prefix. rewrite (cb_commit_at _ _ q) by (done || apply Hs).
  unfold shm_of. by rewrite <-!app_assoc.
Qed.

Lemma discard_ingress n q : queue_discard (ingress_q s) 1 = Done (n, q) →
  cb_discard XSTACK_INGRESS_QADDR (shm_of c s) = Done (shm_of c (set_ingress s q (ingress_data s))).
Proof. intros Hq. rewrite ingress_split. apply (cb_discard_at (ctrl_bytes c) _ n); [apply Hs|done]. Qed.

Lemma discard_egress n q : queue_discard (egress_q s) 1 = Done (n, q) →
  cb_discard XSTACK_EGRESS_QADDR (shm_of c s) = Done (shm_of c (set_egress s q (egress_data s))).
Proof.
  intros Hq. rewrite egress_split, <-egress_prefix. rewrite (cb_discard_at _ _ n q) by (done || apply Hs).
  unfold shm_of. by rewrite <-!app_assoc.
Qed.

Lemma read_ingress off n bs : mem_read off n (ingress_data s) = Done bs →
  mem_read (XSTACK_INGRESS_DADDR + off) n (shm_of c s) = Done bs.
Proof.
  intros Hr. unfold shm_of. rewrite app_assoc. apply (area_read (ctrl_bytes c ++ cb_bytes (ingress_q s))), Hr.
Qed.

Lemma write_ingress off bs d : mem_write off bs (ingress_data s) = Done d →
  mem_write (XSTACK_INGRESS_DADDR + off) bs (shm_of c s) = Done (shm_of c (set_ingress s (ingress_q s) d)).
Proof.
  intros Hw. unfold shm_of at 1. rewrite app_assoc.
  rewrite (area_write (ctrl_bytes c ++ cb_bytes (ingress_q s)) _ _ off bs d Hw). unfold shm_of. by rewrite <-!app_assoc.
Qed.

Lemma egress_area : shm_of c s = (ctrl_bytes c ++ cb_bytes (ingress_q s) ++ ingress_data s ++ cb_bytes (egress_q s)) ++ egress_data s ++ [].
Proof. unfold shm_of. by rewrite app_nil_r, <-!app_assoc. Qed.

Lemma egress_area_prefix :
  length (ctrl_bytes c ++ cb_bytes (ingress_q s) ++ ingress_data s ++ cb_bytes (egress_q s)) = XSTACK_EGRESS_DADDR.
Proof. destruct Hs as (Hi & _). rewrite !length_app, Hi. done. Qed.

Lemma read_egress off n bs : mem_read off n (egress_data s) = Done bs →
  mem_read (XSTACK_EGRESS_DADDR + off) n (shm_of c s) = Done bs.
Proof. intros Hr. rewrite egress_area, <-egress_area_prefix. by apply area_read. Qed.

Lemma write_egress off bs d : mem_write off bs (egress_data s) = Done d →
  mem_write (XSTACK_EGRESS_DADDR + off) bs (shm_of c s) = Done (shm_of c (set_egress s (egress_q s) d)).
Proof.
  intros Hw. rewrite egress_area, <-egress_area_prefix, (area_write _ _ _ off bs d Hw). unfold shm_of.
  by rewrite app_nil_r, <-!app_assoc.
Qed.
End socket.

Lemma mapped_ingress s q d : mapped s → queue_ok q → length d = length (ingress_data s) → mapped (set_ingress s q d).
Proof. intros (Hi & He & Hq & Hq') Hok Hl. unfold mapped. cbn. by rewrite Hl. Qed.

Lemma mapped_egress s q d : mapped s → queue_ok q → length d = length (egress_data s) → mapped (set_egress s q d).
Proof. intros (Hi & He & Hq & Hq') Hok Hl. unfold mapped. cbn. by rewrite Hl. Qed.

(** ** The refinement *)
Inductive sock_op : Type :=
| OpInput (srcaddr : sockaddr) (buf : list Z)
| OpRecv (len : Z) (peek : bool)
| OpSend (buffer : list Z) (dest : sockaddr)
| OpEgressPeek
| OpEgressDiscard.

Inductive sock_ans : Type :=
| AnsInput (r : Z)
| AnsRecv (rd : Z) (src : sockaddr) (bytes : list Z)
| AnsSend (r : Z + Z)
| AnsPeek (d : option (sockaddr * sockaddr * Z))
| AnsDiscard.

(** On the record of [Socket]. *)
Definition rec_step (s : xstack_sock) (o : sock_op) : outcome (sock_ans * xstack_sock) :=
  match o with
  | OpInput src buf => '(r, s) ← xstack_sock_dgram_input s src buf; Done (AnsInput r, s)
  | OpRecv len peek => '(rd, src, bytes, s) ← xstack_recvfrom s len peek; Done (AnsRecv rd src bytes, s)
  | OpSend buffer dest => '(r, s) ← xstack_sendto s buffer dest; Done (AnsSend r, s)
  | OpEgressPeek =>
      d ← egress_peek s;
      Done (AnsPeek ((fun d => (dgram_srcaddr d, dgram_dstaddr d, dgram_buf_size d)) <$> d), s)
  | OpEgressDiscard => s ← egress_discard s; Done (AnsDiscard, s)
  end.

(** On the bytes of the mapping. *)
Definition shm_step (addr : sockaddr) (m : list Z) (o : sock_op) : outcome (sock_ans * list Z) :=
  match o with
  | OpInput src buf => '(r, m) ← shm_dgram_input addr src buf m; Done (AnsInput r, m)
  | OpRecv len peek => '(rd, src, bytes, m) ← shm_recvfrom len peek m; Done (AnsRecv rd src bytes, m)
  | OpSend buffer dest => '(r, m) ← shm_sendto buffer dest m; Done (AnsSend r, m)
  | OpEgressPeek => d ← shm_egress_peek m; Done (AnsPeek d, m)
  | OpEgressDiscard => m ← shm_egress_discard m; Done (AnsDiscard, m)
  end.

(** What a step on the mapping must do. *)
Definition follows (c : sock_ctrl) (s : xstack_sock) (rec : outcome (sock_ans * xstack_sock))
    (shm : outcome (sock_ans * list Z)) : Prop :=
  match rec with
  | Done (a, s') => shm = Done (a, shm_of c s') ∧ mapped s' ∧ sock_addr s' = sock_addr s
  | Spin => shm = Spin
  | Fault => True
  end.

Lemma set_ingress_twice s q d q' d' : set_ingress (set_ingress s q d) q' d' = set_ingress s q' d'.
Proof. done. Qed.

Lemma set_egress_twice s q d q' d' : set_egress (set_egress s q d) q' d' = set_egress s q' d'.
Proof. done. Qed.

Section steps.
Context (c : sock_ctrl) (s : xstack_sock) (Hs : mapped s).

(** A write to an area, and what follows it. *)
Lemma ingress_write_step d0 off bs d :
  length d0 = length (ingress_data s) → mem_write off bs d0 = Done d →
  mem_write (XSTACK_INGRESS_DADDR + off) bs (shm_of c (set_ingress s (ingress_q s) d0)) =
    Done (shm_of c (set_ingress s (ingress_q s) d)) ∧ length d = length (ingress_data s).
Proof.
  intros Hl Hw. split; [|by rewrite (mem_write_length _ _ _ _ Hw)].
  apply (write_ingress c (set_ingress s (ingress_q s) d0)). done.
Qed.

Lemma egress_write_step d0 off bs d :
  length d0 = length (egress_data s) → mem_write off bs d0 = Done d →
  mem_write (XSTACK_EGRESS_DADDR + off) bs (shm_of c (set_egress s (egress_q s) d0)) =
    Done (shm_of c (set_egress s (egress_q s) d)) ∧ length d = length (egress_data s).
Proof.
  intros Hl Hw. split; [|by rewrite (mem_write_length _ _ _ _ Hw)].
  apply (write_egress c (set_egress s (egress_q s) d0)); [|done]. apply mapped_egress; [done|apply Hs|done].
Qed.

Lemma set_ingress_self : set_ingress s (ingress_q s) (ingress_data s) = s.
Proof. by destruct s. Qed.

Lemma set_egress_self : set_egress s (egress_q s) (egress_data s) = s.
Proof. by destruct s. Qed.

Lemma input_follows src buf :
  follows c s (rec_step s (OpInput src buf)) (shm_step (sock_addr s) (shm_of c s) (OpInput src buf)).
Proof.
  cbn [rec_step shm_step]. unfold xstack_sock_dgram_input, shm_dgram_input. rewrite load_ingress, bind_done by done.
  destruct (queue_alloc (ingress_q s)) as [i| |]; [|done|done]. rewrite !bind_done. case_bool_decide; [done|]. cbv zeta.
  destruct (mem_write _ (sockaddr_bytes src) _) as [d1| |] eqn:H1; [|done|by unfold mem_write in H1; case_bool_decide].
  rewrite bind_done. destruct (mem_write _ (sockaddr_bytes (sock_addr s)) d1) as [d2| |] eqn:H2; [|done|by unfold mem_write in H2; case_bool_decide].
  rewrite bind_done. destruct (mem_write _ (le_bytes 8 _) d2) as [d3| |] eqn:H3; [|done|by unfold mem_write in H3; case_bool_decide].
  rewrite bind_done. destruct (mem_write _ buf d3) as [d4| |] eqn:H4; [|done|by unfold mem_write in H4; case_bool_decide].
  rewrite bind_done. replace (shm_of c s) with (shm_of c (set_ingress s (ingress_q s) (ingress_data s))) by (by rewrite set_ingress_self).
  rewrite <-!Nat.add_assoc.
  destruct (ingress_write_step _ _ _ _ eq_refl H1) as [W1 L1]. rewrite W1, bind_done.
  destruct (ingress_write_step _ _ _ _ L1 H2) as [W2 L2]. rewrite W2, bind_done.
  destruct (ingress_write_step _ _ _ _ L2 H3) as [W3 L3]. rewrite W3, bind_done.
  destruct (ingress_write_step _ _ _ _ L3 H4) as [W4 L4]. rewrite W4, bind_done.
  destruct Hs as (Hi & He & Hq & Hq'). destruct (commit_ok _ Hq) as (w & Hw & _ & Hok). rewrite Hw, !bind_done.
  rewrite (commit_ingress c (set_ingress s (ingress_q s) d4) (mapped_ingress s _ _ Hs Hq L4) _ Hw), !bind_done.
  split; [done|]. split; [by apply mapped_ingress|done].
Qed.

Lemma send_follows buffer dest :
  follows c s (rec_step s (OpSend buffer dest)) (shm_step (sock_addr s) (shm_of c s) (OpSend buffer dest)).
Proof.
  cbn [rec_step shm_step]. unfold xstack_sendto, shm_sendto. case_bool_decide; [done|].
  rewrite load_egress, bind_done by done.
  destruct (queue_alloc (egress_q s)) as [i| |]; [|done|done]. rewrite !bind_done. case_bool_decide; [done|]. cbv zeta.
  destruct (mem_write _ (repeat 0 8) _) as [d1| |] eqn:H1; [|done|by unfold mem_write in H1; case_bool_decide].
  rewrite bind_done. destruct (mem_write _ (sockaddr_bytes dest) d1) as [d2| |] eqn:H2; [|done|by unfold mem_write in H2; case_bool_decide].
  rewrite bind_done. destruct (mem_write _ buffer d2) as [d3| |] eqn:H3; [|done|by unfold mem_write in H3; case_bool_decide].
  rewrite bind_done. replace (shm_of c s) with (shm_of c (set_egress s (egress_q s) (egress_data s))) by (by rewrite set_egress_self).
  rewrite <-!Nat.add_assoc.
  destruct (egress_write_step _ _ _ _ eq_refl H1) as [W1 L1]. rewrite W1, bind_done.
  destruct (egress_write_step _ _ _ _ L1 H2) as [W2 L2]. rewrite W2, bind_done.
  destruct (egress_write_step _ _ _ _ L2 H3) as [W3 L3]. rewrite W3, bind_done.
  destruct Hs as (Hi & He & Hq & Hq'). destruct (commit_ok _ Hq') as (w & Hw & _ & Hok). rewrite Hw, !bind_done.
  rewrite (commit_egress c (set_egress s (egress_q s) d3) (mapped_egress s _ _ Hs Hq' L3) _ Hw), !bind_done.
  split; [done|]. split; [by apply mapped_egress|done].
Qed.

Lemma mem_read_drop k n (m : list Z) bs : (k <= length m)%nat →
  mem_read 0 n (drop k m) = Done bs → mem_read k n m = Done bs.
Proof.
  intros Hk [Hl ->]%mem_read_done. rewrite length_drop in Hl. rewrite drop_0. apply mem_read_ok. lia.
Qed.

Lemma discard_area q n r : queue_ok q → queue_discard q 1 = Done (n, r) → queue_ok r.
Proof.
  intros Hq Hd. destruct (discard_spec 1 q Hq) as (q' & Hd' & Hok & _). rewrite Hd' in Hd. by injection Hd as _ <-.
Qed.

Lemma recv_follows len peek :
  follows c s (rec_step s (OpRecv len peek)) (shm_step (sock_addr s) (shm_of c s) (OpRecv len peek)).
Proof.
  cbn [rec_step shm_step]. unfold xstack_recvfrom, shm_recvfrom. rewrite load_ingress, bind_done by done.
  destruct (queue_peek (ingress_q s)) as [i|]; [|done]. cbv zeta. unfold dgram_load.
  destruct (mem_read _ DGRAM_BUF _) as [hdr| |] eqn:H1; [|done|by unfold mem_read in H1; case_bool_decide].
  rewrite !bind_done. cbn [dgram_buf_size dgram_buf dgram_srcaddr].
  pose proof (mem_read_done _ _ _ _ H1) as [Hle _].
  destruct (mem_read 0 _ _) as [bs| |] eqn:H2; [|done|by unfold mem_read in H2; case_bool_decide].
  apply mem_read_drop in H2; [|done]. rewrite (read_ingress c s _ _ _ H1), !bind_done.
  rewrite <-Nat.add_assoc, (read_ingress c s _ _ _ H2), !bind_done.
  destruct peek; [by rewrite !bind_done|].
  destruct (queue_discard (ingress_q s) 1) as [[n q]| |] eqn:Hd; [|done|].
  - rewrite !bind_done. rewrite (discard_ingress c s Hs _ _ Hd), !bind_done. split; [done|].
    split; [|done]. apply mapped_ingress; [done| |done]. apply (discard_area _ _ _ (proj1 (proj2 (proj2 Hs))) Hd).
  - exfalso. destruct (discard_spec 1 (ingress_q s) (proj1 (proj2 (proj2 Hs)))) as (q' & Hd' & _). congruence.
Qed.

Lemma peek_follows : follows c s (rec_step s OpEgressPeek) (shm_step (sock_addr s) (shm_of c s) OpEgressPeek).
Proof.
  cbn [rec_step shm_step]. unfold egress_peek, shm_egress_peek. rewrite load_egress, bind_done by done.
  destruct (queue_isempty _); [done|]. destruct (queue_peek (egress_q s)) as [i|]; [|done]. unfold dgram_load.
  destruct (mem_read _ DGRAM_BUF _) as [hdr| |] eqn:H1; [|done|by unfold mem_read in H1; case_bool_decide].
  by rewrite !bind_done, (read_egress c s Hs _ _ _ H1), !bind_done.
Qed.

Lemma discard_follows :
  follows c s (rec_step s OpEgressDiscard) (shm_step (sock_addr s) (shm_of c s) OpEgressDiscard).
Proof.
  cbn [rec_step shm_step]. unfold egress_discard, shm_egress_discard.
  destruct (queue_discard (egress_q s) 1) as [[n q]| |] eqn:Hd; [|done|].
  - rewrite !bind_done. rewrite (discard_egress c s Hs _ _ Hd), !bind_done. split; [done|].
    split; [|done]. apply mapped_egress; [done| |done]. apply (discard_area _ _ _ (proj2 (proj2 (proj2 Hs))) Hd).
  - exfalso. destruct (discard_spec 1 (egress_q s) (proj2 (proj2 (proj2 Hs)))) as (q' & Hd' & _). congruence.
Qed.

Lemma step_follows o : follows c s (rec_step s o) (shm_step (sock_addr s) (shm_of c s) o).
Proof.
  destruct o; [apply input_follows|apply recv_follows|apply send_follows|apply peek_follows|apply discard_follows].
Qed.
End steps.

(** *** Sessions *)
Fixpoint rec_run (s : xstack_sock) (ops : list sock_op) : outcome (list sock_ans * xstack_sock) :=
  match ops with
  | [] => Done ([], s)
  | o :: ops => '(a, s) ← rec_step s o; '(l, s) ← rec_run s ops; Done (a :: l, s)
  end.

Fixpoint shm_run (addr : sockaddr) (m : list Z) (ops : list sock_op) : outcome (list sock_ans * list Z) :=
  match ops with
  | [] => Done ([], m)
  | o :: ops => '(a, m) ← shm_step addr m o; '(l, m) ← shm_run addr m ops; Done (a :: l, m)
  end.

Lemma run_follows c ops : ∀ s, mapped s →
  match rec_run s ops with
  | Done (l, s') => shm_run (sock_addr s) (shm_of c s) ops = Done (l, shm_of c s') ∧ mapped s' ∧ sock_addr s' = sock_addr s
  | Spin => shm_run (sock_addr s) (shm_of c s) ops = Spin
  | Fault => True
  end.
Proof.
  induction ops as [|o ops IH]; intros s Hs; cbn [rec_run shm_run]; [done|].
  pose proof (step_follows c s Hs o) as Hstep. unfold follows in Hstep.
  destruct (rec_step s o) as [[a s1]| |]; [|done|by rewrite Hstep].
  destruct Hstep as (Hrun & Hs1 & Ha). rewrite Hrun, !bind_done. specialize (IH s1 Hs1). rewrite Ha in IH.
  destruct (rec_run s1 ops) as [[l s2]| |]; [|done|by rewrite IH]. rewrite bind_done.
  destruct IH as (Hr & Hs2 & Ha2). by rewrite Hr, !bind_done.
Qed.

(** ** [xstack_init] on the mapping *)
Lemma write_all (m bs : list Z) : length m = length bs → mem_write 0 bs m = Done bs.
Proof. intros Hl. rewrite mem_write_ok by lia. rewrite drop_ge by lia. by rewrite take_0, app_nil_r. Qed.

Lemma shm_init_done pid addr m : length m = XSTACK_SHMEM_SIZE →
  ∃ s, xstack_init_sock XIP_PROTO_UDP addr = Done s ∧ sock_addr s = addr ∧ mapped s ∧
    shm_init pid m = Done (shm_of (SockCtrl pid 0) s).
Proof.
  intros Hl. eexists. split; [reflexivity|]. split; [reflexivity|]. split.
  { unfold mapped. cbn [ingress_data egress_data ingress_q egress_q]. rewrite repeat_length.
    assert (Hq : queue_ok (QueueCb XSTACK_DATAGRAM_SIZE_MAX (XSTACK_DATAGRAM_BUF_SIZE / XSTACK_DATAGRAM_SIZE_MAX) 0 0)) by (by vm_compute).
    done. }
  unfold shm_init. rewrite write_all by (rewrite repeat_length; done). rewrite bind_done.
  set (z := repeat 0 DATA_SIZE).
  assert (Hz : repeat 0 XSTACK_SHMEM_SIZE = repeat 0 SOCK_CTRL_SIZE ++ repeat 0 QUEUE_CB_SIZE ++ z ++ repeat 0 QUEUE_CB_SIZE ++ z).
  { unfold z. rewrite <-!repeat_app. f_equal. }
  rewrite Hz. change (mem_write XSTACK_SOCK_CTRL) with (mem_write 0).
  rewrite <-(app_nil_l (repeat 0 SOCK_CTRL_SIZE ++ _)), (mem_write_mid 0) by done. rewrite bind_done.
  change (queue_create XSTACK_DATAGRAM_SIZE_MAX XSTACK_DATAGRAM_BUF_SIZE) with (Done (QueueCb 4096 4 0 0)). rewrite bind_done.
  cbn [app]. change (mem_write XSTACK_INGRESS_QADDR) with (mem_write SOCK_CTRL_SIZE).
  rewrite (mem_write_mid SOCK_CTRL_SIZE) by done. rewrite !bind_done.
  rewrite !app_assoc. rewrite <-(app_assoc _ _ z).
  rewrite (mem_write_mid XSTACK_EGRESS_QADDR); [|unfold z; rewrite !length_app, repeat_length; done|done].
  unfold shm_of. rewrite <-!app_assoc. done.
Qed.

(** ** Properties *)

(** C30: The layout of the shared memory.  [xstack_init] on a mapping of
    [XSTACK_SHMEM_SIZE] bytes, with any contents, makes the image of two empty
    queues with cleared areas and the process id of the stack; the regions the
    address macros point to are disjoint and fill the mapping.  From then on
    every sequence of calls of the stack and of the application, run on the bytes
    of the mapping, gives the answers the calls give on the socket as a record, and
    the image of that record, until a call leaves its area. *)
Theorem shm_refines_sock pid addr m ops :
  length m = XSTACK_SHMEM_SIZE →
  ∃ s, xstack_init_sock XIP_PROTO_UDP addr = Done s ∧ shm_init pid m = Done (shm_of (SockCtrl pid 0) s) ∧
    match rec_run s ops with
    | Done (l, s') => shm_run addr (shm_of (SockCtrl pid 0) s) ops = Done (l, shm_of (SockCtrl pid 0) s')
    | Spin => shm_run addr (shm_of (SockCtrl pid 0) s) ops = Spin
    | Fault => True
    end.
Proof.
  intros Hl. destruct (shm_init_done pid addr m Hl) as (s & Hs & Ha & Hm & Hi). exists s. split; [done|]. split; [done|].
  pose proof (run_follows (SockCtrl pid 0) ops s Hm) as Hf.
  rewrite Ha in Hf.
  destruct (rec_run s ops) as [[l s']| |]; [by destruct Hf|done|done].
Qed.

Definition demo_ops : list sock_op :=
  [OpInput (Sockaddr 0x0A000003 53) [1; 2; 3]; OpRecv 2 true; OpSend [4; 5] (Sockaddr 0x0A000003 99);
   OpRecv 10 false; OpEgressPeek; OpEgressDiscard; OpEgressPeek].

Lemma shm_refines_sock_witness :
  length (repeat 255 XSTACK_SHMEM_SIZE) = XSTACK_SHMEM_SIZE ∧
  ∃ s, xstack_init_sock XIP_PROTO_UDP (Sockaddr 0x0A000002 10) = Done s ∧
    shm_init 7 (repeat 255 XSTACK_SHMEM_SIZE) = Done (shm_of (SockCtrl 7 0) s) ∧
    match rec_run s demo_ops with
    | Done (l, s') => shm_run (Sockaddr 0x0A000002 10) (shm_of (SockCtrl 7 0) s) demo_ops = Done (l, shm_of (SockCtrl 7 0) s')
    | Spin => shm_run (Sockaddr 0x0A000002 10) (shm_of (SockCtrl 7 0) s) demo_ops = Spin
    | Fault => True
    end.
Proof.
  split; [apply repeat_length|].
  apply (shm_refines_sock 7 (Sockaddr 0x0A000002 10) (repeat 255 XSTACK_SHMEM_SIZE) demo_ops). apply repeat_length.
Defined.

(** The answers of this session. *)
Lemma demo_ops_answers :
  (s ← xstack_init_sock XIP_PROTO_UDP (Sockaddr 0x0A000002 10); '(l, _) ← rec_run s demo_ops; Done l) =
  Done [AnsInput 0; AnsRecv 2 (Sockaddr 0x0A000003 53) [1; 2]; AnsSend (inl 2);
        AnsRecv 3 (Sockaddr 0x0A000003 53) [1; 2; 3];
        AnsPeek (Some (Sockaddr 0 0, Sockaddr 0x0A000003 99, 0)); AnsDiscard; AnsPeek None].
Proof. by vm_compute. Qed.

(** A received datagram of more than 4072 bytes does not fit into its block.  In
    the last block of the ingress area its end overwrites the control block of the
    egress queue: block size, length and write index become bytes of the
    datagram. *)
Definition last_block : xstack_sock :=
  let zeros := repeat 0 DATA_SIZE in
  Sock XIP_PROTO_UDP (Sockaddr 0x0A000002 10) (QueueCb 4096 4 3 1) zeros (QueueCb 4096 4 0 0) zeros.

Lemma ingress_overruns_egress_queue :
  ('(_, m) ← shm_dgram_input (sock_addr last_block) (Sockaddr 0x0A000003 53) (repeat 7 4096) (shm_of (SockCtrl 7 0) last_block);
   cb_load XSTACK_EGRESS_QADDR m) =
  Done (QueueCb (le_val (repeat 7 8)) (le_val (repeat 7 8)) (le_val (repeat 7 8)) 0).
Proof. by vm_compute. Qed.
