(* ===== verification/Signals.v ===== *)
(** * Signals between the stack and its applications

    [SIGUSR2] tells the other process that there is a datagram in the queue,
    [SIGUSR1] tells the stack to stop ([main] of [src/xstack.c]).  The masks
    are those the code sets up; a signal that is pending for a process goes, as
    POSIX says, to any one of the threads that wait for it or do not block it.
    The second part has the time that [xstack_recvfrom] ([lib/xstack.c]) waits. *)

From S2P Require Import Prelude Shm.
From stdpp Require Import relations.

#[local] Open Scope Z_scope.

(** ** Threads and processes *)
Inductive signal : Type := SIGUSR1 | SIGUSR2.

#[export] Instance signal_eq_dec : EqDecision signal.
Proof. solve_decision. Defined.

(** A thread: its mask, and the set of the [sigwaitinfo] or [sigtimedwait] it is
    in. *)
Record thr : Type := Thr {
  blocked : list signal;
  waiting : option (list signal)
}.

Record proc : Type := Proc {
  threads : list thr;
  pending : list signal;
  terminated : bool
}.

Definition set_mask (m : list signal) (t : thr) : thr := Thr m (waiting t).
Definition block (m : list signal) (t : thr) : thr := Thr (m ++ blocked t) (waiting t).
Definition wait_for (s : list signal) (t : thr) : thr := Thr (blocked t) (Some s).
Definition stop_waiting (t : thr) : thr := Thr (blocked t) None.

(** [pthread_create]: the new thread has the mask of its creator. *)
Definition spawn (t : thr) : thr := Thr (blocked t) None.

(** A signal that is already pending is not counted twice. *)
Definition generate (s : signal) (p : proc) : proc :=
  Proc (threads p) (if bool_decide (s ∈ pending p) then pending p else s :: pending p) (terminated p).

Definition take_signal (s : signal) (l : list signal) : list signal := filter (fun x => x ≠ s) l.

(** What may happen to a process with a pending signal. *)
Inductive sig_step : proc → proc → Prop :=
| sig_accept p i t set s :                   (* the wait returns the signal *)
    terminated p = false → threads p !! i = Some t → waiting t = Some set → s ∈ set → s ∈ pending p →
    sig_step p (Proc (<[i := stop_waiting t]> (threads p)) (take_signal s (pending p)) false)
| sig_deliver p i t s :                      (* the default action of both signals *)
    terminated p = false → threads p !! i = Some t → s ∉ blocked t → s ∈ pending p →
    sig_step p (Proc (threads p) (take_signal s (pending p)) true)
| sig_timeout p i t set :                    (* the time of [sigtimedwait] is over *)
    terminated p = false → threads p !! i = Some t → waiting t = Some set →
    sig_step p (Proc (<[i := stop_waiting t]> (threads p)) (pending p) false)
| sig_wait p i t set :                       (* the thread waits again *)
    terminated p = false → threads p !! i = Some t → waiting t = None →
    sig_step p (Proc (<[i := wait_for set t]> (threads p)) (pending p) false).

(** ** The two programs *)

(** [main]: [sigprocmask(SIG_SETMASK, {SIGUSR1})] before the threads are made,
    [sigwaitinfo({SIGUSR1})] after it. *)
Definition main_masked : thr := set_mask [SIGUSR1] (Thr [] None).

(** [xstack_egress_thread] blocks [SIGUSR2] and waits for it. *)
Definition xstack_egress_start (t : thr) : thr := wait_for [SIGUSR2] (block [SIGUSR2] t).

Definition stack_started : proc :=
  Proc [wait_for [SIGUSR1] main_masked; spawn main_masked; xstack_egress_start (spawn main_masked)] [] false.

(** [block_sigusr2], in [xstack_listen]. *)
Definition block_sigusr2 (t : thr) : thr := block [SIGUSR2] t.

Definition app_started : proc := Proc [Thr [] None] [] false.

Definition on_thread (i : nat) (f : thr → thr) (p : proc) : proc :=
  Proc (alter f i (threads p)) (pending p) (terminated p).

(** ** Who gets a signal *)

(** The stack, one application, the control block they share, and whether they
    are in the same process group (a shell puts them into different ones). *)
Record ipc : Type := Ipc {
  stack : proc;
  app : proc;
  ctrl : sock_ctrl;
  same_group : bool
}.

Definition STACK_PID : Z := 100.
Definition APP_PID : Z := 200.

(** [kill(pid, sig)] called by one of the two processes: 0 stands for the process
    group of the caller. *)
Definition kill (by_stack : bool) (pid : Z) (s : signal) (y : ipc) : ipc :=
  let grp := bool_decide (pid = 0) in
  let to_stack := bool_decide (pid = STACK_PID) || grp && (by_stack || same_group y) in
  let to_app := bool_decide (pid = APP_PID) || grp && (negb by_stack || same_group y) in
  Ipc (if to_stack then generate s (stack y) else stack y) (if to_app then generate s (app y) else app y)
    (ctrl y) (same_group y).

(** [xstack_init]: [pid_inetd] is the stack, [pid_end] is 0. *)
Definition ipc_started (grp : bool) : ipc :=
  Ipc stack_started app_started (SockCtrl STACK_PID 0) grp.

Inductive ipc_event : Type :=
| IpcListen             (* the application calls [xstack_listen] *)
| IpcDatagram           (* the stack puts a datagram into the ingress queue *)
| IpcSendto             (* the application puts one into the egress queue *)
| IpcStop.              (* somebody sends [SIGUSR1] to the stack *)

Definition ipc_step (e : ipc_event) (y : ipc) : ipc :=
  match e with
  | IpcListen => Ipc (stack y) (on_thread 0 block_sigusr2 (app y)) (SockCtrl (pid_inetd (ctrl y)) APP_PID) (same_group y)
  | IpcDatagram => kill true (pid_end (ctrl y)) SIGUSR2 y
  | IpcSendto => kill false (pid_inetd (ctrl y)) SIGUSR2 y
  | IpcStop => Ipc (generate SIGUSR1 (stack y)) (app y) (ctrl y) (same_group y)
  end.

(** One step of the system: a call, or what a pending signal does. *)
Inductive sys_step : option ipc_event → ipc → ipc → Prop :=
| sys_call e y : terminated (stack y) = false → terminated (app y) = false → sys_step (Some e) y (ipc_step e y)
| sys_stack y p : sig_step (stack y) p → sys_step None y (Ipc p (app y) (ctrl y) (same_group y))
| sys_app y p : sig_step (app y) p → sys_step None y (Ipc (stack y) p (ctrl y) (same_group y)).

(** The runs in which only calls of [ok] are made. *)
Definition run_with (ok : ipc_event → Prop) : ipc → ipc → Prop :=
  rtc (fun y y' => ∃ o, sys_step o y y' ∧ match o with Some e => ok e | None => True end).

(** ** A blocked signal does not terminate a process *)

(** Every signal that is pending is blocked by every thread. *)
Definition masked (p : proc) : Prop :=
  terminated p = false ∧ Forall (fun t => Forall (fun s => s ∈ blocked t) (pending p)) (threads p).

(** Every thread blocks [s]. *)
Definition blocks (s : signal) (p : proc) : Prop := Forall (fun t => s ∈ blocked t) (threads p).

Lemma take_signal_sub s l x : x ∈ take_signal s l → x ∈ l.
Proof. unfold take_signal. rewrite list_elem_of_filter. by intros [_ ?]. Qed.

Lemma Forall_same_mask (P : list signal → Prop) l i t t' :
  Forall (fun t => P (blocked t)) l → l !! i = Some t → blocked t' = blocked t →
  Forall (fun t => P (blocked t)) (<[i := t']> l).
Proof.
  intros Hl Hi Hb. apply Forall_insert; [done|]. rewrite Hb. rewrite Forall_lookup in Hl. by eapply Hl.
Qed.

Lemma blocks_step s p p' : blocks s p → sig_step p p' → blocks s p'.
Proof.
  intros Hb Hs. unfold blocks in *.
  destruct Hs as [p i t set x _ Hi _ _ _|p i t x _ _ _ _|p i t set _ Hi _|p i t set _ Hi _]; cbn [threads]; try done;
    by eapply (Forall_same_mask (fun b => s ∈ b)).
Qed.

Lemma masked_step p p' : masked p → sig_step p p' → masked p'.
Proof.
  intros [Ht Hm] Hs. unfold masked in *.
  destruct Hs as [p i t set x _ Hi _ _ _|p i t x _ Hi Hn Hp|p i t set _ Hi _|p i t set _ Hi _]; cbn [threads pending terminated].
  - split; [done|]. apply (Forall_same_mask (fun b => Forall (fun s => s ∈ b) (take_signal x (pending p))) _ i t); [|done|done].
    eapply Forall_impl; [exact Hm|]. intros u Hu. rewrite Forall_forall in Hu |- *. intros y Hy%take_signal_sub. by apply Hu.
  - rewrite Forall_lookup in Hm. specialize (Hm i t Hi). rewrite Forall_forall in Hm. by destruct Hn; apply Hm.
  - split; [done|]. by apply (Forall_same_mask (fun b => Forall (fun s => s ∈ b) (pending p)) _ i t).
  - split; [done|]. by apply (Forall_same_mask (fun b => Forall (fun s => s ∈ b) (pending p)) _ i t).
Qed.

Lemma masked_generate s p : blocks s p → masked p → masked (generate s p).
Proof.
  intros Hb [Ht Hm]. split; [done|]. unfold generate. cbn [threads pending]. case_bool_decide; [done|].
  unfold blocks in Hb. rewrite Forall_forall in Hb, Hm |- *. intros t Hin. constructor; [by apply Hb|by apply Hm].
Qed.

Lemma blocks_generate s x p : blocks s p → blocks s (generate x p).
Proof. done. Qed.

(** *** Runs without [xstack_sendto], after [xstack_listen] *)
Record quiet (y : ipc) : Prop := Quiet {
  q_stack : masked (stack y);
  q_app : masked (app y);
  q_stop : blocks SIGUSR1 (stack y);
  q_wake : blocks SIGUSR2 (app y);
  q_ctrl : ctrl y = SockCtrl STACK_PID APP_PID
}.

Lemma quiet_listened g : quiet (ipc_step IpcListen (ipc_started g)).
Proof.
  split; cbn.
  - split; [done|]. by repeat constructor.
  - split; [done|]. by repeat constructor.
  - repeat constructor; cbn; set_solver.
  - repeat constructor; cbn; set_solver.
  - done.
Qed.

Lemma block_masked p : masked p → masked (on_thread 0 block_sigusr2 p).
Proof.
  intros [Ht Hm]. split; [done|]. cbn [on_thread threads pending]. apply Forall_alter; [done|].
  intros t _ Hs. eapply Forall_impl; [exact Hs|]. intros s Hin. cbn. set_solver.
Qed.

Lemma block_blocks s p : blocks s p → blocks s (on_thread 0 block_sigusr2 p).
Proof. intros Hb. unfold blocks. cbn [on_thread threads]. apply Forall_alter; [done|]. intros t _ Hs. cbn. set_solver. Qed.

Lemma quiet_step o y y' : quiet y → sys_step o y y' →
  match o with Some e => e ≠ IpcSendto | None => True end → quiet y'.
Proof.
  intros [Hs Ha H1 H2 Hc] Hstep Hok. destruct Hstep as [e y Hts Hta|y p Hp|y p Hp].
  - destruct e; cbn [ipc_step]; [| |done|].
    + split; cbn [stack app ctrl]; [done|by apply block_masked|done|by apply block_blocks|by rewrite Hc].
    + rewrite Hc. cbn [pid_end kill]. change (bool_decide (APP_PID = 0)) with false.
      change (bool_decide (APP_PID = STACK_PID)) with false. change (bool_decide (APP_PID = APP_PID)) with true.
      unfold kill. cbn. split; cbn [stack app ctrl]; [done|by apply masked_generate|done|done|done].
    + split; cbn [stack app ctrl]; [by apply masked_generate|done|done|done|done].
  - split; cbn [stack app ctrl]; [exact (masked_step _ _ Hs Hp)|done|exact (blocks_step _ _ _ H1 Hp)|done|done].
  - split; cbn [stack app ctrl]; [done|exact (masked_step _ _ Ha Hp)|done|exact (blocks_step _ _ _ H2 Hp)|done].
Qed.

Lemma quiet_run y y' : quiet y → run_with (fun e => e ≠ IpcSendto) y y' → quiet y'.
Proof.
  intros Hq Hr. induction Hr as [y|y y1 y' (o & Hstep & Hok) _ IH]; [done|]. apply IH. by eapply quiet_step.
Qed.

(** The main thread of the stack does not block [SIGUSR2]. *)
Lemma main_dies y :
  threads (stack y) = threads stack_started → terminated (stack y) = false → SIGUSR2 ∈ pending (stack y) →
  ∃ p, sig_step (stack y) p ∧ terminated p = true.
Proof.
  intros Ht Hn Hp. exists (Proc (threads (stack y)) (take_signal SIGUSR2 (pending (stack y))) true). split; [|done].
  apply (sig_deliver (stack y) 0 (wait_for [SIGUSR1] main_masked) SIGUSR2); [done|by rewrite Ht| |done].
  cbn. set_solver.
Qed.

Lemma dies_after e y : terminated (stack y) = false → terminated (app y) = false →
  threads (stack y) = threads stack_started →
  stack (ipc_step e y) = generate SIGUSR2 (stack y) →
  ∃ y', run_with (fun e' => e' = e) y y' ∧ terminated (stack y') = true.
Proof.
  intros Hn Ha Ht He. destruct (main_dies (ipc_step e y)) as (p & Hp & Hd).
  - by rewrite He.
  - by rewrite He.
  - rewrite He. unfold generate. cbn [pending]. case_bool_decide; [done|by left].
  - exists (Ipc p (app (ipc_step e y)) (ctrl (ipc_step e y)) (same_group (ipc_step e y))). split; [|done].
    eapply rtc_l; [|eapply rtc_once].
    + exists (Some e). split; [by apply sys_call|done].
    + exists None. split; [by apply sys_stack|done].
Qed.

(** ** The time of [xstack_recvfrom] *)

(** [committed] are the times at which datagrams are committed to the ingress
    queue and not read yet, [sigs] those at which their [SIGUSR2] was or will be
    generated, and not accepted yet; both in order.  Signals that are pending
    together are accepted together. *)
Definition XSTACK_PERIODIC_EVENT_SEC : Z := 10.

Definition accept_until (t : Z) (sigs : list Z) : list Z := filter (fun s => t < s) sigs.

(** [sigtimedwait] called at the time [now]: when it returns. *)
Definition sigtimedwait (now : Z) (sigs : list Z) : Z * list Z :=
  match sigs with
  | s :: _ =>
      let t := if bool_decide (s <= now) then now else Z.min s (now + XSTACK_PERIODIC_EVENT_SEC) in
      (t, accept_until t sigs)
  | [] => (now + XSTACK_PERIODIC_EVENT_SEC, [])
  end.

(** The loop of [xstack_recvfrom]: it waits before it looks at the queue. *)
Fixpoint recvfrom_at (fuel : nat) (now : Z) (sigs committed : list Z) : outcome (Z * list Z * list Z) :=
  match fuel with
  | O => Spin
  | S fuel =>
      let (t, sigs) := sigtimedwait now sigs in
      match committed with
      | c :: committed => if bool_decide (c <= t) then Done (t, sigs, committed) else recvfrom_at fuel t sigs (c :: committed)
      | [] => recvfrom_at fuel t sigs []
      end
  end.

(** An application that reads one datagram after the other. *)
Fixpoint recv_loop (fuel : nat) (now : Z) (sigs committed : list Z) : outcome (list Z) :=
  match committed with
  | [] => Done []
  | _ :: rest =>
      '(t, sigs, _) ← recvfrom_at fuel now sigs committed;
      ts ← recv_loop fuel t sigs rest;
      Done (t :: ts)
  end.

(** A datagram that is committed while the reader waits is returned at once, one
    that was there before within [XSTACK_PERIODIC_EVENT_SEC]. *)
Definition in_time (now c t : Z) : Prop :=
  if bool_decide (now < c) then t = c else now <= t <= now + XSTACK_PERIODIC_EVENT_SEC.

Fixpoint all_in_time (now : Z) (cs ts : list Z) : Prop :=
  match cs, ts with
  | [], [] => True
  | c :: cs, t :: ts => in_time now c t ∧ all_in_time t cs ts
  | _, _ => False
  end.

Abbreviation ordered := (StronglySorted Z.le).

Lemma accept_ordered t l : ordered l → ordered (accept_until t l).
Proof.
  intros Hl. unfold accept_until. induction Hl as [|x l Hl IH Hx]; [constructor|].
  rewrite filter_cons. case_decide; [|done]. constructor; [done|].
  rewrite Forall_forall in Hx |- *. intros y [_ Hy]%list_elem_of_filter. by apply Hx.
Qed.

Lemma accept_twice t t' l : t <= t' → accept_until t' (accept_until t l) = accept_until t' l.
Proof.
  intros Ht. unfold accept_until. rewrite list_filter_filter. apply list_filter_iff. intros x. lia.
Qed.

Lemma accept_length t l : (length (accept_until t l) <= length l)%nat.
Proof. apply length_filter. Qed.

(** One wait. *)
Lemma wait_returns now sigs : ordered sigs →
  let '(t, sigs') := sigtimedwait now sigs in
  sigs' = accept_until t sigs ∧ now <= t <= now + XSTACK_PERIODIC_EVENT_SEC ∧
  (∀ s, s ∈ sigs → now < s → t <= s) ∧ ((length sigs' < length sigs)%nat ∨ now < t).
Proof.
  intros Hs. unfold sigtimedwait, XSTACK_PERIODIC_EVENT_SEC. destruct sigs as [|s sigs].
  { split; [done|]. split; [lia|]. split; [|right; lia]. intros s Hs'. by apply elem_of_nil in Hs'. }
  apply StronglySorted_inv in Hs as [Hs Hle]. rewrite Forall_forall in Hle. split; [done|]. case_bool_decide as Hp.
  - split; [lia|]. split; [lia|]. left. unfold accept_until. rewrite filter_cons, decide_False by lia.
    pose proof (accept_length now sigs). unfold accept_until in *. cbn [length]. lia.
  - split; [lia|]. split; [|right; lia]. intros s' [->|Hs']%elem_of_cons Hn; [lia|]. specialize (Hle s' Hs'). lia.
Qed.

Lemma recvfrom_returns fuel : ∀ now sigs c cs,
  ordered sigs → (now < c → c ∈ sigs) → (length sigs + Z.to_nat (c - now) < fuel)%nat →
  ∃ t, recvfrom_at fuel now sigs (c :: cs) = Done (t, accept_until t sigs, cs) ∧ in_time now c t.
Proof.
  induction fuel as [|fuel IH]; intros now sigs c cs Hs Hc Hf; [lia|]. cbn [recvfrom_at].
  pose proof (wait_returns now sigs Hs) as Hw. destruct (sigtimedwait now sigs) as [t sigs'].
  destruct Hw as (-> & Ht & Hmin & Hprog). unfold in_time. case_bool_decide as Hct.
  - exists t. split; [done|]. case_bool_decide as Hnc; [|lia]. specialize (Hmin c (Hc Hnc) Hnc). lia.
  - assert (Hnc : now < c) by lia.
    destruct (IH t (accept_until t sigs) c cs (accept_ordered t sigs Hs)) as (t' & Hr & Hin).
    + intros Htc. unfold accept_until. apply list_elem_of_filter. auto.
    + pose proof (accept_length t sigs). lia.
    + unfold in_time in Hin. rewrite bool_decide_true in Hin by lia. subst t'. exists c. split; [|by rewrite bool_decide_true].
      rewrite Hr. by rewrite accept_twice by lia.
Qed.

Lemma recv_loop_returns fuel committed : ∀ now sigs,
  ordered sigs → ordered committed → (∀ c, c ∈ committed → now < c → c ∈ sigs) →
  Forall (fun c => length sigs + Z.to_nat (c - now) < fuel)%nat committed →
  ∃ ts, recv_loop fuel now sigs committed = Done ts ∧ all_in_time now committed ts.
Proof.
  induction committed as [|c cs IH]; intros now sigs Hs Hcs Hin Hf; cbn [recv_loop]; [by exists []|].
  apply StronglySorted_inv in Hcs as [Hcs Hle]. apply Forall_cons in Hf as [Hf Hfs].
  destruct (recvfrom_returns fuel now sigs c cs Hs) as (t & Hr & Ht); [intros Hn; apply Hin; [by left|done]|done|].
  rewrite Hr, bind_done.
  assert (Hnt : now <= t) by (unfold in_time in Ht; case_bool_decide; lia).
  destruct (IH t (accept_until t sigs) (accept_ordered t sigs Hs) Hcs) as (ts & Hl & Hts).
  - intros c' Hc' Htc. unfold accept_until. apply list_elem_of_filter. split; [done|]. apply Hin; [by right|lia].
  - rewrite Forall_forall in Hfs |- *. intros c' Hc'. specialize (Hfs c' Hc'). pose proof (accept_length t sigs). lia.
  - exists (t :: ts). by rewrite Hl, bind_done.
Qed.

(** ** Properties *)

(** C34: Who survives the signals.  After [xstack_listen], whatever datagrams
    the stack delivers, whoever stops it, and whatever thread takes a signal,
    neither process is ever terminated, as long as the application does not send.
    But the main thread and the ingress thread of the stack do not block
    [SIGUSR2]: the signal of a single [xstack_sendto] may terminate the stack, and
    so may the signal of a single datagram that arrives before
    [xstack_listen], because it goes to the process group of the stack. *)
Theorem signals_kill_stack g :
  (∀ y, run_with (fun e => e ≠ IpcSendto) (ipc_step IpcListen (ipc_started g)) y →
     terminated (stack y) = false ∧ terminated (app y) = false) ∧
  (∃ y, run_with (fun e => e = IpcSendto) (ipc_step IpcListen (ipc_started g)) y ∧ terminated (stack y) = true) ∧
  (∃ y, run_with (fun e => e = IpcDatagram) (ipc_started g) y ∧ terminated (stack y) = true).
Proof.
  split; [|split].
  - intros y Hr. destruct (quiet_run _ _ (quiet_listened g) Hr) as [[Hs _] [Ha _] _ _ _]. done.
  - by apply (dies_after IpcSendto).
  - by apply (dies_after IpcDatagram).
Qed.

(** C35: No datagram is forgotten.  An application that reads one datagram after the
    other gets each of them, however the signals coalesce: one that is committed
    while it waits, at that moment; one that was committed before, no later than 10
    seconds after the call. *)
Theorem recvfrom_in_time fuel now committed :
  ordered committed → Forall (fun c => length committed + Z.to_nat (c - now) < fuel)%nat committed →
  ∃ ts, recv_loop fuel now committed committed = Done ts ∧ all_in_time now committed ts.
Proof. intros Ho Hf. by apply recv_loop_returns. Qed.

(** Three datagrams at once and one a minute later: one signal for the three, so
    the second and the third wait for the timeout. *)
Lemma recvfrom_in_time_witness :
  recv_loop 100 0 [0; 0; 0; 60] [0; 0; 0; 60] = Done [0; 10; 20; 60] ∧
  ∃ ts, recv_loop 100 0 [0; 0; 0; 60] [0; 0; 0; 60] = Done ts ∧ all_in_time 0 [0; 0; 0; 60] ts.
Proof.
  split; [reflexivity|]. apply (recvfrom_in_time 100 0 [0; 0; 0; 60]).
  - repeat constructor; lia.
  - repeat constructor; cbn [length]; lia.
Defined.
