(* ===== verification/Text.v ===== *)
(** * Text: [%d] of [sprintf], [ip2str] of [util/ip_util.c]

    C strings are lists of character codes without the terminating zero; a
    buffer that holds one has the zero after it. *)

From S2P Require Import Prelude Bytes.

#[local] Open Scope Z_scope.

(** ** Numbers *)
Definition DIGIT_0 : Z := 48.
Definition MINUS : Z := 45.

(** The digits of [n], before [acc]; [fuel] is the number of digits at most. *)
Fixpoint digits (fuel : nat) (n : Z) (acc : list Z) : list Z :=
  match fuel with
  | O => acc
  | S fuel =>
      let acc := (DIGIT_0 + n mod 10) :: acc in
      if bool_decide (n / 10 = 0) then acc else digits fuel (n / 10) acc
  end.

(** [%d] of an [int], which has at most ten digits. *)
Definition fmt_d (n : Z) : list Z :=
  if bool_decide (n < 0) then MINUS :: digits 10 (- n) [] else digits 10 n [].

Definition digits_val (l : list Z) : Z := foldl (fun v c => 10 * v + (c - DIGIT_0)) 0 l.

Definition scan_d (l : list Z) : Z :=
  match l with
  | c :: l' => if bool_decide (c = MINUS) then - digits_val l' else digits_val l
  | [] => 0
  end.

Definition is_digit (c : Z) : Prop := DIGIT_0 <= c <= DIGIT_0 + 9.

Lemma digits_shape fuel n acc : 0 <= n → Forall is_digit acc →
  Forall is_digit (digits fuel n acc) ∧ (length (digits fuel n acc) <= fuel + length acc)%nat.
Proof.
  revert n acc. induction fuel as [|fuel IH]; intros n acc Hn Ha; cbn [digits]; [by split|]. cbv zeta.
  assert (Hd : is_digit (DIGIT_0 + n mod 10)) by (unfold is_digit; pose proof (Z.mod_pos_bound n 10); lia).
  case_bool_decide.
  - split; [by constructor|cbn [length]; lia].
  - destruct (IH (n / 10) (DIGIT_0 + n mod 10 :: acc)) as [H1 H2]; [apply Z.div_pos; lia|by constructor|].
    split; [done|]. cbn [length] in H2. lia.
Qed.

(** Fewer digits for smaller numbers. *)
Lemma digits_short k fuel n acc : (0 < k <= fuel)%nat → 0 <= n < 10 ^ Z.of_nat k →
  (length (digits fuel n acc) <= k + length acc)%nat.
Proof.
  revert k n acc. induction fuel as [|fuel IH]; intros k n acc Hk Hn; [lia|]. cbn [digits]. cbv zeta.
  case_bool_decide as H0; [cbn [length]; lia|]. destruct k as [|[|k]]; [lia| |].
  - exfalso. apply H0. apply Z.div_small. change (10 ^ Z.of_nat 1) with 10 in Hn. lia.
  - specialize (IH (S k) (n / 10) (DIGIT_0 + n mod 10 :: acc)). cbn [length] in IH |- *.
    rewrite Nat2Z.inj_succ, Z.pow_succ_r in Hn by lia.
    assert (0 <= n / 10 < 10 ^ Z.of_nat (S k)); [|lia].
    split; [apply Z.div_pos; lia|apply Z.div_lt_upper_bound; lia].
Qed.

Lemma digits_app fuel n acc : digits fuel n acc = digits fuel n [] ++ acc.
Proof.
  revert n acc. induction fuel as [|fuel IH]; intros n acc; cbn [digits]; [done|]. cbv zeta. case_bool_decide; [done|].
  rewrite (IH _ (_ :: acc)), (IH _ [_]), <-(assoc app). done.
Qed.

Lemma digits_scan fuel n : 0 <= n < 10 ^ Z.of_nat fuel → (0 < fuel)%nat → digits_val (digits fuel n []) = n.
Proof.
  unfold digits_val. revert n. induction fuel as [|fuel IH]; intros n Hn Hf; [lia|]. cbn [digits]. cbv zeta.
  pose proof (Z.div_mod n 10). case_bool_decide as H0; [cbn [foldl]; lia|]. destruct fuel as [|fuel].
  - exfalso. apply H0. apply Z.div_small. change (10 ^ Z.of_nat 1) with 10 in Hn. lia.
  - rewrite digits_app, foldl_app, IH; [cbn [foldl]; lia| |lia]. rewrite Nat2Z.inj_succ, Z.pow_succ_r in Hn by lia.
    split; [apply Z.div_pos; lia|apply Z.div_lt_upper_bound; lia].
Qed.

Definition c_int (n : Z) : Prop := - 2 ^ 31 <= n < 2 ^ 31.

Lemma digits_head fuel n : 0 <= n → (0 < fuel)%nat → ∃ c l, digits fuel n [] = c :: l ∧ is_digit c.
Proof.
  intros Hn Hf. destruct (digits_shape fuel n [] Hn (Forall_nil_2 _)) as [Hd _]. destruct fuel as [|fuel]; [lia|].
  destruct (digits (S fuel) n []) as [|c l] eqn:E; [|apply Forall_cons in Hd as [Hc _]; by exists c, l].
  cbn [digits] in E. cbv zeta in E. case_bool_decide; [done|]. rewrite digits_app in E. by destruct (digits fuel _ []).
Qed.

(** What [%d] prints is the number. *)
Lemma scan_fmt n : c_int n → scan_d (fmt_d n) = n.
Proof.
  intros Hn. unfold c_int in Hn. unfold fmt_d. case_bool_decide as Hs; cbn [scan_d].
  - rewrite bool_decide_true, digits_scan by (done || lia). lia.
  - destruct (digits_head 10 n ltac:(lia) ltac:(lia)) as (c & l & E & Hc). pose proof (digits_scan 10 n) as Hv. rewrite E in Hv |- *.
    cbn [scan_d]. rewrite bool_decide_false by (unfold is_digit, MINUS, DIGIT_0 in *; lia). apply Hv; lia.
Qed.

Lemma fmt_d_inj n m : c_int n → c_int m → fmt_d n = fmt_d m → n = m.
Proof. intros Hn Hm E. by rewrite <-(scan_fmt n Hn), <-(scan_fmt m Hm), E. Qed.

(** Eleven characters are enough for an [int]. *)
Lemma fmt_d_length n : c_int n → (0 < length (fmt_d n) <= 11)%nat.
Proof.
  intros Hn. unfold c_int in Hn. unfold fmt_d. case_bool_decide.
  - pose proof (digits_short 10 10 (- n) []) as Hl. cbn [length] in *. lia.
  - destruct (digits_head 10 n ltac:(lia) ltac:(lia)) as (c & l & E & _). pose proof (digits_short 10 10 n []) as Hl.
    rewrite E in Hl |- *. cbn [length] in *. lia.
Qed.

(** ** [ip2str] *)
Definition DOT : Z := 46.

Definition ip_bytes (ip : Z) : list Z :=
  [Z.land (Z.shiftr ip 24) 0xFF; Z.land (Z.shiftr ip 16) 0xFF; Z.land (Z.shiftr ip 8) 0xFF; Z.land ip 0xFF].

(** ["%d.%d.%d.%d"] *)
Definition ip_text (ip : Z) : list Z :=
  match ip_bytes ip with
  | [b3; b2; b1; b0] => fmt_d b3 ++ DOT :: fmt_d b2 ++ DOT :: fmt_d b1 ++ DOT :: fmt_d b0
  | _ => []
  end.

(** [ip2str(ip, buf)]: the text and its zero go into [buf]. *)
Definition ip2str (ip : Z) (buf : list Z) : outcome (list Z) := mem_write 0 (ip_text ip ++ [0]) buf.

Definition IP_STR_LEN : nat := 17.

(** *** Reading it again *)
Fixpoint split_on (c : Z) (l : list Z) : list (list Z) :=
  match l with
  | [] => [[]]
  | x :: l =>
      if bool_decide (x = c) then [] :: split_on c l
      else match split_on c l with p :: ps => (x :: p) :: ps | [] => [[x]] end
  end.

Definition inet_addr (text : list Z) : option Z :=
  match split_on DOT text with
  | [a; b; c; d] => Some (scan_d a * 2 ^ 24 + scan_d b * 2 ^ 16 + scan_d c * 2 ^ 8 + scan_d d)
  | _ => None
  end.

(** The string at the start of a buffer. *)
Fixpoint c_str (buf : list Z) : list Z :=
  match buf with
  | [] => []
  | c :: buf => if bool_decide (c = 0) then [] else c :: c_str buf
  end.

Lemma split_on_app c l r : Forall (fun x => x ≠ c) l → split_on c (l ++ c :: r) = l :: split_on c r.
Proof.
  induction 1 as [|x l Hx _ IH]; cbn [app split_on]; [by rewrite bool_decide_true|].
  by rewrite bool_decide_false, IH by done.
Qed.

Lemma split_on_none c l : Forall (fun x => x ≠ c) l → split_on c l = [l].
Proof. induction 1 as [|x l Hx _ IH]; cbn [split_on]; [done|]. by rewrite bool_decide_false, IH by done. Qed.

Lemma c_str_app text rest : Forall (fun x => x ≠ 0) text → c_str (text ++ 0 :: rest) = text.
Proof. induction 1 as [|x l Hx _ IH]; cbn [app c_str]; [done|]. by rewrite bool_decide_false, IH by done. Qed.

Lemma byte_text b : 0 <= b < 256 →
  Forall is_digit (fmt_d b) ∧ (length (fmt_d b) <= 3)%nat ∧ scan_d (fmt_d b) = b.
Proof.
  intros Hb. split; [|split; [|apply scan_fmt; unfold c_int; lia]]; unfold fmt_d; rewrite bool_decide_false by lia.
  - by apply digits_shape; [lia|].
  - pose proof (digits_short 3 10 b []) as Hl. cbn [length] in Hl. lia.
Qed.

Lemma digits_not c l : ¬ is_digit c → Forall is_digit l → Forall (fun x => x ≠ c) l.
Proof. intros Hc Hl. eapply Forall_impl; [exact Hl|]. intros x Hx ->. by apply Hc. Qed.

Lemma ip_bytes_range ip : Forall (fun b => 0 <= b < 256) (ip_bytes ip).
Proof.
  unfold ip_bytes. change 0xFF with (Z.ones 8). rewrite !Z.land_ones by lia.
  repeat constructor; apply Z.mod_pos_bound; lia.
Qed.

Lemma ip_bytes_val ip : 0 <= ip < 2 ^ 32 →
  ∃ b3 b2 b1 b0, ip_bytes ip = [b3; b2; b1; b0] ∧ ip = b3 * 2 ^ 24 + b2 * 2 ^ 16 + b1 * 2 ^ 8 + b0.
Proof.
  intros Hip. unfold ip_bytes. do 4 eexists. split; [done|]. change 0xFF with (Z.ones 8).
  rewrite !Z.land_ones, !Z.shiftr_div_pow2 by lia. simpl Z.pow. Z.to_euclidean_division_equations. lia.
Qed.

(** C40: [ip2str].  For every address the text fits, with its zero, in any
    buffer of at least 16 bytes, so in the [IP_STR_LEN] bytes the callers provide;
    the string then in the buffer is read back as the address: two addresses
    are never printed the same. *)
Theorem ip2str_correct ip buf :
  0 <= ip < 2 ^ 32 → (16 <= length buf)%nat →
  (length (ip_text ip) <= 15)%nat ∧
  ∃ buf', ip2str ip buf = Done buf' ∧ length buf' = length buf ∧ c_str buf' = ip_text ip ∧
    inet_addr (c_str buf') = Some ip.
Proof.
  intros Hip Hbuf. destruct (ip_bytes_val ip Hip) as (b3 & b2 & b1 & b0 & Hb & Hval).
  pose proof (ip_bytes_range ip) as Hr. rewrite Hb in Hr. unfold ip2str, ip_text. rewrite Hb.
  rewrite !Forall_cons in Hr. destruct Hr as (H3 & H2 & H1 & H0 & _).
  destruct (byte_text b3 H3) as (D3 & L3 & V3). destruct (byte_text b2 H2) as (D2 & L2 & V2).
  destruct (byte_text b1 H1) as (D1 & L1 & V1). destruct (byte_text b0 H0) as (D0 & L0 & V0).
  set (text := fmt_d b3 ++ _). assert (Hl : (length text <= 15)%nat).
  { unfold text. repeat (rewrite length_app; cbn [length]). lia. }
  split; [done|]. assert (Hz : Forall (λ x, x ≠ 0) text).
  { unfold text. repeat (apply Forall_app_2; [by apply digits_not; [unfold is_digit, DIGIT_0; lia|]|constructor; [done|]]).
    apply digits_not; [unfold is_digit, DIGIT_0; lia|done]. }
  rewrite mem_write_ok by (rewrite length_app; cbn [length]; lia). eexists. split; [done|].
  assert (Hc : c_str (take 0 buf ++ (text ++ [0]) ++ drop (0 + length (text ++ [0])) buf) = text).
  { cbn [take app]. rewrite <-(assoc app). by apply c_str_app. }
  rewrite Hc. split; [rewrite !length_app, length_take, length_drop, ?length_app; cbn [length]; lia|]. split; [done|].
  assert (Hdot : ∀ b, Forall is_digit (fmt_d b) → Forall (λ x, x ≠ DOT) (fmt_d b)).
  { intros b Hbd. apply digits_not; [unfold is_digit, DOT, DIGIT_0; lia|done]. }
  unfold inet_addr, text. rewrite !split_on_app, split_on_none, V3, V2, V1, V0, <-Hval by by apply Hdot. done.
Qed.

Lemma ip2str_correct_witness :
  ip_text 0xC0A80001 = [49; 57; 50; 46; 49; 54; 56; 46; 48; 46; 49] ∧   (* "192.168.0.1" *)
  (length (ip_text 0xC0A80001) <= 15)%nat ∧
  ∃ buf', ip2str 0xC0A80001 (repeat 7 IP_STR_LEN) = Done buf' ∧ length buf' = length (repeat 7 IP_STR_LEN) ∧
    c_str buf' = ip_text 0xC0A80001 ∧ inet_addr (c_str buf') = Some 0xC0A80001.
Proof. split; [reflexivity|]. apply (ip2str_correct 0xC0A80001 (repeat 7 IP_STR_LEN)); [lia|]. unfold IP_STR_LEN. cbn. lia. Defined.
