(* ===== verification/Dyndebug.v ===== *)
(** * Debug messages, [src/dyndebug.c], [src/dyndebug.h], [src/logger.h]

    Every [LOG] has a static record in a section of its own, which the linker
    makes an array of; [toggle_dbgmsg] switches the messages of a file, or of one
    line of it. *)

From S2P Require Import Prelude Text.

#[local] Open Scope Z_scope.

(** ** Data and operations *)

(** [struct _dyndebug_msg] *)
Record dbg_msg : Type := DbgMsg {
  flags : Z;
  line : Z;
  file : list Z
}.

(** [DYNDBUG_PRINT]: the message goes to [err] if its lowest flag is set. *)
Definition dyndbug_print (m : dbg_msg) (text err : list Z) : list Z :=
  if bool_decide (Z.land (flags m) 1 ≠ 0) then err ++ text else err.

Definition LOG_CRIT : Z := 48.
Definition LOG_ERR : Z := 49.
Definition LOG_WARN : Z := 50.
Definition LOG_INFO : Z := 51.
Definition LOG_DEBUG : Z := 52.

Definition COLON : Z := 58.
Definition SPACE : Z := 32.
Definition NEWLINE : Z := 10.

(** [LOG]: the level, the name of the function and the message. *)
Definition log (m : dbg_msg) (level : Z) (func text err : list Z) : list Z :=
  dyndbug_print m (level :: COLON :: func ++ COLON :: SPACE :: text ++ [NEWLINE]) err.

(** [snprintf(buf, size, "%s", s)] *)
Definition snprintf_s (size : nat) (s : list Z) : list Z := take (size - 1) s.

(** [strchr] and the zero that is written over the character it finds. *)
Fixpoint cut (c : Z) (s : list Z) : list Z * option (list Z) :=
  match s with
  | [] => ([], None)
  | x :: s => if bool_decide (x = c) then ([], Some s) else let (a, b) := cut c s in (x :: a, b)
  end.

Definition toggle (m : dbg_msg) : dbg_msg := DbgMsg (Z.lxor (flags m) 1) (line m) (file m).

(** [line && *line != 0], and then [strcmp(line, msgline) != 0]. *)
Definition other_line (l : option (list Z)) (m : dbg_msg) : bool :=
  match l with
  | Some (c :: s) => negb (bool_decide (c :: s = snprintf_s 12 (fmt_d (line m))))
  | _ => false
  end.

Fixpoint toggle_loop (f : list Z) (l : option (list Z)) (msgs : list dbg_msg) : list dbg_msg :=
  match msgs with
  | [] => []
  | m :: msgs =>
      (if bool_decide (f = file m) then if other_line l m then m else toggle m else m) :: toggle_loop f l msgs
  end.

Definition toggle_dbgmsg (cfg : list Z) (msgs : list dbg_msg) : Z * list dbg_msg :=
  if bool_decide (msgs = []) then (- EINVAL, msgs) else
  let strbuf := snprintf_s 40 cfg in
  let (f, l) := cut COLON strbuf in
  (0, toggle_loop f l msgs).

(** ** What a configuration means *)
Inductive target : Type :=
| File (name : list Z)
| Line (name : list Z) (n : Z).

Definition target_text (t : target) : list Z :=
  match t with File name => name | Line name n => name ++ COLON :: fmt_d n end.

Definition matches (t : target) (m : dbg_msg) : Prop :=
  match t with File name => file m = name | Line name n => file m = name ∧ line m = n end.

#[export] Instance matches_dec t m : Decision (matches t m).
Proof. destruct t; cbn [matches]; apply _. Defined.

(** A name without a colon, and a text that fits. *)
Definition target_ok (t : target) : Prop :=
  Forall (fun c => c ≠ COLON) (match t with File name | Line name _ => name end) ∧
  match t with File _ => True | Line _ n => c_int n end ∧ (length (target_text t) <= 39)%nat.

Definition toggled (t : target) (m : dbg_msg) : dbg_msg := if decide (matches t m) then toggle m else m.

Definition prints (m : dbg_msg) : bool := bool_decide (Z.land (flags m) 1 ≠ 0).

(** ** Lemmas *)
Lemma cut_none c s : Forall (fun x => x ≠ c) s → cut c s = (s, None).
Proof. induction 1 as [|x s Hx _ IH]; cbn [cut]; [done|]. by rewrite bool_decide_false, IH by done. Qed.

Lemma cut_some c a b : Forall (fun x => x ≠ c) a → cut c (a ++ c :: b) = (a, Some b).
Proof.
  induction 1 as [|x s Hx _ IH]; cbn [app cut]; [by rewrite bool_decide_true|]. by rewrite bool_decide_false, IH by done.
Qed.

Lemma snprintf_fits size s : (length s < size)%nat → snprintf_s size s = s.
Proof. intros Hs. apply take_ge. lia. Qed.

Lemma other_line_fmt n m : c_int n → c_int (line m) → other_line (Some (fmt_d n)) m = negb (bool_decide (line m = n)).
Proof.
  intros Hn Hm. pose proof (fmt_d_length n Hn) as Hl. pose proof (fmt_d_length _ Hm) as Hlm.
  unfold other_line. rewrite snprintf_fits by lia. destruct (fmt_d n) as [|c s] eqn:E; [cbn [length] in Hl; lia|].
  rewrite <-E. f_equal. apply bool_decide_ext. split; [intros Hf; by apply fmt_d_inj|by intros ->].
Qed.

Lemma toggle_loop_map t msgs : target_ok t → Forall (fun m => c_int (line m)) msgs →
  let (f, l) := cut COLON (snprintf_s 40 (target_text t)) in toggle_loop f l msgs = toggled t <$> msgs.
Proof.
  intros (Hname & Hn & Hlen) Hm. rewrite snprintf_fits by lia. unfold toggled.
  destruct t as [name|name n]; cbn [target_text matches] in *; [rewrite cut_none by done|rewrite cut_some by done];
    (induction Hm as [|m msgs Hlm _ IH]; cbn [toggle_loop fmap list_fmap]; [done|]; rewrite IH; f_equal).
  - cbn [other_line]. by case_bool_decide as Hf; [rewrite decide_True|rewrite decide_False].
  - rewrite other_line_fmt by done. case_bool_decide as Hf; [|rewrite decide_False; naive_solver].
    case_bool_decide as Hl; [by rewrite decide_True by (by split)|rewrite decide_False; naive_solver].
Qed.

Lemma toggled_twice t m : toggled t (toggled t m) = m.
Proof.
  unfold toggled. destruct (decide (matches t m)) as [Hm|Hm].
  - rewrite decide_True by by destruct t. destruct m as [fl ln fi]. unfold toggle. cbn [flags line file].
    by rewrite Z.lxor_assoc, Z.lxor_nilpotent, Z.lxor_0_r.
  - by rewrite decide_False.
Qed.

Lemma prints_odd m : prints m = Z.odd (flags m).
Proof.
  unfold prints. change 1 with (Z.ones 1). rewrite Z.land_ones by lia. change (2 ^ 1) with 2.
  rewrite Zmod_odd. by destruct (Z.odd (flags m)).
Qed.

Lemma toggle_prints m : prints (toggle m) = negb (prints m).
Proof.
  rewrite !prints_odd. unfold toggle. cbn [flags]. rewrite <-!Z.bit0_odd, Z.lxor_spec.
  change (Z.testbit 1 0) with true. by destruct (Z.testbit (flags m) 0).
Qed.

(** ** Properties *)

(** C38: [toggle_dbgmsg].  With the name of a file, or a name, a colon and a
    line, of at most 39 characters, exactly the messages of that file, or of that
    line of it, are switched: those that were printed are not printed any more
    and the other way round, all others stay as they are; the same call again
    restores everything.  Without any message it fails. *)
Theorem toggle_dbgmsg_correct t msgs :
  target_ok t → Forall (fun m => c_int (line m)) msgs →
  toggle_dbgmsg (target_text t) [] = (- EINVAL, []) ∧
  (msgs ≠ [] → toggle_dbgmsg (target_text t) msgs = (0, toggled t <$> msgs)) ∧
  (∀ m, prints (toggled t m) = if decide (matches t m) then negb (prints m) else prints m) ∧
  (msgs ≠ [] → toggle_dbgmsg (target_text t) (toggle_dbgmsg (target_text t) msgs).2 = (0, msgs)).
Proof.
  intros Ht Hm. split; [done|].
  assert (Hone : ∀ ms, Forall (λ m, c_int (line m)) ms → ms ≠ [] →
    toggle_dbgmsg (target_text t) ms = (0, toggled t <$> ms)).
  { intros ms Hms Hne. unfold toggle_dbgmsg. rewrite bool_decide_false by done.
    pose proof (toggle_loop_map t ms Ht Hms) as Hl. cbv zeta. destruct (cut COLON _) as [f l]. by rewrite Hl. }
  split; [by apply Hone|]. split.
  - intros m. unfold toggled. destruct (decide (matches t m)); [apply toggle_prints|done].
  - intros Hne. rewrite (Hone msgs Hm Hne). cbn [snd]. rewrite Hone.
    + f_equal. rewrite <-list_fmap_compose. rewrite <-(list_fmap_id msgs) at 2. apply list_fmap_ext.
      intros _ m _. apply toggled_twice.
    + apply Forall_fmap. eapply Forall_impl; [exact Hm|]. intros m Hc. unfold compose, toggled. by destruct (decide _).
    + by destruct msgs.
Qed.

(** A message of [tcp.c] and one of [udp.c]. *)
Definition demo_msgs : list dbg_msg := [DbgMsg 0 42 [116; 99; 112]; DbgMsg 1 7 [117; 100; 112]].

Lemma toggle_dbgmsg_correct_witness :
  let t := Line [116; 99; 112] 42 in
  toggle_dbgmsg (target_text t) [] = (- EINVAL, []) ∧
  (demo_msgs ≠ [] → toggle_dbgmsg (target_text t) demo_msgs = (0, toggled t <$> demo_msgs)) ∧
  (∀ m, prints (toggled t m) = if decide (matches t m) then negb (prints m) else prints m) ∧
  (demo_msgs ≠ [] → toggle_dbgmsg (target_text t) (toggle_dbgmsg (target_text t) demo_msgs).2 = (0, demo_msgs)).
Proof.
  intros t. apply (toggle_dbgmsg_correct t demo_msgs).
  - split; [repeat constructor; done|]. split; [unfold t, c_int; lia|]. vm_compute. lia.
  - repeat constructor; unfold c_int; cbn [line]; lia.
Defined.

(** The configuration is cut after 39 characters: with a name of 37 characters the
    line is, and the message of another line is switched. *)
Lemma long_config_hits_other_line :
  let name := repeat 97 37 in
  toggle_dbgmsg (target_text (Line name 12)) [DbgMsg 0 1 name; DbgMsg 0 12 name] =
    (0, [DbgMsg 1 1 name; DbgMsg 0 12 name]).
Proof. vm_compute. reflexivity. Qed.
