(* ===== verification/BsdQueue.v ===== *)
(** * The list macros, [src/queue.h]

    Single linked lists (SLIST), single linked tail queues (STAILQ), lists (LIST)
    and tail queues (TAILQ) over a memory of link fields.  A pointer to a link
    (the type of [le_prev], [stqh_last]) points either to the first field of a head
    or to the next field of an element.

    The [QMD_*_CHECK_*] macros that LIST and TAILQ call are not defined in the
    header, nor anywhere else in the repository: they are a parameter, and
    [QmdDocumented] is what they do where this header comes from (they panic when
    a neighbour does not point back). *)

From S2P Require Import Prelude.

(** ** Memory *)
Inductive slot : Type :=
| First (q : nat)        (* [&(head)->..._first] *)
| Next (e : nat).        (* [&(elm)->field...._next] *)

#[export] Instance slot_eq_dec : EqDecision slot.
Proof. solve_decision. Defined.

#[export] Instance slot_countable : Countable slot.
Proof.
  refine (inj_countable' (fun s => match s with First q => inl q | Next e => inr e end)
    (fun x => match x with inl q => First q | inr e => Next e end) _).
  by intros [].
Defined.

(** The links, [le_prev] or [tqe_prev] of the elements, and [stqh_last] or
    [tqh_last] of the heads. *)
Record mem : Type := Mem {
  link : gmap slot (option nat);
  prev : gmap nat slot;
  lastp : gmap nat slot
}.

Definition L (A : Type) : Type := mem → outcome (A * mem).

#[export] Instance L_ret : MRet L := fun A a h => Done (a, h).

#[export] Instance L_bind : MBind L :=
  fun A B f c h => match c h with Done (a, h) => f a h | Fault => Fault | Spin => Spin end.

Definition lift {A : Type} (o : outcome A) : L A :=
  fun h => match o with Done a => Done (a, h) | Fault => Fault | Spin => Spin end.

(** Reading and writing a field; a head or an element that is not there faults. *)
Definition rd (s : slot) : L (option nat) := fun h =>
  match link h !! s with Some v => Done (v, h) | None => Fault end.

Definition wr (s : slot) (v : option nat) : L unit := fun h =>
  match link h !! s with Some _ => Done (tt, Mem (<[s := v]> (link h)) (prev h) (lastp h)) | None => Fault end.

Definition rd_prev (e : nat) : L slot := fun h =>
  match prev h !! e with Some s => Done (s, h) | None => Fault end.

Definition wr_prev (e : nat) (s : slot) : L unit := fun h =>
  match link h !! Next e with Some _ => Done (tt, Mem (link h) (<[e := s]> (prev h)) (lastp h)) | None => Fault end.

Definition rd_last (q : nat) : L slot := fun h =>
  match lastp h !! q with Some s => Done (s, h) | None => Fault end.

Definition wr_last (q : nat) (s : slot) : L unit := fun h =>
  match link h !! First q with Some _ => Done (tt, Mem (link h) (prev h) (<[q := s]> (lastp h))) | None => Fault end.

(** A pointer to an element that is dereferenced. *)
Definition elem (p : option nat) : L nat := lift (deref p).

(** [__containerof] of a pointer to the next field of an element. *)
Definition containerof (s : slot) : L nat := match s with Next e => mret e | First _ => fun _ => Fault end.

(** ** Loops *)

(** [for (var = v; var; var = next)]: the elements visited; with [safe] the next
    one is read before the body runs. *)
Fixpoint for_each (safe : bool) (next : nat → L (option nat)) (body : nat → L unit) (fuel : nat) (v : option nat)
    : L (list nat) :=
  match v with
  | None => mret []
  | Some e =>
      match fuel with
      | O => fun _ => Spin
      | S fuel =>
          v ← (if safe then n ← next e; _ ← body e; mret n else _ ← body e; next e);
          es ← for_each safe next body fuel v;
          mret (e :: es)
      end
  end.

(** The loop of [SLIST_FOREACH_PREVPTR]: the elements and the links they are read
    from. *)
Fixpoint for_each_prevptr (fuel : nat) (varp : slot) : L (list (slot * nat)) :=
  match fuel with
  | O => fun _ => Spin
  | S fuel =>
      v ← rd varp;
      match v with
      | None => mret []
      | Some e => es ← for_each_prevptr fuel (Next e); mret ((varp, e) :: es)
      end
  end.

(** [while (NEXT(curelm) != elm) curelm = NEXT(curelm)] *)
Fixpoint find_pred (fuel : nat) (curelm : option nat) (elm : nat) : L nat :=
  match fuel with
  | O => fun _ => Spin
  | S fuel =>
      c ← elem curelm;
      n ← rd (Next c);
      if bool_decide (n = Some elm) then mret c else find_pred fuel n elm
  end.

(** A fuel for these loops: one step per link. *)
Definition fuel_of_mem (h : mem) : nat := S (size (link h)).

Definition with_fuel {A : Type} (f : nat → L A) : L A := fun h => f (fuel_of_mem h) h.

(** ** SLIST *)
Definition SLIST_FIRST (q : nat) : L (option nat) := rd (First q).
Definition SLIST_NEXT (e : nat) : L (option nat) := rd (Next e).
Definition SLIST_EMPTY (q : nat) : L bool := f ← SLIST_FIRST q; mret (bool_decide (f = None)).
Definition SLIST_INIT (q : nat) : L unit := wr (First q) None.

Definition SLIST_FOREACH (body : nat → L unit) (q : nat) : L (list nat) :=
  f ← SLIST_FIRST q; with_fuel (fun fuel => for_each false SLIST_NEXT body fuel f).
Definition SLIST_FOREACH_SAFE (body : nat → L unit) (q : nat) : L (list nat) :=
  f ← SLIST_FIRST q; with_fuel (fun fuel => for_each true SLIST_NEXT body fuel f).
Definition SLIST_FOREACH_FROM (body : nat → L unit) (var : option nat) (q : nat) : L (list nat) :=
  f ← (match var with Some e => mret (Some e) | None => SLIST_FIRST q end);
  with_fuel (fun fuel => for_each false SLIST_NEXT body fuel f).
Definition SLIST_FOREACH_FROM_SAFE (body : nat → L unit) (var : option nat) (q : nat) : L (list nat) :=
  f ← (match var with Some e => mret (Some e) | None => SLIST_FIRST q end);
  with_fuel (fun fuel => for_each true SLIST_NEXT body fuel f).
Definition SLIST_FOREACH_PREVPTR (q : nat) : L (list (slot * nat)) :=
  with_fuel (fun fuel => for_each_prevptr fuel (First q)).

Definition SLIST_INSERT_AFTER (slistelm elm : nat) : L unit :=
  n ← SLIST_NEXT slistelm;
  _ ← wr (Next elm) n;
  wr (Next slistelm) (Some elm).

Definition SLIST_INSERT_HEAD (q elm : nat) : L unit :=
  f ← SLIST_FIRST q;
  _ ← wr (Next elm) f;
  wr (First q) (Some elm).

Definition SLIST_REMOVE_AFTER (elm : nat) : L unit :=
  n ← SLIST_NEXT elm;
  n ← elem n;
  n' ← SLIST_NEXT n;
  wr (Next elm) n'.

Definition SLIST_REMOVE_HEAD (q : nat) : L unit :=
  f ← SLIST_FIRST q;
  f ← elem f;
  n ← SLIST_NEXT f;
  wr (First q) n.

Definition SLIST_REMOVE (q elm : nat) : L unit :=
  f ← SLIST_FIRST q;
  if bool_decide (f = Some elm) then SLIST_REMOVE_HEAD q else
  curelm ← with_fuel (fun fuel => find_pred fuel f elm);
  SLIST_REMOVE_AFTER curelm.

Definition SLIST_SWAP (q1 q2 : nat) : L unit :=
  swap_first ← SLIST_FIRST q1;
  f ← SLIST_FIRST q2;
  _ ← wr (First q1) f;
  wr (First q2) swap_first.

(** ** STAILQ *)
Definition STAILQ_FIRST (q : nat) : L (option nat) := rd (First q).
Definition STAILQ_NEXT (e : nat) : L (option nat) := rd (Next e).
Definition STAILQ_EMPTY (q : nat) : L bool := f ← STAILQ_FIRST q; mret (bool_decide (f = None)).

Definition STAILQ_INIT (q : nat) : L unit :=
  _ ← wr (First q) None;
  wr_last q (First q).

Definition STAILQ_FOREACH (body : nat → L unit) (q : nat) : L (list nat) :=
  f ← STAILQ_FIRST q; with_fuel (fun fuel => for_each false STAILQ_NEXT body fuel f).
Definition STAILQ_FOREACH_SAFE (body : nat → L unit) (q : nat) : L (list nat) :=
  f ← STAILQ_FIRST q; with_fuel (fun fuel => for_each true STAILQ_NEXT body fuel f).
Definition STAILQ_FOREACH_FROM (body : nat → L unit) (var : option nat) (q : nat) : L (list nat) :=
  f ← (match var with Some e => mret (Some e) | None => STAILQ_FIRST q end);
  with_fuel (fun fuel => for_each false STAILQ_NEXT body fuel f).
Definition STAILQ_FOREACH_FROM_SAFE (body : nat → L unit) (var : option nat) (q : nat) : L (list nat) :=
  f ← (match var with Some e => mret (Some e) | None => STAILQ_FIRST q end);
  with_fuel (fun fuel => for_each true STAILQ_NEXT body fuel f).

Definition STAILQ_CONCAT (q1 q2 : nat) : L unit :=
  e ← STAILQ_EMPTY q2;
  if (e : bool) then mret tt else
  p ← rd_last q1;
  f ← STAILQ_FIRST q2;
  _ ← wr p f;
  p ← rd_last q2;
  _ ← wr_last q1 p;
  STAILQ_INIT q2.

Definition STAILQ_INSERT_AFTER (q tqelm elm : nat) : L unit :=
  n ← STAILQ_NEXT tqelm;
  _ ← wr (Next elm) n;
  _ ← (if bool_decide (n = None) then wr_last q (Next elm) else mret tt);
  wr (Next tqelm) (Some elm).

Definition STAILQ_INSERT_HEAD (q elm : nat) : L unit :=
  f ← STAILQ_FIRST q;
  _ ← wr (Next elm) f;
  _ ← (if bool_decide (f = None) then wr_last q (Next elm) else mret tt);
  wr (First q) (Some elm).

Definition STAILQ_INSERT_TAIL (q elm : nat) : L unit :=
  _ ← wr (Next elm) None;
  p ← rd_last q;
  _ ← wr p (Some elm);
  wr_last q (Next elm).

Definition STAILQ_LAST (q : nat) : L (option nat) :=
  e ← STAILQ_EMPTY q;
  if (e : bool) then mret None else
  p ← rd_last q;
  e ← containerof p;
  mret (Some e).

Definition STAILQ_REMOVE_AFTER (q elm : nat) : L unit :=
  n ← STAILQ_NEXT elm;
  n ← elem n;
  n' ← STAILQ_NEXT n;
  _ ← wr (Next elm) n';
  if bool_decide (n' = None) then wr_last q (Next elm) else mret tt.

Definition STAILQ_REMOVE_HEAD (q : nat) : L unit :=
  f ← STAILQ_FIRST q;
  f ← elem f;
  n ← STAILQ_NEXT f;
  _ ← wr (First q) n;
  if bool_decide (n = None) then wr_last q (First q) else mret tt.

Definition STAILQ_REMOVE (q elm : nat) : L unit :=
  f ← STAILQ_FIRST q;
  if bool_decide (f = Some elm) then STAILQ_REMOVE_HEAD q else
  curelm ← with_fuel (fun fuel => find_pred fuel f elm);
  STAILQ_REMOVE_AFTER q curelm.

Definition STAILQ_SWAP (q1 q2 : nat) : L unit :=
  swap_first ← STAILQ_FIRST q1;
  swap_last ← rd_last q1;
  f ← STAILQ_FIRST q2;
  _ ← wr (First q1) f;
  p ← rd_last q2;
  _ ← wr_last q1 p;
  _ ← wr (First q2) swap_first;
  _ ← wr_last q2 swap_last;
  e1 ← STAILQ_EMPTY q1;
  _ ← (if (e1 : bool) then wr_last q1 (First q1) else mret tt);
  e2 ← STAILQ_EMPTY q2;
  if (e2 : bool) then wr_last q2 (First q2) else mret tt.

(** ** The checks *)
Inductive qmd_check : Type :=
| ListHead (q : nat) | ListNext (e : nat) | ListPrev (e : nat)
| TailqHead (q : nat) | TailqTail (q : nat) | TailqNext (e : nat) | TailqPrev (e : nat).

Class Qmd : Type := qmd : qmd_check → mem → outcome unit.

(** The neighbour points back. *)
Definition points_back (h : mem) (s : slot) : Prop :=
  ∀ e, link h !! s = Some (Some e) → prev h !! e = Some s.

Definition consistent (h : mem) (c : qmd_check) : Prop :=
  match c with
  | ListHead q | TailqHead q => points_back h (First q)
  | ListNext e | TailqNext e => points_back h (Next e)
  | ListPrev e | TailqPrev e => ∀ s, prev h !! e = Some s → link h !! s = Some (Some e)
  | TailqTail q => ∀ s, lastp h !! q = Some s → link h !! s = Some None
  end.

Class QmdDocumented `{Qmd} : Prop := qmd_passes h c : consistent h c → qmd c h = Done tt.

Section qmd.
Context `{Qmd}.

Definition check (c : qmd_check) : L unit := fun h =>
  match qmd c h with Done _ => Done (tt, h) | Fault => Fault | Spin => Spin end.

(** ** LIST *)
Definition LIST_FIRST (q : nat) : L (option nat) := rd (First q).
Definition LIST_NEXT (e : nat) : L (option nat) := rd (Next e).
Definition LIST_EMPTY (q : nat) : L bool := f ← LIST_FIRST q; mret (bool_decide (f = None)).
Definition LIST_INIT (q : nat) : L unit := wr (First q) None.

Definition LIST_FOREACH (body : nat → L unit) (q : nat) : L (list nat) :=
  f ← LIST_FIRST q; with_fuel (fun fuel => for_each false LIST_NEXT body fuel f).
Definition LIST_FOREACH_SAFE (body : nat → L unit) (q : nat) : L (list nat) :=
  f ← LIST_FIRST q; with_fuel (fun fuel => for_each true LIST_NEXT body fuel f).
Definition LIST_FOREACH_FROM (body : nat → L unit) (var : option nat) (q : nat) : L (list nat) :=
  f ← (match var with Some e => mret (Some e) | None => LIST_FIRST q end);
  with_fuel (fun fuel => for_each false LIST_NEXT body fuel f).
Definition LIST_FOREACH_FROM_SAFE (body : nat → L unit) (var : option nat) (q : nat) : L (list nat) :=
  f ← (match var with Some e => mret (Some e) | None => LIST_FIRST q end);
  with_fuel (fun fuel => for_each true LIST_NEXT body fuel f).

Definition LIST_INSERT_AFTER (listelm elm : nat) : L unit :=
  _ ← check (ListNext listelm);
  n ← LIST_NEXT listelm;
  _ ← wr (Next elm) n;
  _ ← (match n with None => mret tt | Some _ => n' ← LIST_NEXT listelm; e ← elem n'; wr_prev e (Next elm) end);
  _ ← wr (Next listelm) (Some elm);
  wr_prev elm (Next listelm).

Definition LIST_INSERT_BEFORE (listelm elm : nat) : L unit :=
  _ ← check (ListPrev listelm);
  p ← rd_prev listelm;
  _ ← wr_prev elm p;
  _ ← wr (Next elm) (Some listelm);
  p ← rd_prev listelm;
  _ ← wr p (Some elm);
  wr_prev listelm (Next elm).

Definition LIST_INSERT_HEAD (q elm : nat) : L unit :=
  _ ← check (ListHead q);
  f ← LIST_FIRST q;
  _ ← wr (Next elm) f;
  _ ← (match f with None => mret tt | Some _ => f' ← LIST_FIRST q; e ← elem f'; wr_prev e (Next elm) end);
  _ ← wr (First q) (Some elm);
  wr_prev elm (First q).

Definition LIST_PREV (elm q : nat) : L (option nat) :=
  p ← rd_prev elm;
  if bool_decide (p = First q) then mret None else e ← containerof p; mret (Some e).

Definition LIST_REMOVE (elm : nat) : L unit :=
  _ ← check (ListNext elm);
  _ ← check (ListPrev elm);
  n ← LIST_NEXT elm;
  p ← rd_prev elm;
  _ ← (match n with None => mret tt | Some e => wr_prev e p end);
  n ← LIST_NEXT elm;
  wr p n.

Definition LIST_SWAP (q1 q2 : nat) : L unit :=
  swap_tmp ← LIST_FIRST q1;
  f ← LIST_FIRST q2;
  _ ← wr (First q1) f;
  _ ← wr (First q2) swap_tmp;
  swap_tmp ← LIST_FIRST q1;
  _ ← (match swap_tmp with None => mret tt | Some e => wr_prev e (First q1) end);
  swap_tmp ← LIST_FIRST q2;
  match swap_tmp with None => mret tt | Some e => wr_prev e (First q2) end.

(** ** TAILQ *)
Definition TAILQ_FIRST (q : nat) : L (option nat) := rd (First q).
Definition TAILQ_NEXT (e : nat) : L (option nat) := rd (Next e).
Definition TAILQ_EMPTY (q : nat) : L bool := f ← TAILQ_FIRST q; mret (bool_decide (f = None)).

Definition TAILQ_INIT (q : nat) : L unit :=
  _ ← wr (First q) None;
  wr_last q (First q).

(** [( *(((struct headname * )p)->tqh_last))]: what follows a link in memory, be
    it [tqh_last] of a head or [tqe_prev] of an element, is a pointer to a link. *)
Definition second_word (s : slot) : L slot := match s with First q => rd_last q | Next e => rd_prev e end.

Definition TAILQ_LAST (q : nat) : L (option nat) :=
  p ← rd_last q;
  s ← second_word p;
  rd s.

Definition TAILQ_PREV (elm : nat) : L (option nat) :=
  p ← rd_prev elm;
  s ← second_word p;
  rd s.

Definition TAILQ_FOREACH (body : nat → L unit) (q : nat) : L (list nat) :=
  f ← TAILQ_FIRST q; with_fuel (fun fuel => for_each false TAILQ_NEXT body fuel f).
Definition TAILQ_FOREACH_SAFE (body : nat → L unit) (q : nat) : L (list nat) :=
  f ← TAILQ_FIRST q; with_fuel (fun fuel => for_each true TAILQ_NEXT body fuel f).
Definition TAILQ_FOREACH_FROM (body : nat → L unit) (var : option nat) (q : nat) : L (list nat) :=
  f ← (match var with Some e => mret (Some e) | None => TAILQ_FIRST q end);
  with_fuel (fun fuel => for_each false TAILQ_NEXT body fuel f).
Definition TAILQ_FOREACH_FROM_SAFE (body : nat → L unit) (var : option nat) (q : nat) : L (list nat) :=
  f ← (match var with Some e => mret (Some e) | None => TAILQ_FIRST q end);
  with_fuel (fun fuel => for_each true TAILQ_NEXT body fuel f).
Definition TAILQ_FOREACH_REVERSE (body : nat → L unit) (q : nat) : L (list nat) :=
  f ← TAILQ_LAST q; with_fuel (fun fuel => for_each false TAILQ_PREV body fuel f).
Definition TAILQ_FOREACH_REVERSE_SAFE (body : nat → L unit) (q : nat) : L (list nat) :=
  f ← TAILQ_LAST q; with_fuel (fun fuel => for_each true TAILQ_PREV body fuel f).
Definition TAILQ_FOREACH_REVERSE_FROM (body : nat → L unit) (var : option nat) (q : nat) : L (list nat) :=
  f ← (match var with Some e => mret (Some e) | None => TAILQ_LAST q end);
  with_fuel (fun fuel => for_each false TAILQ_PREV body fuel f).
Definition TAILQ_FOREACH_REVERSE_FROM_SAFE (body : nat → L unit) (var : option nat) (q : nat) : L (list nat) :=
  f ← (match var with Some e => mret (Some e) | None => TAILQ_LAST q end);
  with_fuel (fun fuel => for_each true TAILQ_PREV body fuel f).

Definition TAILQ_CONCAT (q1 q2 : nat) : L unit :=
  e ← TAILQ_EMPTY q2;
  if (e : bool) then mret tt else
  p ← rd_last q1;
  f ← TAILQ_FIRST q2;
  _ ← wr p f;
  f ← TAILQ_FIRST q2;
  f ← elem f;
  p ← rd_last q1;
  _ ← wr_prev f p;
  p ← rd_last q2;
  _ ← wr_last q1 p;
  TAILQ_INIT q2.

Definition TAILQ_INSERT_AFTER (q listelm elm : nat) : L unit :=
  _ ← check (TailqNext listelm);
  n ← TAILQ_NEXT listelm;
  _ ← wr (Next elm) n;
  _ ← (match n with
       | Some _ => n' ← TAILQ_NEXT elm; e ← elem n'; wr_prev e (Next elm)
       | None => wr_last q (Next elm)
       end);
  _ ← wr (Next listelm) (Some elm);
  wr_prev elm (Next listelm).

Definition TAILQ_INSERT_BEFORE (listelm elm : nat) : L unit :=
  _ ← check (TailqPrev listelm);
  p ← rd_prev listelm;
  _ ← wr_prev elm p;
  _ ← wr (Next elm) (Some listelm);
  p ← rd_prev listelm;
  _ ← wr p (Some elm);
  wr_prev listelm (Next elm).

Definition TAILQ_INSERT_HEAD (q elm : nat) : L unit :=
  _ ← check (TailqHead q);
  f ← TAILQ_FIRST q;
  _ ← wr (Next elm) f;
  _ ← (match f with
       | Some _ => f' ← TAILQ_FIRST q; e ← elem f'; wr_prev e (Next elm)
       | None => wr_last q (Next elm)
       end);
  _ ← wr (First q) (Some elm);
  wr_prev elm (First q).

Definition TAILQ_INSERT_TAIL (q elm : nat) : L unit :=
  _ ← check (TailqTail q);
  _ ← wr (Next elm) None;
  p ← rd_last q;
  _ ← wr_prev elm p;
  p ← rd_last q;
  _ ← wr p (Some elm);
  wr_last q (Next elm).

Definition TAILQ_REMOVE (q elm : nat) : L unit :=
  _ ← check (TailqNext elm);
  _ ← check (TailqPrev elm);
  n ← TAILQ_NEXT elm;
  p ← rd_prev elm;
  _ ← (match n with Some e => wr_prev e p | None => wr_last q p end);
  n ← TAILQ_NEXT elm;
  wr p n.

Definition TAILQ_SWAP (q1 q2 : nat) : L unit :=
  swap_first ← TAILQ_FIRST q1;
  swap_last ← rd_last q1;
  f ← TAILQ_FIRST q2;
  _ ← wr (First q1) f;
  p ← rd_last q2;
  _ ← wr_last q1 p;
  _ ← wr (First q2) swap_first;
  _ ← wr_last q2 swap_last;
  f1 ← TAILQ_FIRST q1;
  _ ← (match f1 with Some e => wr_prev e (First q1) | None => wr_last q1 (First q1) end);
  f2 ← TAILQ_FIRST q2;
  match f2 with Some e => wr_prev e (First q2) | None => wr_last q2 (First q2) end.

(** ** The table of the header: which list has which operation *)
Inductive kind : Type := SLIST | STAILQ | LIST | TAILQ.

Inductive op : Type :=
| OInit (q : nat) | OEmpty (q : nat) | OFirst (q : nat) | ONext (q e : nat) | OPrev (q e : nat) | OLast (q : nat)
| OForeach (safe : bool) (q : nat) | OForeachFrom (safe : bool) (q : nat) (var : option nat)
| OForeachReverse (safe : bool) (q : nat) | OForeachReverseFrom (safe : bool) (q : nat) (var : option nat)
| OInsertHead (q e : nat) | OInsertTail (q e : nat) | OInsertAfter (q a e : nat) | OInsertBefore (q b e : nat)
| OConcat (q1 q2 : nat) | ORemoveAfter (q e : nat) | ORemoveHead (q : nat) | ORemove (q e : nat)
| OSwap (q1 q2 : nat).

(** What an operation gives back. *)
Inductive ans : Type :=
| Nothing
| IsEmpty (b : bool)
| Elem (e : option nat)
| Visited (es : list nat).

Definition nothing (c : L unit) : option (L ans) := Some (_ ← c; mret Nothing).
Definition elem_of (c : L (option nat)) : option (L ans) := Some (e ← c; mret (Elem e)).
Definition visits (c : (nat → L unit) → L (list nat)) : option (L ans) := Some (es ← c (fun _ => mret tt); mret (Visited es)).
Definition is_empty (c : L bool) : option (L ans) := Some (b ← c; mret (IsEmpty b)).

Definition run_op (k : kind) (o : op) : option (L ans) :=
  match o with
  | OInit q => match k with SLIST => nothing (SLIST_INIT q) | STAILQ => nothing (STAILQ_INIT q)
                          | LIST => nothing (LIST_INIT q) | TAILQ => nothing (TAILQ_INIT q) end
  | OEmpty q => match k with SLIST => is_empty (SLIST_EMPTY q) | STAILQ => is_empty (STAILQ_EMPTY q)
                           | LIST => is_empty (LIST_EMPTY q) | TAILQ => is_empty (TAILQ_EMPTY q) end
  | OFirst q => match k with SLIST => elem_of (SLIST_FIRST q) | STAILQ => elem_of (STAILQ_FIRST q)
                           | LIST => elem_of (LIST_FIRST q) | TAILQ => elem_of (TAILQ_FIRST q) end
  | ONext _ e => match k with SLIST => elem_of (SLIST_NEXT e) | STAILQ => elem_of (STAILQ_NEXT e)
                            | LIST => elem_of (LIST_NEXT e) | TAILQ => elem_of (TAILQ_NEXT e) end
  | OPrev q e => match k with LIST => elem_of (LIST_PREV e q) | TAILQ => elem_of (TAILQ_PREV e) | _ => None end
  | OLast q => match k with STAILQ => elem_of (STAILQ_LAST q) | TAILQ => elem_of (TAILQ_LAST q) | _ => None end
  | OForeach safe q =>
      visits (fun b => match k, safe with
        | SLIST, false => SLIST_FOREACH b q | SLIST, true => SLIST_FOREACH_SAFE b q
        | STAILQ, false => STAILQ_FOREACH b q | STAILQ, true => STAILQ_FOREACH_SAFE b q
        | LIST, false => LIST_FOREACH b q | LIST, true => LIST_FOREACH_SAFE b q
        | TAILQ, false => TAILQ_FOREACH b q | TAILQ, true => TAILQ_FOREACH_SAFE b q
        end)
  | OForeachFrom safe q var =>
      visits (fun b => match k, safe with
        | SLIST, false => SLIST_FOREACH_FROM b var q | SLIST, true => SLIST_FOREACH_FROM_SAFE b var q
        | STAILQ, false => STAILQ_FOREACH_FROM b var q | STAILQ, true => STAILQ_FOREACH_FROM_SAFE b var q
        | LIST, false => LIST_FOREACH_FROM b var q | LIST, true => LIST_FOREACH_FROM_SAFE b var q
        | TAILQ, false => TAILQ_FOREACH_FROM b var q | TAILQ, true => TAILQ_FOREACH_FROM_SAFE b var q
        end)
  | OForeachReverse safe q =>
      match k, safe with
      | TAILQ, false => visits (fun b => TAILQ_FOREACH_REVERSE b q)
      | TAILQ, true => visits (fun b => TAILQ_FOREACH_REVERSE_SAFE b q)
      | _, _ => None
      end
  | OForeachReverseFrom safe q var =>
      match k, safe with
      | TAILQ, false => visits (fun b => TAILQ_FOREACH_REVERSE_FROM b var q)
      | TAILQ, true => visits (fun b => TAILQ_FOREACH_REVERSE_FROM_SAFE b var q)
      | _, _ => None
      end
  | OInsertHead q e => match k with SLIST => nothing (SLIST_INSERT_HEAD q e) | STAILQ => nothing (STAILQ_INSERT_HEAD q e)
                                  | LIST => nothing (LIST_INSERT_HEAD q e) | TAILQ => nothing (TAILQ_INSERT_HEAD q e) end
  | OInsertTail q e => match k with STAILQ => nothing (STAILQ_INSERT_TAIL q e) | TAILQ => nothing (TAILQ_INSERT_TAIL q e) | _ => None end
  | OInsertAfter q a e => match k with SLIST => nothing (SLIST_INSERT_AFTER a e) | STAILQ => nothing (STAILQ_INSERT_AFTER q a e)
                                     | LIST => nothing (LIST_INSERT_AFTER a e) | TAILQ => nothing (TAILQ_INSERT_AFTER q a e) end
  | OInsertBefore q b e => match k with LIST => nothing (LIST_INSERT_BEFORE b e) | TAILQ => nothing (TAILQ_INSERT_BEFORE b e) | _ => None end
  | OConcat q1 q2 => match k with STAILQ => nothing (STAILQ_CONCAT q1 q2) | TAILQ => nothing (TAILQ_CONCAT q1 q2) | _ => None end
  | ORemoveAfter q e => match k with SLIST => nothing (SLIST_REMOVE_AFTER e) | STAILQ => nothing (STAILQ_REMOVE_AFTER q e) | _ => None end
  | ORemoveHead q => match k with SLIST => nothing (SLIST_REMOVE_HEAD q) | STAILQ => nothing (STAILQ_REMOVE_HEAD q) | _ => None end
  | ORemove q e => match k with SLIST => nothing (SLIST_REMOVE q e) | STAILQ => nothing (STAILQ_REMOVE q e)
                              | LIST => nothing (LIST_REMOVE e) | TAILQ => nothing (TAILQ_REMOVE q e) end
  | OSwap q1 q2 => match k with SLIST => nothing (SLIST_SWAP q1 q2) | STAILQ => nothing (STAILQ_SWAP q1 q2)
                              | LIST => nothing (LIST_SWAP q1 q2) | TAILQ => nothing (TAILQ_SWAP q1 q2) end
  end.
End qmd.
