(* ===== verification/BsdLists.v ===== *)
(** * The list macros are lists

    A memory of links holds some heads, each with a list of elements; an
    operation of [src/queue.h] on it is the operation on the lists, for all four
    kinds of lists. *)

From S2P Require Import Prelude BsdQueue.

(** ** Specification *)

(** The heads and their lists. *)
Abbreviation heads := (gmap nat (list nat)).

(** The list before and after its element [e]. *)
Fixpoint split_at (e : nat) (l : list nat) : option (list nat * list nat) :=
  match l with
  | [] => None
  | x :: l =>
      if bool_decide (x = e) then Some ([], l)
      else match split_at e l with Some (l1, l2) => Some (x :: l1, l2) | None => None end
  end.

(** An element that is in no list. *)
Definition fresh (m : heads) (E : gset nat) (e : nat) : Prop := e ∈ E ∧ map_Forall (fun _ l => e ∉ l) m.

#[export] Instance fresh_dec m E e : Decision (fresh m E e).
Proof. unfold fresh. apply _. Defined.

(** What each operation does to the lists; [None] is a call that makes no sense (no
    such head, an element that is not in the list, or that is in one already). *)
Definition spec_op (m : heads) (E : gset nat) (o : op) : option (ans * heads) :=
  match o with
  | OInit q => _ ← m !! q; Some (Nothing, <[q := []]> m)
  | OEmpty q => l ← m !! q; Some (IsEmpty (bool_decide (l = [])), m)
  | OFirst q => l ← m !! q; Some (Elem (head l), m)
  | ONext q e => l ← m !! q; '(_, l2) ← split_at e l; Some (Elem (head l2), m)
  | OPrev q e => l ← m !! q; '(l1, _) ← split_at e l; Some (Elem (last l1), m)
  | OLast q => l ← m !! q; Some (Elem (last l), m)
  | OForeach _ q => l ← m !! q; Some (Visited l, m)
  | OForeachFrom _ q None => l ← m !! q; Some (Visited l, m)
  | OForeachFrom _ q (Some e) => l ← m !! q; '(_, l2) ← split_at e l; Some (Visited (e :: l2), m)
  | OForeachReverse _ q => l ← m !! q; Some (Visited (reverse l), m)
  | OForeachReverseFrom _ q None => l ← m !! q; Some (Visited (reverse l), m)
  | OForeachReverseFrom _ q (Some e) => l ← m !! q; '(l1, _) ← split_at e l; Some (Visited (e :: reverse l1), m)
  | OInsertHead q e => l ← m !! q; if decide (fresh m E e) then Some (Nothing, <[q := e :: l]> m) else None
  | OInsertTail q e => l ← m !! q; if decide (fresh m E e) then Some (Nothing, <[q := l ++ [e]]> m) else None
  | OInsertAfter q a e =>
      l ← m !! q; '(l1, l2) ← split_at a l;
      if decide (fresh m E e) then Some (Nothing, <[q := l1 ++ a :: e :: l2]> m) else None
  | OInsertBefore q b e =>
      l ← m !! q; '(l1, l2) ← split_at b l;
      if decide (fresh m E e) then Some (Nothing, <[q := l1 ++ e :: b :: l2]> m) else None
  | OConcat q1 q2 =>
      l1 ← m !! q1; l2 ← m !! q2;
      if decide (q1 = q2) then None else Some (Nothing, <[q1 := l1 ++ l2]> (<[q2 := []]> m))
  | ORemoveAfter q e =>
      l ← m !! q; '(l1, l2) ← split_at e l;
      match l2 with x :: l2 => Some (Nothing, <[q := l1 ++ e :: l2]> m) | [] => None end
  | ORemoveHead q => l ← m !! q; match l with x :: l => Some (Nothing, <[q := l]> m) | [] => None end
  | ORemove q e => l ← m !! q; '(l1, l2) ← split_at e l; Some (Nothing, <[q := l1 ++ l2]> m)
  | OSwap q1 q2 =>
      l1 ← m !! q1; l2 ← m !! q2;
      if decide (q1 = q2) then None else Some (Nothing, <[q1 := l2]> (<[q2 := l1]> m))
  end.

(** ** Representation *)
Definition doubly (k : kind) : bool := match k with LIST | TAILQ => true | _ => false end.
Definition tailed (k : kind) : bool := match k with STAILQ | TAILQ => true | _ => false end.

(** The link [s] leads to the elements [l], the last of which has the link [v]. *)
Fixpoint seg (d : bool) (h : mem) (s : slot) (l : list nat) (v : option nat) : Prop :=
  match l with
  | [] => link h !! s = Some v
  | e :: l => link h !! s = Some (Some e) ∧ (d = true → prev h !! e = Some s) ∧ seg d h (Next e) l v
  end.

(** The last link of a list that starts at [s]. *)
Fixpoint end_slot (s : slot) (l : list nat) : slot := match l with [] => s | e :: l => end_slot (Next e) l end.

Definition head_or (l : list nat) (v : option nat) : option nat := match l with e :: _ => Some e | [] => v end.

Record holds (k : kind) (E : gset nat) (m : heads) (h : mem) : Prop := Holds {
  h_seg q l : m !! q = Some l → seg (doubly k) h (First q) l None;
  h_last q l : tailed k = true → m !! q = Some l → lastp h !! q = Some (end_slot (First q) l);
  h_nodup q l : m !! q = Some l → NoDup l;
  h_disj q1 q2 l1 l2 e : m !! q1 = Some l1 → m !! q2 = Some l2 → e ∈ l1 → e ∈ l2 → q1 = q2;
  h_elem e : e ∈ E ↔ is_Some (link h !! Next e)
}.

(** ** Segments *)
Lemma head_or_none l : head_or l None = head l.
Proof. by destruct l. Qed.

Lemma end_slot_app s l1 l2 : end_slot s (l1 ++ l2) = end_slot (end_slot s l1) l2.
Proof. revert s. induction l1 as [|e l1 IH]; intros s; cbn [app end_slot]; [done|apply IH]. Qed.

Lemma end_slot_last s l : end_slot s l = match last l with Some e => Next e | None => s end.
Proof. destruct l as [|x l] using rev_ind; [done|]. by rewrite last_snoc, end_slot_app. Qed.

Lemma end_slot_not q l e : e ∉ l → end_slot (First q) l ≠ Next e.
Proof.
  intros He. rewrite end_slot_last. destruct (last l) as [x|] eqn:Hx; [|done]. intros [= ->].
  apply He. apply last_Some in Hx as [l' ->]. set_solver.
Qed.

Lemma end_slot_first q q' l : end_slot (First q) l = First q' → l = [] ∧ q' = q.
Proof. rewrite end_slot_last. destruct (last l) eqn:Hx; [done|]. intros [= ->]. by apply last_None in Hx. Qed.

Lemma seg_app d h s l1 l2 v :
  seg d h s (l1 ++ l2) v ↔ seg d h s l1 (head_or l2 v) ∧ seg d h (end_slot s l1) l2 v.
Proof.
  revert s. induction l1 as [|e l1 IH]; intros s; cbn [app seg end_slot].
  - split; [|tauto]. intros Hs. split; [|done]. destruct l2; [done|apply Hs].
  - rewrite IH. tauto.
Qed.

Lemma seg_start d h s l v : seg d h s l v → link h !! s = Some (head_or l v).
Proof. destruct l; [done|]. by intros [H _]. Qed.

Lemma seg_end d h s l v : seg d h s l v → link h !! end_slot s l = Some v.
Proof. revert s. induction l as [|e l IH]; intros s; cbn [seg end_slot]; [done|]. intros (_ & _ & H). by apply IH. Qed.

Lemma last_in (l : list nat) e : last l = Some e → e ∈ l.
Proof. intros [l' ->]%last_Some. set_solver. Qed.

(** A segment after changes to its first and its last link, and elsewhere. *)
Lemma seg_change d h h' s s' l v v' :
  seg d h s l v → NoDup l → link h' !! s' = Some (head_or l v') →
  (∀ e, e ∈ l → last l ≠ Some e → link h' !! Next e = link h !! Next e) →
  (∀ e, last l = Some e → link h' !! Next e = Some v') →
  (d = true → ∀ e, e ∈ l → prev h' !! e = if decide (head l = Some e) then Some s' else prev h !! e) →
  seg d h' s' l v'.
Proof.
  revert s s'. induction l as [|e l IH]; intros s s' Hs Hnd Hl Hmid Hend Hp; cbn [seg head_or] in *; [done|].
  destruct Hs as (_ & _ & Hs). apply NoDup_cons in Hnd as [He Hnd]. split; [done|]. split.
  { intros Hd. rewrite (Hp Hd e) by set_solver. by rewrite decide_True. }
  apply (IH (Next e) (Next e) Hs Hnd).
  - destruct l as [|x l]; [by apply Hend|]. cbn [head_or]. rewrite Hmid; [by apply seg_start in Hs|set_solver|].
    intros Hx. by apply He, last_in.
  - intros y Hy Hl'. apply Hmid; [set_solver|]. rewrite last_cons. revert Hl'. destruct (last l); [done|]. by intros _ [= ->].
  - intros y Hy. apply Hend. by rewrite last_cons, Hy.
  - intros Hd y Hy. rewrite (Hp Hd y) by set_solver. rewrite decide_False by (intros [= ->]; done).
    case_decide as Hh; [|done]. destruct l as [|x l]; [done|]. injection Hh as ->. by apply Hs.
Qed.

(** Nothing of it changes. *)
Lemma seg_frame d h h' s l v : seg d h s l v → NoDup l → link h' !! s = link h !! s →
  (∀ e, e ∈ l → link h' !! Next e = link h !! Next e) → (d = true → ∀ e, e ∈ l → prev h' !! e = prev h !! e) →
  seg d h' s l v.
Proof.
  intros Hs Hnd Hl Hn Hp. apply (seg_change d h h' s s l v v); auto.
  - rewrite Hl. by eapply seg_start.
  - intros e He. rewrite Hn; [|apply last_Some in He as [l' ->]; set_solver].
    pose proof (seg_end _ _ _ _ _ Hs) as Hv. rewrite end_slot_last, He in Hv. done.
  - intros Hd e He. rewrite (Hp Hd e He). case_decide as Hh; [|done]. destruct l; [done|]. injection Hh as ->. by apply Hs.
Qed.

(** ** Changes to the lists of some heads *)

(** An element that is not in the list of another head. *)
Definition private (m : heads) (Q : list nat) (e : nat) : Prop := ∀ q l, q ∉ Q → m !! q = Some l → e ∉ l.

Lemma listed_private k E m h Q q l e : holds k E m h → m !! q = Some l → q ∈ Q → e ∈ l → private m Q e.
Proof. intros Hh Hq HQ He q' l' Hq' Hl' He'. assert (q = q') as <- by by eapply (h_disj _ _ _ _ Hh). done. Qed.

Lemma fresh_private m E Q e : fresh m E e → private m Q e.
Proof. intros [_ Hf] q l _ Hl. exact (Hf q l Hl). Qed.

Lemma holds_set k E m m' h h' (Q : list nat) :
  holds k E m h → (∀ q, q ∉ Q → m' !! q = m !! q) →
  (∀ q l, q ∈ Q → m' !! q = Some l →
    seg (doubly k) h' (First q) l None ∧ (tailed k = true → lastp h' !! q = Some (end_slot (First q) l)) ∧
    NoDup l ∧ ∀ e, e ∈ l → private m Q e) →
  (∀ q1 q2 l1 l2 e, q1 ∈ Q → q2 ∈ Q → m' !! q1 = Some l1 → m' !! q2 = Some l2 → e ∈ l1 → e ∈ l2 → q1 = q2) →
  (∀ q, q ∉ Q → link h' !! First q = link h !! First q) →
  (∀ e, ¬ private m Q e → link h' !! Next e = link h !! Next e) →
  (doubly k = true → ∀ e, ¬ private m Q e → prev h' !! e = prev h !! e) →
  (tailed k = true → ∀ q, q ∉ Q → lastp h' !! q = lastp h !! q) →
  (∀ e, is_Some (link h' !! Next e) ↔ is_Some (link h !! Next e)) →
  holds k E m' h'.
Proof.
  intros Hh Hm HQ Hdisj Hlf Hln Hp Hla Hdom.
  assert (Hout : ∀ q l e, q ∉ Q → m !! q = Some l → e ∈ l → ¬ private m Q e).
  { intros q l e Hq Hl He Hpr. by eapply Hpr. }
  split.
  - intros q l Hl. destruct (decide (q ∈ Q)) as [Hq|Hq]; [by apply HQ|]. rewrite Hm in Hl by done.
    apply (seg_frame _ h); [by apply (h_seg _ _ _ _ Hh)|by eapply h_nodup|by apply Hlf|..]; eauto.
  - intros q l Ht Hl. destruct (decide (q ∈ Q)) as [Hq|Hq]; [by apply HQ|]. rewrite Hm in Hl by done.
    rewrite Hla by done. by apply (h_last _ _ _ _ Hh).
  - intros q l Hl. destruct (decide (q ∈ Q)) as [Hq|Hq]; [by eapply HQ|]. rewrite Hm in Hl by done. by eapply h_nodup.
  - intros q1 q2 l1 l2 e H1 H2 He1 He2.
    destruct (decide (q1 ∈ Q)) as [Hq1|Hq1], (decide (q2 ∈ Q)) as [Hq2|Hq2].
    + by eapply Hdisj.
    + rewrite Hm in H2 by done. exfalso. destruct (HQ q1 l1 Hq1 H1) as (_ & _ & _ & Hpr). by eapply (Hpr e He1).
    + rewrite Hm in H1 by done. exfalso. destruct (HQ q2 l2 Hq2 H2) as (_ & _ & _ & Hpr). by eapply (Hpr e He2).
    + rewrite Hm in H1, H2 by done. by eapply (h_disj _ _ _ _ Hh).
  - intros e. rewrite Hdom. apply Hh.
Qed.

(** What the memory has at a place of a list. *)
Section place.
Context (k : kind) (E : gset nat) (m : heads) (h : mem) (Hh : holds k E m h).
Context (q : nat) (l1 l2 : list nat) (Hq : m !! q = Some (l1 ++ l2)).

Lemma place_link : link h !! end_slot (First q) l1 = Some (head l2).
Proof. pose proof (h_seg _ _ _ _ Hh q _ Hq) as Hs. apply seg_app in Hs as [_ Hs]. by rewrite (seg_start _ _ _ _ _ Hs), head_or_none. Qed.

Lemma place_next e : last l1 = Some e → link h !! Next e = Some (head l2).
Proof. intros He. pose proof place_link as Hl. by rewrite end_slot_last, He in Hl. Qed.

Lemma place_prev e : doubly k = true → head l2 = Some e → prev h !! e = Some (end_slot (First q) l1).
Proof.
  intros Hd He. pose proof (h_seg _ _ _ _ Hh q _ Hq) as Hs. apply seg_app in Hs as [_ Hs].
  destruct l2; [done|]. injection He as ->. by apply Hs.
Qed.

Lemma place_last : tailed k = true → lastp h !! q = Some (end_slot (end_slot (First q) l1) l2).
Proof. intros Ht. by rewrite (h_last _ _ _ _ Hh q _ Ht Hq), end_slot_app. Qed.

Lemma place_elem e : e ∈ l1 ++ l2 → is_Some (link h !! Next e).
Proof.
  intros He. apply list_elem_of_split in He as (a & b & Hab). pose proof (h_seg _ _ _ _ Hh q _ Hq) as Hs.
  rewrite Hab in Hs. apply seg_app in Hs as [_ (_ & _ & Hs)]. apply seg_start in Hs. by eexists.
Qed.

Lemma place_nodup : NoDup l1 ∧ NoDup l2 ∧ ∀ e, e ∈ l1 → e ∉ l2.
Proof. pose proof (h_nodup _ _ _ _ Hh q _ Hq) as Hn. apply NoDup_app in Hn as (H1 & H2 & H3). auto. Qed.
End place.

(** A part of a list is replaced. *)
Record spliced (k : kind) (h h' : mem) (q : nat) (l1 xs ys l2 : list nat) : Prop := Spliced {
  sp_seg : seg (doubly k) h' (end_slot (First q) l1) ys (head l2);
  sp_first q' : q' ≠ q ∨ l1 ≠ [] → link h' !! First q' = link h !! First q';
  sp_next x : x ∉ ys → x ∉ xs → last l1 ≠ Some x → link h' !! Next x = link h !! Next x;
  sp_prev x : doubly k = true → x ∉ ys → x ∉ xs → prev h' !! x =
    if decide (head l2 = Some x) then Some (end_slot (end_slot (First q) l1) ys) else prev h !! x;
  sp_last q' : tailed k = true → lastp h' !! q' =
    if decide (q' = q ∧ l2 = []) then Some (end_slot (end_slot (First q) l1) ys) else lastp h !! q';
  sp_dom e : is_Some (link h' !! Next e) ↔ is_Some (link h !! Next e)
}.

Lemma splice_apart k E m h q (l1 xs ys l2 : list nat) :
  holds k E m h → m !! q = Some (l1 ++ xs ++ l2) → (∀ y, y ∈ ys → private m [q] y ∧ y ∉ l1 ++ l2) →
  NoDup l1 ∧ NoDup l2 ∧ (∀ x, x ∈ l1 → x ∉ l2) ∧ ∀ x, x ∈ l1 ++ l2 → x ∉ xs ∧ x ∉ ys.
Proof.
  intros Hh Hq Hnew. pose proof (h_nodup _ _ _ _ Hh q _ Hq) as Hn. apply NoDup_app in Hn as (H1 & H12 & Hn).
  apply NoDup_app in Hn as (_ & Hx2 & H2). split; [done|]. split; [done|]. split; [set_solver|].
  intros x Hx. split; [set_solver|]. intros Hy. by apply (Hnew x Hy).
Qed.

(** The list before the new part and the one after it. *)
Lemma splice_seg k E m h h' q l1 xs ys l2 :
  holds k E m h → m !! q = Some (l1 ++ xs ++ l2) → spliced k h h' q l1 xs ys l2 →
  (∀ y, y ∈ ys → private m [q] y ∧ y ∉ l1 ++ l2) →
  seg (doubly k) h' (First q) (l1 ++ ys ++ l2) None.
Proof.
  intros Hh Hq Hs Hnew. destruct (splice_apart _ _ _ _ _ _ _ _ _ Hh Hq Hnew) as (Hn1 & Hn2 & H12 & Hap). pose proof (h_seg _ _ _ _ Hh q _ Hq) as Hold.
  apply seg_app in Hold as [Hs1 Hold]. apply seg_app in Hold as [_ Hs2]. apply seg_app. split.
  - assert (Hend : link h' !! end_slot (First q) l1 = Some (head_or (ys ++ l2) None)).
    { rewrite (seg_start _ _ _ _ _ (sp_seg _ _ _ _ _ _ _ _ Hs)). destruct ys; cbn [head_or app]; [by rewrite head_or_none|done]. }
    apply (seg_change _ h h' _ _ _ _ _ Hs1 Hn1).
    + destruct l1 as [|x l]; [done|]. cbn [head_or]. rewrite (sp_first _ _ _ _ _ _ _ _ Hs) by by right. by apply seg_start in Hs1.
    + intros x Hx Hlx. destruct (Hap x) as [Hxs Hxy]; [set_solver|]. by apply (sp_next _ _ _ _ _ _ _ _ Hs).
    + intros x Hx. by rewrite end_slot_last, Hx in Hend.
    + intros Hd x Hx. destruct (Hap x) as [Hxs Hxy]; [set_solver|]. rewrite (sp_prev _ _ _ _ _ _ _ _ Hs) by done.
      rewrite decide_False by (intros Hhx; apply (H12 x Hx); destruct l2; [done|injection Hhx as ->; set_solver]).
      case_decide as Hhx; [|done]. destruct l1 as [|y l]; [done|]. injection Hhx as ->. by apply Hs1.
  - apply seg_app. rewrite head_or_none. split; [apply Hs|].
    apply (seg_change _ h h' _ _ _ _ _ Hs2 Hn2).
    + rewrite (seg_end _ _ _ _ _ (sp_seg _ _ _ _ _ _ _ _ Hs)), head_or_none. done.
    + intros x Hx _. destruct (Hap x) as [Hxs Hxy]; [set_solver|]. apply (sp_next _ _ _ _ _ _ _ _ Hs); [done..|].
      intros Hlx%last_in. by apply (H12 x).
    + intros x Hx. pose proof (last_in _ _ Hx) as Hin. destruct (Hap x) as [Hxs Hxy]; [set_solver|].
      rewrite (sp_next _ _ _ _ _ _ _ _ Hs); [|done..|intros Hlx%last_in; by apply (H12 x)].
      pose proof (seg_end _ _ _ _ _ Hs2) as Hv. by rewrite end_slot_last, Hx in Hv.
    + intros Hd x Hx. destruct (Hap x) as [Hxs Hxy]; [set_solver|]. by rewrite (sp_prev _ _ _ _ _ _ _ _ Hs).
Qed.

Lemma splice k E m h h' q l1 xs ys l2 :
  holds k E m h → m !! q = Some (l1 ++ xs ++ l2) → spliced k h h' q l1 xs ys l2 → NoDup ys →
  (∀ y, y ∈ ys → private m [q] y ∧ y ∉ l1 ++ l2) →
  holds k E (<[q := l1 ++ ys ++ l2]> m) h'.
Proof.
  intros Hh Hq Hs Hys Hnew. destruct (splice_apart _ _ _ _ _ _ _ _ _ Hh Hq Hnew) as (Hn1 & Hn2 & H12 & Hap).
  assert (Hpriv : ∀ x, x ∈ l1 ++ xs ++ l2 ∨ x ∈ ys → private m [q] x).
  { intros x [Hx|Hx]; [|by apply Hnew]. eapply listed_private; [done|exact Hq|set_solver|done]. }
  apply (holds_set k E m _ h h' [q] Hh).
  - intros q' Hq'. rewrite lookup_insert_ne by set_solver. done.
  - intros q' l ->%list_elem_of_singleton Hlq. rewrite lookup_insert_eq in Hlq. injection Hlq as <-.
    split; [by eapply splice_seg|]. split; [|split; [|intros x Hx; apply Hpriv; set_solver]].
    + intros Htk. rewrite (sp_last _ _ _ _ _ _ _ _ Hs q Htk), !end_slot_app. case_decide as Hc; [by destruct Hc as [_ ->]|].
      rewrite (h_last _ _ _ _ Hh q _ Htk Hq), !end_slot_app. by destruct l2; [naive_solver|].
    + apply NoDup_app. split; [done|]. split; [set_solver|]. apply NoDup_app. set_solver.
  - intros q1 q2 l l' x ->%list_elem_of_singleton ->%list_elem_of_singleton. done.
  - intros q' Hq'. apply (sp_first _ _ _ _ _ _ _ _ Hs). left. set_solver.
  - intros x Hx. apply (sp_next _ _ _ _ _ _ _ _ Hs); [set_solver..|]. intros Hlx%last_in. apply Hx, Hpriv. set_solver.
  - intros Hd x Hx. rewrite (sp_prev _ _ _ _ _ _ _ _ Hs) by (done || set_solver). rewrite decide_False; [done|].
    intros Hhx. apply Hx, Hpriv. destruct l2; [done|]. injection Hhx as ->. set_solver.
  - intros Htk q' Hq'. by rewrite (sp_last _ _ _ _ _ _ _ _ Hs q' Htk), decide_False by set_solver.
  - apply Hs.
Qed.
(** The links of a memory in which the end of [l1] was changed. *)
Lemma end_slot_other q l1 x : last l1 ≠ Some x → end_slot (First q) l1 ≠ Next x.
Proof. rewrite end_slot_last. destruct (last l1); congruence. Qed.

Lemma end_slot_other_first q q' l1 : q' ≠ q ∨ l1 ≠ [] → end_slot (First q) l1 ≠ First q'.
Proof. intros Hq E0. apply end_slot_first in E0 as [-> ->]. naive_solver. Qed.

(** An element is linked in. *)
Lemma splice_in k E m h h' q l1 l2 e :
  holds k E m h → m !! q = Some (l1 ++ l2) → fresh m E e →
  link h' = <[end_slot (First q) l1 := Some e]> (<[Next e := head l2]> (link h)) →
  (doubly k = true → ∀ y, prev h' !! y =
    if decide (y = e) then Some (end_slot (First q) l1)
    else if decide (head l2 = Some y) then Some (Next e) else prev h !! y) →
  (tailed k = true → ∀ q', lastp h' !! q' = if decide (q' = q ∧ l2 = []) then Some (Next e) else lastp h !! q') →
  holds k E (<[q := l1 ++ e :: l2]> m) h'.
Proof.
  intros Hh Hq Hf Hl Hp Ht. pose proof (proj2 Hf q _ Hq) as Hnew. cbn beta in Hnew.
  pose proof (end_slot_not q l1 e ltac:(set_solver)) as Hne.
  apply (splice k E m h h' q l1 [] [e] l2 Hh Hq).
  - split.
    + split; [by rewrite Hl, lookup_insert_eq|]. split; [intros Hd; by rewrite (Hp Hd e), decide_True|].
      cbn [seg]. by rewrite Hl, lookup_insert_ne, lookup_insert_eq.
    + intros q' Hq'. by rewrite Hl, !lookup_insert_ne by (done || by apply end_slot_other_first).
    + intros x Hx _ Hlx. rewrite Hl, !lookup_insert_ne; [done|set_solver|by apply end_slot_other].
    + intros x Hd Hx _. by rewrite (Hp Hd x), decide_False by set_solver.
    + intros q' Htk. by rewrite (Ht Htk q').
    + intros x. rewrite Hl. destruct (decide (last l1 = Some x)) as [Hx|Hx].
      { rewrite end_slot_last, Hx, lookup_insert_eq. split; [intros _|by eauto].
        eapply (place_elem _ _ _ _ Hh _ _ _ Hq). apply last_in in Hx. set_solver. }
      rewrite lookup_insert_ne by by apply end_slot_other. destruct (decide (x = e)) as [->|Hxe].
      * rewrite lookup_insert_eq. split; [intros _|by eauto]. apply (h_elem _ _ _ _ Hh). by destruct Hf.
      * by rewrite lookup_insert_ne by congruence.
  - apply NoDup_singleton.
  - intros y ->%list_elem_of_singleton. split; [by eapply fresh_private|done].
Qed.

(** A part is taken out; the fields of its elements may hold anything. *)
Lemma splice_out k E m h h' q l1 xs l2 :
  holds k E m h → m !! q = Some (l1 ++ xs ++ l2) →
  link h' = <[end_slot (First q) l1 := head l2]> (link h) →
  (doubly k = true → ∀ y, prev h' !! y =
    if decide (head l2 = Some y) then Some (end_slot (First q) l1) else prev h !! y) →
  (tailed k = true → ∀ q', lastp h' !! q' =
    if decide (q' = q ∧ l2 = []) then Some (end_slot (First q) l1) else lastp h !! q') →
  holds k E (<[q := l1 ++ l2]> m) h'.
Proof.
  intros Hh Hq Hl Hp Ht. apply (splice k E m h h' q l1 xs [] l2 Hh Hq).
  - split.
    + cbn [seg]. by rewrite Hl, lookup_insert_eq.
    + intros q' Hq'. by rewrite Hl, lookup_insert_ne by by apply end_slot_other_first.
    + intros x _ _ Hlx. by rewrite Hl, lookup_insert_ne by by apply end_slot_other.
    + intros x Hd _ _. by rewrite (Hp Hd x).
    + intros q' Htk. by rewrite (Ht Htk q').
    + intros x. rewrite Hl. destruct (decide (last l1 = Some x)) as [Hx|Hx].
      * rewrite end_slot_last, Hx, lookup_insert_eq. split; [intros _|by eauto].
        eapply (place_elem _ _ _ _ Hh _ _ _ Hq). apply last_in in Hx. set_solver.
      * by rewrite lookup_insert_ne by by apply end_slot_other.
  - constructor.
  - set_solver.
Qed.

(** *** Two heads *)

(** A whole list behind another link. *)
Lemma seg_whole k E m h h' q l s : holds k E m h → m !! q = Some l →
  link h' !! s = Some (head l) → (∀ e, e ∈ l → link h' !! Next e = link h !! Next e) →
  (doubly k = true → ∀ e, e ∈ l → prev h' !! e = if decide (head l = Some e) then Some s else prev h !! e) →
  seg (doubly k) h' s l None.
Proof.
  intros Hh Hq Hl Hn Hp. pose proof (h_seg _ _ _ _ Hh q l Hq) as Hs.
  apply (seg_change _ h h' _ _ _ _ _ Hs (h_nodup _ _ _ _ Hh q l Hq)); [by rewrite head_or_none|auto| |done].
  intros e He. rewrite (Hn e (last_in _ _ He)). pose proof (seg_end _ _ _ _ _ Hs) as Hv. by rewrite end_slot_last, He in Hv.
Qed.

Lemma head_in (l : list nat) e : head l = Some e → e ∈ l.
Proof. destruct l; [done|]. intros [= ->]. set_solver. Qed.

Section two.
Context (k : kind) (E : gset nat) (m : heads) (h h' : mem) (Hh : holds k E m h).
Context (q1 q2 : nat) (l1 l2 : list nat) (H1 : m !! q1 = Some l1) (H2 : m !! q2 = Some l2) (Hne : q1 ≠ q2).

Lemma two_apart e : e ∈ l1 → e ∈ l2 → False.
Proof. intros He1 He2. by apply Hne, (h_disj _ _ _ _ Hh q1 q2 l1 l2 e). Qed.

Lemma two_private e : e ∈ l1 ∨ e ∈ l2 → private m [q1; q2] e.
Proof. intros [He|He]; [apply (listed_private k E m h _ q1 l1)|apply (listed_private k E m h _ q2 l2)]; done || set_solver. Qed.

Lemma swap_holds :
  link h' = <[First q2 := head l1]> (<[First q1 := head l2]> (link h)) →
  (doubly k = true → ∀ y, prev h' !! y =
    if decide (head l2 = Some y) then Some (First q1)
    else if decide (head l1 = Some y) then Some (First q2) else prev h !! y) →
  (tailed k = true → ∀ q', lastp h' !! q' =
    if decide (q' = q2) then Some (end_slot (First q2) l1)
    else if decide (q' = q1) then Some (end_slot (First q1) l2) else lastp h !! q') →
  holds k E (<[q1 := l2]> (<[q2 := l1]> m)) h'.
Proof.
  intros Hl Hp Ht. assert (Hn : ∀ e, link h' !! Next e = link h !! Next e) by (intros e; by rewrite Hl, !lookup_insert_ne).
  apply (holds_set k E m _ h h' [q1; q2] Hh).
  - intros q Hq. rewrite !lookup_insert_ne by set_solver. done.
  - intros q l Hq. rewrite !elem_of_cons, elem_of_nil in Hq. destruct Hq as [-> |[-> |[]]].
    + rewrite lookup_insert_eq. intros [= <-]. split; [|split; [|split; [by eapply h_nodup|intros e He; apply two_private; auto]]].
      * apply (seg_whole k E m h h' q2 l2); [done..|by rewrite Hl, lookup_insert_ne, lookup_insert_eq by congruence|done|].
        intros Hd e He. rewrite (Hp Hd e). destruct (decide (head l2 = Some e)); [done|]. rewrite decide_False; [done|].
        intros Hhd%head_in. by eapply two_apart.
      * intros Htk. by rewrite (Ht Htk q1), decide_False, decide_True by done.
    + rewrite lookup_insert_ne, lookup_insert_eq by done. intros [= <-].
      split; [|split; [|split; [by eapply h_nodup|intros e He; apply two_private; auto]]].
      * apply (seg_whole k E m h h' q1 l1); [done..|by rewrite Hl, lookup_insert_eq|done|].
        intros Hd e He. rewrite (Hp Hd e). rewrite decide_False; [done|]. intros Hhd%head_in. by eapply two_apart.
      * intros Htk. by rewrite (Ht Htk q2), decide_True by done.
  - intros q3 q4 l3 l4 e Hq3 Hq4. rewrite !elem_of_cons, elem_of_nil in Hq3, Hq4.
    destruct Hq3 as [-> |[-> |[]]], Hq4 as [-> |[-> |[]]]; [done| | |done];
      rewrite lookup_insert_eq, lookup_insert_ne, lookup_insert_eq by done; intros [= <-] [= <-] He1 He2; exfalso; by eapply two_apart.
  - intros q Hq. rewrite Hl, !lookup_insert_ne; [done|intros [= ->]; set_solver..].
  - intros e _. apply Hn.
  - intros Hd e He. rewrite (Hp Hd e). rewrite !decide_False; [done|intros Hhd%head_in; apply He, two_private; auto..].
  - intros Htk q Hq. rewrite (Ht Htk q), !decide_False by set_solver. done.
  - intros e. by rewrite Hn.
Qed.

Lemma concat_holds :
  link h' = <[First q2 := None]> (<[end_slot (First q1) l1 := head l2]> (link h)) →
  (doubly k = true → ∀ y, prev h' !! y =
    if decide (head l2 = Some y) then Some (end_slot (First q1) l1) else prev h !! y) →
  (tailed k = true → ∀ q', lastp h' !! q' =
    if decide (q' = q2) then Some (First q2)
    else if decide (q' = q1) then Some (end_slot (First q1) (l1 ++ l2)) else lastp h !! q') →
  holds k E (<[q1 := l1 ++ l2]> (<[q2 := []]> m)) h'.
Proof.
  intros Hl Hp Ht. pose proof (h_seg _ _ _ _ Hh q1 l1 H1) as Hs1.
  pose proof (h_nodup _ _ _ _ Hh q1 l1 H1) as Hn1. pose proof (h_nodup _ _ _ _ Hh q2 l2 H2) as Hn2.
  assert (Hn : ∀ e, last l1 ≠ Some e → link h' !! Next e = link h !! Next e).
  { intros e He. by rewrite Hl, !lookup_insert_ne by (done || by apply end_slot_other). }
  assert (Hend : link h' !! end_slot (First q1) l1 = Some (head l2)).
  { rewrite Hl, lookup_insert_ne, lookup_insert_eq; [done|]. intros E0. symmetry in E0. apply end_slot_first in E0 as [_ E0]. by apply Hne. }
  assert (Hpr : ∀ e, e ∈ l1 ++ l2 → private m [q1; q2] e) by (intros e He; apply two_private; set_solver).
  apply (holds_set k E m _ h h' [q1; q2] Hh).
  - intros q Hq. rewrite !lookup_insert_ne by set_solver. done.
  - intros q l Hq. rewrite !elem_of_cons, elem_of_nil in Hq. destruct Hq as [-> |[-> |[]]].
    + rewrite lookup_insert_eq. intros [= <-]. split; [|split; [|split; [|done]]].
      * apply seg_app. rewrite head_or_none. split.
        -- apply (seg_change _ h h' _ _ _ _ _ Hs1 Hn1).
           ++ destruct (decide (l1 = [])) as [Hl1|Hl1]; [by rewrite Hl1 in Hend |- *|].
              rewrite Hl, !lookup_insert_ne; [apply seg_start in Hs1; rewrite Hs1; by destruct l1|by apply end_slot_other_first; right|congruence].
           ++ intros e He Hle. by apply Hn.
           ++ intros e He. by rewrite end_slot_last, He in Hend.
           ++ intros Hd e He. rewrite (Hp Hd e), decide_False by (intros Hhd%head_in; by eapply two_apart).
              case_decide as Hhd; [|done]. destruct l1; [done|]. injection Hhd as ->. by apply Hs1.
        -- apply (seg_whole k E m h h' q2 l2); [done..| |].
           ++ intros e He. apply Hn. intros Hle%last_in. by eapply two_apart.
           ++ intros Hd e He. by rewrite (Hp Hd e).
      * intros Htk. by rewrite (Ht Htk q1), decide_False, decide_True by done.
      * apply NoDup_app. split; [done|]. split; [|done]. intros e He1 He2. by eapply two_apart.
    + rewrite lookup_insert_ne, lookup_insert_eq by done. intros [= <-]. cbn [seg end_slot].
      split; [by rewrite Hl, lookup_insert_eq|]. split; [|split; [constructor|set_solver]].
      intros Htk. by rewrite (Ht Htk q2), decide_True by done.
  - intros q3 q4 l3 l4 e Hq3 Hq4. rewrite !elem_of_cons, elem_of_nil in Hq3, Hq4.
    destruct Hq3 as [-> |[-> |[]]], Hq4 as [-> |[-> |[]]]; [done| | |done];
      rewrite lookup_insert_eq, lookup_insert_ne, lookup_insert_eq by done; intros [= <-] [= <-]; set_solver.
  - intros q Hq. rewrite Hl, !lookup_insert_ne; [done|apply end_slot_other_first; left; set_solver|intros [= ->]; set_solver].
  - intros e He. apply Hn. intros Hle%last_in. apply He, Hpr. set_solver.
  - intros Hd e He. rewrite (Hp Hd e), decide_False; [done|]. intros Hhd%head_in. apply He, Hpr. set_solver.
  - intros Htk q Hq. rewrite (Ht Htk q), !decide_False by set_solver. done.
  - intros e. destruct (decide (last l1 = Some e)) as [Hle|Hle]; [|by rewrite Hn].
    rewrite end_slot_last, Hle in Hend. rewrite Hend. split; [intros _|by eauto].
    pose proof (seg_end _ _ _ _ _ Hs1) as Hv. rewrite end_slot_last, Hle in Hv. by eexists.
Qed.
End two.
