(* ===== verification/BsdOps.v ===== *)
(** * Every list macro does what it says

    One call of a macro of [src/queue.h] on a memory that holds some lists. *)

From S2P Require Import Prelude BsdQueue BsdLists.

(** ** Running a macro *)
Definition set_link (s : slot) (v : option nat) (h : mem) : mem := Mem (<[s := v]> (link h)) (prev h) (lastp h).
Definition set_prev (e : nat) (s : slot) (h : mem) : mem := Mem (link h) (<[e := s]> (prev h)) (lastp h).
Definition set_lastp (q : nat) (s : slot) (h : mem) : mem := Mem (link h) (prev h) (<[q := s]> (lastp h)).

Section run.
Context {B : Type}.

Lemma L_bind_done {A} (c : L A) (f : A → L B) h a h' : c h = Done (a, h') → (c ≫= f) h = f a h'.
Proof. intros Hc. unfold mbind, L_bind. by rewrite Hc. Qed.

Lemma L_ret_bind {A} (a : A) (f : A → L B) h : (mret a ≫= f) h = f a h.
Proof. done. Qed.

Lemma L_assoc {A A'} (c : L A) (f : A → L A') (g : A' → L B) h : ((c ≫= f) ≫= g) h = (c ≫= λ a, f a ≫= g) h.
Proof. unfold mbind, L_bind. by destruct (c h) as [[a h']| |]. Qed.

Lemma rd_bind s v (f : option nat → L B) h : link h !! s = Some v → (rd s ≫= f) h = f v h.
Proof. intros Hs. apply L_bind_done. unfold rd. by rewrite Hs. Qed.

Lemma wr_done s v h : is_Some (link h !! s) → wr s v h = Done (tt, set_link s v h).
Proof. intros [x Hx]. unfold wr. by rewrite Hx. Qed.

Lemma wr_bind s v (f : unit → L B) h : is_Some (link h !! s) → (wr s v ≫= f) h = f tt (set_link s v h).
Proof. intros Hs. apply L_bind_done. by apply wr_done. Qed.

Lemma rd_prev_bind e s (f : slot → L B) h : prev h !! e = Some s → (rd_prev e ≫= f) h = f s h.
Proof. intros Hs. apply L_bind_done. unfold rd_prev. by rewrite Hs. Qed.

Lemma wr_prev_done e s h : is_Some (link h !! Next e) → wr_prev e s h = Done (tt, set_prev e s h).
Proof. intros [x Hx]. unfold wr_prev. by rewrite Hx. Qed.

Lemma wr_prev_bind e s (f : unit → L B) h : is_Some (link h !! Next e) → (wr_prev e s ≫= f) h = f tt (set_prev e s h).
Proof. intros Hs. apply L_bind_done. by apply wr_prev_done. Qed.

Lemma rd_last_bind q s (f : slot → L B) h : lastp h !! q = Some s → (rd_last q ≫= f) h = f s h.
Proof. intros Hs. apply L_bind_done. unfold rd_last. by rewrite Hs. Qed.

Lemma wr_last_done q s h : is_Some (link h !! First q) → wr_last q s h = Done (tt, set_lastp q s h).
Proof. intros [x Hx]. unfold wr_last. by rewrite Hx. Qed.

Lemma wr_last_bind q s (f : unit → L B) h :
  is_Some (link h !! First q) → (wr_last q s ≫= f) h = f tt (set_lastp q s h).
Proof. intros Hs. apply L_bind_done. by apply wr_last_done. Qed.

Lemma empty_bind q v (f : bool → L B) h :
  link h !! First q = Some v → (STAILQ_EMPTY q ≫= f) h = f (bool_decide (v = None)) h.
Proof. intros Hs. apply L_bind_done. unfold STAILQ_EMPTY, STAILQ_FIRST, mbind, L_bind, rd. by rewrite Hs. Qed.

Lemma elem_bind e (f : nat → L B) h : (elem (Some e) ≫= f) h = f e h.
Proof. done. Qed.

Lemma check_bind `{QmdDocumented} c (f : unit → L B) h : consistent h c → (check c ≫= f) h = f tt h.
Proof. intros Hc. apply L_bind_done. unfold check. by rewrite (qmd_passes h c Hc). Qed.
End run.

(** A field of the memory after some writes. *)
Ltac field :=
  cbn [link prev lastp set_link set_prev set_lastp];
  repeat first [rewrite lookup_insert_eq | rewrite lookup_insert_ne by first [done | congruence]];
  first [eassumption | done | by eauto | by eexists].

Ltac step :=
  first
    [ rewrite L_assoc | rewrite L_ret_bind | rewrite elem_bind | erewrite empty_bind by field
    | rewrite bool_decide_true by done | rewrite bool_decide_false by done
    | erewrite rd_bind by field | rewrite wr_bind by field
    | erewrite rd_prev_bind by field | rewrite wr_prev_bind by field
    | erewrite rd_last_bind by field | rewrite wr_last_bind by field
    | rewrite wr_done by field | rewrite wr_prev_done by field | rewrite wr_last_done by field ];
  cbn [head].

(** Two writes compared field by field. *)
Ltac fields :=
  cbn [link prev lastp set_link set_prev set_lastp];
  repeat rewrite lookup_insert; repeat case_decide; simplify_eq; try done; try naive_solver.

Section ops.
Context (E : gset nat) (m : heads) (h : mem).

Section place.
Context (k : kind) (Hh : holds k E m h).

Lemma fresh_link e : fresh m E e → is_Some (link h !! Next e).
Proof. intros [He _]. by apply (h_elem _ _ _ _ Hh). Qed.

Lemma head_link q l : m !! q = Some l → link h !! First q = Some (head l).
Proof. intros Hq. exact (place_link _ _ _ _ Hh q [] l Hq). Qed.

Lemma elem_link q l1 a l2 : m !! q = Some (l1 ++ a :: l2) → link h !! Next a = Some (head l2).
Proof. intros Hq. apply (place_next _ _ _ _ Hh q (l1 ++ [a]) l2); [by rewrite <-app_assoc|]. apply last_snoc. Qed.

Lemma end_slot_snoc s l a : end_slot s (l ++ [a]) = Next a.
Proof. by rewrite end_slot_app. Qed.

Lemma fresh_other q l e : fresh m E e → m !! q = Some l → e ∉ l.
Proof. intros [_ Hf] Hq. exact (Hf q l Hq). Qed.
End place.

(** *** SLIST *)
Lemma slist_insert_head q l e : holds SLIST E m h → m !! q = Some l → fresh m E e →
  ∃ h', SLIST_INSERT_HEAD q e h = Done (tt, h') ∧ holds SLIST E (<[q := e :: l]> m) h'.
Proof.
  intros Hh Hq Hf. pose proof (head_link _ Hh q l Hq). pose proof (fresh_link _ Hh e Hf).
  unfold SLIST_INSERT_HEAD, SLIST_FIRST. repeat step. eexists. split; [done|].
  by apply (splice_in SLIST E m h _ q [] l e).
Qed.

Lemma slist_insert_after q l1 a l2 e : holds SLIST E m h → m !! q = Some (l1 ++ a :: l2) → fresh m E e →
  ∃ h', SLIST_INSERT_AFTER a e h = Done (tt, h') ∧ holds SLIST E (<[q := l1 ++ a :: e :: l2]> m) h'.
Proof.
  intros Hh Hq Hf. pose proof (elem_link _ Hh q l1 a l2 Hq). pose proof (fresh_link _ Hh e Hf).
  pose proof (fresh_other q _ e Hf Hq). assert (a ≠ e) by set_solver.
  unfold SLIST_INSERT_AFTER, SLIST_NEXT. repeat step. eexists. split; [done|].
  rewrite (cons_middle a l1 (e :: l2)), app_assoc. rewrite (cons_middle a l1 l2), app_assoc in Hq.
  apply (splice_in SLIST E m h _ q (l1 ++ [a]) l2 e); [done..| |done|done]. by rewrite end_slot_snoc.
Qed.

Lemma slist_remove_head q x l : holds SLIST E m h → m !! q = Some (x :: l) →
  ∃ h', SLIST_REMOVE_HEAD q h = Done (tt, h') ∧ holds SLIST E (<[q := l]> m) h'.
Proof.
  intros Hh Hq. pose proof (head_link _ Hh q _ Hq). pose proof (elem_link _ Hh q [] x l Hq).
  unfold SLIST_REMOVE_HEAD, SLIST_FIRST, SLIST_NEXT. repeat step. eexists. split; [done|].
  by apply (splice_out SLIST E m h _ q [] [x] l).
Qed.

Lemma slist_remove_after q l1 a x l2 : holds SLIST E m h → m !! q = Some (l1 ++ a :: x :: l2) →
  ∃ h', SLIST_REMOVE_AFTER a h = Done (tt, h') ∧ holds SLIST E (<[q := l1 ++ a :: l2]> m) h'.
Proof.
  intros Hh Hq. pose proof (elem_link _ Hh q l1 a _ Hq) as Ha. cbn [head] in Ha.
  rewrite (cons_middle a l1 (x :: l2)), app_assoc in Hq. pose proof (elem_link _ Hh q _ x l2 Hq).
  unfold SLIST_REMOVE_AFTER, SLIST_NEXT. repeat step. eexists. split; [done|].
  rewrite (cons_middle a l1 l2), app_assoc.
  apply (splice_out SLIST E m h _ q (l1 ++ [a]) [x] l2); [done..| |done|done]. by rewrite end_slot_snoc.
Qed.

(** The element before [e]. *)
Lemma find_pred_spec d s x l1 e l2 v fuel :
  seg d h s (x :: l1 ++ e :: l2) v → e ∉ l1 → (length l1 < fuel)%nat →
  find_pred fuel (Some x) e h = Done (default x (last l1), h).
Proof.
  revert s x fuel. induction l1 as [|y l1 IH]; intros s x fuel (_ & _ & Hs) He Hf; (destruct fuel as [|fuel]; [cbn in Hf; lia|]);
    cbn [find_pred app seg] in *; rewrite elem_bind; destruct Hs as [Hx Hs].
  - erewrite rd_bind by done. by rewrite bool_decide_true.
  - erewrite rd_bind by done. rewrite bool_decide_false by (intros [= ->]; set_solver).
    rewrite (IH (Next x) y fuel); [|done|set_solver|cbn in Hf; lia]. rewrite last_cons. by destruct (last l1).
Qed.

Lemma list_fuel k q l : holds k E m h → m !! q = Some l → (length l < fuel_of_mem h)%nat.
Proof.
  intros Hh Hq. unfold fuel_of_mem. pose proof (h_nodup _ _ _ _ Hh q l Hq) as Hn.
  assert (Hsub : list_to_set (Next <$> l) ⊆ dom (link h)).
  { intros x Hx. apply elem_of_list_to_set, list_elem_of_fmap in Hx as (e & -> & He). apply elem_of_dom.
    by apply (place_elem k E m h Hh q [] l Hq). }
  apply subseteq_size in Hsub. rewrite size_dom, size_list_to_set, length_fmap in Hsub; [lia|].
  by apply NoDup_fmap; [intros ?? [= ->]|].
Qed.

(** [SLIST_REMOVE] and [STAILQ_REMOVE] are a removal at the head or one after the
    element that [find_pred] finds. *)
Lemma find_pred_run k q x l1 e l2 : holds k E m h → m !! q = Some (x :: l1 ++ e :: l2) →
  with_fuel (fun fuel => find_pred fuel (Some x) e) h = Done (default x (last l1), h).
Proof.
  intros Hh Hq. unfold with_fuel. pose proof (list_fuel k q _ Hh Hq) as Hf. pose proof (h_nodup _ _ _ _ Hh q _ Hq) as Hn.
  apply (find_pred_spec _ _ _ _ _ _ _ _ (h_seg _ _ _ _ Hh q _ Hq)).
  - apply NoDup_cons in Hn as [_ Hn]. apply NoDup_app in Hn as (_ & Hn & _). intros He. apply (Hn e He). set_solver.
  - cbn [length] in Hf. rewrite length_app in Hf. cbn [length] in Hf. lia.
Qed.

Lemma last_split (x : nat) l1 : ∃ l0, x :: l1 = l0 ++ [default x (last l1)].
Proof.
  destruct l1 as [|y l1] using rev_ind; [by exists []|]. exists (x :: l1). by rewrite last_snoc.
Qed.

Lemma slist_remove q l1 e l2 : holds SLIST E m h → m !! q = Some (l1 ++ e :: l2) →
  ∃ h', SLIST_REMOVE q e h = Done (tt, h') ∧ holds SLIST E (<[q := l1 ++ l2]> m) h'.
Proof.
  intros Hh Hq. unfold SLIST_REMOVE, SLIST_FIRST. erewrite rd_bind by exact (head_link _ Hh q _ Hq).
  destruct l1 as [|x l1]; cbn [head app].
  - rewrite bool_decide_true by done. by apply slist_remove_head with (x := e).
  - pose proof (h_nodup _ _ _ _ Hh q _ Hq) as Hn. rewrite bool_decide_false by (intros [= ->]; apply NoDup_cons in Hn as [Hn _]; set_solver).
    erewrite L_bind_done by exact (find_pred_run SLIST q x l1 e l2 Hh Hq).
    destruct (last_split x l1) as [l0 Hl0]. change (x :: l1 ++ l2) with ((x :: l1) ++ l2).
    change (x :: l1 ++ e :: l2) with ((x :: l1) ++ e :: l2) in Hq. rewrite Hl0, <-app_assoc in Hq |- *.
    by apply (slist_remove_after q l0 _ e l2).
Qed.

Lemma slist_swap q1 q2 l1 l2 : holds SLIST E m h → m !! q1 = Some l1 → m !! q2 = Some l2 → q1 ≠ q2 →
  ∃ h', SLIST_SWAP q1 q2 h = Done (tt, h') ∧ holds SLIST E (<[q1 := l2]> (<[q2 := l1]> m)) h'.
Proof.
  intros Hh H1 H2 Hne. pose proof (head_link _ Hh q1 _ H1). pose proof (head_link _ Hh q2 _ H2).
  unfold SLIST_SWAP, SLIST_FIRST. repeat step. eexists. split; [done|]. by apply (swap_holds SLIST E m h).
Qed.

Lemma slist_init q l : holds SLIST E m h → m !! q = Some l →
  ∃ h', SLIST_INIT q h = Done (tt, h') ∧ holds SLIST E (<[q := []]> m) h'.
Proof.
  intros Hh Hq. pose proof (head_link _ Hh q _ Hq). unfold SLIST_INIT. step. eexists. split; [done|].
  apply (splice_out SLIST E m h _ q [] l []); [done|by rewrite app_nil_r|done..].
Qed.

(** *** Loops over a list *)
Lemma for_each_spec safe (next : nat → L (option nat)) fuel l :
  (∀ l1 e l2, l = l1 ++ e :: l2 → next e h = Done (head l2, h)) → (length l <= fuel)%nat →
  for_each safe next (fun _ => mret tt) fuel (head l) h = Done (l, h).
Proof.
  revert fuel. induction l as [|x l IH]; intros fuel Hn Hf; [by destruct fuel|].
  destruct fuel as [|fuel]; [cbn in Hf; lia|]. cbn [for_each head].
  assert (Hx : (if safe then n ← next x; _ ← (mret () : L unit); mret n else _ ← (mret () : L unit); next x : L (option nat)) h = Done (head l, h)).
  { pose proof (Hn [] x l eq_refl) as Hx. destruct safe; [|done]. by erewrite L_bind_done by exact Hx. }
  erewrite L_bind_done by exact Hx. erewrite L_bind_done; [done|]. apply IH; [|cbn in Hf; lia].
  intros l1 e l2 ->. by apply (Hn (x :: l1)).
Qed.

(** From the head, or from an element on. *)
Lemma list_foreach_spec k q l safe : holds k E m h → m !! q = Some l →
  with_fuel (fun fuel => for_each safe (fun e => rd (Next e)) (fun _ => mret tt) fuel (head l)) h = Done (l, h).
Proof.
  intros Hh Hq. unfold with_fuel. pose proof (list_fuel k q l Hh Hq). apply for_each_spec; [|lia].
  intros l1 e l2 ->. unfold rd. by rewrite (elem_link k Hh q l1 e l2 Hq).
Qed.

Lemma list_foreach_from_spec k q l1 e l2 safe : holds k E m h → m !! q = Some (l1 ++ e :: l2) →
  with_fuel (fun fuel => for_each safe (fun e => rd (Next e)) (fun _ => mret tt) fuel (Some e)) h = Done (e :: l2, h).
Proof.
  intros Hh Hq. unfold with_fuel. pose proof (list_fuel k q _ Hh Hq) as Hf. rewrite length_app in Hf.
  apply (for_each_spec safe (fun e => rd (Next e)) _ (e :: l2)); [|lia].
  intros l3 x l4 Hx. rewrite Hx, app_assoc in Hq. unfold rd. by rewrite (elem_link k Hh q _ x l4 Hq).
Qed.

(** *** STAILQ *)
Lemma stailq_insert_head q l e : holds STAILQ E m h → m !! q = Some l → fresh m E e →
  ∃ h', STAILQ_INSERT_HEAD q e h = Done (tt, h') ∧ holds STAILQ E (<[q := e :: l]> m) h'.
Proof.
  intros Hh Hq Hf. pose proof (head_link _ Hh q l Hq). pose proof (fresh_link _ Hh e Hf).
  unfold STAILQ_INSERT_HEAD, STAILQ_FIRST.
  destruct l as [|y l]; cbn [head] in *; repeat step; eexists; (split; [done|]);
    (apply (splice_in STAILQ E m h _ q [] _ e); [done..|intros _ q'; fields]).
Qed.

Lemma stailq_insert_after q l1 a l2 e : holds STAILQ E m h → m !! q = Some (l1 ++ a :: l2) → fresh m E e →
  ∃ h', STAILQ_INSERT_AFTER q a e h = Done (tt, h') ∧ holds STAILQ E (<[q := l1 ++ a :: e :: l2]> m) h'.
Proof.
  intros Hh Hq Hf. pose proof (elem_link _ Hh q l1 a l2 Hq). pose proof (fresh_link _ Hh e Hf).
  pose proof (head_link _ Hh q _ Hq). pose proof (fresh_other q _ e Hf Hq). assert (a ≠ e) by set_solver.
  unfold STAILQ_INSERT_AFTER, STAILQ_NEXT.
  rewrite (cons_middle a l1 (e :: l2)), app_assoc. rewrite (cons_middle a l1 l2), app_assoc in Hq.
  destruct l2 as [|y l2]; cbn [head] in *; repeat step; eexists; (split; [done|]);
    (apply (splice_in STAILQ E m h _ q (l1 ++ [a]) _ e); [done..|by rewrite end_slot_snoc|done|intros _ q'; fields]).
Qed.

Lemma stailq_insert_tail q l e : holds STAILQ E m h → m !! q = Some l → fresh m E e →
  ∃ h', STAILQ_INSERT_TAIL q e h = Done (tt, h') ∧ holds STAILQ E (<[q := l ++ [e]]> m) h'.
Proof.
  intros Hh Hq Hf. pose proof (fresh_link _ Hh e Hf). pose proof (h_last _ _ _ _ Hh q l eq_refl Hq).
  pose proof (end_slot_not q l e (fresh_other q l e Hf Hq)). pose proof (head_link _ Hh q _ Hq).
  assert (Hend : link h !! end_slot (First q) l = Some None).
  { rewrite (place_link _ _ _ _ Hh q l []); [done|by rewrite app_nil_r]. }
  unfold STAILQ_INSERT_TAIL. repeat step.
  assert (Hfirst : is_Some (<[end_slot (First q) l:=Some e]> (<[Next e:=None]> (link h)) !! First q)).
  { rewrite lookup_insert. case_decide; [by eauto|]. rewrite lookup_insert_ne by done. by eauto. }
  rewrite wr_last_done by exact Hfirst. eexists. split; [done|].
  apply (splice_in STAILQ E m h _ q l [] e); [done|by rewrite app_nil_r|done..|intros _ q'; fields].
Qed.

Lemma stailq_remove_head q x l : holds STAILQ E m h → m !! q = Some (x :: l) →
  ∃ h', STAILQ_REMOVE_HEAD q h = Done (tt, h') ∧ holds STAILQ E (<[q := l]> m) h'.
Proof.
  intros Hh Hq. pose proof (head_link _ Hh q _ Hq). pose proof (elem_link _ Hh q [] x l Hq).
  unfold STAILQ_REMOVE_HEAD, STAILQ_FIRST, STAILQ_NEXT.
  destruct l as [|y l]; cbn [head] in *; repeat step; eexists; (split; [done|]);
    (apply (splice_out STAILQ E m h _ q [] [x]); [done..|intros _ q'; fields]).
Qed.

Lemma stailq_remove_after q l1 a x l2 : holds STAILQ E m h → m !! q = Some (l1 ++ a :: x :: l2) →
  ∃ h', STAILQ_REMOVE_AFTER q a h = Done (tt, h') ∧ holds STAILQ E (<[q := l1 ++ a :: l2]> m) h'.
Proof.
  intros Hh Hq. pose proof (elem_link _ Hh q l1 a _ Hq) as Ha. pose proof (head_link _ Hh q _ Hq). cbn [head] in Ha.
  rewrite (cons_middle a l1 (x :: l2)), app_assoc in Hq. pose proof (elem_link _ Hh q _ x l2 Hq).
  unfold STAILQ_REMOVE_AFTER, STAILQ_NEXT. rewrite (cons_middle a l1 l2), app_assoc.
  destruct l2 as [|y l2]; cbn [head] in *; repeat step; eexists; (split; [done|]);
    (apply (splice_out STAILQ E m h _ q (l1 ++ [a]) [x]); [done..|by rewrite end_slot_snoc|done|];
     rewrite end_slot_snoc; intros _ q'; fields).
Qed.

Lemma stailq_remove q l1 e l2 : holds STAILQ E m h → m !! q = Some (l1 ++ e :: l2) →
  ∃ h', STAILQ_REMOVE q e h = Done (tt, h') ∧ holds STAILQ E (<[q := l1 ++ l2]> m) h'.
Proof.
  intros Hh Hq. unfold STAILQ_REMOVE, STAILQ_FIRST. erewrite rd_bind by exact (head_link _ Hh q _ Hq).
  destruct l1 as [|x l1]; cbn [head app].
  - rewrite bool_decide_true by done. by apply stailq_remove_head with (x := e).
  - pose proof (h_nodup _ _ _ _ Hh q _ Hq) as Hn. rewrite bool_decide_false by (intros [= ->]; apply NoDup_cons in Hn as [Hn _]; set_solver).
    erewrite L_bind_done by exact (find_pred_run STAILQ q x l1 e l2 Hh Hq).
    destruct (last_split x l1) as [l0 Hl0]. change (x :: l1 ++ l2) with ((x :: l1) ++ l2).
    change (x :: l1 ++ e :: l2) with ((x :: l1) ++ e :: l2) in Hq. rewrite Hl0, <-app_assoc in Hq |- *.
    by apply (stailq_remove_after q l0 _ e l2).
Qed.

Lemma stailq_init q l : holds STAILQ E m h → m !! q = Some l →
  ∃ h', STAILQ_INIT q h = Done (tt, h') ∧ holds STAILQ E (<[q := []]> m) h'.
Proof.
  intros Hh Hq. pose proof (head_link _ Hh q _ Hq). unfold STAILQ_INIT. repeat step. eexists. split; [done|].
  apply (splice_out STAILQ E m h _ q [] l []); [done|by rewrite app_nil_r|done..|intros _ q'; fields].
Qed.

Lemma stailq_swap q1 q2 l1 l2 : holds STAILQ E m h → m !! q1 = Some l1 → m !! q2 = Some l2 → q1 ≠ q2 →
  ∃ h', STAILQ_SWAP q1 q2 h = Done (tt, h') ∧ holds STAILQ E (<[q1 := l2]> (<[q2 := l1]> m)) h'.
Proof.
  intros Hh H1 H2 Hne. pose proof (head_link _ Hh q1 _ H1). pose proof (head_link _ Hh q2 _ H2).
  pose proof (h_last _ _ _ _ Hh q1 _ eq_refl H1) as Hla1. pose proof (h_last _ _ _ _ Hh q2 _ eq_refl H2) as Hla2.
  unfold STAILQ_SWAP, STAILQ_FIRST.
  destruct l1 as [|x l1], l2 as [|y l2]; cbn [head end_slot] in *; repeat step; eexists; (split; [done|]);
    (apply (swap_holds STAILQ E m h); [done..|intros _ q'; fields]).
Qed.

Lemma stailq_concat q1 q2 l1 l2 : holds STAILQ E m h → m !! q1 = Some l1 → m !! q2 = Some l2 → q1 ≠ q2 →
  ∃ h', STAILQ_CONCAT q1 q2 h = Done (tt, h') ∧ holds STAILQ E (<[q1 := l1 ++ l2]> (<[q2 := []]> m)) h'.
Proof.
  intros Hh H1 H2 Hne. pose proof (head_link _ Hh q1 _ H1). pose proof (head_link _ Hh q2 _ H2).
  pose proof (h_last _ _ _ _ Hh q1 _ eq_refl H1) as Hla1. pose proof (h_last _ _ _ _ Hh q2 _ eq_refl H2) as Hla2.
  assert (Hend : link h !! end_slot (First q1) l1 = Some None).
  { rewrite (place_link _ _ _ _ Hh q1 l1 []); [done|by rewrite app_nil_r]. }
  unfold STAILQ_CONCAT, STAILQ_FIRST. destruct l2 as [|y l2]; cbn [head] in *; repeat step.
  { exists h. split; [done|]. by rewrite app_nil_r, (insert_id m q2), insert_id by done. }
  assert (Hne2 : end_slot (First q1) l1 ≠ First q2) by (intros E0; apply end_slot_first in E0 as [_ E0]; congruence).
  assert (Hfirst : is_Some (<[end_slot (First q1) l1:=Some y]> (link h) !! First q1)).
  { rewrite lookup_insert. case_decide; by eauto. }
  rewrite wr_last_bind by exact Hfirst. unfold STAILQ_INIT. repeat step. eexists. split; [done|].
  apply (concat_holds STAILQ E m h _ Hh q1 q2 l1 (y :: l2)); [done..|intros _ q'; fields].
  by rewrite end_slot_app.
Qed.

(** *** Checks *)
Section checks.
Context (k : kind) (Hk : doubly k = true) (Hh : holds k E m h).

Lemma head_points_back q l : m !! q = Some l → points_back h (First q).
Proof.
  intros Hq e He. rewrite (head_link k Hh q l Hq) in He. injection He as He.
  exact (place_prev k E m h Hh q [] l Hq e Hk He).
Qed.

Lemma elem_points_back q l1 a l2 : m !! q = Some (l1 ++ a :: l2) → points_back h (Next a).
Proof.
  intros Hq e He. rewrite (elem_link k Hh q l1 a l2 Hq) in He. injection He as He.
  rewrite (cons_middle a l1 l2), app_assoc in Hq.
  by rewrite (place_prev k E m h Hh q (l1 ++ [a]) l2 Hq e Hk He), end_slot_snoc.
Qed.

Lemma elem_prev q l1 a l2 : m !! q = Some (l1 ++ a :: l2) → prev h !! a = Some (end_slot (First q) l1).
Proof. intros Hq. by apply (place_prev k E m h Hh q l1 (a :: l2) Hq). Qed.

Lemma prev_points q l1 a l2 : m !! q = Some (l1 ++ a :: l2) →
  ∀ s, prev h !! a = Some s → link h !! s = Some (Some a).
Proof.
  intros Hq s Hs. rewrite (elem_prev q l1 a l2 Hq) in Hs. injection Hs as <-.
  exact (place_link k E m h Hh q l1 (a :: l2) Hq).
Qed.

Lemma listed_link q l e : m !! q = Some l → e ∈ l → is_Some (link h !! Next e).
Proof. intros Hq He. by apply (place_elem k E m h Hh q [] l Hq). Qed.
End checks.

Lemma tail_link k q l : holds k E m h → m !! q = Some l → link h !! end_slot (First q) l = Some None.
Proof. intros Hh Hq. rewrite (place_link k E m h Hh q l []); [done|by rewrite app_nil_r]. Qed.

Section qmd.
Context `{QmdDocumented}.

(** *** LIST *)
Lemma list_insert_head q l e : holds LIST E m h → m !! q = Some l → fresh m E e →
  ∃ h', LIST_INSERT_HEAD q e h = Done (tt, h') ∧ holds LIST E (<[q := e :: l]> m) h'.
Proof.
  intros Hh Hq Hf. pose proof (head_link _ Hh q l Hq). pose proof (fresh_link _ Hh e Hf).
  pose proof (fresh_other q _ e Hf Hq) as Hnew. unfold LIST_INSERT_HEAD, LIST_FIRST.
  rewrite check_bind by exact (head_points_back LIST eq_refl Hh q l Hq).
  destruct l as [|y l]; cbn [head] in *.
  - repeat step. eexists. split; [done|]. apply (splice_in LIST E m h _ q [] _ e); [done..|intros _ z; fields|done].
  - pose proof (listed_link _ Hh q _ y Hq ltac:(set_solver)). assert (y ≠ e) by set_solver.
    repeat step. eexists. split; [done|]. apply (splice_in LIST E m h _ q [] _ e); [done..|intros _ z; fields|done].
Qed.

Lemma list_insert_after q l1 a l2 e : holds LIST E m h → m !! q = Some (l1 ++ a :: l2) → fresh m E e →
  ∃ h', LIST_INSERT_AFTER a e h = Done (tt, h') ∧ holds LIST E (<[q := l1 ++ a :: e :: l2]> m) h'.
Proof.
  intros Hh Hq Hf. pose proof (elem_link _ Hh q l1 a l2 Hq). pose proof (fresh_link _ Hh e Hf).
  pose proof (fresh_other q _ e Hf Hq) as Hnew. assert (a ≠ e) by set_solver.
  unfold LIST_INSERT_AFTER, LIST_NEXT. rewrite check_bind by exact (elem_points_back LIST eq_refl Hh q l1 a l2 Hq).
  assert (Hl2 : ∀ y, y ∈ l2 → is_Some (link h !! Next y) ∧ y ≠ e).
  { intros y Hy. split; [|set_solver]. by apply (listed_link _ Hh q _ y Hq); set_solver. }
  rewrite (cons_middle a l1 (e :: l2)), app_assoc. rewrite (cons_middle a l1 l2), app_assoc in Hq.
  destruct l2 as [|y l2]; cbn [head] in *; [|destruct (Hl2 y) as [Hy Hye]; [set_solver|]];
    repeat step; eexists; (split; [done|]);
    (apply (splice_in LIST E m h _ q (l1 ++ [a]) _ e); [done..|by rewrite end_slot_snoc| |done];
     rewrite end_slot_snoc; intros _ z; fields).
Qed.

Lemma list_insert_before q l1 b l2 e : holds LIST E m h → m !! q = Some (l1 ++ b :: l2) → fresh m E e →
  ∃ h', LIST_INSERT_BEFORE b e h = Done (tt, h') ∧ holds LIST E (<[q := l1 ++ e :: b :: l2]> m) h'.
Proof.
  intros Hh Hq Hf. pose proof (fresh_link _ Hh e Hf). pose proof (fresh_other q _ e Hf Hq) as Hnew.
  pose proof (elem_prev LIST eq_refl Hh q l1 b l2 Hq) as Hp.
  pose proof (prev_points LIST eq_refl Hh q l1 b l2 Hq) as Hpp. pose proof (Hpp _ Hp) as Hend.
  pose proof (listed_link _ Hh q _ b Hq ltac:(set_solver)). assert (b ≠ e) by set_solver.
  pose proof (end_slot_not q l1 e ltac:(set_solver)) as Hne1.
  pose proof (h_nodup _ _ _ _ Hh q _ Hq) as Hn. apply NoDup_app in Hn as (_ & Hn & _).
  pose proof (end_slot_not q l1 b ltac:(intros Hb; apply (Hn b Hb); set_solver)) as Hne2.
  unfold LIST_INSERT_BEFORE. rewrite check_bind by exact Hpp. repeat step. eexists. split; [done|].
  apply (splice_in LIST E m h _ q l1 (b :: l2) e); [done..|intros _ z; cbn [head]; fields|done].
Qed.

Lemma list_remove q l1 e l2 : holds LIST E m h → m !! q = Some (l1 ++ e :: l2) →
  ∃ h', LIST_REMOVE e h = Done (tt, h') ∧ holds LIST E (<[q := l1 ++ l2]> m) h'.
Proof.
  intros Hh Hq. pose proof (elem_link _ Hh q l1 e l2 Hq).
  pose proof (elem_prev LIST eq_refl Hh q l1 e l2 Hq) as Hp.
  pose proof (prev_points LIST eq_refl Hh q l1 e l2 Hq) as Hpp. pose proof (Hpp _ Hp) as Hend.
  assert (Hl2 : ∀ y, y ∈ l2 → is_Some (link h !! Next y)).
  { intros y Hy. by apply (listed_link _ Hh q _ y Hq); set_solver. }
  unfold LIST_REMOVE, LIST_NEXT. rewrite check_bind by exact (elem_points_back LIST eq_refl Hh q l1 e l2 Hq).
  rewrite check_bind by exact Hpp.
  destruct l2 as [|y l2]; cbn [head] in *; [|pose proof (Hl2 y ltac:(set_solver))];
    repeat step; eexists; (split; [done|]);
    (apply (splice_out LIST E m h _ q l1 [e]); [done..| |done]; intros _ z; fields).
Qed.

Lemma list_init q l : holds LIST E m h → m !! q = Some l →
  ∃ h', LIST_INIT q h = Done (tt, h') ∧ holds LIST E (<[q := []]> m) h'.
Proof.
  intros Hh Hq. pose proof (head_link _ Hh q _ Hq). unfold LIST_INIT. step. eexists. split; [done|].
  apply (splice_out LIST E m h _ q [] l []); [done|by rewrite app_nil_r|done..].
Qed.

Lemma list_swap q1 q2 l1 l2 : holds LIST E m h → m !! q1 = Some l1 → m !! q2 = Some l2 → q1 ≠ q2 →
  ∃ h', LIST_SWAP q1 q2 h = Done (tt, h') ∧ holds LIST E (<[q1 := l2]> (<[q2 := l1]> m)) h'.
Proof.
  intros Hh H1 H2 Hne. pose proof (head_link _ Hh q1 _ H1). pose proof (head_link _ Hh q2 _ H2).
  pose proof (two_apart _ _ _ _ Hh q1 q2 l1 l2 H1 H2 Hne) as Hap.
  pose proof (fun e => listed_link _ Hh q1 l1 e H1) as Hs1. pose proof (fun e => listed_link _ Hh q2 l2 e H2) as Hs2.
  unfold LIST_SWAP, LIST_FIRST.
  destruct l1 as [|x l1], l2 as [|y l2]; cbn [head] in *;
    try pose proof (Hs1 x ltac:(set_solver)); try pose proof (Hs2 y ltac:(set_solver));
    try assert (x ≠ y) by (intros ->; apply (Hap y); set_solver);
    repeat step; eexists; (split; [done|]); (apply (swap_holds LIST E m h); [done..|intros _ z; fields|done]).
Qed.

Lemma list_prev q l1 e l2 : holds LIST E m h → m !! q = Some (l1 ++ e :: l2) →
  LIST_PREV e q h = Done (last l1, h).
Proof.
  intros Hh Hq. unfold LIST_PREV. erewrite rd_prev_bind by exact (elem_prev LIST eq_refl Hh q l1 e l2 Hq).
  rewrite end_slot_last. destruct (last l1) as [x|]; [by rewrite bool_decide_false|by rewrite bool_decide_true].
Qed.
(** *** TAILQ *)
Lemma tailq_insert_head q l e : holds TAILQ E m h → m !! q = Some l → fresh m E e →
  ∃ h', TAILQ_INSERT_HEAD q e h = Done (tt, h') ∧ holds TAILQ E (<[q := e :: l]> m) h'.
Proof.
  intros Hh Hq Hf. pose proof (head_link _ Hh q l Hq). pose proof (fresh_link _ Hh e Hf).
  pose proof (fresh_other q _ e Hf Hq) as Hnew. unfold TAILQ_INSERT_HEAD, TAILQ_FIRST.
  rewrite check_bind by exact (head_points_back TAILQ eq_refl Hh q l Hq).
  assert (Hl : ∀ y, y ∈ l → is_Some (link h !! Next y) ∧ y ≠ e).
  { intros y Hy. split; [|set_solver]. by apply (listed_link _ Hh q _ y Hq). }
  destruct l as [|y l]; cbn [head] in *; [|destruct (Hl y) as [Hy Hye]; [set_solver|]];
    repeat step; eexists; (split; [done|]);
    (apply (splice_in TAILQ E m h _ q [] _ e); [done..|intros _ z; fields|intros _ z; fields]).
Qed.

Lemma tailq_insert_after q l1 a l2 e : holds TAILQ E m h → m !! q = Some (l1 ++ a :: l2) → fresh m E e →
  ∃ h', TAILQ_INSERT_AFTER q a e h = Done (tt, h') ∧ holds TAILQ E (<[q := l1 ++ a :: e :: l2]> m) h'.
Proof.
  intros Hh Hq Hf. pose proof (elem_link _ Hh q l1 a l2 Hq). pose proof (fresh_link _ Hh e Hf).
  pose proof (head_link _ Hh q _ Hq).
  pose proof (fresh_other q _ e Hf Hq) as Hnew. assert (a ≠ e) by set_solver.
  unfold TAILQ_INSERT_AFTER, TAILQ_NEXT. rewrite check_bind by exact (elem_points_back TAILQ eq_refl Hh q l1 a l2 Hq).
  assert (Hl2 : ∀ y, y ∈ l2 → is_Some (link h !! Next y) ∧ y ≠ e).
  { intros y Hy. split; [|set_solver]. by apply (listed_link _ Hh q _ y Hq); set_solver. }
  rewrite (cons_middle a l1 (e :: l2)), app_assoc. rewrite (cons_middle a l1 l2), app_assoc in Hq.
  destruct l2 as [|y l2]; cbn [head] in *; [|destruct (Hl2 y) as [Hy Hye]; [set_solver|]];
    repeat step; eexists; (split; [done|]);
    (apply (splice_in TAILQ E m h _ q (l1 ++ [a]) _ e); [done..|by rewrite end_slot_snoc| |];
     rewrite ?end_slot_snoc; intros _ z; fields).
Qed.

(** The element [b] and the one that is linked in before it. *)
Lemma before_facts k q l1 b l2 e : holds k E m h → m !! q = Some (l1 ++ b :: l2) → fresh m E e →
  is_Some (link h !! Next b) ∧ b ≠ e ∧ end_slot (First q) l1 ≠ Next e ∧ end_slot (First q) l1 ≠ Next b.
Proof.
  intros Hh Hq Hf. pose proof (fresh_other q _ e Hf Hq) as Hnew.
  pose proof (h_nodup _ _ _ _ Hh q _ Hq) as Hn. apply NoDup_app in Hn as (_ & Hn & _).
  split; [by apply (listed_link _ Hh q _ b Hq); set_solver|]. split; [set_solver|].
  split; apply end_slot_not; [set_solver|]. intros Hb. apply (Hn b Hb). set_solver.
Qed.

Lemma tailq_insert_before q l1 b l2 e : holds TAILQ E m h → m !! q = Some (l1 ++ b :: l2) → fresh m E e →
  ∃ h', TAILQ_INSERT_BEFORE b e h = Done (tt, h') ∧ holds TAILQ E (<[q := l1 ++ e :: b :: l2]> m) h'.
Proof.
  intros Hh Hq Hf. pose proof (fresh_link _ Hh e Hf).
  pose proof (elem_prev TAILQ eq_refl Hh q l1 b l2 Hq) as Hp.
  pose proof (prev_points TAILQ eq_refl Hh q l1 b l2 Hq) as Hpp. pose proof (Hpp _ Hp) as Hend.
  destruct (before_facts _ q l1 b l2 e Hh Hq Hf) as (Hb & Hbe & Hne1 & Hne2).
  unfold TAILQ_INSERT_BEFORE. rewrite check_bind by exact Hpp. repeat step. eexists. split; [done|].
  apply (splice_in TAILQ E m h _ q l1 (b :: l2) e); [done..|intros _ z; cbn [head]; fields|intros _ z; fields].
Qed.

Lemma tailq_insert_tail q l e : holds TAILQ E m h → m !! q = Some l → fresh m E e →
  ∃ h', TAILQ_INSERT_TAIL q e h = Done (tt, h') ∧ holds TAILQ E (<[q := l ++ [e]]> m) h'.
Proof.
  intros Hh Hq Hf. pose proof (fresh_link _ Hh e Hf). pose proof (h_last _ _ _ _ Hh q l eq_refl Hq) as Hla.
  pose proof (end_slot_not q l e (fresh_other q l e Hf Hq)). pose proof (head_link _ Hh q _ Hq).
  pose proof (tail_link _ q l Hh Hq) as Hend.
  unfold TAILQ_INSERT_TAIL. rewrite check_bind by (intros s Hs; rewrite Hla in Hs; by injection Hs as <-).
  repeat step.
  rewrite wr_last_done.
  2: { cbn [link set_link set_prev]. rewrite lookup_insert. case_decide; [by eauto|]. rewrite lookup_insert_ne by done. by eauto. }
  eexists. split; [done|].
  apply (splice_in TAILQ E m h _ q l [] e); [done|by rewrite app_nil_r|done..|intros _ z; fields|intros _ z; fields].
Qed.

Lemma tailq_remove q l1 e l2 : holds TAILQ E m h → m !! q = Some (l1 ++ e :: l2) →
  ∃ h', TAILQ_REMOVE q e h = Done (tt, h') ∧ holds TAILQ E (<[q := l1 ++ l2]> m) h'.
Proof.
  intros Hh Hq. pose proof (elem_link _ Hh q l1 e l2 Hq). pose proof (head_link _ Hh q _ Hq).
  pose proof (elem_prev TAILQ eq_refl Hh q l1 e l2 Hq) as Hp.
  pose proof (prev_points TAILQ eq_refl Hh q l1 e l2 Hq) as Hpp. pose proof (Hpp _ Hp) as Hend.
  assert (Hl2 : ∀ y, y ∈ l2 → is_Some (link h !! Next y)).
  { intros y Hy. by apply (listed_link _ Hh q _ y Hq); set_solver. }
  unfold TAILQ_REMOVE, TAILQ_NEXT. rewrite check_bind by exact (elem_points_back TAILQ eq_refl Hh q l1 e l2 Hq).
  rewrite check_bind by exact Hpp.
  destruct l2 as [|y l2]; cbn [head] in *; [|pose proof (Hl2 y ltac:(set_solver))];
    repeat step; eexists; (split; [done|]);
    (apply (splice_out TAILQ E m h _ q l1 [e]); [done..| |]; intros _ z; fields).
Qed.

Lemma tailq_init q l : holds TAILQ E m h → m !! q = Some l →
  ∃ h', TAILQ_INIT q h = Done (tt, h') ∧ holds TAILQ E (<[q := []]> m) h'.
Proof.
  intros Hh Hq. pose proof (head_link _ Hh q _ Hq). unfold TAILQ_INIT. repeat step. eexists. split; [done|].
  apply (splice_out TAILQ E m h _ q [] l []); [done|by rewrite app_nil_r|done..|intros _ z; fields].
Qed.

Lemma tailq_swap q1 q2 l1 l2 : holds TAILQ E m h → m !! q1 = Some l1 → m !! q2 = Some l2 → q1 ≠ q2 →
  ∃ h', TAILQ_SWAP q1 q2 h = Done (tt, h') ∧ holds TAILQ E (<[q1 := l2]> (<[q2 := l1]> m)) h'.
Proof.
  intros Hh H1 H2 Hne. pose proof (head_link _ Hh q1 _ H1). pose proof (head_link _ Hh q2 _ H2).
  pose proof (h_last _ _ _ _ Hh q1 _ eq_refl H1) as Hla1. pose proof (h_last _ _ _ _ Hh q2 _ eq_refl H2) as Hla2.
  pose proof (two_apart _ _ _ _ Hh q1 q2 l1 l2 H1 H2 Hne) as Hap.
  pose proof (fun e => listed_link _ Hh q1 l1 e H1) as Hs1. pose proof (fun e => listed_link _ Hh q2 l2 e H2) as Hs2.
  unfold TAILQ_SWAP, TAILQ_FIRST.
  destruct l1 as [|x l1], l2 as [|y l2]; cbn [head end_slot] in *;
    try pose proof (Hs1 x ltac:(set_solver)); try pose proof (Hs2 y ltac:(set_solver));
    try assert (x ≠ y) by (intros ->; apply (Hap y); set_solver);
    repeat step; eexists; (split; [done|]); (apply (swap_holds TAILQ E m h); [done..|intros _ z; fields|intros _ z; fields]).
Qed.

Lemma tailq_concat q1 q2 l1 l2 : holds TAILQ E m h → m !! q1 = Some l1 → m !! q2 = Some l2 → q1 ≠ q2 →
  ∃ h', TAILQ_CONCAT q1 q2 h = Done (tt, h') ∧ holds TAILQ E (<[q1 := l1 ++ l2]> (<[q2 := []]> m)) h'.
Proof.
  intros Hh H1 H2 Hne. pose proof (head_link _ Hh q1 _ H1). pose proof (head_link _ Hh q2 _ H2).
  pose proof (h_last _ _ _ _ Hh q1 _ eq_refl H1) as Hla1. pose proof (h_last _ _ _ _ Hh q2 _ eq_refl H2) as Hla2.
  pose proof (tail_link _ q1 l1 Hh H1) as Hend. pose proof (fun e => listed_link _ Hh q2 l2 e H2) as Hs2.
  unfold TAILQ_CONCAT. change TAILQ_EMPTY with STAILQ_EMPTY. unfold TAILQ_FIRST.
  destruct l2 as [|y l2]; cbn [head] in *; repeat step.
  { exists h. split; [done|]. by rewrite app_nil_r, (insert_id m q2), insert_id by done. }
  assert (Hne2 : end_slot (First q1) l1 ≠ First q2) by (intros E0; apply end_slot_first in E0 as [_ E0]; congruence).
  pose proof (h_disj _ _ _ _ Hh q1 q2 l1 (y :: l2) y H1 H2) as Hdj.
  assert (Hne3 : end_slot (First q1) l1 ≠ Next y) by (apply end_slot_not; set_solver).
  pose proof (Hs2 y ltac:(set_solver)) as Hy. clear Hs2 Hdj.
  repeat step.
  rewrite wr_last_bind.
  2: { cbn [link set_link set_prev]. rewrite lookup_insert. case_decide; by eauto. }
  unfold TAILQ_INIT. repeat step. eexists. split; [done|].
  apply (concat_holds TAILQ E m h _ Hh q1 q2 l1 (y :: l2)); [done..|intros _ z; fields|intros _ z; fields].
  by rewrite end_slot_app.
Qed.
End qmd.
End ops.
