(* ===== verification/BsdRefine.v ===== *)
(** * The list macros refine operations on lists

    All four kinds of [src/queue.h], any sequence of calls, starting in a memory
    that holds some lists. *)

From S2P Require Import Prelude BsdQueue BsdLists BsdOps.

Lemma split_at_app e l l1 l2 : split_at e l = Some (l1, l2) → l = l1 ++ e :: l2.
Proof.
  revert l1. induction l as [|x l IH]; intros l1; cbn [split_at]; [done|]. case_bool_decide as Hx.
  - intros [= <- <-]. by rewrite Hx.
  - destruct (split_at e l) as [[a b]|]; [|done]. intros [= <- <-]. by rewrite (IH a).
Qed.

(** ** Questions *)
Section answers.
Context (E : gset nat) (m : heads) (h : mem).

Lemma bsd_first k q l : holds k E m h → m !! q = Some l → rd (First q) h = Done (head l, h).
Proof. intros Hh Hq. unfold rd. by rewrite (head_link E m h k Hh q l Hq). Qed.

Lemma bsd_next k q l1 e l2 : holds k E m h → m !! q = Some (l1 ++ e :: l2) → rd (Next e) h = Done (head l2, h).
Proof. intros Hh Hq. unfold rd. by rewrite (elem_link E m h k Hh q l1 e l2 Hq). Qed.

Lemma bsd_empty k q l : holds k E m h → m !! q = Some l → SLIST_EMPTY q h = Done (bool_decide (l = []), h).
Proof.
  intros Hh Hq. unfold SLIST_EMPTY. erewrite L_bind_done by exact (bsd_first k q l Hh Hq). by destruct l.
Qed.

Lemma stailq_last q l : holds STAILQ E m h → m !! q = Some l → STAILQ_LAST q h = Done (last l, h).
Proof.
  intros Hh Hq. unfold STAILQ_LAST. erewrite L_bind_done by exact (bsd_empty _ q l Hh Hq).
  pose proof (h_last _ _ _ _ Hh q l eq_refl Hq) as Hl. rewrite end_slot_last in Hl.
  destruct l as [|x l] using rev_ind; [done|]. rewrite bool_decide_false by by destruct l. rewrite last_snoc in *.
  by rewrite (rd_last_bind _ _ _ _ Hl).
Qed.

(** What is behind the link after [l1] is the link to the last element of [l1]. *)
Lemma tailq_second q l1 l2 : holds TAILQ E m h → m !! q = Some (l1 ++ l2) →
  (second_word (end_slot (First q) l1) ≫= rd) h = Done (last l1, h).
Proof.
  intros Hh Hq. destruct l1 as [|x l1 _] using rev_ind.
  - cbn [end_slot second_word app] in *. rewrite (rd_last_bind _ _ _ _ (h_last _ _ _ _ Hh q l2 eq_refl Hq)).
    unfold rd. by rewrite (tail_link E m h _ q l2 Hh Hq).
  - rewrite last_snoc, end_slot_snoc. rewrite <-app_assoc in Hq. cbn [second_word].
    pose proof (elem_prev E m h TAILQ eq_refl Hh q l1 x l2 Hq) as Hp. rewrite (rd_prev_bind _ _ _ _ Hp).
    unfold rd. by rewrite (prev_points E m h TAILQ eq_refl Hh q l1 x l2 Hq _ Hp).
Qed.

Lemma tailq_last q l : holds TAILQ E m h → m !! q = Some l → TAILQ_LAST q h = Done (last l, h).
Proof.
  intros Hh Hq. unfold TAILQ_LAST. rewrite (rd_last_bind _ _ _ _ (h_last _ _ _ _ Hh q l eq_refl Hq)).
  apply (tailq_second q l []); [done|by rewrite app_nil_r].
Qed.

Lemma tailq_prev q l1 e l2 : holds TAILQ E m h → m !! q = Some (l1 ++ e :: l2) →
  TAILQ_PREV e h = Done (last l1, h).
Proof.
  intros Hh Hq. unfold TAILQ_PREV. rewrite (rd_prev_bind _ _ _ _ (elem_prev E m h TAILQ eq_refl Hh q l1 e l2 Hq)).
  exact (tailq_second q l1 _ Hh Hq).
Qed.

(** From an element back to the first. *)
Lemma reverse_spec q l r safe : holds TAILQ E m h → m !! q = Some (reverse r ++ l) →
  with_fuel (fun fuel => for_each safe TAILQ_PREV (fun _ => mret tt) fuel (head r)) h = Done (r, h).
Proof.
  intros Hh Hq. unfold with_fuel. pose proof (list_fuel E m h _ q _ Hh Hq) as Hf.
  rewrite length_app, length_reverse in Hf. apply for_each_spec; [|lia].
  intros r1 e r2 ->. rewrite reverse_app, reverse_cons, <-!app_assoc in Hq. cbn [app] in Hq.
  by rewrite (tailq_prev q _ e _ Hh Hq), last_reverse.
Qed.

(** The loops of the header, from the head, from an element, and back. *)
Lemma run_foreach k q l safe : holds k E m h → m !! q = Some l →
  (rd (First q) ≫= fun f => with_fuel (fun fuel => for_each safe (fun e => rd (Next e)) (fun _ => mret tt) fuel f)) h = Done (l, h).
Proof. intros Hh Hq. erewrite L_bind_done by exact (bsd_first k q l Hh Hq). by apply (list_foreach_spec E m h k q). Qed.

Lemma run_reverse q l safe : holds TAILQ E m h → m !! q = Some l →
  (TAILQ_LAST q ≫= fun f => with_fuel (fun fuel => for_each safe TAILQ_PREV (fun _ => mret tt) fuel f)) h = Done (reverse l, h).
Proof.
  intros Hh Hq. erewrite L_bind_done by exact (tailq_last q l Hh Hq). rewrite <-head_reverse.
  apply (reverse_spec q []); [done|]. by rewrite reverse_involutive, app_nil_r.
Qed.

Lemma run_reverse_from q l1 e l2 safe : holds TAILQ E m h → m !! q = Some (l1 ++ e :: l2) →
  with_fuel (fun fuel => for_each safe TAILQ_PREV (fun _ => mret tt) fuel (Some e)) h = Done (e :: reverse l1, h).
Proof.
  intros Hh Hq. apply (reverse_spec q l2 (e :: reverse l1)); [done|].
  by rewrite reverse_cons, reverse_involutive, <-app_assoc.
Qed.
End answers.

(** ** One call *)
Definition gives (k : kind) (E : gset nat) (d : L ans) (h : mem) (a : ans) (m : heads) : Prop :=
  ∃ h', d h = Done (a, h') ∧ holds k E m h'.

Section gives.
Context (k : kind) (E : gset nat) (m : heads) (h : mem) (d : L ans).

Lemma nothing_gives c : nothing c = Some d → (∃ h', c h = Done (tt, h') ∧ holds k E m h') → gives k E d h Nothing m.
Proof. intros [= <-] (h' & Hc & Hh). exists h'. by erewrite L_bind_done by exact Hc. Qed.

Lemma elem_gives c v : elem_of c = Some d → holds k E m h → c h = Done (v, h) → gives k E d h (Elem v) m.
Proof. intros [= <-] Hh Hc. exists h. by erewrite L_bind_done by exact Hc. Qed.

Lemma empty_gives c v : is_empty c = Some d → holds k E m h → c h = Done (v, h) → gives k E d h (IsEmpty v) m.
Proof. intros [= <-] Hh Hc. exists h. by erewrite L_bind_done by exact Hc. Qed.

Lemma visits_gives c es : visits c = Some d → holds k E m h → c (fun _ => mret tt) h = Done (es, h) →
  gives k E d h (Visited es) m.
Proof. intros [= <-] Hh Hc. exists h. by erewrite L_bind_done by exact Hc. Qed.
End gives.

Create HintDb bsd.
#[export] Hint Resolve slist_insert_head slist_insert_after slist_remove_head slist_remove_after slist_remove slist_init
  slist_swap stailq_insert_head stailq_insert_after stailq_insert_tail stailq_remove_head stailq_remove_after stailq_remove
  stailq_init stailq_swap stailq_concat list_insert_head list_insert_after list_insert_before list_remove list_init
  list_swap tailq_insert_head tailq_insert_after tailq_insert_before tailq_insert_tail tailq_remove tailq_init
  tailq_swap tailq_concat bsd_first bsd_next bsd_empty stailq_last list_prev tailq_last tailq_prev
  list_foreach_from_spec run_foreach run_reverse run_reverse_from : bsd.

(** The cases of the specification. *)
Ltac spec_cases :=
  repeat match goal with
  | H : Some _ = Some _ |- _ => injection H as H; subst
  | H : (_ ≫= _) = Some _ |- _ => apply bind_Some in H as (? & ? & H)
  | H : (let '(_, _) := ?p in _) = Some _ |- _ => destruct p
  | H : split_at _ _ = Some _ |- _ => apply split_at_app in H; subst
  | H : (if decide ?P then _ else _) = Some _ |- _ => destruct (decide P); [|discriminate H] || (destruct (decide P); [discriminate H|])
  | H : match ?l with [] => _ | _ => _ end = Some _ |- _ => destruct l; try discriminate H
  end; simplify_eq.

Section refine.
Context `{QmdDocumented}.

Lemma op_refines k E m h o a m' c :
  holds k E m h → spec_op m E o = Some (a, m') → run_op k o = Some c → gives k E c h a m'.
Proof.
  intros Hh Hs Hc. destruct o; cbn [spec_op] in Hs.
  all: try (destruct var as [e|]).
  all: spec_cases; cbn [run_op] in Hc; destruct k; try discriminate Hc; try (destruct safe); try discriminate Hc.
  all: first [ eapply (nothing_gives _ _ _ _ _ _ Hc) | eapply (elem_gives _ _ _ _ _ _ _ Hc Hh)
             | eapply (empty_gives _ _ _ _ _ _ _ Hc Hh) | eapply (visits_gives _ _ _ _ _ _ _ Hc Hh)]; try solve [eauto with bsd].
  all: first [by eapply list_foreach_from_spec | by eapply run_reverse_from].
Qed.

(** ** Any sequence of calls *)
Fixpoint spec_all (m : heads) (E : gset nat) (os : list op) : option (list ans * heads) :=
  match os with
  | [] => Some ([], m)
  | o :: os => '(a, m) ← spec_op m E o; '(l, m) ← spec_all m E os; Some (a :: l, m)
  end.

(** A kind of list that does not have an operation has no macro to call. *)
Fixpoint run_all (k : kind) (os : list op) : option (L (list ans)) :=
  match os with
  | [] => Some (mret [])
  | o :: os => c ← run_op k o; d ← run_all k os; Some (a ← c; l ← d; mret (a :: l))
  end.

(** C20: Whatever lists some heads of one kind (SLIST, STAILQ, LIST, TAILQ) have, any
    sequence of the calls that the header offers for that kind, each of them on
    heads and elements for which it makes sense, answers what the same
    operations on mathematical lists answer and leaves a memory that holds the
    lists they leave: links, back links and last pointers agree again. *)
Theorem queue_macros_refine_lists k E m h os l m' c :
  holds k E m h → spec_all m E os = Some (l, m') → run_all k os = Some c →
  ∃ h', c h = Done (l, h') ∧ holds k E m' h'.
Proof.
  revert m h l c. induction os as [|o os IH]; intros m h l c Hh Hs Hc; cbn [spec_all run_all] in *; [naive_solver|].
  apply bind_Some in Hs as ([a m1] & Ho & Hs). apply bind_Some in Hs as ([l2 m2] & Hos & [= <- <-]).
  apply bind_Some in Hc as (c1 & Hc1 & Hc). apply bind_Some in Hc as (c2 & Hc2 & [= <-]).
  destruct (op_refines k E m h o a m1 c1 Hh Ho Hc1) as (h1 & Hr1 & Hh1).
  destruct (IH m1 h1 l2 c2 Hh1 Hos Hc2) as (h2 & Hr2 & Hh2).
  exists h2. split; [|done]. erewrite L_bind_done by exact Hr1. by erewrite L_bind_done by exact Hr2.
Qed.
End refine.

(** ** A memory to start from *)

(** Heads with no elements, and elements that are in no list. *)
Definition blank (Q E : list nat) : mem :=
  Mem (list_to_map (((fun q => (First q, None)) <$> Q) ++ ((fun e => (Next e, None)) <$> E)))
      ∅ (list_to_map ((fun q => (q, First q)) <$> Q)).

Lemma holds_no_elements k E (m : heads) h :
  map_Forall (fun q l => l = [] ∧ link h !! First q = Some None ∧ lastp h !! q = Some (First q)) m →
  (∀ e, e ∈ E ↔ is_Some (link h !! Next e)) → holds k E m h.
Proof.
  intros Hm HE. split; [..|done].
  - intros q l Hq. destruct (Hm q l Hq) as (-> & Hl & _). done.
  - intros q l _ Hq. destruct (Hm q l Hq) as (-> & _ & Hl). done.
  - intros q l Hq. destruct (Hm q l Hq) as (-> & _ & _). constructor.
  - intros q1 q2 l1 l2 e H1 _ He. destruct (Hm q1 l1 H1) as (-> & _ & _). by apply elem_of_nil in He.
Qed.

(** The checks as they are where the header comes from: they panic unless the
    neighbour points back. *)
Definition panic_unless (b : bool) : outcome unit := if b then Done tt else Fault.

Definition back (h : mem) (s : slot) : bool :=
  match link h !! s with Some (Some e) => bool_decide (prev h !! e = Some s) | _ => true end.

#[local] Instance kernel_qmd : Qmd := fun c h =>
  match c with
  | ListHead q | TailqHead q => panic_unless (back h (First q))
  | ListNext e | TailqNext e => panic_unless (back h (Next e))
  | ListPrev e | TailqPrev e =>
      panic_unless (match prev h !! e with Some s => bool_decide (link h !! s = Some (Some e)) | None => true end)
  | TailqTail q =>
      panic_unless (match lastp h !! q with Some s => bool_decide (link h !! s = Some None) | None => true end)
  end.

Lemma back_true h s : points_back h s → back h s = true.
Proof. intros Hp. unfold back. destruct (link h !! s) as [[e|]|] eqn:Hs; [|done..]. apply bool_decide_eq_true, Hp, Hs. Qed.

#[local] Instance kernel_qmd_documented : QmdDocumented.
Proof.
  intros h c Hc. destruct c; cbn [consistent] in Hc; unfold qmd, kernel_qmd.
  all: try (by rewrite back_true).
  all: case_match eqn:Hs; [|done]; by rewrite (bool_decide_eq_true_2 _ (Hc _ eq_refl)).
Qed.

Definition calls : list op :=
  [OInsertTail 0 10; OInsertHead 0 11; OInsertAfter 0 11 12; OInsertTail 1 13; OInsertBefore 1 13 14;
   OConcat 0 1; ORemove 0 10; OSwap 0 1; OForeach true 1; OForeachReverse false 1; OLast 1; OPrev 1 14; OEmpty 0].

Definition answers : list ans :=
  replicate 8 Nothing ++
  [Visited [11; 12; 14; 13]; Visited [13; 14; 12; 11]; Elem (Some 13); Elem (Some 12); IsEmpty true].

Lemma queue_macros_refine_lists_witness :
  ∃ c m' h', run_all TAILQ calls = Some c ∧ m' !! 1 = Some [11; 12; 14; 13] ∧
    c (blank [0; 1] [10; 11; 12; 13; 14]) = Done (answers, h') ∧ holds TAILQ (list_to_set [10; 11; 12; 13; 14]) m' h'.
Proof.
  assert (Hc : is_Some (run_all TAILQ calls)) by (by eexists). destruct Hc as [c Hc].
  assert (Hm : ∃ m', spec_all {[0 := []; 1 := []]} (list_to_set [10; 11; 12; 13; 14]) calls = Some (answers, m') ∧
    m' !! 1 = Some [11; 12; 14; 13]) by (eexists; split; vm_compute; reflexivity).
  destruct Hm as (m' & Hm & H1).
  destruct (queue_macros_refine_lists TAILQ (list_to_set [10; 11; 12; 13; 14]) {[0 := []; 1 := []]}
    (blank [0; 1] [10; 11; 12; 13; 14]) calls answers m' c) as (h' & Hr & Hh); [|done|done|by exists c, m', h'].
  apply holds_no_elements.
  - refine (bool_decide_unpack _ _). vm_compute. exact I.
  - intros e. split.
    + intros He. rewrite elem_of_list_to_set in He. repeat (apply elem_of_cons in He as [->|He]; [by eexists|]). by apply elem_of_nil in He.
    + intros [v He]. apply elem_of_list_to_map_2 in He. set_solver.
Defined.
