(* ===== verification/RibFree.v ===== *)
(** * The free list of the routes is an SLIST

    [src/ip_route.c] links its unused entries with the macros of [src/queue.h];
    [Rib.v] has them as a list.  The two agree. *)

From S2P Require Import Prelude BsdQueue BsdLists BsdOps BsdRefine Rib.

(** The only head of the file, and the link fields of the entries. *)
Definition freelist_head : nat := 0.
Definition entries : gset nat := list_to_set (seq 0 XSTACK_IP_RIB_SIZE).

Definition linked (st : rib_state) (h : mem) : Prop := holds SLIST entries {[freelist_head := rib_freelist st]} h.

(** What [ip_route_entry_alloc] does with the list. *)
Definition alloc_calls : L (option nat) :=
  entry ← SLIST_FIRST freelist_head;
  _ ← SLIST_REMOVE_HEAD freelist_head;
  mret entry.

(** What [ip_route_init] does with it. *)
Fixpoint insert_all (es : list nat) : L unit :=
  match es with [] => mret tt | e :: es => _ ← SLIST_INSERT_HEAD freelist_head e; insert_all es end.

Definition init_calls : L unit :=
  _ ← SLIST_INIT freelist_head;
  insert_all (seq 0 XSTACK_IP_RIB_SIZE).

(** Static variables are zero. *)
Definition zeroed (h : mem) : Prop :=
  link h !! First freelist_head = Some None ∧ ∀ e, e ∈ entries ↔ is_Some (link h !! Next e).

Lemma linked_set q (l l' : list nat) : <[q := l']> ({[q := l]} : heads) = {[q := l']}.
Proof. by rewrite insert_singleton_eq. Qed.

Lemma free_fresh l e : e ∈ entries → e ∉ l → fresh {[freelist_head := l]} entries e.
Proof. intros He Hl. split; [done|]. intros q l' Hq. by apply lookup_singleton_Some in Hq as [_ <-]. Qed.

Lemma insert_all_links es l h :
  holds SLIST entries {[freelist_head := l]} h → NoDup es → (∀ e, e ∈ es → e ∈ entries ∧ e ∉ l) →
  ∃ h', insert_all es h = Done (tt, h') ∧ holds SLIST entries {[freelist_head := rev es ++ l]} h'.
Proof.
  revert l h. induction es as [|e es IH]; intros l h Hh Hn He; cbn [insert_all rev app]; [by exists h|].
  apply NoDup_cons in Hn as [Hne Hn]. destruct (He e) as [Hee Hel]; [set_solver|].
  destruct (slist_insert_head _ _ _ freelist_head l e Hh (lookup_singleton_eq _ _) (free_fresh l e Hee Hel)) as (h1 & Hr1 & Hh1).
  rewrite linked_set in Hh1. destruct (IH (e :: l) h1 Hh1 Hn) as (h2 & Hr2 & Hh2); [set_solver|].
  exists h2. rewrite <-app_assoc. split; [|done]. by erewrite L_bind_done by exact Hr1.
Qed.

(** The free list of the routing table, which the model of the table keeps as a
    list of entries, is what the SLIST macros of the code make of the link
    fields: initialization links every entry, an allocation takes the entry
    that the code takes and leaves the rest linked (and faults exactly when
    the code dereferences the missing first entry), a release links an entry
    at the head. *)
Theorem rib_freelist_is_slist st h :
  (zeroed h → ∃ h', init_calls h = Done (tt, h') ∧ linked ip_route_init h') ∧
  (linked st h →
   match ip_route_entry_alloc st with
   | Done (e, st') => ∃ h', alloc_calls h = Done (Some e, h') ∧ linked st' h'
   | Fault => alloc_calls h = Fault
   | Spin => False
   end ∧
   ∀ e, e ∈ entries → e ∉ rib_freelist st →
     ∃ h', SLIST_INSERT_HEAD freelist_head e h = Done (tt, h') ∧ linked (ip_route_entry_free st e) h').
Proof.
  split; [|intros Hl; split].
  - intros [Hf He]. unfold init_calls, SLIST_INIT. rewrite wr_bind by by eexists.
    destruct (insert_all_links (seq 0 XSTACK_IP_RIB_SIZE) [] (set_link (First freelist_head) None h)) as (h' & Hr & Hh).
    + split; [..|].
      * intros q l Hq. apply lookup_singleton_Some in Hq as [<- <-]. cbn. by rewrite lookup_insert_eq.
      * done.
      * intros q l Hq. apply lookup_singleton_Some in Hq as [<- <-]. constructor.
      * intros q1 q2 l1 l2 e Hq. apply lookup_singleton_Some in Hq as [<- <-]. set_solver.
      * intros e. cbn. by rewrite lookup_insert_ne.
    + apply NoDup_seq.
    + intros e Hin. split; [|set_solver]. by apply elem_of_list_to_set.
    + rewrite app_nil_r in Hh. by exists h'.
  - unfold ip_route_entry_alloc. pose proof (head_link _ _ _ _ Hl freelist_head _ (lookup_singleton_eq _ _)) as Hf.
    unfold alloc_calls.
    destruct (rib_freelist st) as [|e fl] eqn:Hfl; unfold SLIST_FIRST at 1; erewrite rd_bind by exact Hf; cbn [head].
    + unfold SLIST_REMOVE_HEAD, SLIST_FIRST. rewrite L_assoc. by erewrite rd_bind by exact Hf.
    + unfold linked in *. rewrite Hfl in Hl.
      destruct (slist_remove_head _ _ _ freelist_head e fl Hl (lookup_singleton_eq _ _)) as (h' & Hr & Hh).
      rewrite linked_set in Hh. exists h'. split; [|done]. by erewrite L_bind_done by exact Hr.
  - intros e He Hn.
    destruct (slist_insert_head _ _ _ freelist_head _ e Hl (lookup_singleton_eq _ _) (free_fresh _ e He Hn)) as (h' & Hr & Hh).
    rewrite linked_set in Hh. by exists h'.
Qed.

Lemma rib_freelist_is_slist_witness :
  ∃ h1 h2 st, init_calls (blank [freelist_head] (seq 0 XSTACK_IP_RIB_SIZE)) = Done (tt, h1) ∧
    ip_route_entry_alloc ip_route_init = Done (4%nat, st) ∧ alloc_calls h1 = Done (Some 4%nat, h2) ∧ linked st h2.
Proof.
  set (h0 := blank [freelist_head] (seq 0 XSTACK_IP_RIB_SIZE)).
  destruct (rib_freelist_is_slist ip_route_init h0) as [Hinit _].
  destruct Hinit as (h1 & Hr1 & Hl).
  { split; [by vm_compute|]. intros e. unfold entries. split.
    - intros He. rewrite elem_of_list_to_set in He. cbn in He.
      repeat (apply elem_of_cons in He as [->|He]; [by eexists|]). by apply elem_of_nil in He.
    - intros [v He]. apply elem_of_list_to_map_2 in He. cbn in He. set_solver. }
  destruct (rib_freelist_is_slist ip_route_init h1) as [_ Hops].
  destruct (Hops Hl) as [(h2 & Hr2 & Hl2) _]. 
  exists h1, h2. eexists. split; [done|]. split; [reflexivity|]. split; [exact Hr2|exact Hl2].
Defined.
