(* ===== verification/RBWalk.v ===== *)
(** * The rest of the red-black trees: backwards, from an element on, by key

    [RB_PREV], [RB_MAX], [RB_NFIND] and the loops of [src/tree.h] that nothing in
    the stack uses.  What runs backwards runs forwards in the mirrored tree. *)

From S2P Require Import Prelude RBTree RBShape RBInsert RBRemove RBIter RBIndex RBMap.

(** ** Definitions *)

(** [while (RB_RIGHT(elm, field)) elm = RB_RIGHT(elm, field)] *)
Fixpoint rightmost (fuel : nat) (h : rb_head) (elm : ptr) : outcome ptr :=
  match fuel with
  | O => Spin
  | S fuel =>
    r ← RB_RIGHT h elm;
    match r with
    | Some _ => rightmost fuel h r
    | None => Done elm
    end
  end.

(** [while (RB_PARENT(elm) && elm == RB_LEFT(RB_PARENT(elm))) elm = RB_PARENT(elm)] *)
Fixpoint climb_left (fuel : nat) (h : rb_head) (elm : ptr) : outcome ptr :=
  match fuel with
  | O => Spin
  | S fuel =>
    p ← RB_PARENT h elm;
    match p with
    | None => Done elm
    | Some _ =>
        l ← RB_LEFT h p;
        if bool_decide (elm = l) then climb_left fuel h p else Done elm
    end
  end.

Definition RB_PREV (h : rb_head) (elm : ptr) : outcome ptr :=
  l ← RB_LEFT h elm;
  match l with
  | Some _ => rightmost (fuel_of h) h l
  | None =>
      p ← RB_PARENT h elm;
      r ← (match p with Some _ => RB_RIGHT h p | None => Done None end);
      if bool_decide (p ≠ None) && bool_decide (elm = r) then Done p
      else
        e ← climb_left (fuel_of h) h elm;
        RB_PARENT h e
  end.

Definition RB_MAX (h : rb_head) : outcome ptr := RB_MINMAX_loop (fuel_of h) R h None (rbh_root h).

Fixpoint nfind_loop (fuel : nat) (cmp : nat → Z) (h : rb_head) (tmp res : ptr) : outcome ptr :=
  match fuel with
  | O => Spin
  | S fuel =>
    match tmp with
    | None => Done res
    | Some i =>
        let comp := cmp i in
        if bool_decide (comp < 0)%Z then l ← RB_LEFT h tmp; nfind_loop fuel cmp h l tmp
        else if bool_decide (comp > 0)%Z then r ← RB_RIGHT h tmp; nfind_loop fuel cmp h r res
        else Done tmp
    end
  end.

Definition RB_NFIND (cmp : nat → Z) (h : rb_head) : outcome ptr := nfind_loop (fuel_of h) cmp h (rbh_root h) None.

(** The loops: [step] is [RB_NEXT] or [RB_PREV], the body may change the tree.
    With [safe] the next element is read before the body runs. *)
Fixpoint rb_for (safe : bool) (step : rb_head → ptr → outcome ptr) (body : nat → rb_head → outcome rb_head)
    (fuel : nat) (h : rb_head) (x : ptr) : outcome (list nat * rb_head) :=
  match fuel with
  | O => Spin
  | S fuel =>
    match x with
    | None => Done ([], h)
    | Some i =>
        '(h, y) ← (if safe then y ← step h x; h ← body i h; Done (h, y)
                   else h ← body i h; y ← step h x; Done (h, y));
        '(l, h) ← rb_for safe step body fuel h y;
        Done (i :: l, h)
    end
  end.

Section loops.
Context (body : nat → rb_head → outcome rb_head) (h : rb_head).

Definition RB_FOREACH : outcome (list nat * rb_head) := x ← RB_MIN h; rb_for false RB_NEXT body (fuel_of h) h x.
Definition RB_FOREACH_FROM (y : ptr) : outcome (list nat * rb_head) := rb_for true RB_NEXT body (fuel_of h) h y.
Definition RB_FOREACH_SAFE : outcome (list nat * rb_head) := x ← RB_MIN h; rb_for true RB_NEXT body (fuel_of h) h x.
Definition RB_FOREACH_REVERSE : outcome (list nat * rb_head) := x ← RB_MAX h; rb_for false RB_PREV body (fuel_of h) h x.
Definition RB_FOREACH_REVERSE_FROM (y : ptr) : outcome (list nat * rb_head) := rb_for true RB_PREV body (fuel_of h) h y.
Definition RB_FOREACH_REVERSE_SAFE : outcome (list nat * rb_head) :=
  x ← RB_MAX h; rb_for true RB_PREV body (fuel_of h) h x.
End loops.

(** ** The mirrored tree *)
Definition mirror_entry (e : rb_entry) : rb_entry := RbEntry (rbe_right e) (rbe_left e) (rbe_parent e) (rbe_color e).

Definition mirror (h : rb_head) : rb_head := RbHead (rbh_root h) (mirror_entry <$> rb_nodes h).

Fixpoint mirror_tree (t : tree) : tree :=
  match t with E => E | T c l i r => T c (mirror_tree r) i (mirror_tree l) end.

Lemma mirror_child d h p : RB_CHILD d (mirror h) p = RB_CHILD (opp d) h p.
Proof.
  unfold RB_CHILD, entry. destruct p as [i|]; [|done]. cbn [deref mirror rb_nodes]. rewrite !bind_done, lookup_fmap.
  destruct (rb_nodes h !! i) as [e|]; [|done]. by destruct d.
Qed.

Lemma mirror_parent h p : RB_PARENT (mirror h) p = RB_PARENT h p.
Proof.
  unfold RB_PARENT, entry. destruct p as [i|]; [|done]. cbn [deref mirror rb_nodes]. rewrite !bind_done, lookup_fmap.
  by destruct (rb_nodes h !! i).
Qed.

Lemma mirror_fuel h : fuel_of (mirror h) = fuel_of h.
Proof. unfold fuel_of. cbn [mirror rb_nodes]. by rewrite map_size_fmap. Qed.

Lemma leftmost_mirror fuel h p : leftmost fuel (mirror h) p = rightmost fuel h p.
Proof.
  revert p. induction fuel as [|fuel IH]; intros p; [done|]. cbn [leftmost rightmost]. unfold RB_LEFT, RB_RIGHT. rewrite mirror_child.
  destruct (RB_CHILD _ h p) as [[i|]| |]; [apply IH|done..].
Qed.

Lemma climb_mirror fuel h p : climb fuel (mirror h) p = climb_left fuel h p.
Proof.
  revert p. induction fuel as [|fuel IH]; intros p; [done|]. cbn [climb climb_left]. rewrite mirror_parent.
  destruct (RB_PARENT h p) as [[i|]| |]; [|done..]. rewrite !bind_done. cbv iota. unfold RB_LEFT, RB_RIGHT. rewrite mirror_child.
  destruct (RB_CHILD _ h (Some i)) as [q| |]; [|done..]. rewrite !bind_done. by rewrite IH.
Qed.

Lemma next_mirror h p : RB_NEXT (mirror h) p = RB_PREV h p.
Proof.
  unfold RB_NEXT, RB_PREV, RB_LEFT, RB_RIGHT. rewrite mirror_child, mirror_parent, mirror_fuel.
  destruct (RB_CHILD _ h p) as [[i|]| |]; [by apply leftmost_mirror| |done..]. rewrite !bind_done. cbv iota.
  assert (Hclimb : (e ← climb (fuel_of h) (mirror h) p; RB_PARENT (mirror h) e) = (e ← climb_left (fuel_of h) h p; RB_PARENT h e)).
  { rewrite climb_mirror. destruct (climb_left _ h p) as [e| |]; [|done..]. by rewrite !bind_done, mirror_parent. }
  rewrite Hclimb. destruct (RB_PARENT h p) as [[i|]| |]; [|done..]. rewrite !bind_done. cbv iota. by rewrite mirror_child.
Qed.

Lemma min_mirror h : RB_MIN (mirror h) = RB_MAX h.
Proof.
  unfold RB_MIN, RB_MAX. rewrite mirror_fuel. cbn [mirror rbh_root]. generalize (fuel_of h) (None : ptr) (rbh_root h).
  intros fuel. induction fuel as [|fuel IH]; intros p q; [done|]. cbn [RB_MINMAX_loop]. destruct q as [i|]; [|done].
  rewrite mirror_child. cbn [opp]. destruct (RB_CHILD R h (Some i)) as [j| |]; [apply IH|done..].
Qed.

Lemma mirror_root t : root_ptr (mirror_tree t) = root_ptr t.
Proof. by destruct t. Qed.

Lemma mirror_inorder t : inorder (mirror_tree t) = reverse (inorder t).
Proof.
  induction t as [|c l IHl i r IHr]; [done|]. cbn [mirror_tree inorder]. rewrite IHl, IHr, reverse_app, reverse_cons.
  by rewrite <-(assoc app).
Qed.

Lemma mirror_rb c n t : rb c n t → rb c n (mirror_tree t).
Proof. induction 1; cbn [mirror_tree]; econstructor; eassumption. Qed.

Lemma mirror_rep m p t : rep m p t → rep (mirror_entry <$> m) p (mirror_tree t).
Proof.
  revert p. induction t as [|c l IHl i r IHr]; intros p; [done|]. cbn [rep mirror_tree]. intros (Hi & Hl & Hr).
  split; [by rewrite lookup_fmap, Hi, !mirror_root|auto].
Qed.

Lemma mirror_valid h order : valid h order → valid (mirror h) (reverse order).
Proof.
  intros (t & n & (Hr & Hz & Hn) & Ht & <-). exists (mirror_tree t), n. split; [|split; [by apply mirror_rb|apply mirror_inorder]].
  split; [by apply mirror_rep|]. split; [cbn [repz mirror rbh_root] in *; by rewrite mirror_root|].
  rewrite whole_nil in *. rewrite mirror_inorder. by rewrite reverse_Permutation.
Qed.

Lemma prev_spec h l1 i l2 : valid h (l1 ++ i :: l2) → RB_PREV h (Some i) = Done (last l1).
Proof.
  intros Hv%mirror_valid. rewrite reverse_app, reverse_cons, <-(assoc app) in Hv. cbn [app] in Hv.
  rewrite <-next_mirror, (next_spec _ _ _ _ Hv). by rewrite head_reverse.
Qed.

Lemma max_spec h order : valid h order → RB_MAX h = Done (last order).
Proof. intros Hv%mirror_valid. by rewrite <-min_mirror, (min_spec _ _ Hv), head_reverse. Qed.

(** ** The nearest key *)
Lemma find_append {A} (f : A → bool) l1 l2 :
  List.find f (l1 ++ l2) = match List.find f l1 with Some x => Some x | None => List.find f l2 end.
Proof. induction l1 as [|x l1 IH]; cbn [app List.find]; [done|]. by destruct (f x). Qed.

Lemma nfind_spec key k cmp fuel h z t res : (height t < fuel)%nat → focus h z t →
  sorted_by key (inorder t) → cmp_ok key k cmp (inorder t) →
  nfind_loop fuel cmp h (root_ptr t) res =
  Done (match List.find (fun i => k <=? key i)%Z (inorder t) with Some i => Some i | None => res end).
Proof.
  revert z res fuel. induction t as [|c l IHl i r IHr]; intros z res fuel Hfuel Hf Hs Hc;
    (destruct fuel as [|fuel]; [simpl in Hfuel; lia|]); cbn [nfind_loop root_ptr]; [done|].
  cbn [inorder height] in *. apply sorted_T in Hs as (Hsl & Hsr & Hl & Hr).
  destruct (Hc i) as [Hlt Hgt]; [set_solver|]. rewrite find_append. cbn [List.find].
  assert (Hnone : ∀ l, (∀ j, j ∈ l → key j < k)%Z → List.find (fun i => k <=? key i)%Z l = None).
  { clear. induction l as [|j l IH]; intros Hj; cbn [List.find]; [done|]. specialize (Hj j) as Hk.
    rewrite (proj2 (Z.leb_gt k (key j))) by (apply Hk; set_solver). apply IH. intros x Hx. apply Hj. set_solver. }
  case_bool_decide as Hi.
  - unfold RB_LEFT. rewrite (focus_child h z L c l i r Hf), bind_done.
    rewrite (IHl (Frame L c i r :: z)); [|lia|by apply focus_T in Hf|done|intros j Hj; apply Hc; set_solver].
    rewrite (proj2 (Z.leb_le k (key i))) by lia. by destruct (List.find _ (inorder l)).
  - case_bool_decide as Hi2.
    + rewrite (focus_right _ _ _ _ _ _ Hf), bind_done.
      rewrite (IHr (Frame R c i l :: z)); [|lia|by rewrite focus_up|done|intros j Hj; apply Hc; set_solver].
      rewrite (Hnone (inorder l)) by (intros j Hj; specialize (Hl j Hj); lia).
      by rewrite (proj2 (Z.leb_gt k (key i))) by lia.
    + rewrite (Hnone (inorder l)) by (intros j Hj; specialize (Hl j Hj); lia).
      by rewrite (proj2 (Z.leb_le k (key i))) by lia.
Qed.

(** ** The loops *)
Section walk.
Context (h : rb_head) (step : rb_head → ptr → outcome ptr) (safe : bool).

(** With a body that does not touch the tree. *)
Lemma rb_for_walk fuel l : (∀ l1 i l2, l = l1 ++ i :: l2 → step h (Some i) = Done (head l2)) → (length l < fuel)%nat →
  rb_for safe step (fun _ h => Done h) fuel h (head l) = Done (l, h).
Proof.
  revert l. induction fuel as [|fuel IH]; intros l Hl Hf; [lia|]. cbn [rb_for]. destruct l as [|i l]; cbn [head]; [done|].
  pose proof (Hl [] i l eq_refl) as Hs. destruct safe; rewrite ?bind_done, Hs, !bind_done; cbv iota beta.
  all: rewrite IH; [by rewrite bind_done|intros l1 j l2 ->; by apply (Hl (i :: l1))|cbn [length] in Hf; lia].
Qed.
End walk.

Lemma walk_fuel h l1 l2 : valid h (l1 ++ l2) → (length l1 < fuel_of h)%nat ∧ (length l2 < fuel_of h)%nat.
Proof.
  intros Hv. assert (length (l1 ++ l2) < fuel_of h)%nat as Hl; [|rewrite length_app in Hl; lia].
  apply le_n_S, NoDup_dom_length; [by eapply valid_nodup|]. intros i. by apply valid_in_dom.
Qed.

Lemma walk_next h safe l1 l2 : valid h (l1 ++ l2) →
  rb_for safe RB_NEXT (fun _ h => Done h) (fuel_of h) h (head l2) = Done (l2, h).
Proof.
  intros Hv. apply rb_for_walk; [|by apply walk_fuel in Hv as [_ ?]]. intros l3 i l4 ->.
  rewrite app_assoc in Hv. by apply (next_spec _ _ _ _ Hv).
Qed.

Lemma walk_prev h safe l1 l2 : valid h (l1 ++ l2) →
  rb_for safe RB_PREV (fun _ h => Done h) (fuel_of h) h (last l1) = Done (reverse l1, h).
Proof.
  intros Hv. rewrite <-head_reverse. apply rb_for_walk; [|rewrite length_reverse; by apply walk_fuel in Hv as [? _]].
  intros l3 i l4 Hl. assert (l1 = reverse l4 ++ i :: reverse l3) as ->.
  { by rewrite <-(reverse_involutive l1), Hl, reverse_app, reverse_cons, <-(assoc app). }
  rewrite <-app_assoc in Hv. rewrite (prev_spec _ _ _ _ Hv). by rewrite last_reverse.
Qed.

(** A loop that removes every element it comes to. *)
Lemma walk_remove step fuel h l : valid h l → (∀ h l, valid h l → head l = None ∨
    ∃ i l1 l2, l = l1 ++ i :: l2 ∧ step h (Some i) = Done (head l2) ∧ l1 = []) → (length l < fuel)%nat →
  ∃ h', rb_for true step (fun i h => RB_REMOVE h (Some i)) fuel h (head l) = Done (l, h') ∧ valid h' [].
Proof.
  intros Hv Hstep. revert h l Hv. induction fuel as [|fuel IH]; intros h l Hv Hf; [lia|]. cbn [rb_for].
  destruct l as [|i l]; cbn [head]; [by exists h|].
  destruct (Hstep h (i :: l) Hv) as [[=]|(j & l1 & l2 & Hl & Hs & ->)]. injection Hl as -> ->. rewrite Hs, bind_done.
  destruct (remove_spec h (j :: l2) j Hv) as (h1 & k1 & k2 & Hk & He & Hv1 & _); [set_solver|]. rewrite He, !bind_done.
  assert (k1 = [] ∧ k2 = l2) as [-> ->].
  { pose proof (valid_nodup _ _ Hv) as Hn. destruct k1 as [|x k1]; [by injection Hk as ->|]. injection Hk as -> Hk.
    apply NoDup_cons in Hn as [Hn _]. rewrite Hk in Hn. set_solver. }
  destruct (IH h1 l2 Hv1) as (h2 & He2 & Hv2); [cbn [length] in Hf; lia|]. exists h2. by rewrite He2, bind_done.
Qed.

(** C37: Traversals of a red-black tree.  Forwards [RB_FOREACH] and its variants
    visit the elements in the order of the tree, backwards in the reverse order,
    the [FROM] variants from the given element on; [RB_NFIND] finds the first
    element whose key is not smaller than the one given, or none; and
    [RB_FOREACH_SAFE] may remove every element it visits: it still visits them
    all, and leaves an empty tree. *)
Theorem rb_walks h order : valid h order →
  (∀ l1 l2, order = l1 ++ l2 →
    RB_FOREACH_FROM (fun _ h => Done h) h (head l2) = Done (l2, h) ∧
    RB_FOREACH_REVERSE_FROM (fun _ h => Done h) h (last l1) = Done (reverse l1, h)) ∧
  RB_FOREACH (fun _ h => Done h) h = Done (order, h) ∧
  RB_FOREACH_REVERSE (fun _ h => Done h) h = Done (reverse order, h) ∧
  RB_FOREACH_REVERSE_SAFE (fun _ h => Done h) h = Done (reverse order, h) ∧
  (∃ h', RB_FOREACH_SAFE (fun i h => RB_REMOVE h (Some i)) h = Done (order, h') ∧ valid h' []) ∧
  ∀ key k cmp, sorted_by key order → cmp_ok key k cmp order →
    RB_NFIND cmp h = Done (List.find (fun i => k <=? key i)%Z order).
Proof.
  intros Hv. assert (Hv' : valid h (order ++ [])) by by rewrite app_nil_r.
  split; [intros l1 l2 ->; split; [by apply walk_next with l1|by apply walk_prev with l2]|].
  unfold RB_FOREACH, RB_FOREACH_REVERSE, RB_FOREACH_REVERSE_SAFE, RB_FOREACH_SAFE.
  rewrite (min_spec _ _ Hv), (max_spec _ _ Hv), !bind_done.
  split; [by apply (walk_next h false [] order)|]. split; [by apply walk_prev with []|].
  split; [by apply walk_prev with []|]. split.
  - apply walk_remove; [done| |by apply (walk_fuel h order []) in Hv' as [? _]].
    intros h0 [|i l] Hv0; [by left|right]. exists i, [], l. split; [done|]. split; [by apply (next_spec h0 [] i l)|done].
  - intros key k cmp Hs Hc. destruct Hv as (t & n & Hf & _ & <-). unfold RB_NFIND.
    replace (rbh_root h) with (root_ptr t) by by destruct Hf as (_ & Hz & _).
    rewrite (nfind_spec key k cmp _ h [] t None); [by destruct (List.find _ _)| |done|done|done].
    pose proof (focus_fuel_height _ _ _ Hf). lia.
Qed.

Lemma rb_walks_witness :
  RB_FOREACH_REVERSE (fun _ h => Done h) tree3 = Done ([2; 1; 0]%nat, tree3) ∧
  (∃ h', RB_FOREACH_SAFE (fun i h => RB_REMOVE h (Some i)) tree3 = Done ([0; 1; 2]%nat, h') ∧ valid h' []) ∧
  RB_NFIND (key_cmp key3 15) tree3 = Done (Some 1%nat).
Proof.
  destruct (rb_walks tree3 [0; 1; 2]%nat tree3_valid) as (_ & _ & Hr & _ & Hs & Hn).
  split; [exact Hr|]. split; [exact Hs|]. refine (Hn key3 15%Z _ tree3_sorted _).
  intros i _. unfold key_cmp. lia.
Defined.
