(* ===== verification/Splay.v ===== *)
(** * The splay trees of [src/tree.h]

    [SPLAY_GENERATE] at the level of its pointers: an element is identified by a
    number, the [SPLAY_ENTRY] fields of all elements are a finite map.  [SPLAY]
    has an element of its own, [__node], on its stack.

    As in [RBTree], the two mirror-image branches are one text over a direction:
    the left link is that of direction [L]. *)

From S2P Require Import Prelude RBTree.

(** ** Data *)

(** What a pointer of [SPLAY] points to: its [__node], or an element. *)
Inductive cell : Type := Local | Elm (i : nat).

#[export] Instance cell_eq_dec : EqDecision cell.
Proof. solve_decision. Defined.

#[export] Instance cell_countable : Countable cell.
Proof.
  refine (inj_countable' (fun c => match c with Local => None | Elm i => Some i end)
    (fun o => match o with None => Local | Some i => Elm i end) _).
  by intros [].
Defined.

(** [SPLAY_ENTRY(type)] *)
Record spl_entry : Type := SplEntry {
  spe_left : ptr;
  spe_right : ptr
}.

(** [SPLAY_HEAD(name, type)] together with the entries. *)
Record spl_head : Type := SplHead {
  sph_root : ptr;
  spl_nodes : gmap cell spl_entry
}.

Definition spe_get (d : dir) (e : spl_entry) : ptr := match d with L => spe_left e | R => spe_right e end.

Definition spe_put (d : dir) (v : ptr) (e : spl_entry) : spl_entry :=
  match d with L => SplEntry v (spe_right e) | R => SplEntry (spe_left e) v end.

(** ** Field access *)
Definition SPL (A : Type) : Type := spl_head → outcome (A * spl_head).

#[export] Instance SPL_ret : MRet SPL := fun A a h => Done (a, h).

#[export] Instance SPL_bind : MBind SPL :=
  fun A B f c h => match c h with Done (a, h) => f a h | Fault => Fault | Spin => Spin end.

Definition SPLAY_ROOT : SPL ptr := fun h => Done (sph_root h, h).
Definition set_sph_root (v : ptr) : SPL unit := fun h => Done (tt, SplHead v (spl_nodes h)).
Definition SPLAY_EMPTY : SPL bool := r ← SPLAY_ROOT; mret (bool_decide (r = None)).

(** A pointer to an element that is dereferenced. *)
Definition spl_deref (p : ptr) : SPL nat := fun h => match p with Some i => Done (i, h) | None => Fault end.

Definition spl_rd (d : dir) (c : cell) : SPL ptr := fun h =>
  match spl_nodes h !! c with Some e => Done (spe_get d e, h) | None => Fault end.

Definition spl_wr (d : dir) (c : cell) (v : ptr) : SPL unit := fun h =>
  match spl_nodes h !! c with
  | Some e => Done (tt, SplHead (sph_root h) (<[c := spe_put d v e]> (spl_nodes h)))
  | None => Fault
  end.

(** [SPLAY_LEFT] and [SPLAY_RIGHT] of the element of a pointer. *)
Definition SPLAY_CHILD (d : dir) (p : ptr) : SPL ptr := i ← spl_deref p; spl_rd d (Elm i).
Definition set_spl_child (d : dir) (p : ptr) (v : ptr) : SPL unit := i ← spl_deref p; spl_wr d (Elm i) v.

(** The local element comes and goes with the call. *)
Definition local_node : SPL unit :=
  fun h => Done (tt, SplHead (sph_root h) (<[Local := SplEntry None None]> (spl_nodes h))).
Definition local_end : SPL unit := fun h => Done (tt, SplHead (sph_root h) (delete Local (spl_nodes h))).

(** ** The macros *)

Definition SPLAY_INIT : SPL unit := set_sph_root None.

(** [SPLAY_ROTATE_RIGHT] is that of direction [L], [SPLAY_ROTATE_LEFT] that of [R]. *)
Definition SPLAY_ROTATE (d : dir) (tmp : ptr) : SPL unit :=
  v ← SPLAY_CHILD (opp d) tmp;
  r ← SPLAY_ROOT;
  _ ← set_spl_child d r v;
  r ← SPLAY_ROOT;
  _ ← set_spl_child (opp d) tmp r;
  set_sph_root tmp.

(** [SPLAY_LINKLEFT] is that of direction [L], [SPLAY_LINKRIGHT] that of [R]; the
    result is the new value of [tmp]. *)
Definition SPLAY_LINK (d : dir) (tmp : cell) : SPL cell :=
  r ← SPLAY_ROOT;
  _ ← spl_wr d tmp r;
  r ← SPLAY_ROOT;
  i ← spl_deref r;
  v ← SPLAY_CHILD d r;
  _ ← set_sph_root v;
  mret (Elm i).

Definition SPLAY_ASSEMBLE (lft rgt : cell) : SPL unit :=
  r ← SPLAY_ROOT;
  v ← SPLAY_CHILD L r;
  _ ← spl_wr R lft v;
  r ← SPLAY_ROOT;
  v ← SPLAY_CHILD R r;
  _ ← spl_wr L rgt v;
  v ← spl_rd R Local;
  r ← SPLAY_ROOT;
  _ ← set_spl_child L r v;
  v ← spl_rd L Local;
  r ← SPLAY_ROOT;
  set_spl_child R r v.

(** ** Splaying *)

(** The comparison points in the direction [d]: [< 0] for [L], [> 0] for [R]. *)
Definition points (d : dir) (comp : Z) : bool :=
  match d with L => bool_decide (comp < 0)%Z | R => bool_decide (comp > 0)%Z end.

(** The body of the loops: [again] is [(cmp)(elm, __tmp)]. The result is the pair
    of [__left] ([lft]) and [__right] ([rgt]), and whether the loop goes on. *)
Definition splay_body (d : dir) (again : nat → Z) (lft rgt : cell) : SPL (bool * cell * cell) :=
  r ← SPLAY_ROOT;
  tmp ← SPLAY_CHILD d r;
  match tmp with
  | None => mret (false, lft, rgt)
  | Some t =>
      stop ← (if points d (again t) then
                _ ← SPLAY_ROTATE d tmp;
                r ← SPLAY_ROOT;
                g ← SPLAY_CHILD d r;
                mret (bool_decide (g = None))
              else mret false);
      if (stop : bool) then mret (false, lft, rgt) else
      match d with
      | L => rgt ← SPLAY_LINK L rgt; mret (true, lft, rgt)
      | R => lft ← SPLAY_LINK R lft; mret (true, lft, rgt)
      end
  end.

(** [while ((__comp = (cmp)(elm, (head)->sph_root)) != 0)] *)
Fixpoint splay_loop (fuel : nat) (cmp : nat → Z) (lft rgt : cell) : SPL (cell * cell) :=
  match fuel with
  | O => fun _ => Spin
  | S fuel =>
      r ← SPLAY_ROOT;
      i ← spl_deref r;
      if bool_decide (cmp i = 0)%Z then mret (lft, rgt) else
      '(go, lft, rgt) ← splay_body (if points L (cmp i) then L else R) cmp lft rgt;
      if (go : bool) then splay_loop fuel cmp lft rgt else mret (lft, rgt)
  end.

(** [while (1)], with a comparison that is given once. *)
Fixpoint minmax_loop (fuel : nat) (comp : Z) (lft rgt : cell) : SPL (cell * cell) :=
  match fuel with
  | O => fun _ => Spin
  | S fuel =>
      if bool_decide (comp = 0)%Z then minmax_loop fuel comp lft rgt else
      '(go, lft, rgt) ← splay_body (if points L comp then L else R) (fun _ => comp) lft rgt;
      if (go : bool) then minmax_loop fuel comp lft rgt else mret (lft, rgt)
  end.

(** A fuel for the loops: one step per element. *)
Definition spl_fuel {A : Type} (f : nat → SPL A) : SPL A := fun h => f (S (size (spl_nodes h))) h.

Definition SPLAY (cmp : nat → Z) : SPL unit :=
  _ ← local_node;
  '(lft, rgt) ← spl_fuel (fun fuel => splay_loop fuel cmp Local Local);
  _ ← SPLAY_ASSEMBLE lft rgt;
  local_end.

Definition SPLAY_MINMAX (comp : Z) : SPL unit :=
  _ ← local_node;
  '(lft, rgt) ← spl_fuel (fun fuel => minmax_loop fuel comp Local Local);
  _ ← SPLAY_ASSEMBLE lft rgt;
  local_end.

(** ** Operations; [cmp i] is [(cmp)(elm, i)] *)
Definition SPLAY_FIND (cmp : nat → Z) : SPL ptr :=
  e ← SPLAY_EMPTY;
  if (e : bool) then mret None else
  _ ← SPLAY cmp;
  r ← SPLAY_ROOT;
  i ← spl_deref r;
  mret (if bool_decide (cmp i = 0)%Z then r else None).

(** [while (SPLAY_LEFT(elm, field) != NULL) elm = SPLAY_LEFT(elm, field)] *)
Fixpoint spl_leftmost (fuel : nat) (elm : ptr) : SPL ptr :=
  match fuel with
  | O => fun _ => Spin
  | S fuel =>
      l ← SPLAY_CHILD L elm;
      match l with Some _ => spl_leftmost fuel l | None => mret elm end
  end.

Definition SPLAY_NEXT (cmp : nat → Z) (elm : nat) : SPL ptr :=
  _ ← SPLAY cmp;
  r ← SPLAY_CHILD R (Some elm);
  match r with
  | Some _ => spl_fuel (fun fuel => spl_leftmost fuel r)
  | None => mret None
  end.

Definition SPLAY_MIN_MAX (val : Z) : SPL ptr :=
  _ ← SPLAY_MINMAX val;
  SPLAY_ROOT.

Definition SPLAY_NEGINF : Z := -1.
Definition SPLAY_INF : Z := 1.

Definition SPLAY_MIN : SPL ptr := e ← SPLAY_EMPTY; if (e : bool) then mret None else SPLAY_MIN_MAX SPLAY_NEGINF.
Definition SPLAY_MAX : SPL ptr := e ← SPLAY_EMPTY; if (e : bool) then mret None else SPLAY_MIN_MAX SPLAY_INF.

Definition SPLAY_INSERT (cmp : nat → Z) (elm : nat) : SPL ptr :=
  e ← SPLAY_EMPTY;
  found ←
    (if (e : bool) then
       _ ← spl_wr R (Elm elm) None;
       _ ← spl_wr L (Elm elm) None;
       mret None
     else
       _ ← SPLAY cmp;
       r ← SPLAY_ROOT;
       i ← spl_deref r;
       let comp := cmp i in
       if bool_decide (comp = 0)%Z then mret r else
       let d := if points L comp then L else R in
       v ← SPLAY_CHILD d r;
       _ ← spl_wr d (Elm elm) v;
       r ← SPLAY_ROOT;
       _ ← spl_wr (opp d) (Elm elm) r;
       r ← SPLAY_ROOT;
       _ ← set_spl_child d r None;
       mret None);
  match found with
  | Some _ => mret found
  | None => _ ← set_sph_root (Some elm); mret None
  end.

Definition SPLAY_REMOVE (cmp : nat → Z) (elm : nat) : SPL ptr :=
  e ← SPLAY_EMPTY;
  if (e : bool) then mret None else
  _ ← SPLAY cmp;
  r ← SPLAY_ROOT;
  i ← spl_deref r;
  if bool_decide (cmp i = 0)%Z then
    l ← SPLAY_CHILD L r;
    _ ← (match l with
         | None => v ← SPLAY_CHILD R r; set_sph_root v
         | Some _ =>
             tmp ← SPLAY_CHILD R r;
             v ← SPLAY_CHILD L r;
             _ ← set_sph_root v;
             _ ← SPLAY cmp;
             r ← SPLAY_ROOT;
             set_spl_child R r tmp
         end);
    mret (Some elm)
  else mret None.

(** [SPLAY_FOREACH(x, name, head)]: the elements visited. *)
Fixpoint splay_foreach (fuel : nat) (cmp : nat → nat → Z) (x : ptr) : SPL (list nat) :=
  match fuel with
  | O => fun _ => Spin
  | S fuel =>
      match x with
      | None => mret []
      | Some i => n ← SPLAY_NEXT (cmp i) i; l ← splay_foreach fuel cmp n; mret (i :: l)
      end
  end.

Definition SPLAY_FOREACH (cmp : nat → nat → Z) : SPL (list nat) :=
  x ← SPLAY_MIN;
  spl_fuel (fun fuel => splay_foreach fuel cmp x).
