(* ===== verification/SplayTree.v ===== *)
(** * The shape of a splay tree

    The links of a memory as a list of facts, which the macros change one at a
    time; the state of the loop of [SPLAY]: a left tree and a right tree, each
    open at its inner end, and the tree that is still to be split. *)

From S2P Require Import Prelude RBTree Splay.

(** ** Facts about a memory *)
Definition facts : Type := list (cell * spl_entry).

Definition sat (m : gmap cell spl_entry) (fs : facts) : Prop :=
  NoDup fs.*1 ∧ ∀ c e, (c, e) ∈ fs → m !! c = Some e.

#[export] Instance sat_proper m : Proper ((≡ₚ) ==> iff) (sat m).
Proof. intros fs fs' Hp. unfold sat. rewrite Hp. split; intros [Hn Hf]; (split; [done|]); intros c e Hc; apply Hf; first [by rewrite Hp|by rewrite <-Hp]. Qed.

Lemma sat_get m c e fs : sat m ((c, e) :: fs) → m !! c = Some e.
Proof. intros [_ Hf]. apply Hf. by left. Qed.

Lemma sat_put m c e e' fs : sat m ((c, e) :: fs) → sat (<[c := e']> m) ((c, e') :: fs).
Proof.
  intros [Hn Hf]. split; [done|]. cbn [fmap list_fmap fst] in Hn. apply NoDup_cons in Hn as [Hc _].
  intros c2 e2 [[= -> ->]|Hin]%elem_of_cons; [by rewrite lookup_insert_eq|].
  rewrite lookup_insert_ne; [apply Hf; by right|]. intros ->. apply Hc. apply list_elem_of_fmap. by exists (c2, e2).
Qed.

Lemma sat_new m c e fs : c ∉ fs.*1 → sat m fs → sat (<[c := e]> m) ((c, e) :: fs).
Proof.
  intros Hc [Hn Hf]. split; [by constructor|].
  intros c2 e2 [[= -> ->]|Hin]%elem_of_cons; [by rewrite lookup_insert_eq|].
  rewrite lookup_insert_ne; [by apply Hf|]. intros ->. apply Hc. apply list_elem_of_fmap. by exists (c2, e2).
Qed.

Lemma sat_drop m c e fs : sat m ((c, e) :: fs) → sat (delete c m) fs.
Proof.
  intros [Hn Hf]. cbn [fmap list_fmap fst] in Hn. apply NoDup_cons in Hn as [Hc Hn]. split; [done|].
  intros c2 e2 Hin. rewrite lookup_delete_ne; [apply Hf; by right|].
  intros ->. apply Hc. apply list_elem_of_fmap. by exists (c2, e2).
Qed.

Lemma sat_app_r m fs gs : sat m (fs ++ gs) → sat m gs.
Proof.
  intros [Hn Hf]. rewrite fmap_app in Hn. apply NoDup_app in Hn as (_ & _ & Hn). split; [done|].
  intros c e He. apply Hf. apply elem_of_app. by right.
Qed.

Lemma sat_size m fs : sat m fs → (length fs <= size m)%nat.
Proof.
  intros [Hn Hf]. assert (Hs : list_to_set fs.*1 ⊆ dom m).
  { intros c Hc. apply elem_of_list_to_set, list_elem_of_fmap in Hc as ([c2 e] & -> & Hc). apply elem_of_dom.
    exists e. by apply Hf. }
  apply subseteq_size in Hs. by rewrite size_dom, size_list_to_set, length_fmap in Hs.
Qed.

(** ** Trees *)
Inductive stree : Type := SE | SN (l : stree) (i : nat) (r : stree).

#[export] Instance stree_eq_dec : EqDecision stree.
Proof. solve_decision. Defined.

Definition sroot (t : stree) : ptr := match t with SE => None | SN _ i _ => Some i end.

Fixpoint sinorder (t : stree) : list nat :=
  match t with SE => [] | SN l i r => sinorder l ++ i :: sinorder r end.

Fixpoint ssize (t : stree) : nat := match t with SE => O | SN l _ r => S (ssize l + ssize r) end.

(** A node and an entry with a child in direction [d], and the other one. *)
Definition node (d : dir) (a : stree) (i : nat) (b : stree) : stree := match d with L => SN a i b | R => SN b i a end.
Definition mk (d : dir) (a b : ptr) : spl_entry := match d with L => SplEntry a b | R => SplEntry b a end.

Fixpoint tf (t : stree) : facts :=
  match t with SE => [] | SN l i r => (Elm i, SplEntry (sroot l) (sroot r)) :: tf l ++ tf r end.

Lemma tf_node d a i b : tf (node d a i b) ≡ₚ (Elm i, mk d (sroot a) (sroot b)) :: tf a ++ tf b.
Proof. destruct d; cbn [node tf mk]; [done|]. by rewrite (Permutation_app_comm (tf b)). Qed.

Lemma sroot_node d a i b : sroot (node d a i b) = Some i.
Proof. by destruct d. Qed.

Lemma node_of d t : t ≠ SE → ∃ a i b, t = node d a i b.
Proof. destruct t as [|l i r]; [done|]. intros _. destruct d; [by exists l, i, r|by exists r, i, l]. Qed.

Lemma node_ne d a i b : node d a i b ≠ SE.
Proof. by destruct d. Qed.

Lemma ssize_node d a i b : ssize (node d a i b) = S (ssize a + ssize b).
Proof. destruct d; cbn [node ssize]; lia. Qed.

Lemma smk_opp d a b : mk (opp d) b a = mk d a b.
Proof. by destruct d. Qed.

Lemma spe_get_mk d a b : spe_get d (mk d a b) = a.
Proof. by destruct d. Qed.

Lemma spe_get_opp d a b : spe_get (opp d) (mk d a b) = b.
Proof. by destruct d. Qed.

Lemma spe_put_mk d a b v : spe_put d v (mk d a b) = mk d v b.
Proof. by destruct d. Qed.

Lemma spe_put_opp d a b v : spe_put (opp d) v (mk d a b) = mk d a v.
Proof. by destruct d. Qed.

Lemma tf_elm t c : c ∈ (tf t).*1 → ∃ i, c = Elm i ∧ i ∈ sinorder t.
Proof.
  induction t as [|l IHl i r IHr]; cbn [tf fmap list_fmap sinorder]; [by intros ?%elem_of_nil|].
  rewrite elem_of_cons, fmap_app, elem_of_app. set_solver.
Qed.

Lemma tf_length t : length (tf t) = ssize t.
Proof. induction t as [|l IHl i r IHr]; cbn [tf ssize length]; [done|]. by rewrite length_app, IHl, IHr. Qed.

Lemma sinorder_length t : length (sinorder t) = ssize t.
Proof. induction t as [|l IHl i r IHr]; cbn [sinorder ssize]; [done|]. rewrite length_app. cbn [length]. lia. Qed.

Lemma tf_nodup m t : sat m (tf t) → NoDup (sinorder t).
Proof.
  intros [Hn _]. assert (Hp : (tf t).*1 ≡ₚ Elm <$> sinorder t).
  { clear. induction t as [|l IHl i r IHr]; [done|]. cbn [tf sinorder]. rewrite fmap_app, !fmap_cons, fmap_app, IHl, IHr. cbn [fst].
    by rewrite Permutation_middle. }
  rewrite Hp in Hn. by apply NoDup_fmap_1 in Hn.
Qed.

(** ** Open trees *)

(** A tree that is open at the end of its links of direction [d]: what hangs on
    the other side of each of these elements. *)
Abbreviation chain := (list (stree * nat)).

Definition first (fs : chain) (v : ptr) : ptr := match fs with [] => v | (_, x) :: _ => Some x end.

(** The element whose link [d] is the open end, which now holds [v]. *)
Definition cursor (fs : chain) : cell := match last fs with None => Local | Some (_, x) => Elm x end.

Fixpoint cf (d : dir) (fs : chain) (v : ptr) : facts :=
  match fs with [] => [] | (o, x) :: fs => (Elm x, mk d (first fs v) (sroot o)) :: tf o ++ cf d fs v end.

(** The tree closed with [t]. *)
Fixpoint plug (d : dir) (fs : chain) (t : stree) : stree :=
  match fs with [] => t | (o, x) :: fs => node d (plug d fs t) x o end.

Lemma first_snoc fs o x v : first (fs ++ [(o, x)]) v = first fs (Some x).
Proof. by destruct fs as [|[]]. Qed.

Lemma cursor_snoc fs o x : cursor (fs ++ [(o, x)]) = Elm x.
Proof. unfold cursor. by rewrite last_snoc. Qed.

Lemma cf_snoc d fs o x v : cf d (fs ++ [(o, x)]) v ≡ₚ (Elm x, mk d v (sroot o)) :: tf o ++ cf d fs (Some x).
Proof.
  induction fs as [|[o' x'] fs IH]; cbn [app cf]; [done|]. rewrite IH, (first_snoc fs o x v).
  rewrite <-!Permutation_middle, Permutation_swap. do 2 apply Permutation_skip.
  by rewrite (Permutation_app_swap_app (tf o')).
Qed.

Lemma sroot_plug d fs t : sroot (plug d fs t) = first fs (sroot t).
Proof. destruct fs as [|[o x] fs]; cbn [plug first]; [done|]. apply sroot_node. Qed.

Lemma tf_plug d fs t : tf (plug d fs t) ≡ₚ cf d fs (sroot t) ++ tf t.
Proof.
  induction fs as [|[o x] fs IH]; cbn [plug cf app]; [done|]. rewrite tf_node, sroot_plug, IH.
  rewrite (Permutation_app_comm _ (tf o)). by rewrite <-!(assoc app).
Qed.

(** ** The state of the loop; the facts [fr] are about other elements *)
Section loop_facts.
Context (fr : facts).

Definition loop_facts (d : dir) (a : chain) (va : ptr) (b : chain) (vb : ptr) (t : stree) : facts :=
  (Local, mk d (first a va) (first b vb)) :: cf d a va ++ cf (opp d) b vb ++ tf t ++ fr.

Lemma loop_facts_flip d a va b vb t : loop_facts (opp d) b vb a va t ≡ₚ loop_facts d a va b vb t.
Proof.
  unfold loop_facts. rewrite smk_opp. replace (opp (opp d)) with d by by destruct d.
  by rewrite (Permutation_app_swap_app (cf (opp d) b vb)).
Qed.

(** Writing the open end. *)
Lemma cursor_facts d a va b vb t v : ∃ e rest,
  loop_facts d a va b vb t ≡ₚ (cursor a, e) :: rest ∧ loop_facts d a v b vb t ≡ₚ (cursor a, spe_put d v e) :: rest.
Proof.
  destruct a as [|[o x] a _] using rev_ind.
  - unfold loop_facts, cursor. cbn [last first cf app]. do 2 eexists. split; [done|]. by rewrite spe_put_mk.
  - exists (mk d va (sroot o)), ((Local, mk d (first a (Some x)) (first b vb)) :: tf o ++ cf d a (Some x) ++ cf (opp d) b vb ++ tf t ++ fr).
    unfold loop_facts. rewrite cursor_snoc, spe_put_mk, !first_snoc, !cf_snoc. cbn [app].
    rewrite <-!(assoc app). split; apply Permutation_swap.
Qed.

(** An element and what is on its other side join an open tree. *)
Lemma link_facts d a b vb c i o :
  loop_facts d a (Some i) b vb (node d c i o) ≡ₚ loop_facts d (a ++ [(o, i)]) (sroot c) b vb c.
Proof.
  unfold loop_facts. rewrite (first_snoc a o i), cf_snoc, tf_node. apply Permutation_skip.
  cbn [app]. rewrite <-!Permutation_middle. apply Permutation_skip.
  rewrite (Permutation_app_comm (tf c) (tf o)), <-!(assoc app).
  rewrite (Permutation_app_swap_app (cf (opp d) b vb)), (Permutation_app_swap_app (cf d a (Some i))). done.
Qed.
End loop_facts.
