(* ===== verification/SplaySpec.v ===== *)
(** * What splaying does

    The loop splits the tree at the key that is searched, without changing the
    order of the elements. *)

From S2P Require Import Prelude RBTree Splay SplayTree.

(** ** Running a macro *)
Section run.
Context {B : Type}.

Lemma SPL_bind_done {A} (c : SPL A) (f : A → SPL B) h a h' : c h = Done (a, h') → (c ≫= f) h = f a h'.
Proof. intros Hc. unfold mbind, SPL_bind. by rewrite Hc. Qed.

Lemma SPL_ret_bind {A} (a : A) (f : A → SPL B) h : (mret a ≫= f) h = f a h.
Proof. done. Qed.

Lemma SPL_assoc {A A'} (c : SPL A) (f : A → SPL A') (g : A' → SPL B) h :
  ((c ≫= f) ≫= g) h = (c ≫= λ a, f a ≫= g) h.
Proof. unfold mbind, SPL_bind. by destruct (c h) as [[a h']| |]. Qed.

Lemma root_bind (f : ptr → SPL B) h : (SPLAY_ROOT ≫= f) h = f (sph_root h) h.
Proof. done. Qed.

Lemma set_root_bind v (f : unit → SPL B) h : (set_sph_root v ≫= f) h = f tt (SplHead v (spl_nodes h)).
Proof. done. Qed.

Lemma deref_bind i (f : nat → SPL B) h : (spl_deref (Some i) ≫= f) h = f i h.
Proof. done. Qed.
End run.

Lemma spl_rd_done d c e h : spl_nodes h !! c = Some e → spl_rd d c h = Done (spe_get d e, h).
Proof. intros Hc. unfold spl_rd. by rewrite Hc. Qed.

Lemma spl_wr_done d c v e h : spl_nodes h !! c = Some e →
  spl_wr d c v h = Done (tt, SplHead (sph_root h) (<[c := spe_put d v e]> (spl_nodes h))).
Proof. intros Hc. unfold spl_wr. by rewrite Hc. Qed.

(** Fields of elements that some facts know. *)
Lemma child_sat d i e fs h : sat (spl_nodes h) ((Elm i, e) :: fs) → SPLAY_CHILD d (Some i) h = Done (spe_get d e, h).
Proof. intros Hs. unfold SPLAY_CHILD. rewrite deref_bind. apply spl_rd_done. by eapply sat_get. Qed.

Lemma wr_sat d c v e fs h : sat (spl_nodes h) ((c, e) :: fs) →
  ∃ m, spl_wr d c v h = Done (tt, SplHead (sph_root h) m) ∧ sat m ((c, spe_put d v e) :: fs).
Proof. intros Hs. eexists. split; [eapply spl_wr_done; by eapply sat_get|]. by eapply sat_put. Qed.

Lemma set_child_sat d i v e fs h : sat (spl_nodes h) ((Elm i, e) :: fs) →
  ∃ m, set_spl_child d (Some i) v h = Done (tt, SplHead (sph_root h) m) ∧ sat m ((Elm i, spe_put d v e) :: fs).
Proof. intros Hs. unfold set_spl_child. rewrite deref_bind. by apply wr_sat. Qed.

(** The child of the root. *)
Lemma child_node d c i o fs gs h : sat (spl_nodes h) (fs ++ tf (node d c i o) ++ gs) →
  SPLAY_CHILD d (Some i) h = Done (sroot c, h).
Proof.
  intros Hs. rewrite tf_node in Hs. cbn [app] in Hs. rewrite <-Permutation_middle in Hs. rewrite (child_sat d i _ _ h Hs). by rewrite spe_get_mk.
Qed.

(** ** The macros *)
Lemma rotate_spec d x j y i o fs gs h :
  sat (spl_nodes h) (fs ++ tf (node d (node d x j y) i o) ++ gs) → sph_root h = Some i →
  ∃ m, SPLAY_ROTATE d (Some j) h = Done (tt, SplHead (Some j) m) ∧ sat m (fs ++ tf (node d x j (node d y i o)) ++ gs).
Proof.
  intros Hs Hr.
  assert (Hp : fs ++ tf (node d (node d x j y) i o) ++ gs ≡ₚ
    (Elm j, mk d (sroot x) (sroot y)) :: (Elm i, mk d (Some j) (sroot o)) :: fs ++ (tf x ++ tf y ++ tf o) ++ gs).
  { rewrite !tf_node, sroot_node, <-!(assoc app). cbn [app]. rewrite <-!(assoc app), <-!Permutation_middle. apply Permutation_swap. }
  rewrite Hp in Hs. unfold SPLAY_ROTATE. erewrite SPL_bind_done by exact (child_sat (opp d) j _ _ h Hs).
  rewrite spe_get_opp, root_bind, Hr. rewrite Permutation_swap in Hs.
  destruct (set_child_sat d i (sroot y) _ _ h Hs) as (m1 & Hr1 & Hs1). erewrite SPL_bind_done by exact Hr1.
  rewrite root_bind. cbn [sph_root]. rewrite Hr. rewrite Permutation_swap in Hs1.
  destruct (set_child_sat (opp d) j (Some i) _ _ (SplHead (Some i) m1) Hs1) as (m2 & Hr2 & Hs2).
  erewrite SPL_bind_done by exact Hr2. exists m2. split; [done|]. rewrite spe_put_mk, spe_put_opp in Hs2.
  rewrite !tf_node, sroot_node. eapply sat_proper; [|exact Hs2].
  rewrite <-(Permutation_middle (tf x)). cbn [app]. by rewrite <-!Permutation_middle.
Qed.

Section frame.
Context (fr : facts).
#[local] Notation loop_facts := (loop_facts fr).

Lemma link_spec d a va b vb c i o h :
  sat (spl_nodes h) (loop_facts d a va b vb (node d c i o)) → sph_root h = Some i →
  ∃ m, SPLAY_LINK d (cursor a) h = Done (Elm i, SplHead (sroot c) m) ∧
    sat m (loop_facts d (a ++ [(o, i)]) (sroot c) b vb c).
Proof.
  intros Hs Hr. unfold SPLAY_LINK. rewrite root_bind, Hr.
  destruct (cursor_facts fr d a va b vb (node d c i o) (Some i)) as (e & rest & Hp1 & Hp2). rewrite Hp1 in Hs.
  destruct (wr_sat d (cursor a) (Some i) e rest h Hs) as (m & Hw & Hs1). erewrite SPL_bind_done by exact Hw.
  rewrite <-Hp2 in Hs1. rewrite root_bind. cbn [sph_root]. rewrite Hr, deref_bind.
  assert (Hch : SPLAY_CHILD d (Some i) (SplHead (Some i) m) = Done (sroot c, SplHead (Some i) m)).
  { apply (child_node d c i o ((Local, mk d (first a (Some i)) (first b vb)) :: cf d a (Some i) ++ cf (opp d) b vb) fr).
    cbn [spl_nodes app]. rewrite <-(assoc app). exact Hs1. }
  erewrite SPL_bind_done by exact Hch. exists m. split; [done|]. by rewrite <-(link_facts fr).
Qed.

(** ** The loop *)

(** The order of the elements, by the sides they are on. *)
Lemma sinorder_node d a i b :
  sinorder (node d a i b) = match d with L => sinorder a ++ i :: sinorder b | R => sinorder b ++ i :: sinorder a end.
Proof. by destruct d. Qed.

(** The elements of an open tree. *)
Definition celems (fs : chain) : list nat := flat_map (fun '(o, x) => x :: sinorder o) fs.

Lemma plug_snoc d fs o x t : plug d (fs ++ [(o, x)]) t = plug d fs (node d t x o).
Proof. induction fs as [|[o' x'] fs IH]; cbn [app plug]; [done|]. by rewrite IH. Qed.

(** What [SPLAY] is given: the elements before and after one that compares. *)
Definition splits (cmp : nat → Z) (W : list nat) : Prop :=
  ∀ l1 i l2, W = l1 ++ i :: l2 →
    (0 <= cmp i → Forall (fun j => 0 < cmp j) l1)%Z ∧ (cmp i <= 0 → Forall (fun j => cmp j < 0) l2)%Z.

(** The whole tree. *)
Definition whole (d : dir) (a b : chain) (t : stree) : stree := plug d a (plug (opp d) b t).

Lemma plug_order d fs t t' : sinorder t = sinorder t' → sinorder (plug d fs t) = sinorder (plug d fs t').
Proof. intros Ht. induction fs as [|[o x] fs IH]; cbn [plug]; [done|]. by rewrite !sinorder_node, IH. Qed.

Lemma plug_split d fs t : ∃ l, sinorder (plug d fs t) = (match d with L => sinorder t ++ l | R => l ++ sinorder t end) ∧
  ∀ j, j ∈ l ↔ j ∈ celems fs.
Proof.
  induction fs as [|[o x] fs (l & Hl & Hin)]; cbn [plug celems flat_map].
  { exists []. split; [destruct d; by rewrite ?app_nil_r|done]. }
  rewrite sinorder_node, Hl. destruct d; [exists (l ++ x :: sinorder o)|exists (sinorder o ++ x :: l)].
  - split; [by rewrite <-(assoc app)|]. intros j. fold (celems fs). set_solver.
  - split; [by rewrite <-(assoc app)|]. intros j. fold (celems fs). set_solver.
Qed.

Lemma whole_split d a b t : ∃ l1 l2, sinorder (whole d a b t) = l1 ++ sinorder t ++ l2 ∧
  ∀ j, (j ∈ l1 ↔ j ∈ celems (match d with L => b | R => a end)) ∧ (j ∈ l2 ↔ j ∈ celems (match d with L => a | R => b end)).
Proof.
  unfold whole. destruct (plug_split (opp d) b t) as (l & Hl & Hin).
  destruct (plug_split d a (plug (opp d) b t)) as (k & Hk & Hkin). rewrite Hk, Hl. destruct d; cbn [opp].
  - exists l, k. by rewrite <-(assoc app).
  - exists k, l. done.
Qed.

Record running (cmp : nat → Z) (W : list nat) (d : dir) (a : chain) (va : ptr) (b : chain) (vb : ptr) (t : stree)
    (h : spl_head) : Prop := Running {
  rn_sat : sat (spl_nodes h) (loop_facts d a va b vb t);
  rn_root : sph_root h = sroot t;
  rn_order : sinorder (whole d a b t) = W;
  rn_a : Forall (fun j => points d (cmp j) = true) (celems a);
  rn_b : Forall (fun j => points (opp d) (cmp j) = true) (celems b)
}.

Lemma whole_flip d a b t : sinorder (whole (opp d) b a t) = sinorder (whole d a b t).
Proof.
  assert (Hflip : ∀ (a b : chain), sinorder (plug L a (plug R b t)) = sinorder (plug R b (plug L a t))).
  { clear. intros a b.
    induction a as [|[o x] a IH]; cbn [plug].
    - done.
    - rewrite sinorder_node, IH. clear IH. induction b as [|[o' x'] b IH]; cbn [plug]; [by rewrite sinorder_node|].
      rewrite !sinorder_node, <-IH, <-!(assoc app). done. }
  unfold whole. destruct d; cbn [opp]; [by rewrite Hflip|by rewrite Hflip].
Qed.

Lemma running_flip cmp W d a va b vb t h : running cmp W d a va b vb t h → running cmp W (opp d) b vb a va t h.
Proof.
  intros [Hs Hr Ho Ha Hb]. split; [by rewrite loop_facts_flip|done|by rewrite whole_flip|done|].
  by replace (opp (opp d)) with d by by destruct d.
Qed.

(** Elements on the far side of one that points in a direction do too. *)
Lemma far_side cmp d c i o W l1 l2 :
  splits cmp W → W = l1 ++ sinorder (node d c i o) ++ l2 → points d (cmp i) = true →
  Forall (fun j => points d (cmp j) = true) (i :: sinorder o).
Proof.
  intros Hsp HW Hi. constructor; [done|]. rewrite sinorder_node in HW. destruct d; cbn [points] in *.
  - apply bool_decide_eq_true in Hi. rewrite <-!(assoc app) in HW. cbn [app] in HW. rewrite (assoc app) in HW.
    destruct (Hsp _ _ _ HW) as [_ H2]. specialize (H2 ltac:(lia)). apply Forall_app in H2 as [H2 _].
    eapply Forall_impl; [exact H2|]. intros j Hj. by apply bool_decide_eq_true.
  - apply bool_decide_eq_true in Hi. rewrite <-!(assoc app) in HW. cbn [app] in HW. rewrite (assoc app) in HW.
    destruct (Hsp _ _ _ HW) as [H1 _]. specialize (H1 ltac:(lia)). apply Forall_app in H1 as [_ H1].
    eapply Forall_impl; [exact H1|]. intros j Hj. apply bool_decide_eq_true. by apply Z.lt_gt.
Qed.

Lemma running_far cmp W d a va b vb c i o h : splits cmp W → running cmp W d a va b vb (node d c i o) h →
  points d (cmp i) = true → Forall (fun j => points d (cmp j) = true) (i :: sinorder o).
Proof.
  intros Hsp Hrun Hi. destruct (whole_split d a b (node d c i o)) as (l1 & l2 & Hw & _).
  rewrite (rn_order _ _ _ _ _ _ _ _ _ Hrun) in Hw. by eapply far_side.
Qed.

(** Linking the root to the open tree of its far side. *)
Lemma running_link cmp W d a va b vb c i o h : splits cmp W → running cmp W d a va b vb (node d c i o) h →
  points d (cmp i) = true →
  ∃ m, SPLAY_LINK d (cursor a) h = Done (Elm i, SplHead (sroot c) m) ∧
    running cmp W d (a ++ [(o, i)]) (sroot c) b vb c (SplHead (sroot c) m).
Proof.
  intros Hsp Hrun Hi. pose proof (running_far _ _ _ _ _ _ _ _ _ _ _ Hsp Hrun Hi) as Hfar. destruct Hrun as [Hs Hr Ho Ha Hb].
  rewrite sroot_node in Hr. destruct (link_spec d a va b vb c i o h Hs Hr) as (m & He & Hm). exists m. split; [done|].
  split; [done|done| | |done].
  - rewrite <-Ho. unfold whole. rewrite plug_snoc. apply plug_order.
    pose proof (whole_flip d [(o, i)] b c) as Hf. by destruct d.
  - unfold celems in *. rewrite flat_map_app. apply Forall_app_2; [done|]. cbn [flat_map]. by rewrite app_nil_r.
Qed.

(** Turning a child of the root up. *)
Lemma running_rotate cmp W d a va b vb x j y i o h : running cmp W d a va b vb (node d (node d x j y) i o) h →
  ∃ m, SPLAY_ROTATE d (Some j) h = Done (tt, SplHead (Some j) m) ∧
    running cmp W d a va b vb (node d x j (node d y i o)) (SplHead (Some j) m).
Proof.
  intros [Hs Hr Ho Ha Hb]. rewrite sroot_node in Hr.
  destruct (rotate_spec d x j y i o ((Local, mk d (first a va) (first b vb)) :: cf d a va ++ cf (opp d) b vb) fr h)
    as (m & He & Hm); [cbn [app]; rewrite <-(assoc app); exact Hs|done|].
  exists m. split; [done|]. split; [|by rewrite sroot_node| |done|done].
  - cbn [app] in Hm. rewrite <-(assoc app) in Hm. exact Hm.
  - rewrite <-Ho. unfold whole. apply plug_order, plug_order. destruct d; cbn [node sinorder]; by rewrite <-!(assoc app).
Qed.

(** [__left] and [__right] when [a] is the open tree of the side [d]. *)
Definition left_of (d : dir) (a b : chain) : cell := cursor (match d with L => b | R => a end).
Definition right_of (d : dir) (a b : chain) : cell := cursor (match d with L => a | R => b end).

(** One turn, to the side that the comparison points to. *)
Lemma body_spec cmp W d a va b vb c i o h : splits cmp W → running cmp W d a va b vb (node d c i o) h →
  points d (cmp i) = true →
  ∃ (go : bool) a' va' t' h',
    splay_body d cmp (left_of d a b) (right_of d a b) h = Done ((go, left_of d a' b, right_of d a' b), h') ∧
    running cmp W d a' va' b vb t' h' ∧
    if go then t' ≠ SE ∧ (ssize t' < ssize (node d c i o))%nat else ∃ k y, t' = node d SE k y ∧ points d (cmp k) = true.
Proof.
  intros Hsp Hrun Hi.
  assert (Hchild : ∀ c i o a va h, running cmp W d a va b vb (node d c i o) h → SPLAY_CHILD d (Some i) h = Done (sroot c, h)).
  { clear. intros c i o a va h [Hs _ _ _ _]. unfold loop_facts in Hs. rewrite app_comm_cons, (assoc app) in Hs.
    by eapply (child_node _ _ _ _ _ fr). }
  assert (Hlink : ∀ c i o h, running cmp W d a va b vb (node d c i o) h → points d (cmp i) = true →
    ∃ h', (match d with
           | L => right ← SPLAY_LINK L (right_of d a b); mret (true, left_of d a b, right)
           | R => left ← SPLAY_LINK R (left_of d a b); mret (true, left, right_of d a b)
           end : SPL (bool * cell * cell)) h = Done ((true, left_of d (a ++ [(o, i)]) b, right_of d (a ++ [(o, i)]) b), h') ∧
      running cmp W d (a ++ [(o, i)]) (sroot c) b vb c h').
  { intros c0 i0 o0 h0 Hr0 Hi0. destruct (running_link _ _ _ _ _ _ _ _ _ _ _ Hsp Hr0 Hi0) as (m & He & Hm).
    eexists. split; [|exact Hm]. destruct d; cbn [left_of right_of] in *; unfold left_of, right_of;
      (erewrite SPL_bind_done by exact He); by rewrite cursor_snoc. }
  unfold splay_body. rewrite root_bind, (rn_root _ _ _ _ _ _ _ _ _ Hrun), sroot_node.
  erewrite SPL_bind_done by exact (Hchild _ _ _ _ _ _ Hrun).
  destruct (decide (c = SE)) as [->|Hc]; [cbn [sroot]; exists false, a, va, (node d SE i o), h; split; [done|]; split; [done|]; by exists i, o|].
  destruct (node_of d c Hc) as (x & j & y & ->). rewrite sroot_node. destruct (points d (cmp j)) eqn:Hj.
  - destruct (running_rotate _ _ _ _ _ _ _ _ _ _ _ _ _ Hrun) as (m & He & Hm). rewrite SPL_assoc.
    erewrite SPL_bind_done by exact He. rewrite SPL_assoc, root_bind, SPL_assoc. cbn [sph_root].
    erewrite SPL_bind_done by exact (Hchild _ _ _ _ _ _ Hm). rewrite SPL_ret_bind.
    destruct (decide (x = SE)) as [->|Hx].
    + rewrite bool_decide_true by done. exists false, a, va, (node d SE j (node d y i o)), (SplHead (Some j) m).
      split; [done|]. split; [done|]. by exists j, (node d y i o).
    + rewrite bool_decide_false by (destruct (node_of d x Hx) as (? & ? & ? & ->); by rewrite sroot_node).
      destruct (Hlink _ _ _ _ Hm Hj) as (h' & Hr' & Hrun'). exists true. do 4 eexists. split; [exact Hr'|].
      split; [exact Hrun'|]. split; [done|]. rewrite !ssize_node. lia.
  - rewrite SPL_ret_bind. destruct (Hlink _ _ _ _ Hrun Hi) as (h' & Hr' & Hrun').
    exists true. do 4 eexists. split; [exact Hr'|]. split; [exact Hrun'|]. split; [apply node_ne|]. rewrite (ssize_node d _ i o). lia.
Qed.

(** When the loop has ended, the root is what was searched, or nothing is. *)
Definition centred (cmp : nat → Z) (l : stree) (i : nat) (r : stree) : Prop :=
  cmp i = 0%Z ∨ ((cmp i < 0)%Z ∧ l = SE) ∨ ((0 < cmp i)%Z ∧ r = SE).

Lemma side_of (cmp : nat → Z) i : cmp i ≠ 0%Z → points (if points L (cmp i) then L else R) (cmp i) = true.
Proof. intros Hi. cbn [points]. case_bool_decide; cbn [points]; apply bool_decide_eq_true; lia. Qed.

Lemma loop_spec cmp W fuel lf vl rf vr t h : splits cmp W → running cmp W R lf vl rf vr t h → t ≠ SE → (ssize t < fuel)%nat →
  ∃ lf' vl' rf' vr' l i r h', splay_loop fuel cmp (cursor lf) (cursor rf) h = Done ((cursor lf', cursor rf'), h') ∧
    running cmp W R lf' vl' rf' vr' (SN l i r) h' ∧ centred cmp l i r.
Proof.
  intros Hsp. revert lf vl rf vr t h. induction fuel as [|fuel IH]; intros lf vl rf vr t h Hrun Ht Hf; [lia|].
  cbn [splay_loop]. rewrite root_bind, (rn_root _ _ _ _ _ _ _ _ _ Hrun). destruct t as [|l i r]; [done|]. cbn [sroot].
  rewrite deref_bind. destruct (decide (cmp i = 0%Z)) as [Hi|Hi].
  { rewrite bool_decide_true by done. exists lf, vl, rf, vr, l, i, r, h. split; [done|]. split; [done|by left]. }
  rewrite bool_decide_false by done. pose proof (side_of cmp i Hi) as Hd.
  set (d := if points L (cmp i) then L else R) in *. clearbody d. destruct d.
  - apply running_flip in Hrun. cbn [opp] in Hrun.
    destruct (body_spec cmp W L rf vr lf vl l i r h Hsp Hrun Hd) as (go & a' & va' & t' & h' & He & Hr' & Hgo).
    unfold left_of, right_of in He. erewrite SPL_bind_done by exact He. apply running_flip in Hr'. cbn [opp] in Hr'. destruct go.
    + destruct Hgo as [Ht' Hsz]. apply (IH _ _ _ _ t' h' Hr' Ht'). cbn [node] in Hsz. lia.
    + destruct Hgo as (k & y & -> & Hk). exists lf, vl, a', va', SE, k, y, h'. split; [done|]. split; [done|].
      right. left. split; [|done]. by apply bool_decide_eq_true in Hk.
  - destruct (body_spec cmp W R lf vl rf vr r i l h Hsp Hrun Hd) as (go & a' & va' & t' & h' & He & Hr' & Hgo).
    unfold left_of, right_of in He. erewrite SPL_bind_done by exact He. destruct go.
    + destruct Hgo as [Ht' Hsz]. apply (IH _ _ _ _ t' h' Hr' Ht'). cbn [node ssize] in Hsz, Hf. lia.
    + destruct Hgo as (k & y & -> & Hk). exists a', va', rf, vr, y, k, SE, h'. split; [done|]. split; [done|].
      right. right. split; [|done]. apply bool_decide_eq_true in Hk. lia.
Qed.

(** ** Putting the parts together *)
Lemma assemble_spec cmp W lf vl rf vr l i r h : running cmp W R lf vl rf vr (SN l i r) h →
  ∃ e m, SPLAY_ASSEMBLE (cursor lf) (cursor rf) h = Done (tt, SplHead (Some i) m) ∧
    sat m ((Local, e) :: tf (SN (plug R lf l) i (plug L rf r)) ++ fr).
Proof.
  intros [Hs Hr _ _ _]. cbn [sroot] in Hr.
  assert (Hch : ∀ d va vb m, sat m (loop_facts R lf va rf vb (SN l i r)) →
    SPLAY_CHILD d (Some i) (SplHead (Some i) m) = Done (match d with L => sroot l | R => sroot r end, SplHead (Some i) m)).
  { clear. intros d va vb m Hm. unfold loop_facts in Hm. rewrite app_comm_cons, (assoc app) in Hm.
    destruct d; [exact (child_node L l i r _ fr (SplHead (Some i) m) Hm)|exact (child_node R r i l _ fr (SplHead (Some i) m) Hm)]. }
  destruct h as [p m0]. cbn [sph_root spl_nodes] in *. subst p.
  unfold SPLAY_ASSEMBLE. rewrite root_bind. cbn [sph_root]. erewrite SPL_bind_done by exact (Hch L vl vr m0 Hs).
  destruct (cursor_facts fr R lf vl rf vr (SN l i r) (sroot l)) as (e1 & rest1 & Hp1 & Hp1'). rewrite Hp1 in Hs.
  destruct (wr_sat R _ (sroot l) _ _ (SplHead (Some i) m0) Hs) as (m1 & Hw1 & Hs1). rewrite <-Hp1' in Hs1.
  erewrite SPL_bind_done by exact Hw1. rewrite root_bind. cbn [sph_root].
  erewrite SPL_bind_done by exact (Hch R (sroot l) vr m1 Hs1).
  destruct (cursor_facts fr L rf vr lf (sroot l) (SN l i r) (sroot r)) as (e2 & rest2 & Hp2 & Hp2').
  rewrite <-(loop_facts_flip fr R), Hp2 in Hs1.
  destruct (wr_sat L _ (sroot r) _ _ (SplHead (Some i) m1) Hs1) as (m2 & Hw2 & Hs2). rewrite <-Hp2' in Hs2.
  erewrite SPL_bind_done by exact Hw2.
  set (e := mk L (first rf (sroot r)) (first lf (sroot l))).
  assert (Hp : loop_facts L rf (sroot r) lf (sroot l) (SN l i r) ≡ₚ
    (Elm i, SplEntry (sroot l) (sroot r)) :: (Local, e) :: (tf (plug R lf l) ++ tf (plug L rf r)) ++ fr).
  { rewrite !tf_plug. unfold loop_facts. cbn [tf opp]. fold e. cbn [app]. rewrite (Permutation_app_swap_app (cf L rf (sroot r))).
    rewrite <-!(assoc app), <-!Permutation_middle, Permutation_swap. do 2 apply Permutation_skip.
    apply Permutation_app_head, Permutation_app_swap_app. }
  rewrite Hp in Hs2. pose proof Hs2 as Hl. rewrite Permutation_swap in Hl.
  erewrite SPL_bind_done by (apply spl_rd_done; by eapply sat_get). rewrite root_bind. cbn [sph_root spe_get e mk spe_right].
  destruct (set_child_sat L i (first lf (sroot l)) _ _ (SplHead (Some i) m2) Hs2) as (m3 & Hw3 & Hs3).
  erewrite SPL_bind_done by exact Hw3. pose proof Hs3 as Hl3. rewrite Permutation_swap in Hl3.
  erewrite SPL_bind_done by (apply spl_rd_done; cbn [spl_nodes]; by eapply sat_get). rewrite root_bind. cbn [sph_root].
  destruct (set_child_sat R i (first rf (sroot r)) _ _ (SplHead (Some i) m3) Hs3) as (m4 & Hw4 & Hs4).
  exists e, m4. split; [exact Hw4|]. rewrite Permutation_swap in Hs4. cbn [tf]. by rewrite !sroot_plug.
Qed.

(** A head and the entries of a tree. *)
Record srep (h : spl_head) (t : stree) : Prop := Srep {
  sr_sat : sat (spl_nodes h) (tf t ++ fr);
  sr_root : sph_root h = sroot t
}.

(** The root is where the elements were split. *)
Definition split_here (cmp : nat → Z) (W : list nat) (t : stree) : Prop :=
  ∃ l i r, t = SN l i r ∧ sinorder t = W ∧
    Forall (fun j => 0 < cmp j)%Z (sinorder l) ∧ Forall (fun j => cmp j < 0)%Z (sinorder r).

Lemma running_split cmp W lf vl rf vr l i r h : splits cmp W → running cmp W R lf vl rf vr (SN l i r) h →
  centred cmp l i r → split_here cmp W (SN (plug R lf l) i (plug L rf r)).
Proof.
  intros Hsp [_ _ Ho Ha Hb] Hc. exists (plug R lf l), i, (plug L rf r). split; [done|].
  assert (HW : sinorder (SN (plug R lf l) i (plug L rf r)) = W).
  { rewrite <-Ho. unfold whole. cbn [opp sinorder]. destruct (plug_split L rf r) as (y & Hy & _).
    destruct (plug_split L rf (SN l i r)) as (y' & Hy' & _). clear - Hc.
    revert Hc. intros _. induction lf as [|[o x] lf IH]; cbn [plug].
    - clear. induction rf as [|[o x] rf IH]; cbn [plug]; [done|]. rewrite !sinorder_node, <-IH, <-(assoc app). done.
    - rewrite !sinorder_node, <-IH, <-(assoc app). done. }
  split; [done|]. cbn [sinorder] in HW. symmetry in HW. destruct (Hsp _ _ _ HW) as [H1 H2].
  assert (Hplug : ∀ d fs (P : nat → Prop), Forall P (celems fs) → Forall P (sinorder (plug d fs SE))).
  { clear. intros d fs P HP. destruct (plug_split d fs SE) as (l & -> & Hl). apply Forall_forall. intros j Hj.
    rewrite Forall_forall in HP. apply HP, Hl. destruct d; set_solver. }
  destruct Hc as [Hi|[[Hi ->]|[Hi ->]]].
  - split; [apply H1|apply H2]; lia.
  - split; [|apply H2; lia]. apply Hplug. eapply Forall_impl; [exact Ha|]. intros j Hj.
    apply bool_decide_eq_true in Hj. by apply Z.gt_lt.
  - split; [apply H1; lia|]. apply Hplug. eapply Forall_impl; [exact Hb|]. intros j Hj. by apply bool_decide_eq_true in Hj.
Qed.

Lemma splay_correct cmp h t : Local ∉ fr.*1 → srep h t → t ≠ SE → splits cmp (sinorder t) →
  ∃ t' h', SPLAY cmp h = Done (tt, h') ∧ srep h' t' ∧ split_here cmp (sinorder t) t'.
Proof.
  intros Hfr [Hs Hr] Ht Hsp. unfold SPLAY, local_node. unfold mbind at 1, SPL_bind at 1.
  set (h0 := SplHead (sph_root h) (<[Local := SplEntry None None]> (spl_nodes h))).
  assert (Hnew : sat (spl_nodes h0) (loop_facts R [] None [] None t)).
  { apply sat_new; [|done]. change (Local ∉ (tf t ++ fr).*1). rewrite fmap_app, elem_of_app. intros [(i & [=] & _)%tf_elm|Hin]; by apply Hfr. }
  assert (Hrun : running cmp (sinorder t) R [] None [] None t h0).
  { split; [done|done|done|constructor|constructor]. }
  pose proof (sat_size _ _ Hnew) as Hsz. unfold loop_facts in Hsz. cbn [length cf app] in Hsz. rewrite length_app, tf_length in Hsz.
  destruct (loop_spec cmp _ (S (size (spl_nodes h0))) [] None [] None t h0 Hsp Hrun Ht ltac:(lia))
    as (lf & vl & rf & vr & l & i & r & h1 & Hl & Hrun1 & Hc).
  unfold spl_fuel. erewrite SPL_bind_done by exact Hl. destruct (assemble_spec _ _ _ _ _ _ _ _ _ _ Hrun1) as (e & m & Ha & Hm).
  erewrite SPL_bind_done by exact Ha. exists (SN (plug R lf l) i (plug L rf r)). eexists. split; [done|].
  split; [split; [by apply sat_drop in Hm|done]|]. by eapply running_split.
Qed.

End frame.

(** [SPLAY_MINMAX] is [SPLAY] with a comparison that always comes out the same. *)
Lemma minmax_loop_splay comp fuel l r h : comp ≠ 0%Z → minmax_loop fuel comp l r h = splay_loop fuel (fun _ => comp) l r h.
Proof.
  intros Hc. revert l r h. induction fuel as [|fuel IH]; intros l r h; [done|]. cbn [minmax_loop splay_loop].
  rewrite root_bind, bool_decide_false by done. destruct (sph_root h) as [i|] eqn:Hr.
  - rewrite deref_bind. unfold mbind, SPL_bind.
    destruct (splay_body _ _ l r h) as [[[[go l'] r'] h']| |]; [|done|done]. destruct go; [apply IH|done].
  - unfold splay_body. rewrite SPL_assoc, root_bind, Hr. done.
Qed.

Lemma minmax_splay comp h : comp ≠ 0%Z → SPLAY_MINMAX comp h = SPLAY (fun _ => comp) h.
Proof.
  intros Hc. unfold SPLAY_MINMAX, SPLAY, local_node, spl_fuel, mbind, SPL_bind. by rewrite minmax_loop_splay.
Qed.
