(* ===== verification/SplayMap.v ===== *)
(** * The splay tree as a finite map

    The operations of [SPLAY_GENERATE] and [SPLAY_FOREACH] against the same
    specification as the red-black trees of the header ([RBMap]). *)

From S2P Require Import Prelude RBTree RBShape RBInsert RBIter RBIndex RBMap Splay SplayTree SplaySpec.

(** ** The elements that can be linked *)

(** A macro leaves every element where it is in memory. *)
Definition stays {A : Type} (c : SPL A) : Prop :=
  ∀ h a h', c h = Done (a, h') → ∀ i, is_Some (spl_nodes h !! Elm i) → is_Some (spl_nodes h' !! Elm i).

Create HintDb stays.

Lemma stays_ret {A} (a : A) : stays (mret a).
Proof. intros h x h' [= <- <-]. done. Qed.

Lemma stays_bind {A B} (c : SPL A) (f : A → SPL B) : stays c → (∀ a, stays (f a)) → stays (c ≫= f).
Proof.
  intros Hc Hf h b h' He i Hi. unfold mbind, SPL_bind in He. destruct (c h) as [[a h1]| |] eqn:E; [|done..].
  eapply Hf; [exact He|]. by eapply Hc.
Qed.

Lemma stays_root : stays SPLAY_ROOT.
Proof. intros h x h' [= <- <-]. done. Qed.

Lemma stays_set_root v : stays (set_sph_root v).
Proof. intros h x h' [= <- <-]. done. Qed.

Lemma stays_deref p : stays (spl_deref p).
Proof. intros h x h' He. destruct p; [injection He as <- <-|discriminate He]. done. Qed.

Lemma stays_rd d c : stays (spl_rd d c).
Proof. intros h x h' He. unfold spl_rd in He. destruct (spl_nodes h !! c); [injection He as <- <-|discriminate He]. done. Qed.

Lemma stays_wr d c v : stays (spl_wr d c v).
Proof.
  intros h x h' He i Hi. unfold spl_wr in He. destruct (spl_nodes h !! c); [injection He as <- <-|discriminate He].
  cbn [spl_nodes]. rewrite lookup_insert. case_decide; by eauto.
Qed.

Lemma stays_spin {A} : stays ((fun _ => Spin) : SPL A).
Proof. intros h x h' [=]. Qed.

Lemma stays_fuel {A} (f : nat → SPL A) : (∀ n, stays (f n)) → stays (spl_fuel f).
Proof. intros Hf h x h' He. exact (Hf _ h x h' He). Qed.

Lemma stays_local : stays local_node.
Proof. intros h x h' [= <- <-] i Hi. cbn [spl_nodes]. by rewrite lookup_insert_ne. Qed.

Lemma stays_local_end : stays local_end.
Proof. intros h x h' [= <- <-] i Hi. cbn [spl_nodes]. by rewrite lookup_delete_ne. Qed.

#[export] Hint Resolve stays_ret stays_root stays_set_root stays_deref stays_rd stays_wr stays_spin
  stays_fuel stays_local stays_local_end : stays.

Ltac stays :=
  repeat first
    [ solve [auto with stays nocore]
    | apply stays_bind; [|intros ?]
    | apply stays_fuel; intros ?
    | progress unfold SPLAY_CHILD, set_spl_child, SPLAY_EMPTY
    | match goal with |- stays (match ?x with _ => _ end) => destruct x end ].

Lemma stays_body d again l r : stays (splay_body d again l r).
Proof. unfold splay_body, SPLAY_ROTATE, SPLAY_LINK. stays. Qed.
#[export] Hint Resolve stays_body : stays.

Lemma stays_splay_loop fuel cmp l r : stays (splay_loop fuel cmp l r).
Proof.
  revert l r. induction fuel as [|fuel IH]; intros l r; cbn [splay_loop]; [apply stays_spin|].
  stays.
Qed.
#[export] Hint Resolve stays_splay_loop : stays.

Lemma stays_splay cmp : stays (SPLAY cmp).
Proof. unfold SPLAY, SPLAY_ASSEMBLE. stays. Qed.
#[export] Hint Resolve stays_splay : stays.

Lemma stays_find cmp : stays (SPLAY_FIND cmp).
Proof. unfold SPLAY_FIND. stays. Qed.

Lemma stays_insert cmp e : stays (SPLAY_INSERT cmp e).
Proof. unfold SPLAY_INSERT. stays. Qed.

Lemma stays_remove cmp e : stays (SPLAY_REMOVE cmp e).
Proof. unfold SPLAY_REMOVE. stays. Qed.

(** ** The operations and the order of the elements *)
Definition sorder (h : spl_head) (W : list nat) : Prop := ∃ t, srep [] h t ∧ sinorder t = W.

Lemma sorder_root h W : sorder h W → (sph_root h = None ↔ W = []).
Proof.
  intros (t & Hr & <-). rewrite (sr_root _ _ _ Hr). destruct t as [|l i r]; [done|]. cbn [sroot sinorder].
  split; [done|]. by destruct (sinorder l).
Qed.

(** Splaying a tree that has elements. *)
Lemma splay_order cmp h W : sorder h W → W ≠ [] → splits cmp W →
  ∃ l i r h', SPLAY cmp h = Done (tt, h') ∧ srep [] h' (SN l i r) ∧ sinorder (SN l i r) = W ∧
    Forall (fun j => 0 < cmp j)%Z (sinorder l) ∧ Forall (fun j => cmp j < 0)%Z (sinorder r).
Proof.
  intros (t & Hr & <-) Hne Hsp. destruct (splay_correct [] cmp h t) as (t' & h' & He & Hr' & l & i & r & -> & HW & Hl & Hrr).
  - by intros ?%elem_of_nil.
  - done.
  - by intros ->.
  - done.
  - by exists l, i, r, h'.
Qed.

Lemma spl_empty_bind {B} h W (f : bool → SPL B) : sorder h W →
  (SPLAY_EMPTY ≫= f) h = f (bool_decide (W = [])) h.
Proof.
  intros Hs. unfold SPLAY_EMPTY. rewrite SPL_assoc, root_bind, SPL_ret_bind. f_equal.
  apply bool_decide_ext. by apply sorder_root.
Qed.

Section key.
Context (key : nat → Z).

Lemma sorted_splits k W : sorted_by key W → splits (key_cmp key k) W.
Proof.
  intros Hs l1 i l2 ->. unfold sorted_by in Hs. apply StronglySorted_app in Hs as (H1 & _ & H2).
  apply StronglySorted_inv in H2 as [_ H2]. unfold key_cmp. split; intros Hi; apply Forall_forall; intros j Hj.
  - specialize (H1 j i Hj ltac:(by left)). cbn beta in H1. lia.
  - rewrite Forall_forall in H2. specialize (H2 j Hj). cbn beta in H2. lia.
Qed.

(** The element at the root is the one with the key, if there is one. *)
Lemma root_found k l i r : Forall (fun j => 0 < key_cmp key k j)%Z (sinorder l) →
  Forall (fun j => key_cmp key k j < 0)%Z (sinorder r) →
  ∀ j, j ∈ sinorder (SN l i r) → key j = k → j = i.
Proof.
  intros Hl Hr j Hj Hk. cbn [sinorder] in Hj. rewrite elem_of_app, elem_of_cons in Hj. rewrite Forall_forall in Hl, Hr.
  unfold key_cmp in *. destruct Hj as [Hj|[Hj|Hj]]; [specialize (Hl j Hj); lia|done|specialize (Hr j Hj); lia].
Qed.

Lemma find_order k h W : sorder h W → sorted_by key W →
  ∃ res h', SPLAY_FIND (key_cmp key k) h = Done (res, h') ∧ sorder h' W ∧
    match res with Some i => i ∈ W ∧ key i = k | None => ∀ i, i ∈ W → key i ≠ k end.
Proof.
  intros Ho Hs. unfold SPLAY_FIND. rewrite (spl_empty_bind h W) by done. case_bool_decide as HW.
  { exists None, h. split; [done|]. split; [done|]. intros i Hi. rewrite HW in Hi. by apply elem_of_nil in Hi. }
  destruct (splay_order (key_cmp key k) h W Ho HW (sorted_splits k W Hs)) as (l & i & r & h' & He & Hr & HWt & Hl & Hrr).
  erewrite SPL_bind_done by exact He. rewrite root_bind, (sr_root _ _ _ Hr). cbn [sroot]. rewrite deref_bind.
  assert (Ho' : sorder h' W) by (by exists (SN l i r)). case_bool_decide as Hi.
  - exists (Some i), h'. split; [done|]. split; [done|].
    split; [rewrite <-HWt; cbn [sinorder]; set_solver|unfold key_cmp in Hi; lia].
  - exists None, h'. split; [done|]. split; [done|]. intros j Hj Hk. rewrite <-HWt in Hj.
    assert (j = i) as -> by by eapply root_found. apply Hi. unfold key_cmp. lia.
Qed.

(** A search moves what it finds to the root. *)
Lemma find_root k h W : sorder h W → sorted_by key W → ∀ j, j ∈ W → key j = k →
  ∃ h', SPLAY_FIND (key_cmp key k) h = Done (Some j, h') ∧ sph_root h' = Some j.
Proof.
  intros Ho Hs j Hj Hk. unfold SPLAY_FIND. rewrite (spl_empty_bind h W) by done.
  assert (HW : W ≠ []) by (intros ->; by apply elem_of_nil in Hj). rewrite bool_decide_false by done.
  destruct (splay_order (key_cmp key k) h W Ho HW (sorted_splits k W Hs)) as (l & i & r & h' & He & Hr & HWt & Hl & Hrr).
  erewrite SPL_bind_done by exact He. rewrite root_bind, (sr_root _ _ _ Hr). cbn [sroot]. rewrite deref_bind.
  rewrite <-HWt in Hj. assert (j = i) as -> by by eapply root_found. rewrite bool_decide_true by (unfold key_cmp; lia).
  exists h'. split; [done|]. by rewrite (sr_root _ _ _ Hr).
Qed.

(** Linking a new root: the old one keeps its far side. *)
Lemma insert_links d a i b e h : srep [] h (node d a i b) → is_Some (spl_nodes h !! Elm e) → e ∉ sinorder (node d a i b) →
  ∃ h', (v ← SPLAY_CHILD d (Some i);
         _ ← spl_wr d (Elm e) v;
         r ← SPLAY_ROOT;
         _ ← spl_wr (opp d) (Elm e) r;
         r ← SPLAY_ROOT;
         _ ← set_spl_child d r None;
         set_sph_root (Some e)) h = Done (tt, h') ∧ srep [] h' (node d a e (node d SE i b)).
Proof.
  intros [Hs Hr] [old Hold] Hne. rewrite sroot_node in Hr. rewrite app_nil_r in Hs.
  assert (Hs0 : sat (spl_nodes h) ((Elm e, old) :: tf (node d a i b))).
  { split.
    - cbn [fmap list_fmap fst]. apply NoDup_cons. split; [|by destruct Hs]. by intros (j & [= <-] & Hj)%tf_elm.
    - intros c x [[= -> ->]|Hin]%elem_of_cons; [done|]. by apply Hs. }
  assert (Heta : old = mk d (spe_get d old) (spe_get (opp d) old)) by by destruct old, d.
  rewrite Heta in Hs0. clear Heta. rewrite tf_node in Hs0. pose proof Hs0 as Hi. rewrite Permutation_swap in Hi.
  erewrite SPL_bind_done by exact (child_sat d i _ _ h Hi). rewrite spe_get_mk.
  destruct (wr_sat d (Elm e) (sroot a) _ _ h Hs0) as (m1 & Hw1 & Hs1). erewrite SPL_bind_done by exact Hw1.
  rewrite spe_put_mk in Hs1. rewrite root_bind. cbn [sph_root]. rewrite Hr.
  destruct (wr_sat (opp d) (Elm e) (Some i) _ _ (SplHead (Some i) m1) Hs1) as (m2 & Hw2 & Hs2).
  erewrite SPL_bind_done by exact Hw2. rewrite spe_put_opp in Hs2. rewrite root_bind. cbn [sph_root].
  rewrite Permutation_swap in Hs2. destruct (set_child_sat d i None _ _ (SplHead (Some i) m2) Hs2) as (m3 & Hw3 & Hs3).
  erewrite SPL_bind_done by exact Hw3. rewrite spe_put_mk, Permutation_swap in Hs3.
  eexists. split; [done|]. split; [|by rewrite sroot_node]. cbn [spl_nodes]. rewrite app_nil_r, !tf_node, sroot_node.
  cbn [tf sroot app]. by rewrite <-Permutation_middle.
Qed.

Lemma insert_order e h W : sorder h W → sorted_by key W → is_Some (spl_nodes h !! Elm e) →
  ∃ res h', SPLAY_INSERT (key_cmp key (key e)) e h = Done (res, h') ∧
    match res with
    | Some j => sorder h' W ∧ j ∈ W ∧ key j = key e
    | None => (∀ i, i ∈ W → key i ≠ key e) ∧ ∃ A B, W = A ++ B ∧ sorder h' (A ++ e :: B) ∧ sorted_by key (A ++ e :: B)
    end.
Proof.
  intros Ho Hs Hold. unfold SPLAY_INSERT. rewrite (spl_empty_bind h W) by done. case_bool_decide as HW.
  { destruct Hold as [old Hold].
    assert (Hs0 : sat (spl_nodes h) [(Elm e, mk R (spe_right old) (spe_left old))]).
    { split; [apply NoDup_singleton|]. intros c x Hin%list_elem_of_singleton. injection Hin as -> ->. by destruct old. }
    destruct (wr_sat R (Elm e) None _ _ h Hs0) as (m1 & Hw1 & Hs1). rewrite spe_put_mk in Hs1.
    destruct (wr_sat L (Elm e) None _ _ (SplHead (sph_root h) m1) Hs1) as (m2 & Hw2 & Hs2).
    rewrite !SPL_assoc. erewrite SPL_bind_done by exact Hw1. rewrite SPL_assoc. erewrite SPL_bind_done by exact Hw2.
    rewrite SPL_ret_bind. exists None. eexists. split; [done|]. rewrite HW.
    split; [intros i Hi; by apply elem_of_nil in Hi|]. exists [], []. split; [done|]. split.
    - by exists (SN SE e SE).
    - by repeat constructor. }
  destruct (splay_order _ h W Ho HW (sorted_splits (key e) W Hs)) as (l & i & r & h1 & He & Hr & HWt & Hl & Hrr).
  pose proof (stays_splay _ _ _ _ He e Hold) as Hold1.
  rewrite SPL_assoc. erewrite SPL_bind_done by exact He. rewrite SPL_assoc, root_bind, (sr_root _ _ _ Hr). cbn [sroot].
  rewrite SPL_assoc, deref_bind. cbv zeta. case_bool_decide as Hi.
  { exists (Some i), h1. split; [done|]. split; [by exists (SN l i r)|].
    split; [rewrite <-HWt; cbn [sinorder]; set_solver|unfold key_cmp in Hi; lia]. }
  assert (Hnew : ∀ j, j ∈ W → key j ≠ key e).
  { intros j Hj Hk. rewrite <-HWt in Hj. assert (j = i) as -> by by eapply root_found. apply Hi. unfold key_cmp. lia. }
  pose proof (side_of (key_cmp key (key e)) i Hi) as Hd. set (d := if points L _ then L else R) in *. clearbody d.
  assert (Hcase : ∃ a b A B, node d a i b = SN l i r ∧ W = A ++ B ∧ sinorder (node d a e (node d SE i b)) = A ++ e :: B ∧
    (∀ j, j ∈ A → key j < key e)%Z ∧ (∀ j, j ∈ B → key e < key j)%Z).
  { rewrite Forall_forall in Hl, Hrr. unfold key_cmp in *. cbn [sinorder] in HWt.
    destruct d; cbn [points] in Hd; apply bool_decide_eq_true in Hd.
    - exists l, r, (sinorder l), (i :: sinorder r). split; [done|]. split; [done|]. split; [done|].
      split; [intros j Hj; specialize (Hl j Hj); lia|]. intros j [->|Hj]%elem_of_cons; [lia|specialize (Hrr j Hj); lia].
    - exists r, l, (sinorder l ++ [i]), (sinorder r). split; [done|]. split; [by rewrite <-(assoc app)|]. split; [done|].
      split; [|intros j Hj; specialize (Hrr j Hj); lia].
      intros j [Hj| ->%list_elem_of_singleton]%elem_of_app; [specialize (Hl j Hj); lia|lia]. }
  destruct Hcase as (a & b & A & B & Hnode & HAB & Hord & HA & HB). rewrite <-Hnode in Hr.
  destruct (insert_links d a i b e h1 Hr Hold1) as (h' & Hins & Hr').
  { intros Hin. rewrite Hnode, HWt in Hin. by apply (Hnew e). }
  exists None, h'. split; [|split; [done|exists A, B; split; [done|split; [by eexists|]]]].
  - revert Hins. clear. unfold mbind, SPL_bind. destruct (SPLAY_CHILD d (Some i) h1) as [[v h2]| |]; [|done..].
    destruct (spl_wr d (Elm e) v h2) as [[? h3]| |]; [|done..]. destruct (SPLAY_ROOT h3) as [[r3 h4]| |]; [|done..].
    destruct (spl_wr (opp d) (Elm e) r3 h4) as [[? h5]| |]; [|done..]. destruct (SPLAY_ROOT h5) as [[r5 h6]| |]; [|done..].
    destruct (set_spl_child d r5 None h6) as [[? h7]| |]; [|done..]. cbn. by intros [= <-].
  - apply sorted_mid; [by rewrite <-HAB|done|done].
Qed.

(** After splaying at an element of the tree it is the root. *)
Lemma splay_at e h A B : sorder h (A ++ e :: B) → sorted_by key (A ++ e :: B) →
  ∃ l r h', SPLAY (key_cmp key (key e)) h = Done (tt, h') ∧ srep [] h' (SN l e r) ∧ sinorder l = A ∧ sinorder r = B.
Proof.
  intros Ho Hs.
  destruct (splay_order _ h _ Ho ltac:(by destruct A) (sorted_splits (key e) _ Hs)) as (l & i & r & h1 & He & Hr & HWt & Hl & Hrr).
  assert (e = i) as <-.
  { eapply root_found; [exact Hl|exact Hrr| |done]. rewrite HWt. set_solver. }
  exists l, r, h1. split; [done|]. split; [done|]. cbn [sinorder] in HWt.
  pose proof (sr_sat _ _ _ Hr) as Hsat. rewrite app_nil_r in Hsat. apply tf_nodup in Hsat. cbn [sinorder] in Hsat.
  assert (sinorder r = B) as <- by by eapply nodup_split_eq. split; [|done]. by apply app_inv_tail in HWt.
Qed.

(** [SPLAY_RIGHT] of the root that the largest element is. *)
Lemma right_end k l i r : Forall (fun j => 0 < key_cmp key k j)%Z (sinorder (SN l i r)) →
  Forall (fun j => key_cmp key k j < 0)%Z (sinorder r) → r = SE.
Proof.
  intros H1 H2. destruct r as [|a j b]; [done|]. cbn [sinorder] in H1, H2. exfalso. rewrite Forall_forall in H1, H2.
  assert (Hj : j ∈ sinorder a ++ j :: sinorder b) by set_solver. specialize (H2 j Hj). specialize (H1 j ltac:(set_solver)). lia.
Qed.

Lemma remove_order e h A B : sorder h (A ++ e :: B) → sorted_by key (A ++ e :: B) →
  ∃ h', SPLAY_REMOVE (key_cmp key (key e)) e h = Done (Some e, h') ∧ sorder h' (A ++ B).
Proof.
  intros Ho Hs. unfold SPLAY_REMOVE. rewrite (spl_empty_bind h _) by done. rewrite bool_decide_false by by destruct A.
  destruct (splay_at e h A B Ho Hs) as (l & r & h1 & He & Hr & <- & <-). erewrite SPL_bind_done by exact He.
  destruct h1 as [p m]. destruct Hr as [Hsat Hroot]. cbn [spl_nodes sph_root] in *. subst p. cbn [sroot].
  rewrite root_bind. cbn [sph_root]. rewrite deref_bind, bool_decide_true by (unfold key_cmp; lia).
  pose proof Hsat as Hent. cbn [tf app] in Hent.
  erewrite SPL_bind_done by exact (child_sat L e _ _ (SplHead (Some e) m) Hent). cbn [spe_get spe_left].
  destruct l as [|ll i lr]; cbn [sroot].
  - rewrite SPL_assoc. erewrite SPL_bind_done by exact (child_sat R e _ _ (SplHead (Some e) m) Hent).
    rewrite set_root_bind. eexists. split; [done|]. exists r. split; [|done]. split; [|done].
    rewrite app_nil_r. by apply (sat_app_r _ [(Elm e, SplEntry None (sroot r))]); rewrite app_nil_r in Hent.
  - rewrite SPL_assoc. erewrite SPL_bind_done by exact (child_sat R e _ _ (SplHead (Some e) m) Hent). cbn [spe_get spe_right].
    rewrite SPL_assoc. erewrite SPL_bind_done by exact (child_sat L e _ _ (SplHead (Some e) m) Hent). cbn [spe_get spe_left].
    rewrite SPL_assoc, set_root_bind. cbn [spl_nodes].
    set (left := SN ll i lr) in *. set (fr := (Elm e, SplEntry (sroot left) (sroot r)) :: tf r).
    assert (Hleft : srep fr (SplHead (sroot left) m) left).
    { split; [|done]. cbn [spl_nodes]. unfold fr. rewrite <-Permutation_middle. rewrite app_nil_r in Hent. exact Hent. }
    assert (Hlt : Forall (fun j => 0 < key_cmp key (key e) j)%Z (sinorder left)).
    { destruct (sorted_splits (key e) _ Hs (sinorder left) e (sinorder r) eq_refl) as [H1 _]. apply H1. unfold key_cmp. lia. }
    destruct (splay_correct fr (key_cmp key (key e)) (SplHead (sroot left) m) left) as (t' & h2 & He2 & Hr2 & l2 & k & r2 & -> & HW2 & _ & Hr2lt).
    { unfold fr. cbn [fmap list_fmap fst]. rewrite elem_of_cons. intros [[=]|(j & [=] & _)%tf_elm]. }
    { exact Hleft. }
    { done. }
    { intros l1 j l3 HW. rewrite HW in Hlt. apply Forall_app in Hlt as [Hl1 Hlt]. apply Forall_cons in Hlt as [Hj _].
      split; [done|]. cbn beta in Hj. lia. }
    rewrite SPL_assoc. erewrite SPL_bind_done by exact He2.
    assert (r2 = SE) as -> by (eapply right_end; [by rewrite HW2|done]).
    destruct h2 as [p2 m2]. destruct Hr2 as [Hsat2 Hroot2]. cbn [spl_nodes sph_root sroot] in *. subst p2.
    rewrite SPL_assoc, root_bind. cbn [sph_root]. unfold fr in Hsat2. cbn [tf app] in Hsat2.
    destruct (set_child_sat R k (sroot r) _ _ (SplHead (Some k) m2) Hsat2) as (m3 & Hw3 & Hs3).
    erewrite SPL_bind_done by exact Hw3. eexists. split; [done|]. exists (SN l2 k r). split.
    + split; [|done]. cbn [spl_nodes]. rewrite app_nil_r in Hs3 |- *. rewrite <-Permutation_middle, Permutation_swap in Hs3.
      by apply (sat_app_r _ [(Elm e, SplEntry (sroot left) (sroot r))]) in Hs3.
    + cbn [sinorder] in HW2 |- *. rewrite <-HW2, <-(assoc app). done.
Qed.

(** ** Traversal *)
Lemma spl_leftmost_spec fuel l i r fs gs h : sat (spl_nodes h) (fs ++ tf (SN l i r) ++ gs) → (ssize l < fuel)%nat →
  spl_leftmost fuel (Some i) h = Done (head (sinorder (SN l i r)), h).
Proof.
  revert l i r fs gs. induction fuel as [|fuel IH]; intros l i r fs gs Hs Hf; [lia|]. cbn [spl_leftmost].
  erewrite SPL_bind_done by exact (child_node L l i r fs gs h Hs). destruct l as [|l1 j l2]; cbn [sroot]; [done|].
  rewrite (IH l1 j l2 (fs ++ [(Elm i, SplEntry (Some j) (sroot r))]) (tf r ++ gs));
    [|change (tf (SN (SN l1 j l2) i r)) with ((Elm i, SplEntry (Some j) (sroot r)) :: tf (SN l1 j l2) ++ tf r) in Hs;
      rewrite <-app_comm_cons, <-(assoc app (tf _)) in Hs; by rewrite <-(assoc app fs)|cbn [ssize] in Hf; lia].
  cbn [sinorder]. by destruct (sinorder l1).
Qed.

Lemma next_order e h A B : sorder h (A ++ e :: B) → sorted_by key (A ++ e :: B) →
  ∃ h', SPLAY_NEXT (key_cmp key (key e)) e h = Done (head B, h') ∧ sorder h' (A ++ e :: B).
Proof.
  intros Ho Hs. destruct (splay_at e h A B Ho Hs) as (l & r & h1 & He & Hr & <- & <-).
  unfold SPLAY_NEXT. erewrite SPL_bind_done by exact He. exists h1. split; [|by exists (SN l e r)].
  pose proof (sr_sat _ _ _ Hr) as Hsat. erewrite SPL_bind_done by exact (child_node R r e l [] [] h1 Hsat).
  destruct r as [|a i b]; cbn [sroot]; [done|]. pose proof (sat_size _ _ Hsat) as Hsz.
  rewrite app_nil_r, tf_length in Hsz. cbn [ssize] in Hsz. unfold spl_fuel.
  apply (spl_leftmost_spec _ a i b ((Elm e, SplEntry (sroot l) (Some i)) :: tf l) []); [|lia].
  cbn [tf app sroot] in *. by rewrite <-(assoc app) in Hsat.
Qed.

Lemma const_splits (c : Z) W : c ≠ 0%Z → (0 < c ∨ c < 0)%Z → splits (fun _ => c) W.
Proof. intros Hc Hs l1 i l2 _. split; intros Hi; apply Forall_forall; intros j _; lia. Qed.

Lemma const_side (c : Z) (W : list nat) (P : Z → Prop) : Forall (fun _ => P c) W → ¬ P c → W = [].
Proof. intros HF HP. destruct W as [|x W]; [done|]. by apply Forall_cons in HF as [? _]. Qed.

Lemma min_order h W : sorder h W → ∃ h', SPLAY_MIN h = Done (head W, h') ∧ sorder h' W.
Proof.
  intros Ho. unfold SPLAY_MIN. rewrite (spl_empty_bind h W) by done. case_bool_decide as HW; [exists h; by rewrite HW in Ho |- *|].
  destruct (splay_order (fun _ => SPLAY_NEGINF) h W Ho HW) as (l & i & r & h1 & He & Hr & HWt & Hl & _); [by apply const_splits; [|right]|].
  unfold SPLAY_MIN_MAX. erewrite SPL_bind_done by (rewrite minmax_splay by done; exact He).
  exists h1. split; [|by exists (SN l i r)]. apply (const_side _ _ (fun c => 0 < c)%Z) in Hl; [|done].
  unfold SPLAY_ROOT. rewrite (sr_root _ _ _ Hr), <-HWt. cbn [sinorder sroot]. by rewrite Hl.
Qed.

Lemma max_order h W : sorder h W → ∃ h', SPLAY_MAX h = Done (last W, h') ∧ sorder h' W.
Proof.
  intros Ho. unfold SPLAY_MAX. rewrite (spl_empty_bind h W) by done. case_bool_decide as HW; [exists h; by rewrite HW in Ho |- *|].
  destruct (splay_order (fun _ => SPLAY_INF) h W Ho HW) as (l & i & r & h1 & He & Hr & HWt & _ & Hrr); [by apply const_splits; [|left]|].
  unfold SPLAY_MIN_MAX. erewrite SPL_bind_done by (rewrite minmax_splay by done; exact He).
  exists h1. split; [|by exists (SN l i r)]. apply (const_side _ _ (fun c => c < 0)%Z) in Hrr; [|done].
  unfold SPLAY_ROOT. rewrite (sr_root _ _ _ Hr), <-HWt. cbn [sinorder sroot]. by rewrite Hrr, last_snoc.
Qed.

Lemma foreach_order fuel h A B : sorder h (A ++ B) → sorted_by key (A ++ B) → (length B < fuel)%nat →
  ∃ h', splay_foreach fuel (fun i => key_cmp key (key i)) (head B) h = Done (B, h') ∧ sorder h' (A ++ B).
Proof.
  revert A B h. induction fuel as [|fuel IH]; intros A B h Ho Hs Hf; [lia|]. cbn [splay_foreach].
  destruct B as [|e B]; cbn [head]; [by exists h|].
  destruct (next_order e h A B Ho Hs) as (h1 & He & Ho1). erewrite SPL_bind_done by exact He.
  rewrite (cons_middle e A B), app_assoc in Ho1, Hs |- *.
  destruct (IH (A ++ [e]) B h1 Ho1 Hs ltac:(cbn [length] in Hf; lia)) as (h2 & He2 & Ho2).
  erewrite SPL_bind_done by exact He2. by exists h2.
Qed.

Lemma splay_foreach_order h W : sorder h W → sorted_by key W →
  ∃ h', SPLAY_FOREACH (fun i => key_cmp key (key i)) h = Done (W, h') ∧ sorder h' W.
Proof.
  intros Ho Hs. unfold SPLAY_FOREACH. destruct (min_order h W Ho) as (h1 & He & Ho1). erewrite SPL_bind_done by exact He.
  apply (foreach_order _ h1 [] W); [done|done|]. destruct Ho1 as (t & Hr & <-).
  pose proof (sat_size _ _ (sr_sat _ _ _ Hr)) as Hsz. rewrite app_nil_r, tf_length in Hsz. rewrite sinorder_length. lia.
Qed.

(** ** Sessions *)
Definition spl_step (o : rb_op) : SPL ptr :=
  match o with
  | op_insert i => SPLAY_INSERT (key_cmp key (key i)) i
  | op_find k => SPLAY_FIND (key_cmp key k)
  | op_remove k =>
      e ← SPLAY_FIND (key_cmp key k);
      match e with
      | Some i => _ ← SPLAY_REMOVE (key_cmp key (key i)) i; mret e
      | None => mret None
      end
  end.

Fixpoint spl_run (ops : list rb_op) : SPL (list ptr) :=
  match ops with
  | [] => mret []
  | o :: ops => r ← spl_step o; rs ← spl_run ops; mret (r :: rs)
  end.

Record srefines (n : nat) (h : spl_head) (m : gmap Z nat) (W : list nat) : Prop := Srefines {
  sm_order : sorder h W;
  sm_sorted : sorted_by key W;
  sm_there i : (i < n)%nat → is_Some (spl_nodes h !! Elm i);
  sm_map k i : m !! k = Some i ↔ i ∈ W ∧ key i = k
}.

Lemma srefines_found n h m W k res : srefines n h m W →
  match res with Some i => i ∈ W ∧ key i = k | None => ∀ i, i ∈ W → key i ≠ k end → m !! k = res.
Proof.
  intros Hr. destruct res as [i|]; [intros Hi; by apply (sm_map _ _ _ _ Hr)|]. intros Hne.
  apply eq_None_not_Some. intros [i Hi]. apply (sm_map _ _ _ _ Hr) in Hi as [Hi Hk]. by apply (Hne i).
Qed.

Lemma sfind_step n h m W k : srefines n h m W →
  ∃ h', SPLAY_FIND (key_cmp key k) h = Done (m !! k, h') ∧ srefines n h' m W.
Proof.
  intros Hr. pose proof Hr as [Ho Hs Hn Hm]. destruct (find_order k h W Ho Hs) as (res & h' & He & Ho' & Hres).
  rewrite (srefines_found n h m W k res Hr Hres). exists h'. split; [done|]. split; [done|done| |done].
  intros i Hi. eapply (stays_find _ _ _ _ He). by apply Hn.
Qed.

Lemma srefines_step n h m W o : srefines n h m W → op_ok n o = true →
  ∃ h' W', spl_step o h = Done ((map_step key m o).1, h') ∧ srefines n h' (map_step key m o).2 W'.
Proof.
  intros Hr Hok. pose proof Hr as [Ho Hs Hn Hm]. destruct o as [i|k|k]; cbn [spl_step map_step op_ok] in *.
  - apply bool_decide_eq_true in Hok. destruct (insert_order i h W Ho Hs (Hn i Hok)) as (res & h' & He & Hres).
    assert (Hn' : ∀ j, (j < n)%nat → is_Some (spl_nodes h' !! Elm j)) by (intros j Hj; eapply (stays_insert _ _ _ _ _ He); by apply Hn).
    destruct res as [j|].
    + destruct Hres as (Ho' & Hj & Hk). rewrite (proj2 (Hm (key i) j)) by done. by exists h', W.
    + destruct Hres as (Hne & A & B & -> & Ho' & Hs'). rewrite (srefines_found n h m _ (key i) None Hr Hne).
      exists h', (A ++ i :: B). split; [done|]. split; [done|done|done|]. intros k j. cbn [snd]. rewrite lookup_insert.
      rewrite elem_of_app, elem_of_cons. case_decide as Hk; [|rewrite Hm, elem_of_app; naive_solver].
      split; [naive_solver|]. intros [[Hj|[Hj|Hj]] Hkj]; [|by subst|];
        (exfalso; apply (Hne j); [set_solver|congruence]).
  - destruct (sfind_step n h m W k Hr) as (h' & He & Hr'). by exists h', W.
  - destruct (sfind_step n h m W k Hr) as (h1 & He & Hr1). erewrite SPL_bind_done by exact He.
    destruct (m !! k) as [i|] eqn:Hk; cbn [fst snd]; [|exists h1, W; split; [done|by rewrite delete_id]].
    apply Hm in Hk as [Hi Hk]. apply list_elem_of_split in Hi as (A & B & HAB). pose proof Hr1 as [Ho1 _ Hn1 _].
    rewrite HAB in Ho1, Hs. destruct (remove_order i h1 A B Ho1 Hs) as (h2 & He2 & Ho2). erewrite SPL_bind_done by exact He2.
    exists h2, (A ++ B). split; [done|]. split; [done|by eapply sorted_drop| |].
    + intros j Hj. eapply (stays_remove _ _ _ _ _ He2). by apply Hn1.
    + intros k' j. rewrite lookup_delete_Some, Hm, HAB. rewrite !elem_of_app, elem_of_cons.
      split; [intros (Hne & Hj & Hkj); split; [|done]; destruct Hj as [Hj|[Hj|Hj]]; [by left| |by right]; congruence|].
      intros [Hj Hkj]. split; [|split; [|done]]; [|destruct Hj; auto]. intros E0.
      assert (j = i) as -> by (eapply sorted_inj; [exact Hs|set_solver|set_solver|congruence]).
      destruct Ho1 as (t & Hr' & Ht). pose proof (sr_sat _ _ _ Hr') as Hsat. rewrite app_nil_r in Hsat.
      apply tf_nodup in Hsat. rewrite Ht in Hsat. apply NoDup_app in Hsat as (_ & Hd & Hn2). apply NoDup_cons in Hn2 as [Hn2 _].
      destruct Hj as [Hj|Hj]; [apply (Hd i Hj); set_solver|done].
Qed.

Lemma srefines_run n h m W ops : srefines n h m W → forallb (op_ok n) ops = true →
  ∃ h' W', spl_run ops h = Done ((map_run key m ops).1, h') ∧ srefines n h' (map_run key m ops).2 W'.
Proof.
  revert h m W. induction ops as [|o ops IH]; intros h m W Hr Hok; cbn [spl_run map_run forallb] in *; [by exists h, W|].
  apply andb_true_iff in Hok as [Ho Hok]. destruct (srefines_step n h m W o Hr Ho) as (h1 & W1 & He & Hr1).
  erewrite SPL_bind_done by exact He. destruct (map_step key m o) as [r m1]. cbn [fst snd] in *.
  destruct (IH h1 m1 W1 Hr1 Hok) as (h2 & W2 & He2 & Hr2). erewrite SPL_bind_done by exact He2.
  exists h2, W2. by destruct (map_run key m1 ops).
Qed.

(** C36: The splay trees of the header, used like its red-black trees: any
    sequence of insertions, lookups and removals by key on an empty tree answers
    what a finite map answers, and never fails; on the tree that is left
    [SPLAY_FOREACH] visits exactly the elements of the map, in the order of
    their keys, [SPLAY_MIN] and [SPLAY_MAX] give the first and the last of them,
    and a search moves the element it finds to the root. *)
Theorem splay_refines_map n ops h :
  sph_root h = None → (∀ i, (i < n)%nat → is_Some (spl_nodes h !! Elm i)) → forallb (op_ok n) ops = true →
  ∃ h' order, spl_run ops h = Done ((map_run key ∅ ops).1, h') ∧
    sorted_by key order ∧ (∀ i, i ∈ order ↔ (map_run key ∅ ops).2 !! key i = Some i) ∧
    (∃ h2, SPLAY_FOREACH (fun i => key_cmp key (key i)) h' = Done (order, h2)) ∧
    (∃ h2, SPLAY_MIN h' = Done (head order, h2)) ∧ (∃ h2, SPLAY_MAX h' = Done (last order, h2)) ∧
    ∀ i, i ∈ order → ∃ h2, SPLAY_FIND (key_cmp key (key i)) h' = Done (Some i, h2) ∧ sph_root h2 = Some i.
Proof.
  intros Hroot Hn Hok.
  assert (Hinit : srefines n h ∅ []).
  { split; [exists SE; split; [split; [split; [constructor|by intros c e ?%elem_of_nil]|done]|done]|constructor|done|].
    intros k i. rewrite lookup_empty, elem_of_nil. naive_solver. }
  destruct (srefines_run n h ∅ [] ops Hinit Hok) as (h' & W & He & [Ho Hs Hn' Hm]).
  exists h', W. split; [done|]. split; [done|]. split; [intros i; rewrite Hm; naive_solver|].
  split; [destruct (splay_foreach_order h' W Ho Hs) as (h2 & ? & _); by exists h2|].
  split; [destruct (min_order h' W Ho) as (h2 & ? & _); by exists h2|].
  split; [destruct (max_order h' W Ho) as (h2 & ? & _); by exists h2|].
  intros i Hi. destruct (find_root (key i) h' W Ho Hs i Hi eq_refl) as (h2 & ? & ?). by exists h2.
Qed.
End key.

(** Elements in no tree, with any links. *)
Definition spl_memory (n : nat) : spl_head :=
  SplHead None (list_to_map ((fun i => (Elm i, SplEntry None None)) <$> seq 0 n)).

Lemma splay_refines_map_witness :
  let ops := [op_insert 4; op_insert 1; op_insert 3; op_insert 4; op_find 30; op_remove 20; op_insert 2; op_find 20] in
  let key := fun i : nat => (10 * Z.of_nat i)%Z in
  ∃ h' order, spl_run key ops (spl_memory 5) = Done ((map_run key ∅ ops).1, h') ∧
    (map_run key ∅ ops).1 = [None; None; None; Some 4%nat; Some 3%nat; None; None; Some 2%nat] ∧
    sorted_by key order ∧ (∀ i, i ∈ order ↔ (map_run key ∅ ops).2 !! key i = Some i).
Proof.
  intros ops key.
  destruct (splay_refines_map key 5 ops (spl_memory 5)) as (h' & order & He & Hs & Hi & _).
  - reflexivity.
  - intros i Hi. do 5 (destruct i as [|i]; [by eexists|]). lia.
  - reflexivity.
  - exists h', order. split; [exact He|]. split; [reflexivity|]. by split.
Defined.
