(* ===== verification/Main.v ===== *)
(** * The program, [main] of [src/xstack.c]

    The whole run of the process: the command line, the debug messages, the signal
    mask, the interface, the address, the shared memory, the threads and their
    turns, the stop.  Every part is the definition of its own file; the files in
    shared memory and [pthread_create] are the class [Host].  On the other side,
    [xstack_listen] of [lib/xstack.c]. *)

From S2P Require Import Prelude Bytes Rib QueueR Socket Shm Signals Udp Tcp.
From S2P Require Import IpDefer Ether Arp Fragment EtherInit Dyndebug World Output.
From S2P Require Import IpFragments Config IpSend Stack Egress System Lifecycle.

#[local] Open Scope Z_scope.

(** ** The operating system *)

(** [open] gives a descriptor or -1; [mmap] of a descriptor the bytes of the
    mapping, or [MAP_FAILED]; [pthread_create] whether there is a thread. *)
Class Host : Type := {
  os_open : list Z → Z;
  os_mmap : Z → option (list Z);
  os_getpid : Z;
  os_create_ingress : bool;
  os_create_egress : bool
}.

(** A mapping has the size that was asked for. *)
Class HostOk `{Host} : Prop :=
  mmap_size fd m : os_mmap fd = Some m → length m = XSTACK_SHMEM_SIZE.

(** The hardware address of an interface that has one. *)
Class HwAddrs `{Linux} : Prop :=
  hwaddr_ok tr fd name : let r := answer tr (GetHwAddr fd name) in
    failed r = false → mac_ok (take 6 (out_mac r)).

(** ** State *)
Record process : Type := Process {
  p_dbg : list dbg_msg;          (* the section of the debug messages *)
  p_thr : thr;                   (* the main thread *)
  p_ether : ether_state;
  p_world : world;
  p_sys : Lifecycle.sys
}.

(** A computation that may call [exit]. *)
Definition X (A : Type) : Type := process → outcome ((A + Z) * process).

#[export] Instance X_ret : MRet X := fun A a p => Done (inl a, p).

#[export] Instance X_bind : MBind X :=
  fun A B f m p =>
    match m p with
    | Done (inl a, p) => f a p
    | Done (inr code, p) => Done (inr code, p)
    | Fault => Fault
    | Spin => Spin
    end.

Definition exit {A : Type} (code : Z) : X A := fun p => Done (inr code, p).

Definition fault {A : Type} : X A := fun _ => Fault.

Definition read {A : Type} (f : process → A) : X A := fun p => Done (inl (f p), p).

Definition change (f : process → process) : X unit := fun p => Done (inl tt, f p).

Definition set_dbg (l : list dbg_msg) (p : process) : process :=
  Process l (p_thr p) (p_ether p) (p_world p) (p_sys p).
Definition set_thr (t : thr) (p : process) : process :=
  Process (p_dbg p) t (p_ether p) (p_world p) (p_sys p).
Definition set_world (w : world) (p : process) : process :=
  Process (p_dbg p) (p_thr p) (p_ether p) w (p_sys p).
Definition set_sys (y : Lifecycle.sys) (p : process) : process :=
  Process (p_dbg p) (p_thr p) (p_ether p) (p_world p) y.

(** The two paths see the hardware addresses of the interfaces. *)
Definition set_macs (l : list (list Z)) (w : world) : world :=
  World (World.errno w) l (tx w) (w_rib w) (w_arp w) (w_defer w) (ip_global_id w) (w_udp w) (w_tcp w) (w_frag w).

Definition set_ether (s : ether_state) (p : process) : process :=
  Process (p_dbg p) (p_thr p) s (set_macs (el_mac <$> EtherInit.ether_if s) (p_world p)) (p_sys p).

(** A part of the program that runs on its part of the state. *)
Definition on_ether {A : Type} (m : E A) : X A := fun p =>
  match m (p_ether p) with Done (a, s) => Done (inl a, set_ether s p) | Fault => Fault | Spin => Spin end.

Definition on_world {A : Type} (m : M A) : X A := fun p =>
  match m (p_world p) with Done (a, w) => Done (inl a, set_world w p) | Fault => Fault | Spin => Spin end.

(** A step of [Lifecycle]. *)
Definition fire (e : event) : X unit := fun p =>
  match do_event e (p_sys p) with Some y => Done (inl tt, set_sys y p) | None => Fault end.

(** The process before [main]. *)
Definition process_init (msgs : list dbg_msg) : process :=
  Process msgs (Thr [] None) ether_zero (initial_world (el_mac zero_eth) (static_sockets stack_sockets)) sys_init.

(** [shmem_path] of the sockets: /tmp/unetcat.sock *)
Definition shmem_paths : list (list Z) :=
  [[47; 116; 109; 112; 47; 117; 110; 101; 116; 99; 97; 116; 46; 115; 111; 99; 107]].

Definition src_tcp_c : list Z := [115; 114; 99; 47; 116; 99; 112; 46; 99].
Definition src_ether_c : list Z := [115; 114; 99; 47; 101; 116; 104; 101; 114; 46; 99].

(** ** Operations *)
Section host.
Context `{Kernel} `{Linux} `{Host}.

(** [xstack_init] for the sockets from [i] on.  [shm_init] is what it does to the
    bytes of the mapping, [xstack_init_sock] the socket it makes of them; [Shm]
    shows that they agree. *)
Fixpoint xstack_init (i : nat) (paths : list (list Z)) : X unit :=
  match paths with
  | [] => mret tt
  | shmem_path :: paths =>
      let fd := os_open shmem_path in
      if bool_decide (fd = -1) then exit 1 else
      match os_mmap fd with
      | None => exit 1
      | Some pa =>
          _ ← on_world (lift (shm_init os_getpid pa));
          sock ← read (fun p => sock_at (w_udp (p_world p)) i);
          s ← on_world (lift (xstack_init_sock (sock_proto sock) (sock_addr sock)));
          r ← on_world (on w_udp set_udp (fun u => xstack_bind (put_sock u i s) i));
          match r with
          | Some _ => exit 1
          | None => xstack_init (S i) paths
          end
      end
  end.

Definition xstack_start (handle : Z) : X Z :=
  state ← read (fun p => get_state (p_sys p));
  _ ← fire (EStart handle);
  if bool_decide (state ≠ XSTACK_STOPPED) then _ ← on_world (World.set_errno EALREADY); mret (-1) else
  _ ← xstack_init 0 shmem_paths;
  _ ← fire EInit;
  _ ← fire (ECreateIngress os_create_ingress);
  if negb os_create_ingress then mret (-1) else
  _ ← fire (ECreateEgress os_create_egress);
  if negb os_create_egress then mret (-1) else
  _ ← fire ERunning;
  mret 0.

(** [pthread_join]: the thread goes on until it has exited; there must have been
    one.  What it still does in its rounds belongs to the turns of [run_threads],
    and so does a wait in one of them, which ends the run there. *)
Fixpoint pthread_join (fuel : nat) (tid : Lifecycle.sys → thread) (step joined : event) : X unit :=
  match fuel with
  | O => fun _ => Spin
  | S fuel =>
      t ← read (fun p => tid (p_sys p));
      match t with
      | NoThread => fault
      | Exited => fire joined
      | Waiting | CancelledWaiting => fun _ => Spin
      | _ => _ ← fire step; pthread_join fuel tid step joined
      end
  end.

Definition xstack_stop : X unit :=
  _ ← fire EStop;
  _ ← pthread_join 3 ingress_tid EIngress EJoinIngress;
  _ ← pthread_join 3 egress_tid EEgress EJoinEgress;
  fire EStopped.

(** The turns of the threads and of the applications until the threads exit. *)
Fixpoint take_turns (evs : list turn_event) : M unit :=
  match evs with
  | [] => mret tt
  | ev :: evs => _ ← take_turn ev; take_turns evs
  end.

Definition run_threads (evs : list turn_event) : X unit :=
  state ← read (fun p => get_state (p_sys p));
  if bool_decide (state = XSTACK_RUNNING) then on_world (take_turns evs) else mret tt.

Definition toggle_file (cfg : list Z) : X unit := change (fun p => set_dbg (toggle_dbgmsg cfg (p_dbg p)).2 p).

(** [main]: the exit status.  [sockopt] is what [linux_ether_bind] passes on. *)
Definition main (argv : list (list Z)) (sockopt : Z) (evs : list turn_event) : X Z :=
  match argv with
  | [] => fault                              (* [argv[1]] is behind the array *)
  | [_] => exit 1
  | _ :: arg :: _ =>
      _ ← toggle_file src_tcp_c;
      _ ← toggle_file src_ether_c;
      _ ← change (fun p => set_thr (set_mask [SIGUSR1] (p_thr p)) p);
      handle ← on_ether (ether_init sockopt [arg]);
      if bool_decide (handle = -1) then exit 1 else
      r ← on_world (ip_config handle 167772162 4294967040);
      if bool_decide (r ≠ 0) then exit 1 else
      _ ← xstack_start handle;
      _ ← run_threads evs;
      _ ← xstack_stop;
      _ ← on_ether (ether_deinit handle);
      mret 0
  end.

(** [xstack_listen]: the mapping, or NULL; the mask of the calling thread. *)
Definition xstack_listen (socket_path : list Z) (t : thr) : outcome (option (list Z) * thr) :=
  let fd := os_open socket_path in
  if bool_decide (fd = -1) then Done (None, t) else
  match os_mmap fd with
  | None => Done (None, t)
  | Some pa =>
      let t := block_sigusr2 t in
      pa ← shm_listen os_getpid pa;
      Done (Some pa, t)
  end.
End host.

(** ** Lemmas *)

(** A file that can be opened and mapped. *)
Definition opens `{Host} (path : list Z) : bool :=
  negb (bool_decide (os_open path = -1)) && bool_decide (is_Some (os_mmap (os_open path))).

Section monad.
Context {A B : Type}.

Lemma X_bind_inl (m : X A) (f : A → X B) p a p' : m p = Done (inl a, p') → (m ≫= f) p = f a p'.
Proof. intros Hm. unfold mbind, X_bind. by rewrite Hm. Qed.

Lemma X_bind_inr (m : X A) (f : A → X B) p code p' : m p = Done (inr code, p') → (m ≫= f) p = Done (inr code, p').
Proof. intros Hm. unfold mbind, X_bind. by rewrite Hm. Qed.

Lemma X_bind_fault (m : X A) (f : A → X B) p : m p = Fault → (m ≫= f) p = Fault.
Proof. intros Hm. unfold mbind, X_bind. by rewrite Hm. Qed.

Lemma X_bind_spin (m : X A) (f : A → X B) p : m p = Spin → (m ≫= f) p = Spin.
Proof. intros Hm. unfold mbind, X_bind. by rewrite Hm. Qed.

Lemma on_world_done (m : M A) p a w : m (p_world p) = Done (a, w) → on_world m p = Done (inl a, set_world w p).
Proof. intros Hm. unfold on_world. by rewrite Hm. Qed.

Lemma on_ether_done (m : E A) p a s : m (p_ether p) = Done (a, s) → on_ether m p = Done (inl a, set_ether s p).
Proof. intros Hm. unfold on_ether. by rewrite Hm. Qed.

Lemma fire_done e p y : do_event e (p_sys p) = Some y → fire e p = Done (inl tt, set_sys y p).
Proof. intros He. unfold fire. by rewrite He. Qed.
End monad.

(** *** The replies in a trace *)
Section trace.
Context `{Linux}.

(** The replies are those of the kernel. *)
Inductive answered : trace → Prop :=
| answered_nil : answered []
| answered_snoc tr c : answered tr → answered (tr ++ [(c, answer tr c)]).

Lemma answered_in tr c r : answered tr → (c, r) ∈ tr → ∃ tr0, r = answer tr0 c.
Proof.
  induction 1 as [|tr c0 _ IH]; [by intros ?%elem_of_nil|].
  intros [Hin|Hin]%elem_of_app; [by apply IH|]. apply list_elem_of_singleton in Hin as [= -> ->]. by exists tr.
Qed.

Definition asks {A : Type} (m : E A) : Prop :=
  ∀ s a s', m s = Done (a, s') → answered (EtherInit.calls s) → answered (EtherInit.calls s').

Lemma asks_bind {A B} (m : E A) (f : A → E B) : asks m → (∀ a, asks (f a)) → asks (m ≫= f).
Proof.
  intros Hm Hf s b s' Hrun Ha. unfold mbind, E_bind in Hrun. destruct (m s) as [[a s1]| |] eqn:H1; [|done..].
  by eapply Hf; [|eapply Hm].
Qed.

Lemma asks_ret {A} (a : A) : asks (mret a).
Proof. by intros s b s' [= _ <-]. Qed.

Lemma asks_sys c : asks (EtherInit.sys c).
Proof. intros s a s' [= _ <-]. apply answered_snoc. Qed.

Lemma asks_errno e : asks (EtherInit.set_errno e).
Proof. by intros s a s' [= _ <-]. Qed.

Lemma asks_get i : asks (get_eth i).
Proof. intros s a s'. unfold get_eth. destruct (_ !! i); [|done]. by intros [= _ <-]. Qed.

Lemma asks_put i eth : asks (put_eth i eth).
Proof. by intros s a s' [= _ <-]. Qed.
End trace.

Create HintDb asks.
#[export] Hint Resolve asks_ret asks_sys asks_errno asks_get asks_put : asks.

Ltac asks_calls :=
  repeat first
    [ solve [auto with asks] | apply asks_bind; [|intros ?]
    | match goal with |- asks (if ?b then _ else _) => destruct b end ].

Section trace.
Context `{Linux}.

Lemma asks_fail i : asks (ether_fail i).
Proof. unfold ether_fail. asks_calls. Qed.
#[local] Hint Resolve asks_fail : asks.

Lemma asks_setup sockopt handle i name user : asks (ether_setup sockopt handle i name user).
Proof. unfold ether_setup, linux_ether_bind, linux_ether_set_rxtimeout. cbv zeta. asks_calls. Qed.
#[local] Hint Resolve asks_setup : asks.

Lemma asks_init sockopt args : asks (ether_init sockopt args).
Proof.
  intros s a s'. unfold ether_init. case_bool_decide; [by intros [= _ <-]|]. cbv zeta. intros Hrun Ha.
  match type of Hrun with ?c _ = _ => cut (asks c); [intros Hc; by eapply Hc|] end. clear. apply asks_bind.
  - intros s1 n s2. destruct (strcpy_name _); [|done..]. by intros [= _ <-].
  - intros name. asks_calls.
Qed.

(** The hardware address that [ether_init] stores. *)
Lemma init_mac `{!HwAddrs} sockopt args eth e tr :
  ether_init sockopt args ether_zero = Done (0, taken eth e tr) → opened sockopt (name_of args) eth tr → mac_ok (el_mac eth).
Proof.
  intros Hrun (r1 & r2 & r3 & r4 & r5 & r6 & r7 & r8 & Htr & -> & _ & _ & H3 & _). cbn [el_mac].
  pose proof (asks_init _ _ _ _ _ Hrun answered_nil) as Ha. cbn [EtherInit.calls taken] in Ha.
  destruct (answered_in tr (GetHwAddr (rc r1) (name_of args)) r3 Ha) as [tr0 ->].
  { rewrite Htr. do 2 right. left. }
  by apply hwaddr_ok.
Qed.
End trace.

(** *** The turns *)
Definition turns_time (evs : list turn_event) : Z := foldr (fun ev t => turn_time ev + t) 0 evs.

Section turns.
Context `{ReliableKernel}.
Context (mac : list Z).

Lemma turn_time_nonneg ev : turn_ok ev → 0 <= turn_time ev.
Proof. by destruct ev. Qed.

Lemma turns_time_nonneg evs : Forall turn_ok evs → 0 <= turns_time evs.
Proof.
  induction 1 as [|ev evs Hev _ IH]; cbn [turns_time foldr]; [done|]. pose proof (turn_time_nonneg ev Hev).
  unfold turns_time in IH. lia.
Qed.

(** All turns end, or one of them waits. *)
Lemma turns_in_order evs : ∀ t w,
  in_order_at mac t w → Forall turn_ok evs → t + turns_time evs <= ARP_CACHE_AGE_MAX →
  (∃ w', take_turns evs w = Done (tt, w') ∧ in_order_at mac (t + turns_time evs) w') ∨
  (take_turns evs w = Spin ∧
   ∃ l ev l' w1, evs = l ++ ev :: l' ∧ take_turns l w = Done (tt, w1) ∧ turn_waits w1 ev).
Proof.
  induction evs as [|ev evs IH]; intros t w Hin Hok Ht; cbn [take_turns turns_time foldr].
  { left. exists w. split; [done|]. by rewrite Z.add_0_r. }
  apply Forall_cons in Hok as [Hev Hok]. cbn [turns_time foldr] in Ht. fold (turns_time evs) in *.
  pose proof (turn_time_nonneg ev Hev). pose proof (turns_time_nonneg evs Hok).
  destruct (turn_in_order mac t w ltac:(lia) Hin ev Hev) as [(w1 & Hrun & Hin1)|[Hspin Hw]].
  - rewrite (M_bind_done _ _ _ _ _ Hrun).
    destruct (IH (t + turn_time ev) w1 Hin1 Hok ltac:(lia)) as [(w' & Hr & Hin')|(Hs & l & ev' & l' & w2 & -> & Hl & Hw)].
    + left. exists w'. split; [done|]. by rewrite Z.add_assoc.
    + right. split; [done|]. exists (ev :: l), ev', l', w2. split; [done|]. split; [|done].
      cbn [take_turns]. by rewrite (M_bind_done _ _ _ _ _ Hrun).
  - right. split; [by unfold mbind, M_bind; rewrite Hspin|]. by exists [], ev, evs, w.
Qed.
End turns.

(** *** The start and the stop *)
Definition threads_up (handle : Z) : Lifecycle.sys := Sys XSTACK_RUNNING Working Working handle Idle.

(** The sockets before and after [xstack_init], and the mapping. *)
Section start.
Context `{Hk : Kernel} `{Hl : Linux} `{Hh : Host} `{!HostOk}.

(** With every file mapped, [xstack_init] is that of [Stack]. *)
Lemma init_runs paths : ∀ i p, forallb opens paths →
  xstack_init i paths p =
  match xstack_init_loop (w_udp (p_world p)) i (length paths) with
  | Done (None, u) => Done (inl tt, set_world (set_udp u (p_world p)) p)
  | Done (Some _, u) => Done (inr 1, set_world (set_udp u (p_world p)) p)
  | Fault => Fault
  | Spin => Spin
  end.
Proof.
  induction paths as [|path paths IH]; intros i p Ho; cbn [xstack_init xstack_init_loop length].
  { by destruct p as [? ? ? []]. }
  cbn [forallb] in Ho. apply andb_True in Ho as [Ho Hos]. unfold opens in Ho.
  apply andb_True in Ho as [H1%negb_True H2%bool_decide_unpack]. rewrite bool_decide_false by (by intros ?; apply H1, bool_decide_pack).
  destruct H2 as [m Hm]. rewrite Hm. destruct (shm_init_done os_getpid (Sockaddr 0 0) m (mmap_size _ _ Hm)) as (s0 & _ & _ & _ & Hi).
  assert (Hlift : ∀ A (o : outcome A) a, o = Done a → on_world (lift o) p = Done (inl a, p)).
  { intros A o a ->. unfold on_world, lift. by destruct p. }
  rewrite (X_bind_inl _ _ _ _ _ (Hlift _ _ _ Hi)). rewrite (X_bind_inl (read _) _ _ _ _ eq_refl).
  set (sock := sock_at _ i). destruct (xstack_init_sock (sock_proto sock) (sock_addr sock)) as [s| |] eqn:Hs.
  - rewrite (X_bind_inl _ _ _ _ _ (Hlift _ _ _ eq_refl)), bind_done.
    destruct (xstack_bind (put_sock (w_udp (p_world p)) i s) i) as [[r u]| |] eqn:Hb.
    + rewrite bind_done.
      rewrite (X_bind_inl _ _ p r (set_world (set_udp u (p_world p)) p));
        [|apply on_world_done, on_done; exact Hb].
      destruct r as [e|]; [done|]. rewrite IH by done. cbn [p_world set_world w_udp set_udp].
      by destruct (xstack_init_loop u (S i) (length paths)) as [[[]]| |].
    + unfold mbind at 1, X_bind, on_world, on. by rewrite Hb.
    + unfold mbind at 1, X_bind, on_world, on. by rewrite Hb.
  - done.
  - done.
Qed.

(** What [xstack_start] does to the threads. *)
Definition started (handle : Z) : Lifecycle.sys :=
  if os_create_ingress then
    if os_create_egress then threads_up handle
    else Sys XSTACK_STOPPED Cancelled NoThread handle Idle
  else Sys XSTACK_STOPPED NoThread NoThread handle Idle.

Lemma start_runs handle p :
  p_sys p = sys_init → w_udp (p_world p) = static_sockets stack_sockets →
  ∃ st, Stack.xstack_init (static_sockets stack_sockets) = Done (None, st) ∧
    if forallb opens shmem_paths then
      ∃ r, xstack_start handle p = Done (inl r, set_sys (started handle) (set_world (set_udp st (p_world p)) p))
    else
      xstack_start handle p = Done (inr 1, set_sys (Sys XSTACK_STOPPED NoThread NoThread handle StartInit) p).
Proof.
  intros Hy Hu. destruct (init_done stack_sockets stack_sockets_ok) as (st & Hst & _).
  { apply NoDup_singleton. }
  { constructor; [|constructor]. unfold XSTACK_SOCK_PORT_MAX. cbn [port]. lia. }
  exists st. split; [done|]. unfold xstack_start. rewrite (X_bind_inl (read _) _ _ _ _ eq_refl), Hy.
  change (get_state sys_init) with XSTACK_STOPPED. set (y1 := Sys XSTACK_STOPPED NoThread NoThread handle StartInit).
  rewrite (X_bind_inl _ _ p tt (set_sys y1 p)) by (apply fire_done; by rewrite Hy). rewrite bool_decide_false by (by intros []).
  destruct (forallb opens shmem_paths) eqn:Ho.
  - rewrite (X_bind_inl _ _ _ tt (set_sys y1 (set_world (set_udp st (p_world p)) p))).
    2:{ rewrite init_runs by (by rewrite Ho). cbn [p_world set_sys]. rewrite Hu.
        unfold Stack.xstack_init in Hst. change (length shmem_paths) with (length (sockets (static_sockets stack_sockets))).
        by rewrite Hst. }
    unfold started. by destruct os_create_ingress, os_create_egress; eexists.
  - rewrite (X_bind_inr _ _ _ 1 (set_sys y1 p)); [done|]. cbn [shmem_paths forallb] in Ho.
    rewrite andb_true_r in Ho. unfold shmem_paths, opens in *. cbn [xstack_init].
    case_bool_decide as H1; [done|]. cbn [negb andb] in Ho. apply bool_decide_eq_false in Ho.
    by rewrite <-eq_None_not_Some in Ho; rewrite Ho.
Qed.

(** [xstack_stop] joins two threads that run, and cannot join one that does not. *)
Lemma stop_runs handle p : p_sys p = threads_up handle →
  xstack_stop p = Done (inl tt, set_sys (Sys XSTACK_STOPPED NoThread NoThread handle Idle) p).
Proof. intros Hp. destruct p as [d t e w y]. cbn in Hp. by subst y. Qed.

Lemma stop_faults handle p : p_sys p = started handle → os_create_ingress && os_create_egress = false →
  xstack_stop p = Fault.
Proof.
  intros Hp. destruct p as [d t e w y]. cbn in Hp. subst y. unfold started. by destruct os_create_ingress, os_create_egress.
Qed.
End start.

(** ** Properties *)

(** How [main] ends once it has the interface with the address [mac]. *)
Definition main_ends `{Kernel} `{Host} (mac : list Z) (evs : list turn_event)
    (result : outcome ((Z + Z) * process)) : Prop :=
  if negb (forallb opens shmem_paths) then
    ∃ p, result = Done (inr 1, p) ∧ ingress_tid (p_sys p) = NoThread ∧ egress_tid (p_sys p) = NoThread
  else if negb (os_create_ingress && os_create_egress) then result = Fault
  else
    ∃ w, boot 0 (initial_world mac (static_sockets stack_sockets)) = Done (None, w) ∧
      ((∃ p, result = Done (inl 0, p) ∧ take_turns evs w = Done (tt, p_world p) ∧
          in_order_at mac (turns_time evs) (p_world p) ∧ stopped (p_sys p) ∧
          open_fds (EtherInit.calls (p_ether p)) = ∅ ∧ p_thr p = main_masked) ∨
       (result = Spin ∧ ∃ l ev l' w1, evs = l ++ ev :: l' ∧ take_turns l w = Done (tt, w1) ∧ turn_waits w1 ev)).

Section main.
Context `{Hk : Kernel} `{!ReliableKernel} `{Hl : Linux} `{!LinuxCalls} `{!HwAddrs} `{Hh : Host} `{!HostOk}.

(** [main] from [ip_config] on. *)
Lemma main_runs eth e tr evs p :
  mac_ok (el_mac eth) → open_fds tr = {[el_fd eth]} → Forall turn_ok evs → turns_time evs <= ARP_CACHE_AGE_MAX →
  p_ether p = taken eth e tr → p_world p = initial_world (el_mac eth) (static_sockets stack_sockets) →
  p_sys p = sys_init → p_thr p = main_masked →
  main_ends (el_mac eth) evs
    ((r ← on_world (ip_config 0 167772162 4294967040);
      if bool_decide (r ≠ 0) then exit 1 else
      _ ← xstack_start 0; _ ← run_threads evs; _ ← xstack_stop; _ ← on_ether (ether_deinit 0); mret 0) p).
Proof.
  intros Hmac Hfd Hok Ht Hpe Hpw Hps Hpt. set (mac := el_mac eth) in *.
  destruct (config_done mac OWN_ADDR OWN_MASK (static_sockets stack_sockets) Hmac)
    as (w1 & Hw1 & _ & _ & Hu & _); [unfold OWN_ADDR; lia|unfold OWN_MASK; lia|].
  rewrite (X_bind_inl _ _ p 0 (set_world w1 p)) by (apply on_world_done; by rewrite Hpw).
  rewrite (bool_decide_false (0 ≠ 0)) by (intros Hne; by apply Hne). set (p1 := set_world w1 p).
  destruct (start_runs 0 p1 Hps Hu) as (st & Hst & Hstart). unfold main_ends.
  destruct (forallb opens shmem_paths) eqn:Ho; cbn [negb].
  2:{ rewrite (X_bind_inr _ _ _ _ _ Hstart). eexists. split; [reflexivity|]. split; reflexivity. }
  destruct Hstart as [r Hstart]. rewrite (X_bind_inl _ _ _ _ _ Hstart).
  set (w2 := set_udp st w1). set (p2 := set_sys (started 0) _).
  destruct (os_create_ingress && os_create_egress) eqn:Hc; cbn [negb].
  2:{ rewrite (X_bind_inl _ _ p2 tt p2).
      - apply X_bind_fault. by apply (stop_faults 0).
      - unfold run_threads, p2, started. by destruct os_create_ingress, os_create_egress. }
  assert (Hup : started 0 = threads_up 0) by (unfold started; by destruct os_create_ingress, os_create_egress).
  assert (Hboot : boot 0 (initial_world mac (static_sockets stack_sockets)) = Done (None, w2)).
  { unfold boot. rewrite (M_bind_done _ _ _ _ _ Hw1). apply on_done. by rewrite Hu. }
  exists w2. split; [done|].
  assert (Hrt : run_threads evs p2 = on_world (take_turns evs) p2).
  { unfold run_threads. rewrite (X_bind_inl (read _) _ _ _ _ eq_refl). cbn [p2 p_sys set_sys]. by rewrite Hup. }
  destruct (turns_in_order mac evs 0 w2 (boot_in_order mac Hmac w2 Hboot) Hok Ht) as [(w3 & Hrun & Hin)|[Hspin Hw]].
  - left. rewrite (X_bind_inl _ _ p2 tt (set_world w3 p2)) by (rewrite Hrt; by apply on_world_done).
    rewrite (X_bind_inl _ _ _ _ _ (stop_runs 0 (set_world w3 p2) Hup)).
    assert (Hpe2 : p_ether (set_sys (Sys XSTACK_STOPPED NoThread NoThread 0 Idle) (set_world w3 p2)) = taken eth e tr) by done.
    assert (Hm : set_macs (el_mac <$> EtherInit.ether_if (taken eth e tr)) w3 = w3).
    { change (set_macs [mac] w3 = w3). destruct Hin as [(last & md & Hsu) _]. pose proof (cf_if _ _ _ _ _ _ (up_configured _ _ _ _ _ _ _ _ Hsu)) as Hif.
      destruct w3. cbn in Hif |- *. by subst. }
    erewrite X_bind_inl; [|apply on_ether_done; rewrite Hpe2; reflexivity].
    eexists. split; [reflexivity|]. cbn [p_world set_ether set_sys set_world p_sys p_ether p_thr EtherInit.ether_if].
    rewrite Hm. split; [exact Hrun|]. split; [exact Hin|]. split; [repeat split|]. split; [|exact Hpt].
    cbn [EtherInit.calls taken]. rewrite open_fds_close, Hfd. apply difference_diag_L.
  - right. split; [|done]. apply X_bind_spin. rewrite Hrt. unfold on_world.
    change (p_world p2) with w2. by rewrite Hspin.
Qed.

(** C16: The whole program, with an interface name that fits, whatever the kernel
    replies to the calls of [ether_init], to [open], [mmap] and [pthread_create], and
    with a packet socket that takes every frame.  The turns between start and stop are
    those of the running stack: well-formed frames of other hosts, no fragments and no
    options, sends of at most 4072 bytes, and at most twenty hours given to the
    periodic tasks in all, of which the first is the uptime of the host.  Without a name [main] prints its usage and exits with 1.  When the
    interface cannot be opened it exits with 1 and leaves no socket open; when the
    shared memory cannot be opened or mapped it exits with 1 before there is a
    thread.  Otherwise the stack is booted with the hardware address of the
    interface and takes its turns: either one of them waits for ever, or the program
    stops, returns 0, and leaves the stack in order, both threads joined and no
    socket open.  But the result of [xstack_start] is not looked at: if a thread
    cannot be created, [xstack_stop] joins a thread that never was. *)
Theorem main_correct msgs prog name rest sockopt evs :
  (length name < IFNAMSIZ)%nat → Forall turn_ok evs → turns_time evs <= ARP_CACHE_AGE_MAX →
  main [prog] sockopt evs (process_init msgs) = Done (inr 1, process_init msgs) ∧
  ∃ handle s, ether_init sockopt [name] ether_zero = Done (handle, s) ∧
    let result := main (prog :: name :: rest) sockopt evs (process_init msgs) in
    if bool_decide (handle = -1) then
      ∃ p, result = Done (inr 1, p) ∧ open_fds (EtherInit.calls (p_ether p)) = ∅ ∧ p_sys p = sys_init
    else
      ∃ eth, EtherInit.ether_if s = [eth] ∧ mac_ok (el_mac eth) ∧ main_ends (el_mac eth) evs result.
Proof.
  intros Hn Hok Ht. split; [done|].
  destruct (init_ends_ok sockopt [name] [] Hn zero_eth 0) as (handle & s & Hrun & Hends).
  exists handle, s. split; [exact Hrun|]. cbv zeta. unfold main.
  set (dbg := (toggle_dbgmsg src_ether_c (toggle_dbgmsg src_tcp_c msgs).2).2).
  set (p1 := Process dbg main_masked ether_zero (initial_world (el_mac zero_eth) (static_sockets stack_sockets)) sys_init).
  do 2 (erewrite (X_bind_inl (toggle_file _)) by reflexivity).
  rewrite (X_bind_inl (change _) _ _ tt p1) by reflexivity.
  rewrite (X_bind_inl _ _ _ _ _ (on_ether_done (ether_init sockopt [name]) p1 _ _ Hrun)).
  case_bool_decide as Hz.
  - eexists. split; [reflexivity|]. split; [|reflexivity]. cbn [p_ether set_ether].
    destruct Hends as [| eth e new Ho|eth fd new Ha]; [lia|exact Ho|cbn [length] in Ha; lia].
  - destruct Hends as [eth e new Hop Hf Ho|eth e new Ho|eth fd new Ha]; [|lia|lia].
    assert (Hmac : mac_ok (el_mac eth)) by (by eapply init_mac).
    exists eth. split; [reflexivity|]. split; [exact Hmac|].
    apply (main_runs eth e ([] ++ new)); try reflexivity; try assumption. rewrite Ho. set_solver.
Qed.
End main.

(** A host with both files and both threads, and one without the second thread. *)
Definition host_with (ok : bool) : Host :=
  {| os_open path := 4; os_mmap fd := Some (repeat 0 XSTACK_SHMEM_SIZE); os_getpid := STACK_PID;
     os_create_ingress := true; os_create_egress := ok |}.

Lemma host_with_ok ok : @HostOk (host_with ok).
Proof.
  intros fd m Hm. assert (m = repeat 0 XSTACK_SHMEM_SIZE) as -> by (symmetry; exact (Some_inj _ _ Hm)).
  apply repeat_length.
Qed.

Lemma demo_linux_hwaddrs : @HwAddrs demo_linux.
Proof.
  intros tr fd name r _. split; [|reflexivity]. unfold r. cbn [answer demo_linux out_mac take].
  apply (bool_decide_unpack _). by vm_compute.
Qed.

Definition demo_argv : list (list Z) := [[120]; DEFAULT_IF].

Lemma main_correct_witness :
  @main accept_all demo_linux (host_with true) [[120]] 0 [demo_turn; Tick 10; EgressTurn] (process_init demo_msgs) =
    Done (inr 1, process_init demo_msgs) ∧
  ∃ handle s, @ether_init demo_linux 0 [DEFAULT_IF] ether_zero = Done (handle, s) ∧
    let result := @main accept_all demo_linux (host_with true) demo_argv 0 [demo_turn; Tick 10; EgressTurn] (process_init demo_msgs) in
    if bool_decide (handle = -1) then
      ∃ p, result = Done (inr 1, p) ∧ open_fds (EtherInit.calls (p_ether p)) = ∅ ∧ p_sys p = sys_init
    else
      ∃ eth, EtherInit.ether_if s = [eth] ∧ mac_ok (el_mac eth) ∧
        @main_ends accept_all (host_with true) (el_mac eth) [demo_turn; Tick 10; EgressTurn] result.
Proof.
  apply (@main_correct accept_all accept_all_reliable demo_linux demo_linux_calls demo_linux_hwaddrs
    (host_with true) (host_with_ok true) demo_msgs [120] DEFAULT_IF [] 0 [demo_turn; Tick 10; EgressTurn]).
  - cbn [length DEFAULT_IF]. unfold IFNAMSIZ. lia.
  - constructor; [apply demo_turn_ok|]. repeat constructor; cbn [turn_ok]; lia.
  - cbn [turns_time foldr turn_time demo_turn]. unfold ARP_CACHE_AGE_MAX. lia.
Defined.

(** Without the second thread the program ends in a join of a thread that was never
    created. *)
Lemma failed_thread_faults :
  @main accept_all demo_linux (host_with false) demo_argv 0 [] (process_init []) = Fault.
Proof. by vm_compute. Qed.

(** [xstack_listen] on the memory of the stack stores the process id and blocks the
    signal; when the file cannot be mapped the mask stays as it is. *)
Lemma listen_runs `{Host} path t c s :
  opens path = true → os_mmap (os_open path) = Some (shm_of c s) → mapped s →
  xstack_listen path t = Done (Some (shm_of (SockCtrl (pid_inetd c) os_getpid) s), block_sigusr2 t).
Proof.
  intros Ho Hm Hs. unfold xstack_listen, opens in *. apply andb_prop in Ho as [Ho _].
  apply negb_true_iff in Ho. rewrite Ho, Hm. cbv zeta. unfold shm_listen, shm_of, ctrl_bytes.
  cbn [pid_inetd pid_end]. rewrite <-!app_assoc.
  rewrite (mem_write_mid (XSTACK_SOCK_CTRL + 4) (le_bytes 4 (pid_inetd c)) (le_bytes 4 (pid_end c))) by done. done.
Qed.

Lemma listen_fails `{Host} path t : opens path = false → xstack_listen path t = Done (None, t).
Proof.
  unfold xstack_listen, opens. case_bool_decide; [done|]. cbn [negb andb]. intros Hn%bool_decide_eq_false.
  by rewrite <-eq_None_not_Some in Hn; rewrite Hn.
Qed.
