(* ===== verification/QueueTso.v ===== *)
(** * The datagram queue on a processor with store buffers

    [QueueR] interleaves the accesses of the two sides as if every store were
    seen at once.  The processors the stack runs on (x86) keep the stores of each
    processor in a buffer and bring them to memory later, in order; [util/queue_r.c]
    and its callers have no barriers.  Here the producer and the consumer run with
    such buffers, one memory cell of a block at a time.  The same machine with
    buffers that do not keep the order shows what the code depends on. *)

From S2P Require Import Prelude Bytes QueueR.
From stdpp Require Import relations.

#[local] Open Scope Z_scope.

Section tso.
Context {A : Type}.

(** A store of the producer: a cell of a block of the data area, or [m_write]. *)
Inductive store : Type :=
| SCell (blk : Z) (off : nat) (a : A)
| SWrite (w : Z).

(** The producer: idle; filling the block at [idx], [k] cells of [x] are
    written; before the store of [queue_commit]. *)
Inductive tso_producer : Type :=
| TIdle
| TFill (idx : Z) (x : list A) (k : nat)
| TCommit (next : Z) (x : list A).

(** The consumer: idle; copying the block at [idx]; before the store of
    [queue_discard]. *)
Inductive tso_consumer : Type :=
| TWait
| TCopy (idx : Z) (acc : list A)
| TDiscard (next : Z) (acc : list A).

(** The memory, the two buffers (oldest store first; the consumer only stores
    [m_read]), the two sides, and as history what they have sent and received. *)
Record tso : Type := Tso {
  t_write : Z;
  t_read : Z;
  t_data : gmap (Z * nat) A;
  t_pbuf : list store;
  t_cbuf : list Z;
  t_prod : tso_producer;
  t_cons : tso_consumer;
  t_sent : list (list A);
  t_recv : list (list A)
}.

(** Block size and number of blocks of the control block, which nobody changes, and
    the number of cells of a block. *)
Context (bsize len : Z) (cells : nat).

(** Whether a store may become visible before the older stores [l] of the buffer. *)
Context (overtakes : store → list store → Prop).

(** What the producer sees of its own index, and the consumer of its own. *)
Definition own_write (w : Z) (buf : list store) : Z :=
  foldl (fun w st => match st with SWrite w' => w' | SCell _ _ _ => w end) w buf.

Definition own_read (r : Z) (buf : list Z) : Z := default r (last buf).

(** A store reaches the memory. *)
Definition hit (st : store) (w : Z) (d : gmap (Z * nat) A) : Z * gmap (Z * nat) A :=
  match st with
  | SCell blk off a => (w, <[(blk, off) := a]> d)
  | SWrite w' => (w', d)
  end.

Inductive tso_step : tso → tso → Prop :=
| tso_alloc w r d pb cb c sent recv idx x :
    queue_alloc (QueueCb bsize len (own_write w pb) r) = Done idx → idx ≠ -1 → length x = cells →
    tso_step (Tso w r d pb cb TIdle c sent recv) (Tso w r d pb cb (TFill idx x 0) c sent recv)
| tso_fill w r d pb cb c sent recv idx x k a :
    x !! k = Some a →
    tso_step (Tso w r d pb cb (TFill idx x k) c sent recv)
      (Tso w r d (pb ++ [SCell (idx / bsize) k a]) cb (TFill idx x (S k)) c sent recv)
| tso_commit_load w r d pb cb c sent recv idx x q :
    queue_commit (QueueCb bsize len (own_write w pb) r) = Done q →
    tso_step (Tso w r d pb cb (TFill idx x (length x)) c sent recv)
      (Tso w r d pb cb (TCommit (m_write q) x) c sent recv)
| tso_commit_store w r d pb cb c sent recv next x :
    tso_step (Tso w r d pb cb (TCommit next x) c sent recv)
      (Tso w r d (pb ++ [SWrite next]) cb TIdle c (sent ++ [x]) recv)
| tso_flush w r d l st pb cb p c sent recv :
    (l = [] ∨ overtakes st l) →
    tso_step (Tso w r d (l ++ st :: pb) cb p c sent recv)
      (let '(w', d') := hit st w d in Tso w' r d' (l ++ pb) cb p c sent recv)
| tso_peek w r d pb cb p sent recv idx :
    queue_peek (QueueCb bsize len w (own_read r cb)) = Some idx →
    tso_step (Tso w r d pb cb p TWait sent recv) (Tso w r d pb cb p (TCopy idx []) sent recv)
| tso_copy w r d pb cb p sent recv idx acc a :
    (length acc < cells)%nat → d !! (idx / bsize, length acc) = Some a →
    tso_step (Tso w r d pb cb p (TCopy idx acc) sent recv)
      (Tso w r d pb cb p (TCopy idx (acc ++ [a])) sent recv)
| tso_discard_load w r d pb cb p sent recv idx acc q :
    length acc = cells → queue_discard (QueueCb bsize len w (own_read r cb)) 1 = Done (1, q) →
    tso_step (Tso w r d pb cb p (TCopy idx acc) sent recv)
      (Tso w r d pb cb p (TDiscard (m_read q) acc) sent recv)
| tso_discard_store w r d pb cb p sent recv next acc :
    tso_step (Tso w r d pb cb p (TDiscard next acc) sent recv)
      (Tso w r d pb (cb ++ [next]) p TWait sent (recv ++ [acc]))
| tso_flush_read w r d pb r' cb p c sent recv :
    tso_step (Tso w r d pb (r' :: cb) p c sent recv) (Tso w r' d pb cb p c sent recv).
End tso.

Arguments store : clear implicits.
Arguments tso : clear implicits.
Arguments tso_producer : clear implicits.
Arguments tso_consumer : clear implicits.

(** ** Counters

    The index of the [i]-th block ever used is [i] modulo the length of the ring. *)
Section inv.
Context {A : Type} (bsize len : Z) (cells : nat).
Context (Hbs : 0 < bsize) (Hlen : 0 < len) (Hsize : len * bsize <= 2 ^ 31).

Implicit Types (x : list A) (d : gmap (Z * nat) A) (i j k : nat).

Definition idx (i : nat) : Z := i mod len.

Lemma idx_range i : 0 <= idx i < len.
Proof. apply Z.mod_pos_bound. lia. Qed.

Lemma idx_inj i j : (i <= j)%nat → Z.of_nat j - i < len → idx i = idx j → i = j.
Proof.
  unfold idx. intros Hij Hd He. assert (Hz : (j - i) mod len = 0).
  { by rewrite Zminus_mod, He, Z.sub_diag, Z.mod_0_l by lia. }
  rewrite Z.mod_small in Hz by lia. lia.
Qed.

Lemma idx_wrap i j : (i <= j)%nat → Z.of_nat j - i <= len → idx i ≠ idx j → i ≠ j → Z.of_nat j - i < len.
Proof.
  intros Hij Hd Hne _. destruct (decide (Z.of_nat j - i = len)) as [He|]; [|lia]. destruct Hne. unfold idx.
  replace (Z.of_nat j) with (i + 1 * len) by lia. by rewrite Z.mod_add by lia.
Qed.

Lemma ring_ok i j : queue_ok (QueueCb bsize len (idx i) (idx j)).
Proof. pose proof (idx_range i). pose proof (idx_range j). unfold queue_ok. cbn. lia. Qed.

Lemma idx_next i j k : next_index (QueueCb bsize len (idx j) (idx k)) (idx i) = Done (idx (S i)).
Proof.
  rewrite next_index_done by (apply ring_ok || apply idx_range). cbn [a_len]. f_equal.
  assert (Hs : idx (S i) = (idx i + 1) mod len).
  { unfold idx. rewrite Nat2Z.inj_succ. unfold Z.succ. by rewrite <-Z.add_mod_idemp_l by lia. }
  pose proof (idx_range i). rewrite Hs, wrap_mod by lia. case_tests; lia.
Qed.

Lemma idx_block i : idx i * bsize / bsize = idx i.
Proof. apply Z.div_mul. lia. Qed.

Lemma alloc_counter i j b :
  queue_alloc (QueueCb bsize len (idx i) (idx j)) = Done b → b ≠ -1 → b = idx i * bsize ∧ idx (S i) ≠ idx j.
Proof.
  unfold queue_alloc. cbn [m_write m_read]. rewrite idx_next, bind_done. case_bool_decide; [naive_solver|].
  rewrite offset_done by (apply ring_ok || apply idx_range). naive_solver.
Qed.

Lemma peek_counter i j b :
  queue_peek (QueueCb bsize len (idx i) (idx j)) = Some b → b = idx j * bsize ∧ idx j ≠ idx i.
Proof.
  unfold queue_peek. cbn [m_write m_read]. case_bool_decide; [done|].
  rewrite offset_done by (apply ring_ok || apply idx_range). naive_solver.
Qed.

Lemma discard_counter i j q :
  queue_discard (QueueCb bsize len (idx i) (idx j)) 1 = Done (1, q) → m_read q = idx (S j).
Proof.
  cbn [queue_discard m_read m_write]. case_bool_decide; [done|]. rewrite idx_next, !bind_done. by intros [= <-].
Qed.

(** *** The stores of a block, and of several blocks *)
Definition cell_stores (i : nat) x : list (store A) := imap (fun j a => SCell (idx i) j a) x.

Definition block_stores (i : nat) x : list (store A) := cell_stores i x ++ [SWrite (idx (S i))].

Fixpoint stream (i : nat) (xs : list (list A)) : list (store A) :=
  match xs with
  | [] => []
  | x :: xs => block_stores i x ++ stream (S i) xs
  end.

Lemma cell_stores_length i x : length (cell_stores i x) = length x.
Proof. apply length_imap. Qed.

Lemma cell_stores_lookup i x j : cell_stores i x !! j = SCell (idx i) j <$> x !! j.
Proof. apply list_lookup_imap. Qed.

Lemma stream_app xs ys i : stream i (xs ++ ys) = stream i xs ++ stream (i + length xs) ys.
Proof.
  revert i. induction xs as [|x xs IH]; intros i; cbn [stream app length]; [by rewrite Nat.add_0_r|].
  rewrite IH, app_assoc. by replace (S i + length xs)%nat with (i + S (length xs))%nat by lia.
Qed.

Lemma own_write_app w (l1 l2 : list (store A)) : own_write w (l1 ++ l2) = own_write (own_write w l1) l2.
Proof. apply foldl_app. Qed.

Lemma own_write_cells w i x k n : own_write w (drop k (take n (cell_stores i x))) = w.
Proof.
  assert (Hall : ∀ l : list (store A), (∀ st, st ∈ l → ∃ b o a, st = SCell b o a) → own_write w l = w).
  { intros l. revert w. induction l as [|st l IH]; intros w Hl; [done|]. cbn.
    destruct (Hl st ltac:(by left)) as (b & o & a & ->). apply IH. intros st' Hin. apply Hl. by right. }
  apply Hall. intros st [j Hj]%list_elem_of_lookup. rewrite lookup_drop in Hj.
  apply lookup_take_Some in Hj as [Hj _]. rewrite cell_stores_lookup in Hj.
  destruct (x !! (k + j)%nat) as [a|]; [|done]. injection Hj as <-. by eexists _, _, _.
Qed.

Lemma own_write_stream w i xs : own_write w (stream i xs) = if decide (xs = []) then w else idx (i + length xs).
Proof.
  revert w i. induction xs as [|x xs IH]; intros w i; cbn [stream]; [done|].
  unfold block_stores. rewrite !own_write_app, IH. cbn [own_write foldl length]. destruct (decide (x :: xs = [])); [done|].
  destruct (decide (xs = [])) as [->|]; cbn [length]; f_equal; lia.
Qed.

Lemma own_write_dropped i x xs k : (k <= length x)%nat →
  own_write (idx i) (drop k (stream i (x :: xs))) = idx (i + length (x :: xs)).
Proof.
  intros Hk. cbn [stream]. unfold block_stores. rewrite <-app_assoc, drop_app_le by (by rewrite cell_stores_length).
  rewrite !own_write_app. pose proof (own_write_cells (idx i) i x k (length x)) as Hc.
  rewrite take_ge in Hc by (by rewrite cell_stores_length). rewrite Hc.
  cbn [own_write foldl app]. rewrite own_write_stream. cbn [length]. destruct (decide (xs = [])) as [->|]; cbn [length]; f_equal; lia.
Qed.

Lemma own_read_counter i j : (i <= j)%nat → own_read (idx i) (idx <$> seq (S i) (j - i)) = idx j.
Proof.
  intros Hij. unfold own_read. destruct (j - i)%nat as [|n] eqn:Hn; [cbn; f_equal; lia|].
  rewrite seq_S, fmap_app. cbn [fmap list_fmap]. rewrite last_snoc. cbn. f_equal. lia.
Qed.

(** ** Invariant *)

(** The message that is being written, and the stores of it so far. *)
Definition current (p : tso_producer A) : list (list A) :=
  match p with TIdle => [] | TFill _ x _ | TCommit _ x => [x] end.

Definition part (i : nat) (p : tso_producer A) : list (store A) :=
  match p with
  | TIdle => []
  | TFill _ x k => take k (cell_stores i x)
  | TCommit _ x => cell_stores i x
  end.

(** The [i]-th cells of the message [x] are in the memory. *)
Definition stored (d : gmap (Z * nat) A) (i : nat) (x : list A) (k : nat) : Prop :=
  ∀ j a, (j < k)%nat → x !! j = Some a → d !! (idx i, j) = Some a.

Definition prod_ok (w rm : nat) (p : tso_producer A) : Prop :=
  match p with
  | TIdle => True
  | TFill b x k => b = idx w * bsize ∧ (k <= cells)%nat ∧ Z.of_nat (S w) - rm < len
  | TCommit next x => next = idx (S w) ∧ Z.of_nat (S w) - rm < len
  end.

Definition cons_ok (sent : list (list A)) (wm r : nat) (c : tso_consumer A) : Prop :=
  match c with
  | TWait => True
  | TCopy b acc => b = idx r * bsize ∧ (r < wm)%nat ∧ ∃ x, sent !! r = Some x ∧ acc = take (length acc) x
  | TDiscard next acc => next = idx (S r) ∧ (r < wm)%nat ∧ sent !! r = Some acc
  end.

(** Of the messages sent, [wm] are visible, and of the next one [k] cells; [rm] of
    the blocks discarded are visible as free. *)
Record tso_inv (wm rm k : nat) (s : tso A) : Prop := TsoInv {
  ti_order : (rm <= length (t_recv s) <= wm)%nat ∧ (wm <= length (t_sent s))%nat;
  ti_room : Z.of_nat (length (t_sent s)) - rm < len;
  ti_write : t_write s = idx wm;
  ti_read : t_read s = idx rm;
  ti_cbuf : t_cbuf s = idx <$> seq (S rm) (length (t_recv s) - rm);
  ti_recv : t_recv s = take (length (t_recv s)) (t_sent s);
  ti_cells : Forall (fun x => length x = cells) (t_sent s ++ current (t_prod s));
  ti_flushed : (k <= cells)%nat ∧ (wm = length (t_sent s) → (k <= length (part (length (t_sent s)) (t_prod s)))%nat);
  ti_pbuf : t_pbuf s = drop k (stream wm (drop wm (t_sent s)) ++ part (length (t_sent s)) (t_prod s));
  ti_data : ∀ i x, (length (t_recv s) <= i < wm)%nat → t_sent s !! i = Some x → stored (t_data s) i x cells;
  ti_partly : ∀ x, (t_sent s ++ current (t_prod s)) !! wm = Some x → stored (t_data s) wm x k;
  ti_prod : prod_ok (length (t_sent s)) rm (t_prod s);
  ti_cons : cons_ok (t_sent s) wm (length (t_recv s)) (t_cons s)
}.

Definition tso_ok (s : tso A) : Prop := ∃ wm rm k, tso_inv wm rm k s.

(** What the producer sees of its own index. *)
Lemma own_write_ok wm rm k s : tso_inv wm rm k s → own_write (t_write s) (t_pbuf s) = idx (length (t_sent s)).
Proof.
  intros Hi. destruct (ti_order _ _ _ _ Hi) as [_ Hwm]. rewrite (ti_write _ _ _ _ Hi), (ti_pbuf _ _ _ _ Hi).
  pose proof (ti_cells _ _ _ _ Hi) as Hc. apply Forall_app in Hc as [Hc _].
  destruct (ti_flushed _ _ _ _ Hi) as [Hk _]. set (W := length (t_sent s)) in *.
  assert (Hpart : ∀ w n, own_write w (drop n (part W (t_prod s))) = w).
  { intros w n. unfold part. destruct (t_prod s) as [|b x m|next x]; [by rewrite drop_nil|apply own_write_cells|].
    pose proof (own_write_cells w W x n (length x)) as Hx. by rewrite take_ge in Hx by (by rewrite cell_stores_length). }
  destruct (drop wm (t_sent s)) as [|x xs] eqn:Hd.
  - cbn [stream app]. rewrite Hpart. f_equal. apply (f_equal length) in Hd. rewrite length_drop in Hd. cbn in Hd. lia.
  - assert (Hx : length x = cells).
    { rewrite Forall_lookup in Hc. apply (Hc wm). rewrite <-(Nat.add_0_r wm), <-lookup_drop, Hd. done. }
    rewrite drop_app, own_write_app, own_write_dropped by (by rewrite Hx). rewrite Hpart, <-Hd, length_drop. f_equal. lia.
Qed.

Lemma own_read_ok wm rm k s : tso_inv wm rm k s → own_read (t_read s) (t_cbuf s) = idx (length (t_recv s)).
Proof.
  intros Hi. rewrite (ti_read _ _ _ _ Hi), (ti_cbuf _ _ _ _ Hi). apply own_read_counter, (ti_order _ _ _ _ Hi).
Qed.

(** ** Every step keeps it, if the stores keep their order *)
Definition in_order (st : store A) (l : list (store A)) : Prop := False.

Notation step := (tso_step bsize len cells in_order).

Section steps.
Context (wm rm k : nat).

Lemma unflushed_length s : tso_inv wm rm k s →
  (k <= length (stream wm (drop wm (t_sent s)) ++ part (length (t_sent s)) (t_prod s)))%nat.
Proof.
  intros Hi. destruct (ti_flushed _ _ _ _ Hi) as [Hk Hp]. rewrite length_app.
  destruct (decide (wm = length (t_sent s))) as [He|Hne]; [specialize (Hp He); lia|].
  destruct (ti_order _ _ _ _ Hi) as [_ Hwm]. pose proof (ti_cells _ _ _ _ Hi) as Hc. apply Forall_app in Hc as [Hc _].
  destruct (lookup_lt_is_Some_2 (t_sent s) wm ltac:(lia)) as [x Hx]. rewrite (drop_S _ _ _ Hx). cbn [stream].
  unfold block_stores. rewrite !length_app, cell_stores_length. rewrite Forall_lookup in Hc. rewrite (Hc _ _ Hx). lia.
Qed.

Lemma inv_t_alloc w r d pb cb c sent recv b x :
  queue_alloc (QueueCb bsize len (own_write w pb) r) = Done b → b ≠ -1 → length x = cells →
  tso_inv wm rm k (Tso w r d pb cb TIdle c sent recv) → tso_inv wm rm k (Tso w r d pb cb (TFill b x 0) c sent recv).
Proof.
  intros Hal Hb Hx Hi. pose proof (own_write_ok _ _ _ _ Hi) as Hw. cbn [t_write t_pbuf t_sent] in Hw.
  rewrite Hw in Hal. destruct Hi as [Ho Hr E1 E2 E3 E4 Hc [Hk Hkp] E5 Hd Hp _ Hco]. cbn in *. subst r.
  apply alloc_counter in Hal as [-> Hne]; [|done]. split; cbn [t_write t_read t_data t_pbuf t_cbuf t_prod t_cons t_sent t_recv]; try done.
  - apply Forall_app. apply Forall_app in Hc as [Hc _]. split; [done|]. by constructor.
  - intros y Hy j a Hj. destruct (decide (wm = length sent)) as [He|]; [specialize (Hkp He); cbn in Hkp; lia|].
    rewrite lookup_app_l in Hy by lia. rewrite app_nil_r in Hp. by apply (Hp y).
  - split; [done|]. split; [lia|]. destruct Ho as [[Ho1 Ho2] Ho3].
    destruct (decide (Z.of_nat (S (length sent)) - rm < len)); [done|].
    destruct Hne. symmetry. unfold idx. replace (Z.of_nat (S (length sent))) with (rm + 1 * len) by lia. by rewrite Z.mod_add by lia.
Qed.

Lemma inv_t_fill w r d pb cb c sent recv b x n a :
  x !! n = Some a → tso_inv wm rm k (Tso w r d pb cb (TFill b x n) c sent recv) →
  tso_inv wm rm k (Tso w r d (pb ++ [SCell (b / bsize) n a]) cb (TFill b x (S n)) c sent recv).
Proof.
  intros Hx Hi. pose proof (unflushed_length _ Hi) as Hu.
  destruct Hi as [Ho Hr E1 E2 E3 E4 Hc [Hk Hkp] E5 Hd Hp (-> & Hn & Hroom) Hco]. cbn [t_write t_read t_data t_pbuf t_cbuf t_prod t_cons t_sent t_recv] in *.
  assert (Hpart : part (length sent) (TFill (idx (length sent) * bsize) x (S n)) =
    part (length sent) (TFill (idx (length sent) * bsize) x n) ++ [SCell (idx (length sent)) n a]).
  { cbn [part]. apply take_S_r. by rewrite cell_stores_lookup, Hx. }
  split; cbn [t_write t_read t_data t_pbuf t_cbuf t_prod t_cons t_sent t_recv]; try done.
  - split; [done|]. intros He. specialize (Hkp He). rewrite Hpart, length_app. apply (Nat.le_trans _ _ _ Hkp), Nat.le_add_r.
  - rewrite Hpart, E5, idx_block, app_assoc, (drop_app_le (_ ++ _)) by done. done.
  - split; [done|]. split; [|done]. apply lookup_lt_Some in Hx.
    apply Forall_app in Hc as [_ Hc]. apply Forall_cons in Hc as [Hc _]. lia.
Qed.

Lemma inv_t_commit_load w r d pb cb c sent recv b x q :
  queue_commit (QueueCb bsize len (own_write w pb) r) = Done q →
  tso_inv wm rm k (Tso w r d pb cb (TFill b x (length x)) c sent recv) →
  tso_inv wm rm k (Tso w r d pb cb (TCommit (m_write q) x) c sent recv).
Proof.
  intros Hq Hi. pose proof (own_write_ok _ _ _ _ Hi) as Hw. cbn [t_write t_pbuf t_sent] in Hw. rewrite Hw in Hq.
  destruct Hi as [Ho Hr E1 E2 E3 E4 Hc Hk E5 Hd Hp (-> & Hn & Hroom) Hco]. cbn [t_write t_read t_data t_pbuf t_cbuf t_prod t_cons t_sent t_recv] in *.
  assert (Hpart : part (length sent) (TFill (idx (length sent) * bsize) x (length x)) = part (length sent) (TCommit (m_write q) x)).
  { cbn [part]. apply take_ge. by rewrite cell_stores_length. }
  subst r. unfold queue_commit in Hq. cbn [m_write] in Hq. rewrite idx_next, bind_done in Hq. injection Hq as <-.
  split; cbn [t_write t_read t_data t_pbuf t_cbuf t_prod t_cons t_sent t_recv]; try done; [by rewrite <-Hpart|by rewrite <-Hpart].
Qed.

Lemma inv_t_commit_store w r d pb cb c sent recv next x :
  tso_inv wm rm k (Tso w r d pb cb (TCommit next x) c sent recv) →
  tso_inv wm rm k (Tso w r d (pb ++ [SWrite next]) cb TIdle c (sent ++ [x]) recv).
Proof.
  intros Hi. pose proof (unflushed_length _ Hi) as Hu.
  destruct Hi as [[Ho1 Ho2] Hr E1 E2 E3 E4 Hc [Hk Hkp] E5 Hd Hp (-> & Hroom) Hco]. cbn [t_write t_read t_data t_pbuf t_cbuf t_prod t_cons t_sent t_recv current] in *.
  split; cbn [t_write t_read t_data t_pbuf t_cbuf t_prod t_cons t_sent t_recv current]; try done.
  - rewrite length_app. lia.
  - rewrite length_app. cbn [length]. by replace (length sent + 1)%nat with (S (length sent)) by lia.
  - by rewrite take_app_le by lia.
  - by rewrite app_nil_r.
  - split; [done|]. rewrite length_app. cbn [length]. lia.
  - rewrite E5. cbn [part]. rewrite app_nil_r, (drop_app_le sent) by lia. rewrite stream_app. cbn [stream]. rewrite app_nil_r, length_drop.
    replace (wm + (length sent - wm))%nat with (length sent) by lia. unfold block_stores.
    rewrite (app_assoc (stream _ _)), (drop_app_le (stream _ _ ++ _)) by done. done.
  - intros i y Hi Hy. rewrite lookup_app_l in Hy by lia. by apply (Hd i).
  - by rewrite app_nil_r.
  - destruct c as [|b acc|n acc]; cbn [cons_ok] in *; [done| |].
    + destruct Hco as (-> & Hlt & y & Hy & Hacc). split; [done|]. split; [done|]. exists y. by rewrite lookup_app_l by lia.
    + destruct Hco as (-> & Hlt & Hy). by rewrite lookup_app_l by lia.
Qed.

(** A cell of a message becomes visible: no block in use is hit. *)
Lemma inv_t_flush_cell w r d st pb cb p c sent recv x a :
  tso_inv wm rm k (Tso w r d (st :: pb) cb p c sent recv) →
  (sent ++ current p) !! wm = Some x → x !! k = Some a → (k < cells)%nat →
  (wm = length sent → (k < length (part (length sent) p))%nat) →
  st = SCell (idx wm) k a →
  tso_inv wm rm (S k) (Tso w r (<[(idx wm, k) := a]> d) pb cb p c sent recv).
Proof.
  intros Hi Hx Ha Hk Hkp ->.
  destruct Hi as [[[Ho1 Ho2] Ho3] Hr E1 E2 E3 E4 Hc _ E5 Hd Hp Hpr Hco]. cbn [t_write t_read t_data t_pbuf t_cbuf t_prod t_cons t_sent t_recv] in *.
  split; cbn [t_write t_read t_data t_pbuf t_cbuf t_prod t_cons t_sent t_recv]; try done.
  - assert (Hdr : ∀ (l l' : list (store A)) st, st :: l' = drop k l → l' = drop (S k) l).
    { intros l l' st Hl. by rewrite <-(Nat.add_1_r k), <-drop_drop, <-Hl. }
    by eapply Hdr.
  - intros i y Hi Hy j b Hj Hb. rewrite lookup_insert_ne; [by apply (Hd i y)|]. intros [= Heq _].
    symmetry in Heq. apply idx_inj in Heq; lia.
  - intros y Hy j b Hj Hb. rewrite Hx in Hy. injection Hy as <-. destruct (decide (j = k)) as [->|Hne].
    + rewrite lookup_insert_eq. congruence.
    + rewrite lookup_insert_ne by congruence. apply (Hp x Hx); [lia|done].
Qed.

Lemma inv_t_flush w r d st pb cb p c sent recv :
  tso_inv wm rm k (Tso w r d (st :: pb) cb p c sent recv) →
  tso_ok (let '(w', d') := hit st w d in Tso w' r d' pb cb p c sent recv).
Proof.
  intros Hi. pose proof Hi as [[[Ho1 Ho2] Ho3] Hr E1 E2 E3 E4 Hc [Hk Hkp] E5 Hd Hp Hpr Hco].
  cbn [t_write t_read t_data t_pbuf t_cbuf t_prod t_cons t_sent t_recv] in *.
  assert (Hst : (stream wm (drop wm sent) ++ part (length sent) p) !! k = Some st).
  { rewrite <-(Nat.add_0_r k), <-lookup_drop, <-E5. done. }
  destruct (decide (wm = length sent)) as [He|Hne].
  - specialize (Hkp He). rewrite (drop_ge sent) in Hst by lia. cbn [stream app] in Hst.
    assert (Hx : ∃ x a, current p = [x] ∧ x !! k = Some a ∧ st = SCell (idx wm) k a).
    { subst wm. unfold part in Hst. destruct p as [|b x n|n x]; [done| |].
      - apply lookup_take_Some in Hst as [Hst _]. rewrite cell_stores_lookup in Hst.
        destruct (x !! k) as [a|] eqn:Ha; [|done]. injection Hst as <-. by exists x, a.
      - rewrite cell_stores_lookup in Hst. destruct (x !! k) as [a|] eqn:Ha; [|done]. injection Hst as <-. by exists x, a. }
    destruct Hx as (x & a & Hcur & Ha & ->). exists wm, rm, (S k). cbn [hit].
    assert (Hcx : length x = cells). { rewrite Hcur in Hc. apply Forall_app in Hc as [_ Hc]. by apply Forall_cons in Hc as [Hc _]. }
    apply (inv_t_flush_cell _ _ _ (SCell (idx wm) k a) _ _ _ _ _ _ x); try done.
    + rewrite Hcur, He. by apply list_lookup_middle.
    + apply lookup_lt_Some in Ha. lia.
    + intros _. by apply lookup_lt_Some in Hst.
  - destruct (lookup_lt_is_Some_2 sent wm ltac:(lia)) as [x Hx]. rewrite (drop_S _ _ _ Hx) in Hst, E5. cbn [stream] in Hst, E5.
    unfold block_stores in Hst, E5. rewrite <-!app_assoc in Hst, E5.
    assert (Hcx : length x = cells). { apply Forall_app in Hc as [Hc _]. rewrite Forall_lookup in Hc. by apply (Hc wm). }
    destruct (decide (k = cells)) as [Hkc|Hkc].
    + rewrite lookup_app_r in Hst by (rewrite cell_stores_length; lia). rewrite cell_stores_length, Hkc, Hcx, Nat.sub_diag in Hst.
      injection Hst as <-. cbn [hit]. exists (S wm), rm, 0%nat.
      rewrite drop_app_ge in E5 by (rewrite cell_stores_length; lia). rewrite cell_stores_length, Hkc, Hcx, Nat.sub_diag in E5.
      cbn [app drop] in E5. injection E5 as ->.
      split; cbn [t_write t_read t_data t_pbuf t_cbuf t_prod t_cons t_sent t_recv]; try done; try lia.
      * intros i y Hiy Hy. destruct (decide (i = wm)) as [->|]; [|by apply (Hd i); [lia|]].
        rewrite <-Hkc. apply Hp. by rewrite lookup_app_l by lia.
      * intros y _ j a Hj. lia.
      * unfold cons_ok in *. destruct c; [done| |]; destruct Hco as (-> & Hlt & Hrest); (split; [done|split; [lia|done]]).
    + rewrite lookup_app_l in Hst by (rewrite cell_stores_length; lia). rewrite cell_stores_lookup in Hst.
      destruct (x !! k) as [a|] eqn:Ha; [|done]. injection Hst as <-. exists wm, rm, (S k). cbn [hit].
      apply (inv_t_flush_cell _ _ _ (SCell (idx wm) k a) _ _ _ _ _ _ x); try done; [by rewrite lookup_app_l by lia|lia].
Qed.

Lemma inv_t_peek w r d pb cb p sent recv b :
  queue_peek (QueueCb bsize len w (own_read r cb)) = Some b →
  tso_inv wm rm k (Tso w r d pb cb p TWait sent recv) → tso_inv wm rm k (Tso w r d pb cb p (TCopy b []) sent recv).
Proof.
  intros Hpk Hi. pose proof (own_read_ok _ _ _ _ Hi) as Hr. cbn [t_read t_cbuf t_recv] in Hr. rewrite Hr in Hpk.
  destruct Hi as [Ho Hroom E1 E2 E3 E4 Hc Hk E5 Hd Hp Hpr _]. cbn [t_write t_read t_data t_pbuf t_cbuf t_prod t_cons t_sent t_recv] in *.
  subst w. apply peek_counter in Hpk as [-> Hne].
  assert (Hlt : (length recv < wm)%nat) by (destruct (decide (length recv = wm)) as [E|]; [by rewrite E in Hne|lia]).
  split; cbn [t_write t_read t_data t_pbuf t_cbuf t_prod t_cons t_sent t_recv]; try done.
  split; [done|]. split; [done|]. destruct (lookup_lt_is_Some_2 sent (length recv) ltac:(lia)) as [x Hx]. by exists x.
Qed.

Lemma inv_t_copy w r d pb cb p sent recv b acc a :
  (length acc < cells)%nat → d !! (b / bsize, length acc) = Some a →
  tso_inv wm rm k (Tso w r d pb cb p (TCopy b acc) sent recv) →
  tso_inv wm rm k (Tso w r d pb cb p (TCopy b (acc ++ [a])) sent recv).
Proof.
  intros Hl Ha [Ho Hroom E1 E2 E3 E4 Hc Hk E5 Hd Hp Hpr (Hb & Hlt & x & Hx & Hacc)].
  cbn [t_write t_read t_data t_pbuf t_cbuf t_prod t_cons t_sent t_recv] in *. subst b. rewrite idx_block in Ha.
  assert (Hcx : length x = cells). { apply Forall_app in Hc as [Hc _]. rewrite Forall_lookup in Hc. by eapply Hc. }
  destruct (lookup_lt_is_Some_2 x (length acc) ltac:(lia)) as [a' Ha'].
  assert (Hst : d !! (idx (length recv), length acc) = Some a') by (apply (Hd _ x); [lia|done|done|done]).
  rewrite Ha in Hst. injection Hst as ->.
  split; cbn [t_write t_read t_data t_pbuf t_cbuf t_prod t_cons t_sent t_recv]; try done.
  split; [done|]. split; [done|]. exists x. split; [done|]. rewrite length_app, Nat.add_1_r, (take_S_r _ _ _ Ha'). by f_equal.
Qed.

Lemma inv_t_discard_load w r d pb cb p sent recv b acc q :
  length acc = cells → queue_discard (QueueCb bsize len w (own_read r cb)) 1 = Done (1, q) →
  tso_inv wm rm k (Tso w r d pb cb p (TCopy b acc) sent recv) →
  tso_inv wm rm k (Tso w r d pb cb p (TDiscard (m_read q) acc) sent recv).
Proof.
  intros Hl Hq Hi. pose proof (own_read_ok _ _ _ _ Hi) as Hr. cbn [t_read t_cbuf t_recv] in Hr. rewrite Hr in Hq.
  destruct Hi as [Ho Hroom E1 E2 E3 E4 Hc Hk E5 Hd Hp Hpr (-> & Hlt & x & Hx & Hacc)].
  cbn [t_write t_read t_data t_pbuf t_cbuf t_prod t_cons t_sent t_recv] in *. subst w. apply discard_counter in Hq.
  assert (Hcx : length x = cells). { apply Forall_app in Hc as [Hc _]. rewrite Forall_lookup in Hc. by eapply Hc. }
  split; cbn [t_write t_read t_data t_pbuf t_cbuf t_prod t_cons t_sent t_recv]; try done.
  split; [done|]. split; [done|]. rewrite Hx, Hacc, Hl. by rewrite take_ge by lia.
Qed.

Lemma inv_t_discard_store w r d pb cb p sent recv next acc :
  tso_inv wm rm k (Tso w r d pb cb p (TDiscard next acc) sent recv) →
  tso_inv wm rm k (Tso w r d pb (cb ++ [next]) p TWait sent (recv ++ [acc])).
Proof.
  intros [[[Ho1 Ho2] Ho3] Hroom E1 E2 E3 E4 Hc Hk E5 Hd Hp Hpr (-> & Hlt & Hx)].
  cbn [t_write t_read t_data t_pbuf t_cbuf t_prod t_cons t_sent t_recv] in *.
  assert (Hl : length (recv ++ [acc]) = S (length recv)) by (rewrite length_app; cbn [length]; lia).
  split; cbn [t_write t_read t_data t_pbuf t_cbuf t_prod t_cons t_sent t_recv]; rewrite ?Hl; try done; try lia.
  - rewrite E3. replace (S (length recv) - rm)%nat with (S (length recv - rm)) by lia. rewrite seq_S, fmap_app. f_equal.
    cbn [fmap list_fmap]. by replace (S rm + (length recv - rm))%nat with (S (length recv)) by lia.
  - rewrite (take_S_r _ _ _ Hx). by f_equal.
  - intros i y Hi. apply Hd. lia.
Qed.

Lemma inv_t_flush_read w r d pb r' cb p c sent recv :
  tso_inv wm rm k (Tso w r d pb (r' :: cb) p c sent recv) →
  tso_inv wm (S rm) k (Tso w r' d pb cb p c sent recv).
Proof.
  intros [[[Ho1 Ho2] Ho3] Hroom E1 E2 E3 E4 Hc Hk E5 Hd Hp Hpr Hco].
  cbn [t_write t_read t_data t_pbuf t_cbuf t_prod t_cons t_sent t_recv] in *.
  destruct (length recv - rm)%nat as [|n] eqn:Hn; [done|]. injection E3 as -> ->.
  split; cbn [t_write t_read t_data t_pbuf t_cbuf t_prod t_cons t_sent t_recv]; try done; try lia.
  - by replace (length recv - S rm)%nat with n by lia.
  - destruct p; cbn [prod_ok] in *; [done| |]; destruct_and!; split_and!; try done; lia.
Qed.
End steps.

Lemma tso_step_ok s s' : step s s' → tso_ok s → tso_ok s'.
Proof.
  intros Hs (wm & rm & k & Hi). destruct Hs as [| | | |w r d l st pb cb p c sent recv Hl| | | | |].
  - exists wm, rm, k. by eapply inv_t_alloc.
  - exists wm, rm, k. by apply inv_t_fill.
  - exists wm, rm, k. by eapply inv_t_commit_load.
  - exists wm, rm, k. by apply inv_t_commit_store.
  - destruct Hl as [->|[]]. by eapply inv_t_flush.
  - exists wm, rm, k. by eapply inv_t_peek.
  - exists wm, rm, k. by eapply inv_t_copy.
  - exists wm, rm, k. by eapply inv_t_discard_load.
  - exists wm, rm, k. by apply inv_t_discard_store.
  - exists wm, (S rm), k. by eapply inv_t_flush_read.
Qed.

(** The cells in the buffer are those of messages that are not visible yet. *)
Lemma stream_cells xs : ∀ i blk off a, SCell blk off a ∈ stream i xs →
  ∃ j, blk = idx j ∧ (i <= j < i + length xs)%nat.
Proof.
  induction xs as [|x xs IH]; intros i blk off a Hin; cbn [stream] in Hin; [by apply elem_of_nil in Hin|].
  unfold block_stores in Hin. rewrite !elem_of_app in Hin. destruct Hin as [[Hin|Hin]|Hin].
  - apply list_elem_of_lookup in Hin as [j Hj]. rewrite cell_stores_lookup in Hj. destruct (x !! j); [|done].
    injection Hj as <- _ _. exists i. cbn [length]. split; [done|lia].
  - by apply list_elem_of_singleton in Hin.
  - destruct (IH _ _ _ _ Hin) as (j & -> & Hj). exists j. cbn [length]. split; [done|lia].
Qed.

Lemma pending_cells wm rm k s : tso_inv wm rm k s → ∀ blk off a, SCell blk off a ∈ t_pbuf s →
  ∃ j, blk = idx j ∧ (wm <= j)%nat ∧ ((j < length (t_sent s))%nat ∨ j = length (t_sent s) ∧ t_prod s ≠ TIdle).
Proof.
  intros Hi blk off a Hin. destruct (ti_order _ _ _ _ Hi) as [_ Hwm]. rewrite (ti_pbuf _ _ _ _ Hi) in Hin.
  apply list_elem_of_lookup in Hin as [n Hn]. rewrite lookup_drop in Hn. apply list_elem_of_lookup_2 in Hn as Hin. clear Hn.
  apply elem_of_app in Hin as [Hin|Hin].
  - destruct (stream_cells _ _ _ _ _ Hin) as (j & -> & Hj). rewrite length_drop in Hj. exists j. split; [done|]. split; [lia|left; lia].
  - assert (Hb : blk = idx (length (t_sent s)) ∧ t_prod s ≠ TIdle).
    { unfold part in Hin. destruct (t_prod s) as [|b x m|m x]; [by apply elem_of_nil in Hin| |];
        apply list_elem_of_lookup in Hin as [j Hj]; [apply lookup_take_Some in Hj as [Hj _]|];
        rewrite cell_stores_lookup in Hj; destruct (x !! j); try done; by injection Hj as <- _ _. }
    destruct Hb as [-> Hne]. exists (length (t_sent s)). split; [done|]. split; [done|]. by right.
Qed.

(** The start: [queue_create], and any contents of the blocks. *)
Definition tso_start (d : gmap (Z * nat) A) : tso A := Tso 0 0 d [] [] TIdle TWait [] [].

Lemma tso_start_ok d : tso_ok (tso_start d).
Proof.
  exists 0%nat, 0%nat, 0%nat.
  assert (H0 : idx 0 = 0) by (unfold idx; by rewrite Z.mod_0_l by lia).
  split; cbn; try done; try lia.
Qed.

Lemma tso_reachable_ok d s : rtc step (tso_start d) s → tso_ok s.
Proof.
  intros Hr. pose proof (tso_start_ok d) as Hok. induction Hr as [|s1 s2 s3 Hs _ IH]; [done|].
  apply IH. by eapply tso_step_ok.
Qed.
(** ** Whatever was sent can still be received *)
Definition cons_weight (c : tso_consumer A) : nat :=
  match c with TWait => cells + 3 | TCopy _ acc => (cells - length acc) + 2 | TDiscard _ _ => 1 end.

Definition tso_weight (s : tso A) : nat :=
  length (t_pbuf s) + (cells + 4) * (length (t_sent s) - length (t_recv s)) + cons_weight (t_cons s).

(** The consumer moves on when a message is visible. *)
Lemma cons_moves wm rm k s : tso_inv wm rm k s → (length (t_recv s) < wm)%nat →
  ∃ s', step s s' ∧ t_sent s' = t_sent s ∧ (tso_weight s' < tso_weight s)%nat.
Proof.
  intros Hi Hlt. pose proof (own_read_ok _ _ _ _ Hi) as Hrd. destruct Hi as [[[Ho1 Ho2] Ho3] Hroom E1 E2 E3 E4 Hc Hk E5 Hd Hp Hpr Hco].
  destruct s as [w r d pb cb p c sent recv]. cbn [t_write t_read t_data t_pbuf t_cbuf t_prod t_cons t_sent t_recv] in *.
  destruct (lookup_lt_is_Some_2 sent (length recv) ltac:(lia)) as [x Hx].
  assert (Hcx : length x = cells). { apply Forall_app in Hc as [Hc _]. rewrite Forall_lookup in Hc. by eapply Hc. }
  assert (Hne : idx (length recv) ≠ idx wm) by (intros He; apply idx_inj in He; lia).
  destruct c as [|b acc|next acc]; unfold tso_weight; cbn [t_pbuf t_cons t_sent t_recv cons_weight].
  - eexists. split; [eapply tso_peek; unfold queue_peek; cbn [m_read m_write]; rewrite Hrd, E1, bool_decide_false by done; reflexivity|].
    split; [done|]. cbn [t_pbuf t_cons t_sent t_recv cons_weight length]. lia.
  - destruct Hco as (-> & _ & y & Hy & Hacc). rewrite Hx in Hy. injection Hy as <-.
    assert (Hl : (length acc <= cells)%nat) by (rewrite Hacc, length_take; lia).
    destruct (decide (length acc < cells)%nat) as [Hlt'|].
    + destruct (lookup_lt_is_Some_2 x (length acc) ltac:(lia)) as [a Ha].
      eexists. split; [apply tso_copy; [done|rewrite idx_block; by apply (Hd _ x); [lia| | |]]|].
      split; [done|]. cbn [t_pbuf t_cons t_sent t_recv cons_weight]. rewrite length_app. cbn [length]. lia.
    + destruct (discard_spec 1 (QueueCb bsize len (idx wm) (idx (length recv))) (ring_ok _ _)) as (q & Hq & _).
      assert (Hpos : 0 < queue_len (QueueCb bsize len (idx wm) (idx (length recv)))).
      { pose proof (queue_len_range _ (ring_ok wm (length recv))). rewrite queue_len_eq by apply ring_ok.
        cbn [m_read m_write a_len]. pose proof (idx_range wm). pose proof (idx_range (length recv)). case_bool_decide; lia. }
      rewrite Z.min_l in Hq by lia.
      eexists. split; [eapply tso_discard_load; [lia|]; rewrite Hrd, E1; exact Hq|].
      split; [done|]. cbn [t_pbuf t_cons t_sent t_recv cons_weight]. lia.
  - eexists. split; [apply tso_discard_store|]. split; [done|].
    cbn [t_pbuf t_cons t_sent t_recv cons_weight]. rewrite length_app. cbn [length].
    assert (length sent - length recv = S (length sent - (length recv + 1)))%nat as -> by lia. lia.
Qed.

Lemma tso_drains s : tso_ok s → ∃ s', rtc step s s' ∧ t_sent s' = t_sent s ∧ t_recv s' = t_sent s.
Proof.
  remember (tso_weight s) as n eqn:Hn. revert s Hn. induction (lt_wf n) as [n _ IH]. intros s -> Hok.
  assert (Hgo : ∀ s1, step s s1 → t_sent s1 = t_sent s → (tso_weight s1 < tso_weight s)%nat →
    ∃ s', rtc step s s' ∧ t_sent s' = t_sent s ∧ t_recv s' = t_sent s).
  { intros s1 Hs Hse Hw. destruct (IH _ Hw s1 eq_refl (tso_step_ok _ _ Hs Hok)) as (s' & Hr & H1 & H2).
    exists s'. rewrite <-Hse. split; [by eapply rtc_l|done]. }
  pose proof Hok as (wm & rm & k & Hi). destruct (ti_order _ _ _ _ Hi) as [[_ Ho2] Ho3].
  destruct (decide (length (t_recv s) = length (t_sent s))) as [He|Hne].
  { exists s. split; [apply rtc_refl|]. split; [done|]. rewrite (ti_recv _ _ _ _ Hi), He. by apply take_ge. }
  destruct (t_pbuf s) as [|st pb] eqn:Hpb.
  - assert (Hwm : wm = length (t_sent s)).
    { pose proof (ti_pbuf _ _ _ _ Hi) as Hp. rewrite Hpb in Hp. destruct (decide (wm = length (t_sent s))) as [|Hw]; [done|].
      destruct (lookup_lt_is_Some_2 (t_sent s) wm ltac:(lia)) as [x Hx]. apply (f_equal length) in Hp.
      pose proof (ti_cells _ _ _ _ Hi) as Hc. apply Forall_app in Hc as [Hc _]. rewrite Forall_lookup in Hc.
      specialize (Hc _ _ Hx). destruct (ti_flushed _ _ _ _ Hi) as [Hk _].
      rewrite (drop_S _ _ _ Hx) in Hp. cbn [stream] in Hp. unfold block_stores in Hp.
      rewrite length_drop, !length_app, cell_stores_length in Hp. cbn [length] in Hp. lia. }
    destruct (cons_moves _ _ _ _ Hi ltac:(lia)) as (s1 & Hs & Hse & Hw). by apply (Hgo s1).
  - destruct s as [w r d pb0 cb p c sent recv]. cbn [t_pbuf] in Hpb. subst pb0.
    apply (Hgo _ (tso_flush _ _ _ _ w r d [] st pb cb p c sent recv ltac:(by left)));
      destruct st; cbn [hit app t_sent]; try done; unfold tso_weight; cbn [t_pbuf t_sent t_recv t_cons length]; lia.
Qed.
End inv.

(** ** Properties *)

(** C19: The queue on processors with store buffers.  In every state the two sides can reach,
    with their stores in the buffers as long as they like, the messages received are
    a prefix of those sent; what has not been received is complete in the buffer or
    in the memory, and less than the ring.  While a cell of a message is on its way to
    the memory, the consumer is not copying the block it goes to.  And from there the
    consumer can receive everything that was sent. *)
Theorem tso_fifo {A} (bsize len : Z) (cells : nat) (d : gmap (Z * nat) A) (s : tso A) :
  0 < bsize → 0 < len → len * bsize <= 2 ^ 31 →
  rtc (tso_step bsize len cells in_order) (tso_start d) s →
  (∃ rest, t_sent s = t_recv s ++ rest ∧ Z.of_nat (length rest) < len) ∧
  (∀ blk off a idx acc, SCell blk off a ∈ t_pbuf s → t_cons s = TCopy idx acc → idx / bsize ≠ blk) ∧
  (∃ s', rtc (tso_step bsize len cells in_order) s s' ∧ t_sent s' = t_sent s ∧ t_recv s' = t_sent s).
Proof.
  intros Hbs Hlen Hsize Hr. destruct (tso_reachable_ok bsize len cells Hbs Hlen Hsize d s Hr) as (wm & rm & k & Hi).
  split_and!.
  - exists (drop (length (t_recv s)) (t_sent s)). destruct (ti_order _ _ _ _ _ _ _ Hi).
    pose proof (ti_room _ _ _ _ _ _ _ Hi). split; [|rewrite length_drop; lia].
    rewrite (ti_recv _ _ _ _ _ _ _ Hi) at 1. by rewrite take_drop.
  - intros blk off a b acc Hin Hc. destruct (pending_cells _ _ _ _ _ _ _ Hi _ _ _ Hin) as (i & -> & Hwm & Hwi).
    pose proof (ti_cons _ _ _ _ _ _ _ Hi) as Hco. rewrite Hc in Hco. destruct Hco as (-> & Hlt & _).
    rewrite idx_block by done. intros Heq. destruct (ti_order _ _ _ _ _ _ _ Hi).
    pose proof (ti_room _ _ _ _ _ _ _ Hi). pose proof (ti_prod _ _ _ _ _ _ _ Hi) as Hpr.
    assert (Hn : Z.of_nat i - length (t_recv s) < len).
    { destruct Hwi as [|[-> Hp]]; [lia|]. destruct (t_prod s); cbn [prod_ok] in Hpr; [done|lia|lia]. }
    apply (idx_inj len) in Heq; [lia|lia|lia|done].
  - apply (tso_drains bsize len cells Hbs Hlen Hsize). by exists wm, rm, k.
Qed.

(** Two cells per block, three blocks of 8 bytes.  The message is committed, but
    still on its way: the consumer sees nothing yet; then it has arrived and is
    being copied while the next one is being written. *)
Definition empty_ring : gmap (Z * nat) nat := list_to_map ((fun i => (i, 0%nat)) <$> [(0, 0%nat); (0, 1%nat); (1, 0%nat); (1, 1%nat)]).

Definition tso_mid : tso nat :=
  Tso 1 0 (<[(0, 1%nat) := 8%nat]> (<[(0, 0%nat) := 7%nat]> empty_ring)) [SCell 1 0 9%nat] []
    (TFill 8 [9; 10]%nat 1) (TCopy 0 [7%nat]) [[7; 8]%nat] [].

Lemma tso_start_mid : rtc (tso_step 8 3 2 in_order) (tso_start empty_ring) tso_mid.
Proof.
  eapply rtc_l; [apply (tso_alloc _ _ _ _ _ _ _ _ _ _ _ _ 0 [7; 8]%nat); [reflexivity|lia|reflexivity]|].
  eapply rtc_l; [by eapply tso_fill|]. eapply rtc_l; [by eapply tso_fill|].
  eapply rtc_l; [apply tso_commit_load; vm_compute; reflexivity|]. eapply rtc_l; [apply tso_commit_store|].
  eapply rtc_l; [apply (tso_flush _ _ _ _ _ _ _ []); by left|].
  eapply rtc_l; [apply (tso_flush _ _ _ _ _ _ _ []); by left|].
  eapply rtc_l; [apply (tso_flush _ _ _ _ _ _ _ []); by left|].
  eapply rtc_l; [apply (tso_alloc _ _ _ _ _ _ _ _ _ _ _ _ 8 [9; 10]%nat); [reflexivity|lia|reflexivity]|].
  eapply rtc_l; [by eapply tso_fill|].
  eapply rtc_l; [by eapply tso_peek|].
  eapply rtc_l; [eapply tso_copy; [cbn; lia|reflexivity]|]. apply rtc_refl.
Qed.

Lemma tso_fifo_witness :
  rtc (tso_step 8 3 2 in_order) (tso_start empty_ring) tso_mid ∧
  (∃ rest, t_sent tso_mid = t_recv tso_mid ++ rest ∧ Z.of_nat (length rest) < 3) ∧
  (∀ blk off a idx acc, SCell blk off a ∈ t_pbuf tso_mid → t_cons tso_mid = TCopy idx acc → idx / 8 ≠ blk) ∧
  (∃ s', rtc (tso_step 8 3 2 in_order) tso_mid s' ∧ t_sent s' = t_sent tso_mid ∧ t_recv s' = t_sent tso_mid).
Proof.
  split; [apply tso_start_mid|]. apply (tso_fifo 8 3 2 empty_ring tso_mid); [lia|lia|lia|apply tso_start_mid].
Defined.

(** A processor, or a compiler, that brings a store forward over a store to another
    place: the write index becomes visible before the block, and the consumer
    receives what was in the block before. *)
Definition any_order {A} (st : store A) (l : list (store A)) : Prop :=
  match st with SWrite _ => ∀ w, SWrite w ∉ l | SCell blk off _ => ∀ a, SCell blk off a ∉ l end.

Lemma reordered_stores_lose :
  ∃ s, rtc (tso_step 8 2 1 any_order) (tso_start (<[(0, 0%nat) := 0%nat]> ∅)) s ∧
    t_sent s = [[7%nat]] ∧ t_recv s = [[0%nat]].
Proof.
  eexists. split.
  - eapply rtc_l; [apply (tso_alloc _ _ _ _ _ _ _ _ _ _ _ _ 0 [7%nat]); [reflexivity|lia|reflexivity]|].
    eapply rtc_l; [by eapply tso_fill|].
    eapply rtc_l; [apply tso_commit_load; vm_compute; reflexivity|]. eapply rtc_l; [apply tso_commit_store|].
    eapply rtc_l; [apply (tso_flush _ _ _ _ _ _ _ [SCell 0 0 7%nat] (SWrite 1)); right|].
    { intros w Hin. by apply list_elem_of_singleton in Hin. }
    eapply rtc_l; [by eapply tso_peek|].
    eapply rtc_l; [eapply tso_copy; [cbn; lia|reflexivity]|].
    eapply rtc_l; [apply tso_discard_load; [reflexivity|vm_compute; reflexivity]|].
    eapply rtc_l; [apply tso_discard_store|]. apply rtc_refl.
  - done.
Qed.
