(* ===== verification/Unetcat.v ===== *)
(** * An application from end to end, [examples/unetcat.c]

    [unetcat] prints every datagram it receives.  Here it runs against the whole
    stack: frames come in, the stack and other applications take their turns, and
    what [unetcat] writes is compared with what was on the wire. *)

From S2P Require Import Prelude Bytes EtherFcs Checksum IpHeader Rib QueueR Socket Shm Signals.
From S2P Require Import Udp Tcp IpDefer Ether Arp Fragment World Output IpFragments.
From S2P Require Import Config IpSend Input IpInput ArpInput Stack Egress Safety System Main.

#[local] Open Scope Z_scope.

(** ** The program *)

(** [sizeof(buf)] *)
Definition BUF_SIZE : nat := 2048.

(** [unetcat] up to its loop: the mapping and the mask, or the exit status. *)
Definition unetcat_start `{Host} (t : thr) : outcome ((list Z * thr) + Z) :=
  '(sock, t) ← xstack_listen (default [] (head shmem_paths)) t;
  match sock with
  | None => Done (inr 1)
  | Some sock => Done (inl (sock, t))
  end.

(** [memset] and [xstack_recvfrom]: [buf] and [r]. *)
Definition unetcat_read (s : xstack_sock) : outcome (list Z * Z * xstack_sock) :=
  let buf := repeat 0 BUF_SIZE in
  '(r, addr, bytes, s) ← xstack_recvfrom s (BUF_SIZE - 1) false;
  buf ← mem_write 0 bytes buf;
  Done (buf, u64 r, s).

(** [write]; [out] is what was written before. *)
Definition unetcat_write (buf : list Z) (r : Z) (out : list Z) : outcome (list Z) :=
  if bool_decide (r > 0) then bs ← mem_read 0 (Z.to_nat r) buf; Done (out ++ bs) else Done out.

(** The body of the loop, on the first socket of the stack. *)
Definition unetcat_body (w : world) (out : list Z) : outcome (world * list Z) :=
  '(buf, r, s) ← unetcat_read (sock_at (w_udp w) 0);
  out ← unetcat_write buf r out;
  Done (set_udp (put_sock (w_udp w) 0 s) w, out).

(** ** The stack and the application *)
Inductive cat_event : Type :=
| OfStack (ev : turn_event)
| OfCat.

Definition cat_step `{Kernel} (e : cat_event) (w : world) (out : list Z) : outcome (world * list Z) :=
  match e with
  | OfStack ev => match take_turn ev w with Done (_, w) => Done (w, out) | Fault => Fault | Spin => Spin end
  | OfCat => unetcat_body w out
  end.

Fixpoint cat_run `{Kernel} (es : list cat_event) (w : world) (out : list Z) : outcome (world * list Z) :=
  match es with
  | [] => Done (w, out)
  | e :: es => '(w, out) ← cat_step e w out; cat_run es w out
  end.

(** No other application reads from the socket. *)
Definition cat_event_ok (e : cat_event) : Prop :=
  match e with
  | OfStack (AppRecv _ _ _) => False
  | OfStack ev => turn_ok ev
  | OfCat => True
  end.

Definition cat_time (es : list cat_event) : Z :=
  foldr (fun e t => match e with OfStack ev => turn_time ev | OfCat => 0 end + t) 0 es.

(** ** What was on the wire *)

(** The datagram for 10.0.0.2, port 10, in a frame. *)
Definition frame_dgram (hdr : ether_hdr) (m : list Z) (n : nat) : option (sockaddr * list Z) :=
  match udp_frame OWN_ADDR hdr m n with
  | Some (ip, p) =>
      if bool_decide (8 <= length p)%nat && bool_decide (be_val (take 2 (drop 2 p)) = 10)
      then Some (Sockaddr (ip_src ip) (be_val (take 2 p)), drop 8 p) else None
  | None => None
  end.

Definition incoming (es : list cat_event) : list (sockaddr * list Z) :=
  flat_map (fun e => match e with OfStack (Frame hdr m n) => option_list (frame_dgram hdr m n) | _ => [] end) es.

Definition is_cat (e : cat_event) : bool := match e with OfCat => true | OfStack _ => false end.

Definition reads (es : list cat_event) : nat := length (List.filter is_cat es).

(** What [unetcat] prints for datagrams. *)
Definition printed (ds : list (sockaddr * list Z)) : list Z := concat ((fun d => take (BUF_SIZE - 1) d.2) <$> ds).

(** ** Lemmas *)
Lemma udp_frame_dst own hdr m n ip p : udp_frame own hdr m n = Some (ip, p) → ip_dst ip = own.
Proof.
  unfold udp_frame. case_bool_decide; [|done]. destruct (_ ≫= _) as [ip'| |]; [|done..].
  destruct (acceptable ip' n); [|done]. cbn [andb]. case_bool_decide as Hd; [|done].
  case_bool_decide; [|done]. by intros [= <- _].
Qed.

(** The model of the one socket of the stack, with the datagrams [q]. *)
Definition one_queue (q : list (sockaddr * list Z)) : udp_model := UdpModel [0%nat] [q].

Lemma deliver_one q hdr m n :
  deliver OWN_ADDR stack_sockets (one_queue q) hdr m n =
  match frame_dgram hdr m n with
  | Some d => if bool_decide (length q = 3)%nat then Spin else Done (one_queue (q ++ [d]))
  | None => Done (one_queue q)
  end.
Proof.
  unfold deliver, frame_dgram. destruct (udp_frame OWN_ADDR hdr m n) as [[ip p]|] eqn:Hf; [|done].
  apply udp_frame_dst in Hf. cbn [md_step]. destruct (decide (length p < 8)%nat) as [Hs|Hs].
  { rewrite bool_decide_true, (bool_decide_false (8 <= length p)%nat) by lia. done. }
  rewrite bool_decide_false, (bool_decide_true (8 <= length p)%nat) by lia. cbn [andb].
  rewrite Hf. unfold md_find. cbn [one_queue md_bound List.find stack_sockets lookup list_lookup].
  rewrite (bool_decide_ext _ (be_val (take 2 (drop 2 p)) = 10)); [|split; [by intros [= ->]|by intros ->]].
  case_bool_decide; [|done]. change (md_queue (one_queue q) !! 0%nat) with (Some q). cbn [deref]. rewrite bind_done. by case_bool_decide.
Qed.

Lemma u64_len (k : nat) : (k <= BUF_SIZE)%nat → u64 k = k.
Proof. intros Hk. unfold u64, BUF_SIZE in *. apply Z.mod_small. lia. Qed.

(** One round of [unetcat]: the oldest datagram, cut to 2047 bytes; an empty one is
    not written. *)
Lemma body_prints w out src buf q :
  ingress_holds (sock_at (w_udp w) 0) ((src, buf) :: q) →
  ∃ s, unetcat_body w out = Done (set_udp (put_sock (w_udp w) 0 s) w, out ++ take (BUF_SIZE - 1) buf) ∧
    xstack_recvfrom (sock_at (w_udp w) 0) (BUF_SIZE - 1) false =
      Done (Z.min (BUF_SIZE - 1) (length buf), src, take (BUF_SIZE - 1) buf, s).
Proof.
  intros Hh. destruct (recvfrom_head _ src buf q (BUF_SIZE - 1) false Hh) as (s & Hr & _); [unfold BUF_SIZE; lia|].
  replace (Z.to_nat (BUF_SIZE - 1)) with (BUF_SIZE - 1)%nat in Hr by (unfold BUF_SIZE; lia).
  exists s. split; [|done]. unfold unetcat_body, unetcat_read. cbv zeta. rewrite Hr, bind_done.
  set (bs := take (BUF_SIZE - 1) buf). assert (Hl : (length bs <= BUF_SIZE - 1)%nat) by (unfold bs; rewrite length_take; lia).
  assert (Hz : Z.min (BUF_SIZE - 1) (length buf) = length bs) by (unfold bs, BUF_SIZE; rewrite length_take; lia).
  clearbody bs. rewrite Hz, u64_len by lia. rewrite mem_write_ok by (rewrite repeat_length; lia). rewrite !bind_done.
  rewrite take_0. cbn [app]. unfold unetcat_write. case_bool_decide as Hp.
  - rewrite Nat2Z.id. rewrite mem_read_ok by (rewrite ?length_app, ?length_drop, ?repeat_length; lia).
    rewrite drop_0. rewrite app_nil_l. rewrite (take_app_exact (length bs) bs) by reflexivity. by rewrite !bind_done.
  - assert (bs = []) as -> by (apply length_zero_iff_nil; lia). by rewrite bind_done, app_nil_r.
Qed.

Lemma body_waits w out : ingress_holds (sock_at (w_udp w) 0) [] → unetcat_body w out = Spin.
Proof. intros Hh. unfold unetcat_body, unetcat_read. by rewrite (recvfrom_empty _ _ _ Hh). Qed.

Lemma incoming_app l1 l2 : incoming (l1 ++ l2) = incoming l1 ++ incoming l2.
Proof. apply flat_map_app. Qed.

Lemma printed_app l1 l2 : printed (l1 ++ l2) = printed l1 ++ printed l2.
Proof. unfold printed. by rewrite fmap_app, concat_app. Qed.

Lemma reads_app l1 l2 : reads (l1 ++ l2) = (reads l1 + reads l2)%nat.
Proof. unfold reads. by rewrite List.filter_app, length_app. Qed.

Section run.
Context `{ReliableKernel}.
Context (mac : list Z).

(** The event cannot go on: no datagram is left to read, there is no room for a
    datagram, in the socket or in the egress queue. *)
Definition cat_waits (q : list (sockaddr * list Z)) (w : world) (e : cat_event) : Prop :=
  match e with
  | OfCat => q = []
  | OfStack (Frame hdr m n) => length q = 3%nat ∧ is_Some (frame_dgram hdr m n)
  | OfStack (AppSend i _ _) => queue_len (egress_q (sock_at (w_udp w) i)) = 3
  | OfStack _ => False
  end.

(** The datagrams that have come in and not been read, given those waiting before. *)
Definition remaining (q : list (sockaddr * list Z)) (es : list cat_event) : list (sockaddr * list Z) :=
  drop (reads es) (q ++ incoming es).

(** One event, with [q] in the queue. *)
Lemma cat_step_ends t q w out e :
  in_order_md mac t (one_queue q) w → t <= ARP_CACHE_AGE_MAX → cat_event_ok e →
  (∃ w', cat_step e w out = Done (w', out ++ printed (take (reads [e]) (q ++ incoming [e]))) ∧
     (reads [e] <= length (q ++ incoming [e]))%nat ∧
     in_order_md mac (t + cat_time [e]) (one_queue (remaining q [e])) w') ∨
  cat_step e w out = Spin ∧ cat_waits q w e.
Proof.
  intros Hin Ht Hok. destruct e as [ev|].
  - assert (Hok' : turn_ok ev) by by destruct ev.
    pose proof (turn_refines mac t (one_queue q) w Ht Hin ev Hok') as Hturn.
    unfold remaining. cbn [cat_step reads List.filter is_cat length take]. rewrite drop_0. unfold printed at 1. cbn [fmap list_fmap concat].
    rewrite app_nil_r. assert (Htime : cat_time [OfStack ev] = turn_time ev) by (cbn; lia). rewrite Htime.
    destruct Hturn as [(w' & md' & -> & Hmd & Hin')|(-> & Hw & Hmd)].
    + left. exists w'. split; [done|]. split; [lia|].
      destruct ev as [hdr m n|delta| |i buffer dest|i l peek]; cbn [md_turn] in Hmd; [|by injection Hmd as <-; cbn; rewrite app_nil_r..|done].
      rewrite deliver_one in Hmd. cbn [incoming flat_map]. rewrite app_nil_r.
      destruct (frame_dgram hdr m n) as [d|]; cbn; [|injection Hmd as <-; by rewrite app_nil_r].
      case_bool_decide; [done|]. by injection Hmd as <-.
    + right. split; [done|]. destruct ev as [hdr m n|delta| |i buffer dest|i l peek]; try done.
      cbn [md_turn is_send] in Hmd. destruct Hmd as [Hmd|]; [|done]. rewrite deliver_one in Hmd.
      destruct (frame_dgram hdr m n) as [d|] eqn:Hd; [|done]. cbn [cat_waits]. rewrite Hd.
      case_bool_decide; [|done]. by split.
  - destruct Hin as [[last Hup] Hr].
    destruct (refines_queue stack_sockets (w_udp w) (one_queue q) 0 (up_udp _ _ _ _ _ _ _ _ Hup)) as (q' & Hq & Hh);
      [cbn; lia|]. cbn in Hq. injection Hq as <-. cbn [cat_step].
    destruct q as [|[src buf] q]; [right; split; [by apply body_waits|done]|left].
    destruct (body_prints w out src buf q Hh) as (s & Hrun & Hrecv). rewrite Hrun. eexists. split.
    { cbn [reads List.filter is_cat length app take]. unfold printed. cbn. by rewrite app_nil_r. }
    split; [cbn; lia|]. assert (Htime : cat_time [OfCat] = turn_time (AppRecv 0 (BUF_SIZE - 1) false)) by done. rewrite Htime.
    destruct (turn_refines mac t (one_queue ((src, buf) :: q)) w Ht (conj (ex_intro _ last Hup) Hr) (AppRecv 0 (BUF_SIZE - 1) false))
      as [(w' & md' & Hturn & Hmd & Hin')|(Hspin & _)]; [cbn; unfold BUF_SIZE; lia| |].
    + cbn [take_turn] in Hturn. unfold on, app_recvfrom in Hturn. rewrite Hrecv, bind_done in Hturn. injection Hturn as <-.
      cbn [md_turn md_step one_queue md_queue lookup list_lookup deref] in Hmd. rewrite !bind_done in Hmd. injection Hmd as <-.
      unfold remaining. cbn [reads List.filter is_cat length incoming flat_map drop app]. by rewrite app_nil_r.
    + cbn [take_turn] in Hspin. unfold on, app_recvfrom in Hspin. by rewrite Hrecv in Hspin.
Qed.

Lemma cat_time_nonneg es : Forall cat_event_ok es → 0 <= cat_time es.
Proof.
  induction 1 as [|e es He _ IH]; cbn [cat_time foldr]; [done|]. fold (cat_time es).
  destruct e as [ev|]; [|lia]. assert (0 <= turn_time ev); [|lia]. apply turn_time_nonneg. by destruct ev.
Qed.

Lemma take_reads q e es : (reads [e] <= length (q ++ incoming [e]))%nat →
  take (reads (e :: es)) (q ++ incoming (e :: es)) =
    take (reads [e]) (q ++ incoming [e]) ++ take (reads es) (remaining q [e] ++ incoming es) ∧
  remaining q (e :: es) = remaining (remaining q [e]) es.
Proof.
  intros Hl. unfold remaining. change (e :: es) with ([e] ++ es). rewrite incoming_app, app_assoc.
  rewrite reads_app, take_drop_split, take_app_le, drop_app_le by done. split; [done|].
  by rewrite <-drop_drop, drop_app_le by done.
Qed.

Lemma cat_run_ends es : ∀ t q w out,
  in_order_md mac t (one_queue q) w → Forall cat_event_ok es → t + cat_time es <= ARP_CACHE_AGE_MAX →
  (∃ w', cat_run es w out = Done (w', out ++ printed (take (reads es) (q ++ incoming es))) ∧
     (reads es <= length (q ++ incoming es))%nat ∧
     in_order_md mac (t + cat_time es) (one_queue (remaining q es)) w') ∨
  (cat_run es w out = Spin ∧ ∃ l e l' w1 out1, es = l ++ e :: l' ∧ cat_run l w out = Done (w1, out1) ∧
     cat_waits (remaining q l) w1 e).
Proof.
  induction es as [|e es IH]; intros t q w out Hin Hok Ht; cbn [cat_run].
  { left. exists w. cbn [reads List.filter length take incoming flat_map cat_time foldr]. unfold printed, remaining. cbn.
    rewrite !app_nil_r, Z.add_0_r. split; [done|]. split; [lia|done]. }
  apply Forall_cons in Hok as [He Hok]. pose proof (cat_time_nonneg es Hok). pose proof (cat_time_nonneg [e] ltac:(by constructor)).
  assert (Htime : cat_time (e :: es) = cat_time [e] + cat_time es) by (unfold cat_time; cbn [foldr]; lia). rewrite Htime in *.
  destruct (cat_step_ends t q w out e Hin ltac:(lia) He) as [(w1 & Hrun & Hl & Hin1)|[Hspin Hw]].
  - rewrite Hrun, bind_done. destruct (take_reads q e es Hl) as [Htake Hrem].
    destruct (IH (t + cat_time [e]) _ w1 (out ++ printed (take (reads [e]) (q ++ incoming [e]))) Hin1 Hok ltac:(lia))
      as [(w' & Hr & Hl' & Hin')|(Hs & l & e' & l' & w2 & out2 & -> & Hl' & Hw)].
    + left. exists w'. rewrite Htake, Hrem, printed_app, app_assoc, Z.add_assoc. split; [done|]. split; [|done].
      assert (Hsum : length (q ++ incoming (e :: es)) = (reads [e] + length (remaining q [e] ++ incoming es))%nat).
      { change (e :: es) with ([e] ++ es). rewrite incoming_app. unfold remaining. rewrite !length_app, length_drop, length_app in *. lia. }
      rewrite Hsum. change (e :: es) with ([e] ++ es). rewrite reads_app. lia.
    + right. split; [done|]. exists (e :: l), e', l', w2, out2. split; [done|]. split; [cbn [cat_run]; by rewrite Hrun|].
      by rewrite (proj2 (take_reads q e l Hl)).
  - right. rewrite Hspin. split; [done|]. exists [], e, es, w, out. split; [done|]. split; [done|].
    unfold remaining. cbn [reads List.filter length incoming flat_map drop]. by rewrite app_nil_r.
Qed.
End run.

(** ** Property *)

(** C15: From the wire to the terminal.  On a stack that has been started, whatever
    well-formed frames arrive (of other hosts, no fragments and no options, as in
    [Safety.good_frame]), however the two threads and applications that send at most
    4072 bytes per call take their turns in between, as long as the periodic tasks
    are given at most twenty hours in all (the first is given the uptime of the
    host), the kernel takes every frame and no other application reads: after [k] rounds of [unetcat] it has written the
    first [k] of the datagrams that came in for 10.0.0.2, port 10, in the order of
    their arrival and each cut to 2047 bytes, and nothing else; the others wait.  Or
    the run comes to an event that has to wait: a round of [unetcat] when there is
    nothing left to read, a fourth datagram that nobody has read, a datagram
    to a full egress queue. *)
Theorem unetcat_prints `{ReliableKernel} mac w es :
  mac_ok mac → boot 0 (initial_world mac (static_sockets stack_sockets)) = Done (None, w) →
  Forall cat_event_ok es → cat_time es <= ARP_CACHE_AGE_MAX →
  (∃ w' rest, cat_run es w [] = Done (w', printed (take (reads es) (incoming es))) ∧
     incoming es = take (reads es) (incoming es) ++ rest ∧ udp_refines stack_sockets (w_udp w') (one_queue rest)) ∨
  (cat_run es w [] = Spin ∧ ∃ l e l' w1 out1, es = l ++ e :: l' ∧ cat_run l w [] = Done (w1, out1) ∧
     cat_waits (drop (reads l) (incoming l)) w1 e).
Proof.
  intros Hmac Hboot Hok Ht. pose proof (boot_in_order_md mac Hmac w Hboot) as Hin.
  destruct (cat_run_ends mac es 0 [] w [] Hin Hok Ht) as [(w' & Hrun & _ & [[last Hup] _])|Hwait]; [left|by right].
  exists w', (drop (reads es) (incoming es)). split; [exact Hrun|]. rewrite take_drop. split; [done|]. apply Hup.
Qed.

(** The three bytes "hi!" from a peer, a tick, and a round of [unetcat]. *)
Definition demo_cat : list cat_event :=
  [OfStack (Frame demo_ether (wire_hdr (peer_ip IP_PROTO_UDP OWN_ADDR 11) 0 ++ demo_datagram ++ repeat 0 20) 31);
   OfStack (Tick 10); OfCat].

Lemma demo_cat_ok : Forall cat_event_ok demo_cat.
Proof.
  constructor; [|repeat constructor; cbn; lia]. apply (good_ip OWN_ADDR demo_ether (peer_ip IP_PROTO_UDP OWN_ADDR 11) 0 11).
  - reflexivity.
  - apply peer_ip_arrives; [unfold IP_PROTO_UDP; lia|unfold OWN_ADDR; lia| |cbn; lia|lia]. apply (bool_decide_unpack _). by vm_compute.
  - lia.
  - cbn. lia.
  - reflexivity.
Qed.

Lemma unetcat_prints_witness :
  printed (take (reads demo_cat) (incoming demo_cat)) = [104; 105; 33] ∧
  ∃ w, @boot accept_all 0 (initial_world mac_a (static_sockets stack_sockets)) = Done (None, w) ∧
    ((∃ w' rest, @cat_run accept_all demo_cat w [] = Done (w', printed (take (reads demo_cat) (incoming demo_cat))) ∧
       incoming demo_cat = take (reads demo_cat) (incoming demo_cat) ++ rest ∧
       udp_refines stack_sockets (w_udp w') (one_queue rest)) ∨
     (@cat_run accept_all demo_cat w [] = Spin ∧ ∃ l e l' w1 out1, demo_cat = l ++ e :: l' ∧
       @cat_run accept_all l w [] = Done (w1, out1) ∧ cat_waits (drop (reads l) (incoming l)) w1 e)).
Proof.
  split; [by vm_compute|]. destruct (@boot_done accept_all accept_all_reliable mac_a mac_a_ok) as (w & Hw & _).
  exists w. split; [exact Hw|]. apply (@unetcat_prints accept_all accept_all_reliable mac_a w demo_cat).
  - apply mac_a_ok.
  - exact Hw.
  - apply demo_cat_ok.
  - cbn. unfold ARP_CACHE_AGE_MAX. lia.
Defined.
