(* ===== verification/LinkerSet.v ===== *)
(** * Linker sets, [include/linker_set.h]

    Protocol handlers and periodic tasks are registered by pointers in a section of
    their own, which every object file contributes to and the linker puts together,
    in the order of the files on its command line ([src/Makefile] takes what
    [wildcard] finds).  Here the loops over such a set run on the section, and the
    order of the files makes no difference. *)

From S2P Require Import Prelude Bytes Checksum IpHeader RBTree RBIndex RBMap Rib QueueR Socket.
From S2P Require Import Udp Tcp Icmp IpDefer Ether Arp Fragment World Output IpFragments.
From S2P Require Import Config IpSend Input Stack Safety.
From Stdlib Require Import Permutation.

#[local] Open Scope Z_scope.

(** ** The section of a set *)

(** The address of [__start_set_]..., and the words of the section: pointers, which
    stand for what they point to; [None] is NULL. *)
Record linker_set (A : Type) : Type := LinkerSet {
  start_set : Z;
  words : list (option A)
}.

Arguments LinkerSet {A} _ _.
Arguments start_set {A} _.
Arguments words {A} _.

(** The size of a pointer. *)
Definition PTR : Z := 8.

Section set.
Context {A : Type}.
Implicit Types (s : linker_set A).

(** [SET_ENTRY] and the others in an object file; the linker's output. *)
Definition MAKE_SET (entries : list A) : list (option A) := Some <$> entries.

Definition link (start : Z) (objects : list (list A)) : linker_set A :=
  LinkerSet start (concat (MAKE_SET <$> objects)).

Definition SET_BEGIN s : Z := start_set s.
Definition SET_LIMIT s : Z := start_set s + PTR * length (words s).

(** [*pvar], inside of the section. *)
Definition set_load s (pvar : Z) : outcome (option A) :=
  if bool_decide (SET_BEGIN s <= pvar < SET_LIMIT s) && bool_decide ((pvar - SET_BEGIN s) mod PTR = 0)
  then deref (words s !! Z.to_nat ((pvar - SET_BEGIN s) / PTR)) else Fault.

Definition SET_ITEM s (i : Z) : outcome (option A) := set_load s (SET_BEGIN s + PTR * i).

Definition SET_COUNT s : Z := (SET_LIMIT s - SET_BEGIN s) / PTR.

(** [SET_FOREACH]: the body gets the word and a state; [inl] stops the loop. *)
Fixpoint SET_FOREACH {S R : Type} (fuel : nat) s (pvar : Z) (body : option A → S → outcome (R + S)) (st : S)
    : outcome (R + S) :=
  match fuel with
  | O => Spin
  | Datatypes.S fuel =>
      if bool_decide (pvar < SET_LIMIT s) then
        p ← set_load s pvar;
        r ← body p st;
        match r with
        | inl r => Done (inl r)
        | inr st => SET_FOREACH fuel s (pvar + PTR) body st
        end
      else Done (inr st)
  end.

Definition foreach {S R : Type} s (body : option A → S → outcome (R + S)) (st : S) : outcome (R + S) :=
  SET_FOREACH (Datatypes.S (length (words s))) s (SET_BEGIN s) body st.
End set.

(** ** The loops over the sets *)

(** [ip_input] and [ether_input]: [proto] is not initialised, NULL after an entry of
    another protocol. *)
Definition find_proto {A : Type} (s : linker_set (Z * A)) (id : Z) : outcome (option A) :=
  r ← foreach s (fun p (_ : outcome (option A)) =>
        '(proto_id, fn) ← deref p;
        Done (if bool_decide (proto_id = id) then inl fn else inr (Done None))) Fault;
  match r with
  | inl fn => Done (Some fn)
  | inr proto => proto
  end.

(** [run_periodic_tasks] *)
Definition run_set_tasks (s : linker_set (Z → M unit)) (delta_time : Z) : M unit := fun w =>
  r ← foreach s (fun p w =>
        match p with
        | Some task => '(_, w) ← task delta_time w; Done (inr w)
        | None => Done (inr w)
        end) w;
  match r with
  | inl r => Done (match r : Empty_set with end)
  | inr w => Done (tt, w)
  end.

(** The object files with entries. *)
Section kernel.
Context `{Kernel}.

Definition icmp_o : list (Z * ip_handler) :=
  [(IP_PROTO_ICMP, fun _ payload bsize => lift (icmp_input payload bsize))].
Definition tcp_o : list (Z * ip_handler) :=
  [(IP_PROTO_TCP, fun ip payload bsize => on w_tcp set_tcp (fun t => tcp_input t ip payload bsize))].
Definition udp_o : list (Z * ip_handler) :=
  [(IP_PROTO_UDP, fun ip payload bsize => on w_udp set_udp (fun u => udp_input u ip payload bsize))].

Definition arp_o : list (Z * ether_handler) := [(ETHER_PROTO_ARP, fun _ payload bsize => arp_input payload bsize)].
Definition ip_o : list (Z * ether_handler) :=
  [(ETHER_PROTO_IPV4, fun hdr payload bsize => ip_input 2 (Some hdr) payload bsize)].

Definition arp_tasks_o : list (Z → M unit) :=
  [fun delta_time => modify (fun w => set_arp (arp_cache_update (w_arp w) delta_time) w)].
Definition ip_defer_tasks_o : list (Z → M unit) := [ip_defer_handler].
End kernel.

(** ** The loop visits every entry once, in order *)
Section lemmas.
Context {A : Type}.
Implicit Types (s : linker_set A).

Lemma load_word s (i : nat) (p : option A) : words s !! i = Some p → set_load s (SET_BEGIN s + PTR * i) = Done p.
Proof.
  intros Hp. apply lookup_lt_Some in Hp as Hi. unfold set_load, SET_LIMIT, SET_BEGIN, PTR.
  replace (start_set s + 8 * i - start_set s) with (i * 8) by lia.
  rewrite Z.mod_mul, Z.div_mul, Nat2Z.id by lia. rewrite !bool_decide_true by lia. cbn [andb]. by rewrite Hp.
Qed.

Fixpoint each {S R : Type} (body : option A → S → outcome (R + S)) (l : list (option A)) (st : S) : outcome (R + S) :=
  match l with
  | [] => Done (inr st)
  | p :: l => r ← body p st; match r with inl r => Done (inl r) | inr st => each body l st end
  end.

Lemma foreach_each {S R : Type} s (body : option A → S → outcome (R + S)) (st : S) :
  foreach s body st = each body (words s) st.
Proof.
  unfold foreach. enough (Hg : ∀ n (i : nat) st, (length (words s) - i < n)%nat → (i <= length (words s))%nat →
    SET_FOREACH n s (SET_BEGIN s + PTR * i) body st = each body (drop i (words s)) st).
  { rewrite <-(drop_0 (words s)) at 2. rewrite <-Hg with (n := Datatypes.S (length (words s))) by lia.
    by rewrite Z.mul_0_r, Z.add_0_r. }
  induction n as [|n IH]; intros i st0 Hn Hi; [lia|]. cbn [SET_FOREACH].
  destruct (decide (i = length (words s))) as [->|Hne].
  - rewrite bool_decide_false by (unfold SET_LIMIT, SET_BEGIN, PTR; lia). by rewrite drop_ge by lia.
  - destruct (lookup_lt_is_Some_2 (words s) i ltac:(lia)) as [p Hp].
    rewrite bool_decide_true by (unfold SET_LIMIT, SET_BEGIN, PTR; lia).
    rewrite (load_word _ _ _ Hp), bind_done, (drop_S _ _ _ Hp). cbn [each].
    destruct (body p st0) as [[r|st1]| |]; [done| |done|done]. rewrite !bind_done.
    rewrite <-IH by lia. f_equal. unfold PTR. lia.
Qed.

Lemma link_words start (objects : list (list A)) : words (link start objects) = Some <$> concat objects.
Proof.
  unfold link, MAKE_SET. cbn [words]. induction objects as [|o l IH]; [done|]. cbn. by rewrite IH, fmap_app.
Qed.

Lemma link_count start (objects : list (list A)) : SET_COUNT (link start objects) = length (concat objects).
Proof.
  unfold SET_COUNT, SET_LIMIT, SET_BEGIN, PTR. rewrite link_words, length_fmap.
  replace (_ + 8 * _ - _) with (length (concat objects) * 8) by lia. by apply Z.div_mul.
Qed.

Lemma link_item start (objects : list (list A)) (i : nat) (a : A) :
  concat objects !! i = Some a → SET_ITEM (link start objects) i = Done (Some a).
Proof. intros Ha. apply load_word. by rewrite link_words, list_lookup_fmap, Ha. Qed.

Lemma concat_perm (l k : list (list A)) : l ≡ₚ k → concat l ≡ₚ concat k.
Proof.
  induction 1 as [|x l k _ IH|x y l|l1 l2 l3 _ IH1 _ IH2]; cbn [concat]; [done|by rewrite IH| |by etrans].
  by rewrite !app_assoc, (Permutation_app_comm x).
Qed.

End lemmas.

Section handlers.
Context {A : Type}.

Lemma find_handler_perm id (l k : list (Z * A)) :
  l ≡ₚ k → NoDup l.*1 → find_handler id l = find_handler id k.
Proof.
  induction 1 as [|[x fn] l k _ IH|[x fn] [y fn'] l|l1 l2 l3 H12 IH1 _ IH2]; intros Hn; cbn [find_handler] in *.
  - done.
  - apply NoDup_cons in Hn as [_ Hn]. by rewrite IH.
  - apply NoDup_cons in Hn as [Hx _]. case_tests; subst; [|done..]. destruct Hx. left.
  - rewrite IH1 by done. apply IH2. by rewrite <-H12.
Qed.

Lemma find_proto_linked start (objects : list (list (Z * A))) id : concat objects ≠ [] →
  find_proto (link start objects) id = Done (find_handler id (concat objects)).
Proof.
  intros Hne. unfold find_proto. rewrite foreach_each, link_words.
  set (body := fun _ _ => _).
  assert (Hg : ∀ (l : list (Z * A)) (proto : outcome (option A)), l ≠ [] ∨ proto = Done None →
    (r ← each body (Some <$> l) proto; match r with inl fn => Done (Some fn) | inr proto => proto end) = Done (find_handler id l)).
  { induction l as [|[x fn] l IH]; intros proto Hp; cbn [fmap list_fmap each find_handler].
    - by destruct Hp as [Hp|Hp]; [|rewrite Hp].
    - change (body (Some (x, fn)) proto) with (Done (A := A + outcome (option A)) (if bool_decide (x = id) then inl fn else inr (Done None))).
      rewrite bind_done. case_bool_decide; [done|]. apply IH. by right. }
  apply Hg. by left.
Qed.
End handlers.

Lemma run_set_tasks_linked start (objects : list (list (Z → M unit))) delta w :
  run_set_tasks (link start objects) delta w = run_tasks (concat objects) delta w.
Proof.
  unfold run_set_tasks. rewrite foreach_each, link_words. set (body := fun _ _ => _).
  revert w. induction (concat objects) as [|task l IH]; intros w; cbn [fmap list_fmap each run_tasks]; [done|].
  change (body (Some task) w) with ('(_, w) ← task delta w; Done (inr (A := Empty_set) w)).
  unfold mbind at 4, M_bind. destruct (task delta w) as [[[] w1]| |]; [|done..]. apply IH.
Qed.

(** ** Property *)
Section order.
Context `{ReliableKernel}.

(** The tasks in the other order than that of the model. *)
Lemma tasks_reversed mac own mask addrs elapsed last md w delta :
  stack_up mac own mask elapsed last addrs md w → 0 <= delta → elapsed <= ARP_CACHE_AGE_MAX →
  ∃ w', run_tasks [ip_defer_handler; fun d => modify (fun w => set_arp (arp_cache_update (w_arp w) d) w)] delta w = Done (tt, w') ∧
    stack_up mac own mask (elapsed + delta) last addrs md w' ∧ defer_holds (w_defer w') [].
Proof.
  intros Hup Hd He.
  destruct Hup as [Hcf Hu Ht (ps & Hdf & Hps) Hz].
  destruct (handler_flushes mac own mask elapsed last w ps delta Hcf Hdf Hz Hps)
    as (w1 & Hfl & (E1 & E2 & E3 & E4 & E5 & _) & Hd' & Hz' & _).
  set (w2 := set_arp (arp_cache_update (w_arp w1) delta) w1).
  assert (Hcf2 : configured mac own mask (elapsed + delta) last w2).
  { assert (Hcf1 : configured mac own mask elapsed last w1) by (by eapply configured_ext).
    destruct Hcf1. split; try done; [lia|]. by apply tick_spec. }
  assert (Hud : w_udp w2 = w_udp w ∧ w_tcp w2 = w_tcp w ∧ w_defer w2 = w_defer w1) by (split_and!; [exact E4|exact E5|reflexivity]).
  assert (Hrun : run_tasks [ip_defer_handler; fun d => modify (fun w => set_arp (arp_cache_update (w_arp w) d) w)] delta w = Done (tt, w2)).
  { cbn [run_tasks]. by rewrite (M_bind_done _ _ _ _ _ Hfl), M_bind_modify. }
  clearbody w2. destruct Hud as (U & T & D). exists w2. split; [exact Hrun|]. rewrite D. split; [|exact Hd'].
  split; [exact Hcf2|by rewrite U|by rewrite T|exists []; by rewrite D|by rewrite D].
Qed.

Lemma run_periodic_tasks_eq delta w : run_periodic_tasks delta w = run_tasks periodic_tasks delta w.
Proof. reflexivity. Qed.

(** Tasks in any order leave the stack in order. *)
Lemma tasks_any_order mac own mask addrs elapsed last md w delta tasks :
  stack_up mac own mask elapsed last addrs md w → 0 <= delta → elapsed <= ARP_CACHE_AGE_MAX →
  tasks ≡ₚ periodic_tasks →
  ∃ w', run_tasks tasks delta w = Done (tt, w') ∧
    stack_up mac own mask (elapsed + delta) last addrs md w' ∧ defer_holds (w_defer w') [].
Proof.
  intros Hup Hd He Hp. symmetry in Hp.
  apply Permutation_length_2_inv in Hp as [->| ->]; [|by apply (tasks_reversed _ _ _ _ _ _ md)].
  change [_; _] with periodic_tasks. rewrite <-run_periodic_tasks_eq.
  exact (tick_keeps mac own mask addrs elapsed last md w Hup delta Hd He).
Qed.


(** C39: The order of the object files does not matter.  Whatever order the linker
    puts the sections of the files together in, and wherever it places them, the two
    loops over the protocol handlers find for every protocol the handler the input
    path of the model uses, or none; and a run of the periodic tasks returns with
    the stack in order. *)
Theorem link_order_irrelevant start ip_objects ether_objects task_objects :
  ip_objects ≡ₚ [icmp_o; tcp_o; udp_o] → ether_objects ≡ₚ [arp_o; ip_o] →
  task_objects ≡ₚ [arp_tasks_o; ip_defer_tasks_o] →
  (∀ id, find_proto (link start ip_objects) id = Done (find_handler id ip_proto_handlers)) ∧
  (∀ id, find_proto (link start ether_objects) id = Done (find_handler id ether_proto_handlers)) ∧
  SET_COUNT (link start task_objects) = 2 ∧
  (∀ mac own mask addrs elapsed last md w delta,
     stack_up mac own mask elapsed last addrs md w → 0 <= delta → elapsed <= ARP_CACHE_AGE_MAX →
     ∃ w', run_set_tasks (link start task_objects) delta w = Done (tt, w') ∧
       stack_up mac own mask (elapsed + delta) last addrs md w').
Proof.
  intros Hip%concat_perm Het%concat_perm Htk%concat_perm. split_and!.
  - intros id. rewrite find_proto_linked; [|intros E; rewrite E in Hip; by apply Permutation_nil_cons in Hip].
    f_equal. symmetry. apply find_handler_perm; [by symmetry|]. apply (bool_decide_unpack _). reflexivity.
  - intros id. rewrite find_proto_linked; [|intros E; rewrite E in Het; by apply Permutation_nil_cons in Het].
    f_equal. symmetry. apply find_handler_perm; [by symmetry|]. apply (bool_decide_unpack _). reflexivity.
  - rewrite link_count. by rewrite (Permutation_length Htk).
  - intros mac own mask addrs elapsed last md w delta Hup Hd He.
    destruct (tasks_any_order mac own mask addrs elapsed last md w delta _ Hup Hd He Htk) as (w' & Hrun & Hup' & _).
    exists w'. split; [|done]. by rewrite run_set_tasks_linked.
Qed.
End order.

Lemma link_order_irrelevant_witness :
  [@udp_o; @icmp_o; @tcp_o] ≡ₚ [@icmp_o; @tcp_o; @udp_o] ∧
  find_proto (link 4096 [@udp_o; @icmp_o; @tcp_o]) IP_PROTO_ICMP = Done (find_handler IP_PROTO_ICMP ip_proto_handlers).
Proof.
  assert (Hp : [@udp_o; @icmp_o; @tcp_o] ≡ₚ [@icmp_o; @tcp_o; @udp_o]).
  { change ([udp_o] ++ [icmp_o; tcp_o] ≡ₚ [icmp_o; tcp_o] ++ [udp_o]). apply Permutation_app_comm. }
  split; [exact Hp|].
  assert (Ho := @link_order_irrelevant accept_all accept_all_reliable 4096 [@udp_o; @icmp_o; @tcp_o]
    [@arp_o accept_all; @ip_o accept_all] [@arp_tasks_o; @ip_defer_tasks_o accept_all] Hp (Permutation_refl _) (Permutation_refl _)).
  exact (proj1 Ho IP_PROTO_ICMP).
Defined.
